(* ===== verification/_CoqProject ===== *)
-Q . S2P
Prelude.v
Lts.v
Arch.v
Eva.v
Striped.v
Console.v
Spmd.v
SpmdLogic.v
StartUp.v
Prbs.v
MemTests.v
Printf.v
Vsprintf.v
Atomics.v
Mutex.v
Barrier.v
TileBarrier.v
CppBarrier.v
AmoaddBarrier.v
ChainedCore.v
CudaRuntime.v
PodBarrier.v
TokenQueue.v
McsMutex.v
HwBarrier.v
ChaseData.v
Network.v
GroupTests.v
SmallTests.v
GbpCodec.v
SpmLoader.v
Crc32.v
Quicksort.v
