(* ===== verification/Prelude.v ===== *)
(** * A verification library for the software of the manycore repository

    The repository holds the RTL of a tiled manycore with a belief-propagation core, and, under
    [software/], the C that runs on its tiles.  This library models that C: the headers and
    routines of [software/bsg_manycore_lib] and the self-checking programs of [software/spmd]
    that are built on them; and, of the benches of the core, the code that lays out its memory.
    A tile is an RV32 core with a local data memory (DMEM); tiles reach
    each other's memories, DRAM and the host through pointers whose upper bits name the target.
    Programs are SPMD: every tile of a group runs the same [main] with its own coordinates.

    ** Parts, files and sources

    - [Prelude]: 32-bit and 16-bit integers as [Z] with their wrap-around, the C operators, the
      hint database [word], and list lemmas.
    - [Lts]: interleaving of tiles, one memory access per step ([Class Lts]), reachability, runs,
      possible termination ([can_reach]), and sums over the tiles of a group.  Every concurrent
      component instantiates the class.
    - [Arch], [Eva]: the pointer macros of [bsg_manycore_arch.h] and [bsg_manycore.h], and the
      decoder they are made for ([v/bsg_manycore_eva_to_npa.sv] with
      [v/bsg_manycore_dram_hash_function.sv]).  Theorems: each pointer decodes to the tile and
      word it was built from, kinds of pointers do not alias, shared arrays and DRAM words do
      not collide.
    - [Console]: the I/O macros of [bsg_manycore.h] by which a tile talks to the host.
    - [Spmd], [SpmdLogic]: the language in which the test programs are written down (a tree of
      loads, stores, atomics, lock acquisitions, host packets and barrier calls), its interleaved
      semantics, and a logic for it: a [plan] says who may use which word in which phase between
      two barriers, [safe] runs one tile against the plan, and [spmd_correct] and
      [spmd_completes] turn one derivation per tile into facts about every interleaving.
      [test_passes] is what is proved of a test: no failure packet and no undefined access in any
      interleaving, the tiles that ought to report success can only do so, and from every
      reachable state the program runs to its end; [test_prints] says instead which packets each
      tile sends.  [write_plan] makes the plan of a program from the words each tile writes in
      each phase.  The twelve wrappers of
      [bsg_manycore_atomic.h] are here as well.
    - [Mutex], [McsMutex], [Barrier], [TileBarrier], [TokenQueue]: the synchronisation library
      ([bsg_mutex.h], [bsg_mcs_mutex.hpp], [bsg_barrier.h], [bsg_tile_group_barrier.h],
      [bsg_token_queue.h]), each a program counter per tile and one step per access.  Theorems:
      mutual exclusion, no lost update, no tile leaves a barrier before all have entered it,
      first-in first-out delivery without overrun, and progress for each.
    - [CppBarrier]: the C++ barrier [bsg_tile_group_barrier.hpp], whose steps are shown to be
      steps of [TileBarrier], and so to synchronise alike.
    - [AmoaddBarrier]: the sense-reversing barrier [bsg_barrier_amoadd.S], which
      [bsg_cuda_lite_barrier.h] and most test programs call.  Theorems: it synchronises, every run
      of it is finite and ends with all tiles outside; with context switches, which its comment
      claims to support, it lets a tile out too early.
    - [PodBarrier]: the barrier of the program [pod_barrier], with its joins and the blind wait of
      [bsg_manycore.h].  Theorems: it synchronises and cannot deadlock if the root makes its
      stores before a tile begins another call, and an interleaving in which the root is late and
      it does not synchronise.
    - [ChainedCore]: the program [bsg_chained_core], a pipeline of tiles with double buffers.
      Theorems: no vector is torn or skipped, what the host receives, and progress.
    - [CudaRuntime]: the loop [bsg_cuda_lite_runtime.h] in which tiles wait for kernels.  Theorems:
      a kernel finds its arguments where the calling convention puts them; every launch is called
      exactly once if the host stores to a tile only while it waits; and the finish signal can
      precede the end of the kernel on other tiles.
    - [Striped]: arrays over the local memories of a group: [bsg_striped_array.hpp],
      [bsg_group_strider.hpp] with the test [strider], and the run-time of the compiler pass,
      [bsg_tilegroup.h], on a memory of bytes in which a word may have several addresses.  Theorems: placement without overlap, strides that
      stay in the group, which bytes the stores and copies write and which they leave alone; and
      that the pointers of the pass swap coordinates.
    - [StartUp]: the call every program begins with, [bsg_set_tile_x_y]: the group's tiles learn
      their coordinates from the tile the loader started, through each other's DMEM.  Theorems:
      whoever has finished has his own coordinates, and all finish.  The programs of the later
      files start from the tile id this computes.
    - [HwBarrier]: the configuration words of the barrier network
      ([bsg_hw_barrier_config_init.h]) describe a spanning tree.
    - [Printf], [Vsprintf]: the formatter of [bsg_printf.c]; [ee_vsprintf] refines a
      specification that renders a list of conversions item by item.
    - [Prbs], [MemTests], [Atomics], [Network] (data in [ChaseData]): programs of
      [software/spmd], whole [main]s after the common start-up, each proved to report success in
      every interleaving on every group its comments allow; but for [hb_mc_04_noc_interpod], which
      does so when one pod runs it and can fail when its Makefile launches it on several.
    - [GroupTests]: programs that use barriers and the memories of a group.  Most of them print
      instead of testing, so what is proved is what they print.
    - [SmallTests]: programs in which one tile computes ([nprimes], [fib], ...) or all only meet at
      barriers.  Theorems: what they compute and print.
    - [Crc32], [Quicksort]: the sequential programs [crc32], [remote_load_crc], [quicksort] and
      [quicksort_by4].
    - [GbpCodec]: how a belief-propagation message is laid out in memory, from the test benches of
      the core ([nocbp_verilator/tests/common]).  Theorems: what is written for a message is read
      back as that message, and exactly which lengths and addresses are rejected.
    - [SpmLoader]: how the same benches fill the banks of the core's scratch-pad: the memory image,
      the words that describe a node, the minimal graph, the hex files and their reading by
      [$readmemh].  Theorems: a node is read back from its words, and the bank files hold the
      memory, every word in its bank and row.

    [Spmd] replaces a lock and a barrier by their specifications: [Acquire] blocks until the word
    is free and takes it in one step, [Sync] lets nobody go on before everybody has arrived.
    [Mutex], [Barrier], [TileBarrier] and [AmoaddBarrier] prove those two facts, access by access,
    of the code that implements them.

    ** Conventions

    Steps are sequentially consistent: the model has one access at a time, in program order.  The
    code orders its stores with fences and [.aq]/[.rl] annotations, and a weaker memory is not
    modelled.  [lr]/[lr.aq] is modelled as the comments of [bsg_mutex.h] describe it: [lr]
    reserves a word, a store to it clears the reservation, [lr.aq] stalls until then.

    C loops are structural where the bounds are known; otherwise they have fuel with a theorem
    that it suffices: the digits of a 32-bit number need at most 32 rounds, a format string at
    most one round per character, [quicksort] at most one level per element, the two list walks
    1024 and 2048 rounds.  A program whose fuel runs out waits for ever in the model, so
    [test_passes] excludes it.

    [PodBarrier] needs a restriction on the interleavings (the root's stores come before the next
    calls), without which its code does not synchronise; the restriction is a definition,
    [prompt], and the claim without it is disproved.

    History (counters of calls, of elements sent) is marked as such where it is declared; no
    modelled access reads it.

    ** Parameters

    The IPOLY bank hash is in a submodule that is not in the tree; it is an argument of the
    decoder, with the documented property that it permutes the banks.  The shifts that
    [bsg_tilegroup.h] builds its pointers with are macros no file defines; they are arguments, and
    the theorem about its pointers takes the layout its comment draws.  The machine dimensions
    ([config], [eva_unit], the ruche factor) are arguments with the range checks of
    [bsg_manycore_arch.h] as hypotheses.

    ** Not modelled, and why

    - The RTL ([v/], [design/]) other than the address decoder, and its Verilator benches
      ([nocbp_verilator/]) other than the codec and the loader they share: hardware description,
      and C++ that drives the pins of the simulated design, which is generated from it.
    - Assembly tests, interrupt handlers, CSR and power tests, and start-up code: instruction
      behaviour, with no C-level logic.
    - Floating-point kernels ([fft], [float_*], [kmean], [l2_norm], ...): their results depend on
      the rounding of the floating-point unit; and the float conversions of [bsg_printf.c],
      compiled out by [HAS_FLOAT].
    - The LLVM pass, the Python tools, build files and vendored benchmarks ([coremark], [beebs],
      [specint2000]).
    - Gather and scatter, the example kernels of cuda-lite and the tests that only exercise those.
      The host that launches kernels is not in the repository; when it stores is a parameter.
    - Delays ([bsg_wait], busy loops), whose only effect is time. *)

From Stdlib Require Export ZArith Lia.
From stdpp Require Export prelude functions.
From stdpp Require Export list.
Local Open Scope Z_scope.

(** ** Machine integers

    The code runs on RV32 (ILP32): [int] and [long] are 32-bit two's complement,
    [unsigned] and pointers are 32-bit.  Values are kept as [Z]; every operation that
    can leave the range is wrapped by the function of its C type. *)

(** [unsigned int] / [unsigned long] / a pointer value. *)
Definition u32 (z : Z) : Z := z mod 4294967296.

(** [int] / [long]. *)
Definition i32 (z : Z) : Z := (z + 2147483648) mod 4294967296 - 2147483648.

(** [unsigned char]. *)
Definition u8 (z : Z) : Z := z mod 256.

(** [unsigned short]. *)
Definition u16 (z : Z) : Z := z mod 65536.

(** [short]. *)
Definition i16 (z : Z) : Z := (z + 32768) mod 65536 - 32768.

Definition is_i32 (z : Z) : Prop := -2147483648 <= z < 2147483648.

Definition is_u32 (z : Z) : Prop := 0 <= z < 4294967296.

Definition is_i16 (z : Z) : Prop := -32768 <= z < 32768.

(** A flag word [w] has (one of) the bits of [m]: the C test [w & m]. *)
Definition has (w m : Z) : bool := negb (Z.land w m =? 0).

(** ** C operators

    [a +i b] is [int] addition, [a +u b] [unsigned] addition, and so on. *)

Declare Scope c_scope.
Delimit Scope c_scope with c.
Notation "a +i b" := (i32 (a + b)) (at level 50, left associativity) : c_scope.
Notation "a -i b" := (i32 (a - b)) (at level 50, left associativity) : c_scope.
Notation "a *i b" := (i32 (a * b)) (at level 40, left associativity) : c_scope.
Notation "a +u b" := (u32 (a + b)) (at level 50, left associativity) : c_scope.
Notation "a -u b" := (u32 (a - b)) (at level 50, left associativity) : c_scope.
Notation "a *u b" := (u32 (a * b)) (at level 40, left associativity) : c_scope.
Notation "a <<i b" := (i32 (Z.shiftl a b)) (at level 42, left associativity) : c_scope.
Notation "a <<u b" := (u32 (Z.shiftl a b)) (at level 42, left associativity) : c_scope.
Notation "a '.|' b" := (Z.lor a b) (at level 45, left associativity) : c_scope.
Notation "a '.&' b" := (Z.land a b) (at level 43, left associativity) : c_scope.

(** ** Tactics *)

(** Linear arithmetic through the machine-integer wrappers. *)
Ltac word_lia :=
  unfold is_i32, is_u32, is_i16, i32, u32, i16, u16, u8 in *;
  Z.to_euclidean_division_equations; lia.

(** Case analysis on every boolean comparison of the goal. *)
Ltac bcase :=
  repeat match goal with
  | |- context [?a =? ?b] => destruct (Z.eqb_spec a b)
  | |- context [?a <? ?b] => destruct (Z.ltb_spec a b)
  | |- context [?a <=? ?b] => destruct (Z.leb_spec a b)
  | |- context [?a >? ?b] => rewrite (Z.gtb_ltb a b)
  | |- context [?a >=? ?b] => rewrite (Z.geb_leb a b)
  end.

(** Turns boolean tests among the hypotheses into propositions. *)
Ltac bprop :=
  repeat match goal with
  | H : (_ && _) = true |- _ => apply andb_true_iff in H as [??]
  | H : (_ || _) = false |- _ => apply orb_false_iff in H as [??]
  | H : (_ && _) = false |- _ => apply andb_false_iff in H
  | H : (_ || _) = true |- _ => apply orb_true_iff in H
  | H : negb _ = true |- _ => apply negb_true_iff in H
  | H : negb _ = false |- _ => apply negb_false_iff in H
  | H : (_ =? _) = true |- _ => apply Z.eqb_eq in H
  | H : (_ =? _) = false |- _ => apply Z.eqb_neq in H
  | H : (_ <? _) = true |- _ => apply Z.ltb_lt in H
  | H : (_ <? _) = false |- _ => apply Z.ltb_ge in H
  | H : (_ <=? _) = true |- _ => apply Z.leb_le in H
  | H : (_ <=? _) = false |- _ => apply Z.leb_gt in H
  end.

(** ** Facts on machine integers *)

Lemma i32_id z : is_i32 z -> i32 z = z.
Proof. word_lia. Qed.

Lemma u32_id z : is_u32 z -> u32 z = z.
Proof. word_lia. Qed.

Lemma u8_id z : 0 <= z < 256 -> u8 z = z.
Proof. word_lia. Qed.

Lemma i32_range z : is_i32 (i32 z).
Proof. word_lia. Qed.

Lemma u32_range z : is_u32 (u32 z).
Proof. word_lia. Qed.

Lemma i16_range z : is_i16 (i16 z).
Proof. word_lia. Qed.

Lemma u32_i32 z : u32 (i32 z) = u32 z.
Proof. word_lia. Qed.

Lemma i32_u32 z : i32 (u32 z) = i32 z.
Proof. word_lia. Qed.

(** Wrapping is a ring congruence: an inner wrap under an outer one is redundant. *)
Lemma i32_add_l a b : i32 (i32 a + b) = i32 (a + b).
Proof. word_lia. Qed.

Lemma i32_add_r a b : i32 (a + i32 b) = i32 (a + b).
Proof. word_lia. Qed.

Lemma i32_sub_l a b : i32 (i32 a - b) = i32 (a - b).
Proof. word_lia. Qed.

Lemma i32_sub_r a b : i32 (a - i32 b) = i32 (a - b).
Proof. word_lia. Qed.

Lemma u32_add_l a b : u32 (u32 a + b) = u32 (a + b).
Proof. word_lia. Qed.

Lemma u32_add_r a b : u32 (a + u32 b) = u32 (a + b).
Proof. word_lia. Qed.

Lemma i32_shift z m : i32 (z + m * 4294967296) = i32 z.
Proof. unfold i32. rewrite <-Z.add_assoc, (Z.add_comm (_ * _)), Z.add_assoc, Z.mod_add; lia. Qed.

Lemma i32_mul_l a b : i32 (i32 a * b) = i32 (a * b).
Proof.
  assert (exists m, i32 a = a + m * 4294967296) as [m ->].
  { exists (- ((a + 2147483648) / 4294967296)). unfold i32.
    pose proof (Z.div_mod (a + 2147483648) 4294967296 ltac:(lia)). lia. }
  rewrite Z.mul_add_distr_r, <-(i32_shift (a * b) (m * b)). f_equal. lia.
Qed.

(** Two values that agree modulo 2^32 and lie less than 2^32 apart are equal. *)
Lemma i32_inj_near a b : i32 a = i32 b -> Z.abs (a - b) < 4294967296 -> a = b.
Proof. word_lia. Qed.

Create HintDb word.
Create Rewrite HintDb word.
#[export] Hint Resolve i32_range u32_range i16_range : word.
#[export] Hint Rewrite i32_add_l i32_add_r i32_sub_l i32_sub_r u32_add_l u32_add_r
  u32_i32 i32_u32 : word.

(** Removes the wrappers of values that are provably in range. *)
Ltac unwrap :=
  repeat match goal with
  | |- context [i32 ?x] => rewrite (i32_id x) by (unfold is_i32 in *; lia)
  | |- context [u32 ?x] => rewrite (u32_id x) by (unfold is_u32 in *; lia)
  end.

(** ** Bit fields

    A value placed above [n] bits and combined by [|] with a value below them. *)

Lemma testbit_small a n i : 0 <= a < 2 ^ n -> n <= i -> Z.testbit a i = false.
Proof.
  intros Ha Hi. destruct (Z.lt_ge_cases n 0) as [Hn|Hn].
  { rewrite Z.pow_neg_r in Ha by done. lia. }
  rewrite <-(Z.mod_small a (2 ^ n)) by done. by apply Z.mod_pow2_bits_high.
Qed.

Lemma land_shiftl_small b a n : 0 <= n -> 0 <= a < 2 ^ n -> Z.land (Z.shiftl b n) a = 0.
Proof.
  intros Hn Ha. apply Z.bits_inj'. intros i Hi.
  rewrite Z.land_spec, Z.bits_0. destruct (Z.lt_ge_cases i n).
  - by rewrite Z.shiftl_spec_low.
  - by rewrite (testbit_small a n), andb_false_r.
Qed.

Lemma lor_shiftl_add b a n :
  0 <= n -> 0 <= a < 2 ^ n -> Z.lor (Z.shiftl b n) a = b * 2 ^ n + a.
Proof.
  intros Hn Ha. pose proof (land_shiftl_small b a n Hn Ha) as E.
  rewrite <-Z.lxor_lor, <-Z.add_nocarry_lxor by done.
  by rewrite Z.shiftl_mul_pow2.
Qed.

(** A bitwise operation on [n]-bit values gives an [n]-bit value. *)
Lemma bits_small z n :
  0 <= n -> 0 <= z -> (forall i, n <= i -> Z.testbit z i = false) -> z < 2 ^ n.
Proof.
  intros Hn Hz Hb. destruct (Z.lt_ge_cases z (2 ^ n)) as [|Hge]; [done|].
  assert (0 < 2 ^ n) by lia. assert (0 < z) by lia.
  apply Z.log2_le_pow2 in Hge; [|lia]. specialize (Hb _ Hge).
  by rewrite Z.bit_log2 in Hb.
Qed.

Lemma lxor_small a b n :
  0 <= n -> 0 <= a < 2 ^ n -> 0 <= b < 2 ^ n -> 0 <= Z.lxor a b < 2 ^ n.
Proof.
  intros Hn Ha Hb. split; [apply Z.lxor_nonneg; lia|].
  apply bits_small; [done|apply Z.lxor_nonneg; lia|].
  intros i Hi. by rewrite Z.lxor_spec, (testbit_small a n), (testbit_small b n).
Qed.

(** The [w]-bit field of [z] at bit [lo]: the hardware slice [z[lo +: w]]. *)
Definition slice (z lo w : Z) : Z := Z.land (Z.shiftr z lo) (Z.ones w).

Lemma slice_div_mod z lo w :
  0 <= lo -> 0 <= w -> slice z lo w = (z / 2 ^ lo) mod 2 ^ w.
Proof. intros ??. unfold slice. by rewrite Z.land_ones, Z.shiftr_div_pow2. Qed.

(** Truncation to [w] bits, and concatenation of [hi] above a [w]-bit [lo]. *)
Definition trunc (w z : Z) : Z := z mod 2 ^ w.

Definition concat (w hi lo : Z) : Z := hi * 2 ^ w + lo.

(** Evaluates the closed powers of two of the goal. *)
Ltac norm_pow2 :=
  repeat match goal with
  | |- context [2 ^ Zpos ?n] =>
      let v := eval vm_compute in (2 ^ Zpos n) in change (2 ^ Zpos n) with v
  end; change (2 ^ 0) with 1.

(** Decides an equation about constant slices of a sum of disjoint fields. *)
Ltac slice_lia :=
  unfold trunc, concat;
  rewrite ?slice_div_mod by lia; norm_pow2; Z.to_euclidean_division_equations; lia.

Lemma trunc_small w z : 0 <= z < 2 ^ w -> trunc w z = z.
Proof. intros. by apply Z.mod_small. Qed.

(** ** Nested loops over a rectangle of tiles

    The coordinates in the order of [for (i = x0; i < x0 + nx; i++) for (j = y0; ...)]. *)

Definition grid (x0 nx y0 ny : Z) : list (Z * Z) :=
  i ← seqZ x0 nx; j ← seqZ y0 ny; [(i, j)].

Lemma elem_of_grid x0 nx y0 ny i j :
  (i, j) ∈ grid x0 nx y0 ny <-> x0 <= i < x0 + nx /\ y0 <= j < y0 + ny.
Proof.
  unfold grid. rewrite list_elem_of_bind. split.
  - intros (i' & Hj & Hi). apply list_elem_of_bind in Hj as (j' & He & Hj).
    apply list_elem_of_singleton in He as [= -> ->].
    apply elem_of_seqZ in Hi, Hj. lia.
  - intros [Hi Hj]. exists i. split; [|apply elem_of_seqZ; lia].
    apply list_elem_of_bind. exists j. split; [by left|apply elem_of_seqZ; lia].
Qed.

Lemma NoDup_grid x0 nx y0 ny : NoDup (grid x0 nx y0 ny).
Proof.
  unfold grid. apply NoDup_bind; [| |apply NoDup_seqZ].
  - intros i1 i2 y Hi1 Hi2 H1 H2.
    apply list_elem_of_bind in H1 as (j1 & E1 & _), H2 as (j2 & E2 & _).
    apply list_elem_of_singleton in E1, E2. congruence.
  - intros i Hi. apply NoDup_bind; [| |apply NoDup_seqZ].
    + intros j1 j2 y Hj1 Hj2 E1 E2. apply list_elem_of_singleton in E1, E2. congruence.
    + intros j Hj. apply NoDup_singleton.
Qed.

Lemma length_grid x0 nx y0 ny :
  0 <= nx -> 0 <= ny -> Z.of_nat (length (grid x0 nx y0 ny)) = nx * ny.
Proof.
  intros Hx Hy. unfold grid.
  assert (forall l : list Z, Z.of_nat (length (i ← l; j ← seqZ y0 ny; [(i, j)])) =
    Z.of_nat (length l) * ny) as H.
  { intros l. induction l as [|i l IH]; [done|].
    rewrite bind_cons, length_app, Nat2Z.inj_add, IH.
    assert (forall l' : list Z, length (l' ≫= (fun j => [(i, j)])) = length l') as ->.
    { intros l'. induction l' as [|j l' IH']; [done|].
      rewrite bind_cons. simpl. by f_equal. }
    rewrite length_seqZ. simpl. lia. }
  rewrite H, length_seqZ. lia.
Qed.

(** ** The length of a list as a number of the program *)

Definition zlen {A} (l : list A) : Z := Z.of_nat (length l).

Lemma zlen_app {A} (l1 l2 : list A) : zlen (l1 ++ l2) = zlen l1 + zlen l2.
Proof. unfold zlen. rewrite length_app. lia. Qed.

Lemma zlen_replicate {A} n (a : A) : zlen (replicate n a) = Z.of_nat n.
Proof. unfold zlen. by rewrite length_replicate. Qed.

Lemma zlen_nonneg {A} (l : list A) : 0 <= zlen l.
Proof. unfold zlen. lia. Qed.

(** ** A loop of stores

    The stores [m[f a] = g a] for the members of [l] in order. *)

(** A changed function, looked up. *)
Lemma insert_if {A B} `{EqDecision A} (f : A -> B) a b c :
  <[a := b]> f c = if decide (a = c) then b else f c.
Proof. case_decide as E; [by rewrite E, fn_lookup_insert|by rewrite fn_lookup_insert_ne]. Qed.

Lemma fold_insert_other {A K} `{EqDecision K} (f : A -> K) (g : A -> Z) l (m : K -> Z) k :
  (forall a, a ∈ l -> f a <> k) -> fold_left (fun m a => <[f a := g a]> m) l m k = m k.
Proof.
  revert m. induction l as [|a l IH]; intros m Hk; [done|]. simpl. rewrite IH.
  - rewrite fn_lookup_insert_ne; [done|]. intros E. apply (Hk a); [by left|done].
  - intros b Hb. apply Hk. by right.
Qed.

Lemma fold_insert_lookup {A K} `{EqDecision K} (f : A -> K) (g : A -> Z) l (m : K -> Z) a :
  a ∈ l -> (forall b, b ∈ l -> f b = f a -> g b = g a) ->
  fold_left (fun m a => <[f a := g a]> m) l m (f a) = g a.
Proof.
  revert m a. induction l as [|b l IH]; intros m a Ha Hinj; [by apply not_elem_of_nil in Ha|]. simpl.
  destruct (decide (Exists (fun b => f b = f a) l)) as [HE|HE].
  - apply Exists_exists in HE as (c & Hc & Ec).
    rewrite <-Ec, <-(Hinj c) by (done || by right).
    apply IH; [done|]. intros d Hd Ed. rewrite (Hinj c) by (done || by right).
    apply Hinj; [by right|congruence].
  - rewrite fold_insert_other.
    + apply elem_of_cons in Ha as [->|Ha]; [by rewrite fn_lookup_insert|].
      exfalso. apply HE, Exists_exists. eauto.
    + intros c Hc E. apply HE, Exists_exists. eauto.
Qed.
