(* ===== verification/Lts.v ===== *)
(** * Interleaved execution of tiles

    The concurrent components are transition systems: a state shared by all tiles, and for
    each tile [t] a partial function [lts_step t] that executes the next atomic action of
    that tile ([None]: the tile is finished, or waits).  A schedule is the list of tiles that
    move, one after the other; a state is reachable when some schedule leads to it from an
    initial state.  This is sequential consistency: the barrier and lock code relies on the
    order of the stores it issues (its [fence]s and [.aq]/[.rl] annotations), and a memory
    system weaker than that is not modelled. *)

From S2P Require Import Prelude.
Local Open Scope Z_scope.

Class Lts (St Tid : Type) := {
  lts_init : St -> Prop;
  lts_step : Tid -> St -> option St;
}.

Inductive reachable `{Lts St Tid} : St -> Prop :=
| reach_init s : lts_init s -> reachable s
| reach_step s t s' : reachable s -> lts_step t s = Some s' -> reachable s'.

(** Runs a schedule; [None] when a scheduled tile cannot move. *)
Fixpoint run `{Lts St Tid} (ts : list Tid) (s : St) : option St :=
  match ts with
  | [] => Some s
  | t :: ts => match lts_step t s with Some s' => run ts s' | None => None end
  end.

(** Runs a schedule, skipping the tiles that cannot move. *)
Fixpoint run_skip `{Lts St Tid} (ts : list Tid) (s : St) : St :=
  match ts with
  | [] => s
  | t :: ts => match lts_step t s with Some s' => run_skip ts s' | None => run_skip ts s end
  end.

(** Some schedule made of the tiles of [P] leads from [s] to a state of [Q]. *)
Definition can_reach `{Lts St Tid} (P : Tid -> Prop) (s : St) (Q : St -> Prop) : Prop :=
  exists ts s', Forall P ts /\ run ts s = Some s' /\ Q s'.

Section lts.
Context `{Lts St Tid}.

(** Rule induction for invariants; the preservation step may use the invariant only. *)
Lemma invariant_reachable (I : St -> Prop) :
  (forall s, lts_init s -> I s) ->
  (forall s t s', I s -> lts_step t s = Some s' -> I s') ->
  forall s, reachable s -> I s.
Proof. intros Hinit Hstep s; induction 1; eauto. Qed.

Lemma run_app ts1 ts2 s :
  run (ts1 ++ ts2) s = match run ts1 s with Some s' => run ts2 s' | None => None end.
Proof.
  revert s; induction ts1 as [|t ts1 IH]; intros s; simpl; [done|].
  destruct (lts_step t s); [apply IH|done].
Qed.

Lemma run_reachable ts s s' : reachable s -> run ts s = Some s' -> reachable s'.
Proof.
  revert s; induction ts as [|t ts IH]; simpl; intros s Hs Hrun; [by simplify_eq|].
  destruct (lts_step t s) as [s1|] eqn:E; [|done]. eapply IH; [|done]. by eapply reach_step.
Qed.

Lemma run_skip_reachable ts s : reachable s -> reachable (run_skip ts s).
Proof.
  revert s; induction ts as [|t ts IH]; simpl; intros s Hs; [done|].
  destruct (lts_step t s) as [s1|] eqn:E; [|by apply IH].
  apply IH. by eapply reach_step.
Qed.

Lemma can_reach_refl P s (Q : St -> Prop) : Q s -> can_reach P s Q.
Proof. intros HQ. exists [], s. repeat split; auto. Qed.

Lemma can_reach_step (P : Tid -> Prop) t s s' Q :
  P t -> lts_step t s = Some s' -> can_reach P s' Q -> can_reach P s Q.
Proof.
  intros Pt E (ts & s2 & HP & Hrun & HQ). exists (t :: ts), s2.
  split; [by constructor|]. simpl. by rewrite E.
Qed.

Lemma can_reach_trans P s Q R :
  can_reach P s Q -> (forall s', Q s' -> can_reach P s' R) -> can_reach P s R.
Proof.
  intros (ts & s1 & HP & Hrun & HQ) HR.
  destruct (HR _ HQ) as (ts' & s2 & HP' & Hrun' & HR').
  exists (ts ++ ts'), s2. split; [by apply Forall_app|]. rewrite run_app, Hrun. done.
Qed.

Lemma can_reach_weaken (P P' : Tid -> Prop) s (Q Q' : St -> Prop) :
  (forall t, P t -> P' t) -> (forall s, Q s -> Q' s) -> can_reach P s Q -> can_reach P' s Q'.
Proof.
  intros HP HQ (ts & s1 & HPs & Hrun & HQs).
  exists ts, s1. split; [by eapply Forall_impl|]. auto.
Qed.

(** The states a [can_reach] promises are reachable. *)
Lemma can_reach_reachable P s Q :
  reachable s -> can_reach P s Q -> can_reach P s (fun s' => reachable s' /\ Q s').
Proof.
  intros Hs (ts & s1 & HPs & Hrun & HQ). exists ts, s1.
  split; [done|]. split; [done|]. split; [|done]. by eapply run_reachable.
Qed.
(** A measure that some tile of [P] can always decrease, short of [Q], leads to [Q]. *)
Lemma can_reach_measure (P : Tid -> Prop) (I Q : St -> Prop) (m : St -> Z) :
  (forall s, I s -> 0 <= m s) ->
  (forall s, I s -> Q s \/ exists t s', P t /\ lts_step t s = Some s' /\ I s' /\ m s' < m s) ->
  forall s, I s -> can_reach P s Q.
Proof.
  intros Hpos Hdec s Hs. remember (Z.to_nat (m s)) as n eqn:En.
  revert s Hs En. induction (lt_wf n) as [n _ IH]. intros s Hs ->.
  destruct (Hdec s Hs) as [HQ|(t & s' & Pt & E & Hs' & Hlt)]; [by apply can_reach_refl|].
  eapply can_reach_step; [done|done|]. pose proof (Hpos _ Hs). pose proof (Hpos _ Hs').
  eapply IH; [|done|done]. lia.
Qed.
End lts.

(** A concrete system whose every step is a step of an abstract one, or one the abstract
    system does not see, only reaches states that reachable abstract states are related to. *)
Section simulation.
Context `{CL : Lts C Tid} `{AL : Lts A Tid} (R : C -> A -> Prop).

Lemma simulation_reachable :
  (forall c, lts_init c -> exists a, lts_init a /\ R c a) ->
  (forall c a t c', reachable a -> R c a -> lts_step t c = Some c' ->
     R c' a \/ exists a', lts_step t a = Some a' /\ R c' a') ->
  forall c, reachable c -> exists a, reachable a /\ R c a.
Proof.
  intros Hinit Hstep c. induction 1 as [c Hc|c t c' _ (a & Ha & HR) E].
  - destruct (Hinit c Hc) as (a & ? & ?). exists a. split; [by constructor|done].
  - destruct (Hstep _ _ _ _ Ha HR E) as [?|(a' & ? & ?)]; [by exists a|].
    exists a'. split; [by eapply reach_step|done].
Qed.
End simulation.

(** ** Sums over the tiles of a group *)

Fixpoint sum_over {A} (f : A -> Z) (l : list A) : Z :=
  match l with [] => 0 | a :: l => f a + sum_over f l end.

Section sum_over.
Context {A : Type} `{EqDecision A}.
Implicit Types (f g : A -> Z) (l : list A).

Lemma sum_over_ext f g l : (forall a, a ∈ l -> f a = g a) -> sum_over f l = sum_over g l.
Proof.
  induction l as [|a l IH]; simpl; intros E; [done|].
  rewrite (E a), IH; [done|intros; apply E; by right|by left].
Qed.

Lemma sum_over_const c l : sum_over (fun _ => c) l = c * Z.of_nat (length l).
Proof. induction l as [|a l IH]; simpl; lia. Qed.

Lemma sum_over_sub f g l :
  sum_over (fun a => f a - g a) l = sum_over f l - sum_over g l.
Proof. induction l as [|a l IH]; simpl; lia. Qed.

Lemma sum_over_app f l l' : sum_over f (l ++ l') = sum_over f l + sum_over f l'.
Proof. induction l as [|a l IH]; simpl; [done|]. rewrite IH. lia. Qed.

Lemma sum_over_fmap {B} (g : B -> A) f (l : list B) :
  sum_over f (g <$> l) = sum_over (fun b => f (g b)) l.
Proof. induction l as [|b l IH]; [done|]. rewrite fmap_cons. simpl. by rewrite IH. Qed.

Lemma sum_over_perm f l l' : l ≡ₚ l' -> sum_over f l = sum_over f l'.
Proof. induction 1; simpl; lia. Qed.

Lemma sum_over_mul f l c : sum_over (fun a => f a * c) l = sum_over f l * c.
Proof. induction l as [|a l IH]; simpl; lia. Qed.

Lemma sum_over_bind {B} (g : B -> list A) f (l : list B) :
  sum_over f (l ≫= g) = sum_over (fun b => sum_over f (g b)) l.
Proof. induction l as [|b l IH]; [done|]. rewrite bind_cons, sum_over_app. simpl. by rewrite IH. Qed.

Lemma sum_over_le f g l : (forall a, a ∈ l -> f a <= g a) -> sum_over f l <= sum_over g l.
Proof.
  induction l as [|a l IH]; simpl; intros E; [done|].
  assert (f a <= g a) by (apply E; by left).
  assert (sum_over f l <= sum_over g l) by (apply IH; intros; apply E; by right). lia.
Qed.

(** Changing [f] at one member of a duplicate-free list. *)
Lemma sum_over_update f g l a :
  NoDup l -> a ∈ l -> (forall b, b ∈ l -> b <> a -> g b = f b) ->
  sum_over g l = sum_over f l + (g a - f a).
Proof.
  induction l as [|b l IH]; intros Hnd Ha E; [by apply not_elem_of_nil in Ha|].
  apply NoDup_cons in Hnd as [Hb Hnd]. simpl. destruct (decide (a = b)) as [->|Hab].
  - rewrite (sum_over_ext g f l); [lia|].
    intros c Hc. apply E; [by right|]. intros ->. done.
  - apply elem_of_cons in Ha as [->|Ha]; [done|].
    rewrite IH; [|done|done|intros; apply E; [by right|done]].
    rewrite (E b); [lia|by left|done].
Qed.

Lemma sum_over_nonneg f l : (forall a, a ∈ l -> 0 <= f a) -> 0 <= sum_over f l.
Proof.
  intros H. rewrite <-(Z.mul_0_l (Z.of_nat (length l))), <-sum_over_const. by apply sum_over_le.
Qed.

Lemma sum_over_lt f g l a :
  (forall b, b ∈ l -> f b <= g b) -> a ∈ l -> f a < g a -> sum_over f l < sum_over g l.
Proof.
  induction l as [|b l IH]; intros Hle Ha Hlt; [by apply not_elem_of_nil in Ha|]. simpl.
  assert (f b <= g b) by (apply Hle; by left).
  assert (sum_over f l <= sum_over g l) by (apply sum_over_le; intros; apply Hle; by right).
  apply elem_of_cons in Ha as [->|Ha]; [lia|].
  assert (sum_over f l < sum_over g l) by (apply IH; [intros; apply Hle; by right|done|done]). lia.
Qed.

(** If every term is at most [c] and the sum is [c] times the length, every term is [c]. *)
Lemma sum_over_tight f l c :
  (forall a, a ∈ l -> f a <= c) -> c * Z.of_nat (length l) <= sum_over f l ->
  forall a, a ∈ l -> f a = c.
Proof.
  induction l as [|b l IH]; intros Hle Hsum a Ha; [by apply not_elem_of_nil in Ha|].
  assert (sum_over f l <= c * Z.of_nat (length l)) as Hl.
  { rewrite <-(sum_over_const c l). apply sum_over_le. intros; apply Hle; by right. }
  assert (f b <= c) by (apply Hle; by left). simpl in Hsum.
  apply elem_of_cons in Ha as [->|Ha]; [lia|].
  apply IH; [intros; apply Hle; by right|lia|done].
Qed.

Lemma sum_over_zero f l : (forall a, a ∈ l -> f a = 0) -> sum_over f l = 0.
Proof. intros E. rewrite (sum_over_ext f (fun _ => 0)), sum_over_const by done. lia. Qed.

(** A positive sum has a positive term. *)
Lemma sum_over_pos f l : 0 < sum_over f l -> exists a, a ∈ l /\ 0 < f a.
Proof.
  induction l as [|a l IH]; simpl; intros Hs; [lia|].
  destruct (Z.lt_ge_cases 0 (f a)); [exists a; split; [left|done]|].
  destruct IH as (b & Hb & ?); [lia|]. exists b. split; [by right|done].
Qed.

Lemma sum_over_one f l a :
  (forall b, b ∈ l -> 0 <= f b) -> a ∈ l -> f a <= sum_over f l.
Proof.
  induction l as [|b l IH]; intros Hf Ha; [by apply not_elem_of_nil in Ha|].
  assert (0 <= f b) by (apply Hf; by left).
  assert (0 <= sum_over f l) by (apply sum_over_nonneg; intros; apply Hf; by right).
  apply elem_of_cons in Ha as [->|Ha]; simpl; [lia|].
  assert (f a <= sum_over f l) by (apply IH; [intros; apply Hf; by right|done]). lia.
Qed.

(** Two members of a sum of non-negative terms. *)
Lemma sum_over_two f l a b :
  (forall c, c ∈ l -> 0 <= f c) -> a ∈ l -> b ∈ l -> a <> b ->
  f a + f b <= sum_over f l.
Proof.
  induction l as [|c l IH]; intros Hf Ha Hb Hab; [by apply not_elem_of_nil in Ha|].
  assert (0 <= f c) by (apply Hf; by left).
  assert (forall d, d ∈ l -> 0 <= f d) by (intros; apply Hf; by right).
  apply elem_of_cons in Ha as [->|Ha]; apply elem_of_cons in Hb as [->|Hb]; simpl; try done.
  - assert (f b <= sum_over f l) by (by apply sum_over_one). lia.
  - assert (f a <= sum_over f l) by (by apply sum_over_one). lia.
  - assert (f a + f b <= sum_over f l) by (by apply IH). lia.
Qed.
End sum_over.

(** The entries of a list, numbered from [n]. *)
Lemma sum_over_lookup {A} (f : A -> Z) (x : A) (l : list A) :
  sum_over (fun j => f (default x (l !! Z.to_nat j))) (seqZ 0 (Z.of_nat (length l))) = sum_over f l.
Proof.
  unfold seqZ. rewrite Nat2Z.id, sum_over_fmap. induction l as [|a l IH]; [done|].
  cbn [length seq sum_over]. rewrite <-IH. f_equal. rewrite <-fmap_S_seq, sum_over_fmap.
  apply sum_over_ext. intros j _. rewrite !Z.add_0_r, !Nat2Z.id. done.
Qed.

(** A sum round a circle does not depend on where it starts. *)
Lemma sum_over_rotate (f : Z -> Z) (n r : Z) :
  0 < n -> 0 <= r ->
  sum_over (fun i => f ((r + i) mod n)) (seqZ 0 n) = sum_over (fun i => f (i mod n)) (seqZ 0 n).
Proof.
  intros Hn Hr. revert r Hr. apply natlike_ind; [done|]. intros r Hr <-.
  assert (forall g, sum_over (fun i => g (i + 1)) (seqZ 0 n) + g 0 = sum_over g (seqZ 0 n) + g n) as Hshift.
  { intros g. replace n with (Z.of_nat (Z.to_nat n)) by lia.
    induction (Z.to_nat n) as [|k IH]; [done|].
    rewrite seqZ_S, Nat2Z.inj_succ, !sum_over_app, Z.add_0_l. cbn [sum_over].
    rewrite <-Z.add_1_r. lia. }
  specialize (Hshift (fun i => f ((r + i) mod n))). cbv beta in Hshift.
  assert ((r + 0) mod n = (r + n) mod n) as E.
  { replace (r + n) with (r + 0 + 1 * n) by lia. by rewrite Z.mod_add by lia. }
  rewrite E in Hshift. rewrite (sum_over_ext _ (fun i => f ((r + (i + 1)) mod n))); [lia|].
  intros i _. do 2 f_equal. lia.
Qed.

(** A non-empty list has a member where [f] is least. *)
Lemma least_member {A} (f : A -> Z) (l : list A) a :
  a ∈ l -> exists b, b ∈ l /\ forall c, c ∈ l -> f b <= f c.
Proof.
  revert a. induction l as [|x l IH]; intros a Ha; [by apply not_elem_of_nil in Ha|].
  destruct l as [|y l].
  - exists x. split; [by left|]. intros c Hc. apply list_elem_of_singleton in Hc as ->. lia.
  - destruct (IH y) as (b & Hb & Hmin); [by left|].
    destruct (Z.le_ge_cases (f x) (f b)).
    + exists x. split; [by left|]. intros c [->|Hc]%elem_of_cons; [lia|].
      specialize (Hmin c Hc). lia.
    + exists b. split; [by right|]. intros c [->|Hc]%elem_of_cons; [lia|]. by apply Hmin.
Qed.

(** The term of a predicate in a count. *)
Definition ind (b : bool) : Z := if b then 1 else 0.

Lemma ind_nonneg b : 0 <= ind b.
Proof. by destruct b. Qed.

(** ** Termination of many at once

    Steps that each make one of finitely many components smaller come to an end. *)
Section one_smaller.
Context {A B : Type} `{EqDecision A} (R : B -> B -> Prop).

Definition one_smaller (l : list A) (g f : A -> B) : Prop :=
  exists a, a ∈ l /\ R (g a) (f a) /\ forall b, b <> a -> g b = f b.

Lemma one_smaller_acc (l : list A) (f : A -> B) :
  (forall a, a ∈ l -> Acc R (f a)) -> Acc (one_smaller l) f.
Proof.
  revert f. induction l as [|a l IHl]; intros f Hf.
  { constructor. intros g (b & Hb & _). by apply not_elem_of_nil in Hb. }
  assert (Acc R (f a)) as Ha by (apply Hf; by left).
  assert (forall b, b ∈ l -> Acc R (f b)) as Hl by (intros; apply Hf; by right). clear Hf.
  remember (f a) as x eqn:Ex. revert f Ex Hl. induction Ha as [x _ IHx]. intros f -> Hl.
  induction (IHl f Hl) as [f _ IHf]. constructor. intros g (b & Hb & HR & Hsame).
  destruct (decide (b = a)) as [->|Hne].
  - apply (IHx (g a)); [done|done|]. intros c Hc.
    destruct (decide (c = a)) as [->|Hca]; [by eapply Acc_inv; [apply Hl|]|].
    rewrite Hsame by done. by apply Hl.
  - apply elem_of_cons in Hb as [->|Hb]; [done|]. apply IHf.
    + by exists b.
    + intros y HRy. apply IHx. by rewrite <-(Hsame a).
    + intros c Hc. destruct (decide (c = b)) as [->|Hcb]; [by eapply Acc_inv; [apply Hl|]|].
      rewrite Hsame by done. by apply Hl.
Qed.
End one_smaller.
