(* ===== verification/Arch.v ===== *)
(** * The address map: [bsg_manycore_arch.h], the pointer and I/O macros of
    [bsg_manycore.h], and the translation the network performs
    ([v/bsg_manycore_eva_to_npa.sv], [v/bsg_manycore_dram_hash_function.sv]).

    The headers build 32-bit endpoint virtual addresses (EVA) with shifts and [|];
    the hardware slices them back into a coordinate and a word address (NPA).  The
    theorems say that the two agree. *)

From S2P Require Import Prelude.
Local Open Scope Z_scope.

(** ** Compile-time configuration (the [-D] flags of [Makefile.builddefs]) *)

Record config := {
  bsg_tiles_X : Z;
  bsg_tiles_Y : Z;
  bsg_global_X : Z;
  bsg_global_Y : Z;
  IO_X_INDEX : Z;
  IO_Y_INDEX : Z;
}.

(** The dimension checks of the header ([#error]), and coordinates that fit their fields. *)
Definition wf_config (c : config) : Prop :=
  0 < bsg_tiles_X c <= 64 /\ 0 < bsg_tiles_Y c <= 32 /\
  bsg_tiles_Y c <= bsg_global_Y c /\ bsg_tiles_X c <= bsg_global_X c /\
  0 <= IO_X_INDEX c < 128 /\ 0 <= IO_Y_INDEX c < 128.

(** ** EVA format constants *)

Definition GLOBAL_EPA_WIDTH : Z := 16.
Definition GLOBAL_X_CORD_WIDTH : Z := 7.
Definition GLOBAL_Y_CORD_WIDTH : Z := 7.
Definition GLOBAL_X_CORD_SHIFT : Z := GLOBAL_EPA_WIDTH.
Definition GLOBAL_Y_CORD_SHIFT : Z := GLOBAL_X_CORD_SHIFT + GLOBAL_X_CORD_WIDTH.
Definition GLOBAL_PREFIX_SHIFT : Z := GLOBAL_Y_CORD_SHIFT + GLOBAL_Y_CORD_WIDTH.
Definition REMOTE_EPA_WIDTH : Z := 18.
Definition REMOTE_X_CORD_WIDTH : Z := 6.
Definition REMOTE_Y_CORD_WIDTH : Z := 5.
Definition REMOTE_X_CORD_SHIFT : Z := REMOTE_EPA_WIDTH.
Definition REMOTE_Y_CORD_SHIFT : Z := REMOTE_X_CORD_SHIFT + REMOTE_X_CORD_WIDTH.
Definition REMOTE_PREFIX_SHIFT : Z := REMOTE_Y_CORD_SHIFT + REMOTE_Y_CORD_WIDTH.
Definition DRAM_PREFIX_SHIFT : Z := 31.
Definition CSR_BASE_ADDR : Z := i32 (Z.shiftl 1 (REMOTE_EPA_WIDTH - 1)).
Definition CSR_FREEZE : Z := 0x0.
Definition CSR_TGO_X : Z := 0x4.
Definition CSR_TGO_Y : Z := 0x8.

(** ** Pointer macros (the value of the pointer, as [unsigned]) *)

(** Shared body of the tile-group pointer macros. *)
Definition bsg_remote_ptr (x y local_addr : Z) : Z :=
  u32 ((1 <<i REMOTE_PREFIX_SHIFT)
       .| (y <<i REMOTE_Y_CORD_SHIFT)
       .| (x <<i REMOTE_X_CORD_SHIFT)
       .| i32 local_addr)%c.

Definition bsg_remote_flt_ptr (x y local_addr : Z) : Z :=
  u32 ((1 <<i REMOTE_PREFIX_SHIFT)
       .| (y <<i REMOTE_Y_CORD_SHIFT)
       .| (x <<i REMOTE_X_CORD_SHIFT)
       .| i32 local_addr)%c.

Definition bsg_tile_group_remote_ptr (x y local_addr : Z) : Z :=
  u32 ((1 <<i REMOTE_PREFIX_SHIFT)
       .| (y <<i REMOTE_Y_CORD_SHIFT)
       .| (x <<i REMOTE_X_CORD_SHIFT)
       .| i32 local_addr)%c.

Definition bsg_global_ptr (x y local_addr : Z) : Z :=
  u32 ((1 <<i GLOBAL_PREFIX_SHIFT)
       .| (y <<i GLOBAL_Y_CORD_SHIFT)
       .| (x <<i GLOBAL_X_CORD_SHIFT)
       .| i32 local_addr)%c.

Definition bsg_global_float_ptr (x y local_addr : Z) : Z :=
  u32 ((1 <<i GLOBAL_PREFIX_SHIFT)
       .| (y <<i GLOBAL_Y_CORD_SHIFT)
       .| (x <<i GLOBAL_X_CORD_SHIFT)
       .| i32 local_addr)%c.

Definition bsg_global_pod_ptr (c : config) (px py x y local_addr : Z) : Z :=
  u32 ((1 <<i GLOBAL_PREFIX_SHIFT)
       .| ((((1 +i (py *i 2)) *i bsg_global_Y c) +i y) <<i GLOBAL_Y_CORD_SHIFT)
       .| ((((px +i 1) *i bsg_global_X c) +i x) <<i GLOBAL_X_CORD_SHIFT)
       .| i32 local_addr)%c.

Definition bsg_global_physical_pod_ptr (c : config) (px py x y local_addr : Z) : Z :=
  u32 ((1 <<i GLOBAL_PREFIX_SHIFT)
       .| (((py *i bsg_global_Y c) +i y) <<i GLOBAL_Y_CORD_SHIFT)
       .| (((px *i bsg_global_X c) +i x) <<i GLOBAL_X_CORD_SHIFT)
       .| i32 local_addr)%c.

Definition bsg_dram_ptr (local_addr : Z) : Z :=
  u32 ((1 <<i DRAM_PREFIX_SHIFT) .| i32 local_addr)%c.

Definition bsg_host_dram_ptr (addr : Z) : Z := u32 ((3 <<i 30) .| i32 addr)%c.

Definition bsg_local_ptr (remote_addr : Z) : Z :=
  (i32 remote_addr .& ((1 <<i REMOTE_EPA_WIDTH) -i 1))%c.

(** [bsg_tile_group_shared_ptr(type,lc_sh,index)]: [sz] is [sizeof(type)], [lc_sh] the
    address of the local part of the array. *)
Definition bsg_tile_group_shared_ptr (c : config) (sz lc_sh index : Z) : Z :=
  bsg_tile_group_remote_ptr
    (Z.rem index (bsg_tiles_X c))
    (Z.rem (Z.quot index (bsg_tiles_X c)) (bsg_tiles_Y c))
    (u32 (lc_sh + sz * Z.quot index (bsg_tiles_X c * bsg_tiles_Y c))).

(** [bsg_tile_group_shared_mem(type,lc_sh,size)]: the number of elements each tile holds. *)
Definition bsg_tile_group_shared_mem (c : config) (size : Z) : Z :=
  Z.quot (size + (bsg_tiles_X c * bsg_tiles_Y c - 1)) (bsg_tiles_X c * bsg_tiles_Y c).

Definition bsg_io_mutex_ptr (c : config) (local_addr : Z) : Z :=
  bsg_global_ptr (IO_X_INDEX c) (IO_Y_INDEX c) local_addr.

Definition bsg_remote_ptr_control (x y CSR_offset : Z) : Z :=
  bsg_remote_ptr x y (CSR_BASE_ADDR +i CSR_offset)%c.

Definition bsg_remote_ptr_io (c : config) (x local_addr : Z) : Z :=
  bsg_global_ptr x (IO_Y_INDEX c) local_addr.

(** Tile id and coordinates. *)
Definition bsg_id_to_x (c : config) (id : Z) : Z := Z.rem id (bsg_tiles_X c).
Definition bsg_id_to_y (c : config) (id : Z) : Z := Z.quot id (bsg_tiles_X c).
Definition bsg_x_y_to_id (c : config) (x y : Z) : Z := bsg_tiles_X c * y + x.
Definition bsg_num_tiles (c : config) : Z := bsg_tiles_X c * bsg_tiles_Y c.
