(* ===== verification/Eva.v ===== *)
(** * From pointers to network addresses

    The translation the hardware applies to a 32-bit EVA, written from
    [v/bsg_manycore_eva_to_npa.sv] and [v/bsg_manycore_dram_hash_function.sv], and the
    theorems that relate it to the pointer macros of [Arch]: every pointer the headers
    build is decoded to the tile, and the word, they were given. *)

From S2P Require Import Prelude Arch.
Local Open Scope Z_scope.

(** A network physical address: global coordinates and a word address. *)
Record npa := { x_cord : Z; y_cord : Z; epa : Z }.

#[export] Instance npa_eq_dec : EqDecision npa.
Proof. solve_decision. Defined.

(** Parameters and inputs of the translation unit of one tile.  [new_bank_id] is the IPOLY
    bank hash of BaseJump STL (outside the repository): [None] selects the default hashing. *)
Record eva_unit := {
  addr_width : Z;
  x_cord_width : Z;
  y_cord_width : Z;
  pod_x_cord_width : Z;
  pod_y_cord_width : Z;
  x_subcord_width : Z;
  y_subcord_width : Z;
  tgo_x : Z;
  tgo_y : Z;
  pod_x : Z;
  pod_y : Z;
  new_bank_id : option (Z -> Z -> Z);
}.

Definition global_remote (eva : Z) : Z := slice eva 30 2.
Definition global_y_cord (eva : Z) : Z := slice eva 23 7.
Definition global_x_cord (eva : Z) : Z := slice eva 16 7.
Definition global_addr (eva : Z) : Z := slice eva 2 14.
Definition tile_group_remote (eva : Z) : Z := slice eva 29 3.
Definition tile_group_y_cord (eva : Z) : Z := slice eva 24 5.
Definition tile_group_x_cord (eva : Z) : Z := slice eva 18 6.
Definition tile_group_addr (eva : Z) : Z := slice eva 2 16.

(** The DRAM bank of a DRAM EVA: one bit selects the north or south vcache row. *)
Definition dram_hash (u : eva_unit) (eva : Z) : npa :=
  let dram_index_width := 32 - 1 - 2 - x_subcord_width u - 1 in
  let temp_x := slice eva 2 (x_subcord_width u) in
  let temp_y := slice eva (2 + x_subcord_width u) 1 in
  let dram_index := slice eva (2 + x_subcord_width u + 1) dram_index_width in
  let bank := concat (x_subcord_width u) temp_y temp_x in
  let new_bank := match new_bank_id u with
                  | Some ipoly => ipoly dram_index bank
                  | None => bank
                  end in
  let new_x := slice new_bank 0 (x_subcord_width u) in
  let new_y := slice new_bank (x_subcord_width u) 1 in
  let dram_y_subcord := if new_y =? 1 then 0 else Z.ones (y_subcord_width u) in
  let dram_pod_y := trunc (pod_y_cord_width u)
                      (if new_y =? 1 then pod_y u + 1 else pod_y u - 1) in
  {| y_cord := concat (y_subcord_width u) dram_pod_y dram_y_subcord;
     x_cord := concat (x_subcord_width u) (pod_x u) new_x;
     epa := dram_index |}.

(** The EVA to NPA table; [None] is [is_invalid_addr_o]. *)
Definition eva_to_npa (u : eva_unit) (eva : Z) : option npa :=
  if slice eva 31 1 =? 1 then Some (dram_hash u eva)
  else if global_remote eva =? 1 then
    Some {| y_cord := trunc (y_cord_width u) (global_y_cord eva);
            x_cord := trunc (x_cord_width u) (global_x_cord eva);
            epa := global_addr eva |}
  else if tile_group_remote eva =? 1 then
    Some {| y_cord := concat (y_subcord_width u) (pod_y u)
                        (trunc (y_subcord_width u) (tile_group_y_cord eva + tgo_y u));
            x_cord := concat (x_subcord_width u) (pod_x u)
                        (trunc (x_subcord_width u) (tile_group_x_cord eva + tgo_x u));
            epa := tile_group_addr eva |}
  else None.

(** What the code relies on of the IPOLY hash: for each row index it permutes the banks. *)
Definition bank_permutation (u : eva_unit) : Prop :=
  match new_bank_id u with
  | Some ipoly => forall i b, 0 <= b < 2 ^ (x_subcord_width u + 1) ->
      0 <= ipoly i b < 2 ^ (x_subcord_width u + 1) /\
      (forall b', 0 <= b' < 2 ^ (x_subcord_width u + 1) -> ipoly i b = ipoly i b' -> b = b')
  | None => True
  end.

(** A 4x4 tile group at origin (2,1) of pod (1,2), 16x8 tiles per pod; used by the
    witnesses. *)
Definition unit_16x8 : eva_unit :=
  {| addr_width := 28; x_cord_width := 7; y_cord_width := 7; pod_x_cord_width := 3;
     pod_y_cord_width := 4; x_subcord_width := 4; y_subcord_width := 3; tgo_x := 2;
     tgo_y := 1; pod_x := 1; pod_y := 2; new_bank_id := None |}.

Definition config_4x4 : config :=
  {| bsg_tiles_X := 4; bsg_tiles_Y := 4; bsg_global_X := 16; bsg_global_Y := 8;
     IO_X_INDEX := 16; IO_Y_INDEX := 0 |}.

(** ** Pointers as sums of disjoint fields *)

Section fields.
Implicit Types x y a : Z.

Lemma bsg_remote_ptr_sum x y a :
  0 <= x < 64 -> 0 <= y < 32 -> 0 <= a < 2 ^ 18 ->
  bsg_remote_ptr x y a = 536870912 + y * 16777216 + x * 262144 + a.
Proof.
  intros Hx Hy Ha. unfold bsg_remote_ptr. change REMOTE_PREFIX_SHIFT with 29.
  change REMOTE_Y_CORD_SHIFT with 24. change REMOTE_X_CORD_SHIFT with 18.
  rewrite (i32_id (Z.shiftl 1 29)) by done.
  rewrite (i32_id (Z.shiftl y _)), (i32_id (Z.shiftl x _)), (i32_id a)
    by (rewrite ?Z.shiftl_mul_pow2 by lia; unfold is_i32; lia).
  rewrite <-!Z.lor_assoc, (lor_shiftl_add x a) by lia.
  rewrite (lor_shiftl_add y) by lia. rewrite (lor_shiftl_add 1) by lia.
  rewrite u32_id; [lia|unfold is_u32; lia].
Qed.

Lemma bsg_global_ptr_sum x y a :
  0 <= x < 128 -> 0 <= y < 128 -> 0 <= a < 2 ^ 16 ->
  bsg_global_ptr x y a = 1073741824 + y * 8388608 + x * 65536 + a.
Proof.
  intros Hx Hy Ha. unfold bsg_global_ptr. change GLOBAL_PREFIX_SHIFT with 30.
  change GLOBAL_Y_CORD_SHIFT with 23. change GLOBAL_X_CORD_SHIFT with 16.
  rewrite (i32_id (Z.shiftl 1 30)) by done.
  rewrite (i32_id (Z.shiftl y _)), (i32_id (Z.shiftl x _)), (i32_id a)
    by (rewrite ?Z.shiftl_mul_pow2 by lia; unfold is_i32; lia).
  rewrite <-!Z.lor_assoc, (lor_shiftl_add x a) by lia.
  rewrite (lor_shiftl_add y) by lia. rewrite (lor_shiftl_add 1) by lia.
  rewrite u32_id; [lia|unfold is_u32; lia].
Qed.

Lemma bsg_dram_ptr_sum a : 0 <= a < 2 ^ 31 -> bsg_dram_ptr a = 2147483648 + a.
Proof.
  intros Ha. unfold bsg_dram_ptr, DRAM_PREFIX_SHIFT.
  change (i32 (Z.shiftl 1 31)) with (Z.shiftl (-1) 31).
  rewrite (i32_id a) by (unfold is_i32; lia).
  rewrite lor_shiftl_add by lia. word_lia.
Qed.
End fields.

(** ** What the hardware decodes *)

Section decode.
Implicit Types (u : eva_unit) (c : config) (x y a : Z).

(** The three address spaces are told apart by the top bits only. *)
Lemma remote_ptr_fields x y a :
  0 <= x < 64 -> 0 <= y < 32 -> 0 <= a < 2 ^ 18 ->
  let p := bsg_remote_ptr x y a in
  slice p 31 1 = 0 /\ global_remote p = 0 /\ tile_group_remote p = 1 /\
  tile_group_y_cord p = y /\ tile_group_x_cord p = x /\ tile_group_addr p = a / 4.
Proof.
  intros Hx Hy Ha p. subst p. rewrite bsg_remote_ptr_sum by done.
  unfold global_remote, tile_group_remote, tile_group_y_cord, tile_group_x_cord,
    tile_group_addr. split_and!; slice_lia.
Qed.

Lemma global_ptr_fields x y a :
  0 <= x < 128 -> 0 <= y < 128 -> 0 <= a < 2 ^ 16 ->
  let p := bsg_global_ptr x y a in
  slice p 31 1 = 0 /\ global_remote p = 1 /\
  global_y_cord p = y /\ global_x_cord p = x /\ global_addr p = a / 4.
Proof.
  intros Hx Hy Ha p. subst p. rewrite bsg_global_ptr_sum by done.
  unfold global_remote, global_y_cord, global_x_cord, global_addr.
  split_and!; slice_lia.
Qed.

(** A tile-group pointer [bsg_remote_ptr(x,y,a)] is decoded to the tile at offset (x,y) from the
    tile-group origin, inside the pod, and to the word of byte address [a], whenever the group fits
    in the pod (no wrap of the subcoordinates). *)
Lemma eva_to_npa_remote_ptr u x y a :
  0 <= x < 64 -> 0 <= y < 32 -> 0 <= a < 2 ^ 18 ->
  0 <= tgo_x u -> x + tgo_x u < 2 ^ x_subcord_width u ->
  0 <= tgo_y u -> y + tgo_y u < 2 ^ y_subcord_width u ->
  eva_to_npa u (bsg_remote_ptr x y a) =
    Some {| x_cord := pod_x u * 2 ^ x_subcord_width u + (tgo_x u + x);
            y_cord := pod_y u * 2 ^ y_subcord_width u + (tgo_y u + y);
            epa := a / 4 |}.
Proof.
  intros Hx Hy Ha ????.
  destruct (remote_ptr_fields x y a) as (E1 & E2 & E3 & E4 & E5 & E6); [done..|].
  unfold eva_to_npa. rewrite E1, E2, E3, E4, E5, E6. simpl.
  rewrite !trunc_small by lia. unfold concat. do 2 f_equal; lia.
Qed.

(** A global pointer [bsg_global_ptr(x,y,a)] is decoded to the coordinate (x,y) itself and to the
    word of byte address [a], whatever the tile that uses it. *)
Lemma eva_to_npa_global_ptr u x y a :
  0 <= x < 128 -> 0 <= y < 128 -> 0 <= a < 2 ^ 16 ->
  x < 2 ^ x_cord_width u -> y < 2 ^ y_cord_width u ->
  eva_to_npa u (bsg_global_ptr x y a) = Some {| x_cord := x; y_cord := y; epa := a / 4 |}.
Proof.
  intros Hx Hy Ha ??.
  destruct (global_ptr_fields x y a) as (E1 & E2 & E3 & E4 & E5); [done..|].
  unfold eva_to_npa. rewrite E1, E2, E3, E4, E5. simpl. by rewrite !trunc_small by lia.
Qed.

Lemma bsg_global_pod_ptr_eq c px py x y a :
  0 <= px -> 0 <= py -> 0 <= x -> 0 <= y -> 0 < bsg_global_X c -> 0 < bsg_global_Y c ->
  (px + 1) * bsg_global_X c + x < 128 -> (1 + py * 2) * bsg_global_Y c + y < 128 ->
  bsg_global_pod_ptr c px py x y a =
    bsg_global_ptr ((px + 1) * bsg_global_X c + x) ((1 + py * 2) * bsg_global_Y c + y) a.
Proof.
  intros Hpx Hpy Hx Hy HX HY Hlx Hly. unfold bsg_global_pod_ptr, bsg_global_ptr.
  assert (px < 128 /\ bsg_global_X c < 128 /\ py < 128 /\ bsg_global_Y c < 128) as (?&?&?&?)
    by nia.
  rewrite (i32_id (px + 1)), (i32_id (py * 2)), (i32_id (1 + py * 2)),
    (i32_id ((px + 1) * bsg_global_X c)), (i32_id ((1 + py * 2) * bsg_global_Y c)),
    (i32_id (_ + x)), (i32_id (_ + y)) by (unfold is_i32; nia). done.
Qed.

(** A pod pointer reaches the compute array of pod (px,py): the pods'
    compute arrays sit at columns [(px+1)*bsg_global_X] and rows [(1+2*py)*bsg_global_Y], so
    that distinct (pod, subcoordinate) pairs reach distinct tiles. *)
Lemma eva_to_npa_pod_ptr u c px py x y a :
  0 <= px -> 0 <= py -> 0 <= x < bsg_global_X c -> 0 <= y < bsg_global_Y c ->
  (px + 1) * bsg_global_X c + x < Z.min 128 (2 ^ x_cord_width u) ->
  (1 + py * 2) * bsg_global_Y c + y < Z.min 128 (2 ^ y_cord_width u) ->
  0 <= a < 2 ^ 16 ->
  exists n, eva_to_npa u (bsg_global_pod_ptr c px py x y a) = Some n /\
    epa n = a / 4 /\
    x_cord n / bsg_global_X c = px + 1 /\ x_cord n mod bsg_global_X c = x /\
    y_cord n / bsg_global_Y c = 1 + 2 * py /\ y_cord n mod bsg_global_Y c = y.
Proof.
  intros Hpx Hpy Hx Hy Hlx Hly Ha. rewrite bsg_global_pod_ptr_eq by lia.
  rewrite eva_to_npa_global_ptr by nia. eexists; split; [done|]; simpl.
  split; [done|]. rewrite (Z.mul_comm (px + 1)), (Z.mul_comm (1 + py * 2)).
  split_and!;
    first [ symmetry; eapply Z.div_unique_pos; [|done]; lia
          | symmetry; eapply Z.mod_unique_pos; [|done]; lia
          | symmetry; eapply Z.div_unique_pos; [|reflexivity]; lia | idtac ].
  replace (1 + 2 * py) with (1 + py * 2) by lia.
  symmetry; eapply Z.div_unique_pos; [|done]; lia.
Qed.

(** What each kind of pointer is decoded to. *)
Lemma tile_pointers_decode u x y a : 0 <= a -> 0 <= x -> 0 <= y ->
  (x < 64 -> y < 32 -> a < 2 ^ 18 ->
   0 <= tgo_x u -> x + tgo_x u < 2 ^ x_subcord_width u ->
   0 <= tgo_y u -> y + tgo_y u < 2 ^ y_subcord_width u ->
   eva_to_npa u (bsg_remote_ptr x y a) =
     Some {| x_cord := pod_x u * 2 ^ x_subcord_width u + (tgo_x u + x);
             y_cord := pod_y u * 2 ^ y_subcord_width u + (tgo_y u + y);
             epa := a / 4 |}) /\
  (x < 128 -> y < 128 -> a < 2 ^ 16 -> x < 2 ^ x_cord_width u -> y < 2 ^ y_cord_width u ->
   eva_to_npa u (bsg_global_ptr x y a) = Some {| x_cord := x; y_cord := y; epa := a / 4 |}) /\
  (forall c px py, 0 <= px -> 0 <= py -> x < bsg_global_X c -> y < bsg_global_Y c ->
   (px + 1) * bsg_global_X c + x < Z.min 128 (2 ^ x_cord_width u) ->
   (1 + py * 2) * bsg_global_Y c + y < Z.min 128 (2 ^ y_cord_width u) -> a < 2 ^ 16 ->
   exists n, eva_to_npa u (bsg_global_pod_ptr c px py x y a) = Some n /\
     epa n = a / 4 /\
     x_cord n / bsg_global_X c = px + 1 /\ x_cord n mod bsg_global_X c = x /\
     y_cord n / bsg_global_Y c = 1 + 2 * py /\ y_cord n mod bsg_global_Y c = y).
Proof.
  intros Ha Hx Hy. split_and!; intros.
  - by apply eva_to_npa_remote_ptr.
  - by apply eva_to_npa_global_ptr.
  - by apply eva_to_npa_pod_ptr.
Qed.

Lemma bsg_remote_ptr_inj x y a x' y' a' :
  0 <= x < 64 -> 0 <= y < 32 -> 0 <= a < 2 ^ 18 ->
  0 <= x' < 64 -> 0 <= y' < 32 -> 0 <= a' < 2 ^ 18 ->
  bsg_remote_ptr x y a = bsg_remote_ptr x' y' a' -> x = x' /\ y = y' /\ a = a'.
Proof. intros. rewrite !bsg_remote_ptr_sum in * by done. lia. Qed.

(** The local address is recovered from a remote pointer ([bsg_local_ptr]). *)
Lemma bsg_local_ptr_remote x y a :
  0 <= x < 64 -> 0 <= y < 32 -> 0 <= a < 2 ^ 18 -> bsg_local_ptr (bsg_remote_ptr x y a) = a.
Proof.
  intros Hx Hy Ha. rewrite bsg_remote_ptr_sum by done. unfold bsg_local_ptr.
  change (i32 (i32 (Z.shiftl 1 REMOTE_EPA_WIDTH) - 1)) with (Z.ones 18).
  rewrite Z.land_ones by lia. rewrite i32_id by (unfold is_i32; lia).
  norm_pow2. Z.to_euclidean_division_equations. lia.
Qed.
(** The place of element [index]: tile coordinates and local address. *)
Lemma bsg_tile_group_shared_ptr_sum c sz lc_sh index :
  wf_config c -> 0 <= index -> 0 < sz -> 0 <= lc_sh ->
  lc_sh + sz * (index / (bsg_tiles_X c * bsg_tiles_Y c)) < 2 ^ 18 ->
  bsg_tile_group_shared_ptr c sz lc_sh index =
    bsg_remote_ptr (index mod bsg_tiles_X c) ((index / bsg_tiles_X c) mod bsg_tiles_Y c)
      (lc_sh + sz * (index / (bsg_tiles_X c * bsg_tiles_Y c))).
Proof.
  intros (HX & HY & _) Hi Hsz Hlc Hfit. unfold bsg_tile_group_shared_ptr.
  assert (0 <= index / bsg_tiles_X c) by (apply Z.div_pos; lia).
  assert (0 <= index / (bsg_tiles_X c * bsg_tiles_Y c)) by (apply Z.div_pos; nia).
  rewrite !Z.quot_div_nonneg, !Z.rem_mod_nonneg by nia.
  rewrite u32_id; [done|]. unfold is_u32. nia.
Qed.

(** C26 (safety).  A tile-group shared array: every element of an array of [size] elements
    is placed on a tile of the group, inside the part of the array that
    [bsg_tile_group_shared_mem] declares there, and no two elements share a place. *)
Theorem shared_array_placement c sz lc_sh size i j :
  wf_config c -> 0 < sz -> 0 <= lc_sh -> 0 <= i < size -> 0 <= j < size ->
  lc_sh + sz * bsg_tile_group_shared_mem c size <= 2 ^ 18 ->
  (exists x y k, bsg_tile_group_shared_ptr c sz lc_sh i = bsg_remote_ptr x y (lc_sh + sz * k) /\
     0 <= x < bsg_tiles_X c /\ 0 <= y < bsg_tiles_Y c /\
     0 <= k < bsg_tile_group_shared_mem c size) /\
  (bsg_tile_group_shared_ptr c sz lc_sh i = bsg_tile_group_shared_ptr c sz lc_sh j -> i = j).
Proof.
  intros Hc Hsz Hlc Hi Hj Hfit. pose proof Hc as (HX & HY & _).
  set (X := bsg_tiles_X c) in *. set (Y := bsg_tiles_Y c) in *.
  assert (forall i, 0 <= i < size -> 0 <= i / (X * Y) < bsg_tile_group_shared_mem c size) as Hk.
  { intros k Hk. unfold bsg_tile_group_shared_mem. fold X Y.
    rewrite Z.quot_div_nonneg by nia. split; [apply Z.div_pos; nia|].
    apply Z.lt_le_trans with (k / (X * Y) + 1); [lia|].
    rewrite <-Z.div_add by nia. apply Z.div_le_mono; nia. }
  pose proof (Hk i Hi). pose proof (Hk j Hj).
  rewrite !bsg_tile_group_shared_ptr_sum by (fold X Y; nia || done). fold X Y.
  split.
  - exists (i mod X), ((i / X) mod Y), (i / (X * Y)). split; [done|].
    split_and!; try lia; apply Z.mod_pos_bound; lia.
  - intros E. assert (0 <= i mod X < X /\ 0 <= j mod X < X) as [??]
      by (split; apply Z.mod_pos_bound; lia).
    assert (0 <= (i / X) mod Y < Y /\ 0 <= (j / X) mod Y < Y) as [??]
      by (split; apply Z.mod_pos_bound; lia).
    apply bsg_remote_ptr_inj in E as (E1 & E2 & E3); [|nia..].
    apply Z.add_reg_l, Z.mul_reg_l in E3; [|lia]. rewrite <-!Z.div_div in E3 by lia.
    rewrite (Z.div_mod i X), (Z.div_mod j X) by lia. rewrite E1. f_equal. f_equal.
    rewrite (Z.div_mod (i / X) Y), (Z.div_mod (j / X) Y) by lia. by rewrite E2, E3.
Qed.

Lemma shared_array_placement_witness :
  (exists x y k, bsg_tile_group_shared_ptr config_4x4 4 0x100 37 =
       bsg_remote_ptr x y (0x100 + 4 * k) /\
     0 <= x < 4 /\ 0 <= y < 4 /\ 0 <= k < bsg_tile_group_shared_mem config_4x4 100) /\
  (bsg_tile_group_shared_ptr config_4x4 4 0x100 37 =
     bsg_tile_group_shared_ptr config_4x4 4 0x100 53 -> 37 = 53).
Proof.
  apply (shared_array_placement config_4x4 4 0x100 100 37 53); try lia.
  - repeat split; simpl; lia.
  - vm_compute. discriminate.
Defined.
End decode.

(** ** DRAM striping *)

(** The bank of a DRAM word, its row index and the bank after hashing. *)
Definition bank_of (u : eva_unit) (q : Z) : Z := q mod 2 ^ (x_subcord_width u + 1).
Definition index_of (u : eva_unit) (q : Z) : Z :=
  (q / 2 ^ (x_subcord_width u + 1)) mod 2 ^ (28 - x_subcord_width u).
Definition new_bank_of (u : eva_unit) (q : Z) : Z :=
  match new_bank_id u with Some f => f (index_of u q) (bank_of u q) | None => bank_of u q end.

Section dram.
Context (u : eva_unit).
Context (Hw : 0 <= x_subcord_width u <= 27) (Hy : 0 < y_subcord_width u).
#[local] Abbreviation w := (x_subcord_width u).

Lemma bank_index_word q : 2 ^ 29 <= q < 2 ^ 30 ->
  q - 2 ^ 29 = bank_of u q + 2 ^ (w + 1) * index_of u q.
Proof.
  intros Hq. unfold bank_of, index_of. rewrite <-Z.rem_mul_r by lia.
  rewrite <-Z.pow_add_r by (lia). replace (w + 1 + (28 - w)) with 29 by lia.
  norm_pow2. Z.to_euclidean_division_equations. lia.
Qed.

Lemma dram_hash_fields eva :
  0 <= eva -> dram_hash u eva =
  let new_bank := new_bank_of u (eva / 4) in
  let new_y := slice new_bank w 1 in
  {| y_cord := concat (y_subcord_width u)
       (trunc (pod_y_cord_width u) (if new_y =? 1 then pod_y u + 1 else pod_y u - 1))
       (if new_y =? 1 then 0 else Z.ones (y_subcord_width u));
     x_cord := concat w (pod_x u) (slice new_bank 0 w);
     epa := index_of u (eva / 4) |}.
Proof.
  intros Heva. unfold dram_hash.
  assert (forall k, 0 <= k -> eva / 2 ^ (2 + k) = eva / 4 / 2 ^ k) as Hsh.
  { intros k Hk. rewrite Z.div_div by lia. f_equal. by rewrite Z.pow_add_r by lia. }
  assert (concat w (slice eva (2 + w) 1) (slice eva 2 w) = bank_of u (eva / 4)) as Ebank.
  { unfold concat, bank_of. rewrite !slice_div_mod by (lia).
    rewrite Hsh by (lia). rewrite Z.pow_add_r by (lia).
    rewrite Z.rem_mul_r by (lia). change (2 ^ 2) with 4. change (2 ^ 1) with 2. lia. }
  assert (slice eva (2 + w + 1) (32 - 1 - 2 - w - 1) = index_of u (eva / 4)) as Eidx.
  { unfold index_of. rewrite slice_div_mod by (lia).
    replace (2 + w + 1) with (2 + (w + 1)) by lia. rewrite Hsh by (lia).
    do 2 f_equal. lia. }
  rewrite Ebank, Eidx. done.
Qed.

Lemma slice_split_inj b b' :
  0 <= b < 2 ^ (w + 1) -> 0 <= b' < 2 ^ (w + 1) ->
  slice b 0 w = slice b' 0 w -> slice b w 1 = slice b' w 1 -> b = b'.
Proof.
  assert (forall b, 0 <= b < 2 ^ (w + 1) -> b = slice b 0 w + 2 ^ w * slice b w 1) as Hb.
  { intros k Hk. rewrite !slice_div_mod by (lia). change (2 ^ 0) with 1.
    rewrite Z.div_1_r, <-Z.rem_mul_r by (lia). rewrite <-Z.pow_add_r by (lia).
    by rewrite Z.mod_small. }
  intros H1 H2 E1 E2. rewrite (Hb b), (Hb b') by done. by rewrite E1, E2.
Qed.
Lemma new_bank_range q : bank_permutation u -> 0 <= new_bank_of u q < 2 ^ (w + 1).
Proof.
  intros Hperm. assert (0 <= bank_of u q < 2 ^ (w + 1)) by (apply Z.mod_pos_bound; lia).
  unfold new_bank_of. unfold bank_permutation in Hperm. 
  destruct (new_bank_id u); [by apply Hperm|done].
Qed.

(** The row bit can be read off the y coordinate. *)
Lemma y_cord_bit b b' :
  let y b := concat (y_subcord_width u)
       (trunc (pod_y_cord_width u) (if slice b w 1 =? 1 then pod_y u + 1 else pod_y u - 1))
       (if slice b w 1 =? 1 then 0 else Z.ones (y_subcord_width u)) in
  y b = y b' -> slice b w 1 = slice b' w 1.
Proof.
  unfold concat. simpl. rewrite !Z.ones_equiv. intros E.
  assert (forall b, slice b w 1 = 0 \/ slice b w 1 = 1) as Hbit.
  { intros k. rewrite slice_div_mod by (lia). change (2 ^ 1) with 2.
    pose proof (Z.mod_pos_bound (k / 2 ^ w) 2). lia. }
  assert (2 ^ y_subcord_width u = 2 * 2 ^ (y_subcord_width u - 1)) as E2.
  { rewrite <-(Z.pow_succ_r 2) by lia. f_equal. lia. }
  destruct (Hbit b) as [Hb|Hb], (Hbit b') as [Hb'|Hb']; rewrite Hb, Hb' in *; simpl in E;
    try done; nia.
Qed.
End dram.

(** Two DRAM addresses are served by the same bank and row exactly when they
    lie in the same word: the bank hash, IPOLY or default, loses no memory and never makes
    two words collide. *)
Lemma dram_words u a b :
  0 <= x_subcord_width u <= 27 -> 0 < y_subcord_width u -> bank_permutation u ->
  0 <= a < 2 ^ 31 -> 0 <= b < 2 ^ 31 ->
  eva_to_npa u (bsg_dram_ptr a) = eva_to_npa u (bsg_dram_ptr b) <-> a / 4 = b / 4.
Proof.
  intros Hw Hy Hperm Ha Hb. rewrite !bsg_dram_ptr_sum by done. unfold eva_to_npa.
  replace (slice (2147483648 + a) 31 1) with 1 by slice_lia.
  replace (slice (2147483648 + b) 31 1) with 1 by slice_lia. simpl.
  rewrite !dram_hash_fields by lia.
  assert (forall c, 0 <= c < 2 ^ 31 ->
    (2147483648 + c) / 4 - 2 ^ 29 = c / 4 /\ 2 ^ 29 <= (2147483648 + c) / 4 < 2 ^ 30) as Hq.
  { intros c Hc. norm_pow2. Z.to_euclidean_division_equations. lia. }
  destruct (Hq a Ha) as [<- Hqa], (Hq b Hb) as [<- Hqb]. clear Hq.
  set (qa := (2147483648 + a) / 4) in *. set (qb := (2147483648 + b) / 4) in *.
  split; [|intros E; by replace qa with qb by lia].
  intros E. injection E as Ex Ey Ei. unfold concat in Ex, Ey.
  rewrite !(bank_index_word u Hw) by done. rewrite Ei.
  f_equal. set (w := x_subcord_width u) in *.   assert (forall q, 0 <= q mod 2 ^ (w + 1) < 2 ^ (w + 1)) as Hbk
    by (intros; apply Z.mod_pos_bound; lia).
  assert (new_bank_of u qa = new_bank_of u qb) as Enew.
  { apply (slice_split_inj u Hw);
      [by apply new_bank_range|by apply new_bank_range|by apply Z.add_reg_l in Ex
      |by apply (y_cord_bit u Hw Hy) in Ey]. }
  unfold new_bank_of in Enew. unfold bank_permutation in Hperm.
  destruct (new_bank_id u) as [f|]; [|done]. rewrite Ei in Enew.
  by apply (Hperm _ _ (Hbk qa)) in Enew; [|apply Hbk].
Qed.

(** The 16x8 pod with an XOR hash in the place of IPOLY. *)
Definition unit_xor : eva_unit :=
  {| addr_width := 28; x_cord_width := 7; y_cord_width := 7; pod_x_cord_width := 3;
     pod_y_cord_width := 4; x_subcord_width := 4; y_subcord_width := 3; tgo_x := 0;
     tgo_y := 0; pod_x := 1; pod_y := 2;
     new_bank_id := Some (fun i b => Z.lxor b (i mod 32)) |}.

Lemma unit_xor_permutes : bank_permutation unit_xor.
Proof.
  intros i b Hb. change (2 ^ (x_subcord_width unit_xor + 1)) with (2 ^ 5) in *.
  pose proof (Z.mod_pos_bound i (2 ^ 5) eq_refl) as Hi. split.
  - apply (lxor_small b (i mod 2 ^ 5) 5); [lia|done|done].
  - intros b' _ E. apply (f_equal (fun z => Z.lxor z (i mod 32))) in E.
    by rewrite !Z.lxor_assoc, Z.lxor_nilpotent, !Z.lxor_0_r in E.
Qed.

(** No two pointers are equal, and no two words share a place in a bank. *)
Lemma distinct_pointers :
  (forall x y a x' y' a' d,
     0 <= x < 64 -> 0 <= y < 32 -> 0 <= a < 2 ^ 18 -> 0 <= d < 2 ^ 31 ->
     bsg_remote_ptr x y a <> bsg_dram_ptr d /\
     (0 <= x' < 128 -> 0 <= y' < 128 -> 0 <= a' < 2 ^ 16 ->
        bsg_remote_ptr x y a <> bsg_global_ptr x' y' a' /\
        bsg_global_ptr x' y' a' <> bsg_dram_ptr d) /\
     (0 <= x' < 64 -> 0 <= y' < 32 -> 0 <= a' < 2 ^ 18 ->
        bsg_remote_ptr x y a = bsg_remote_ptr x' y' a' -> x = x' /\ y = y' /\ a = a')) /\
  (forall u a b,
     0 <= x_subcord_width u <= 27 -> 0 < y_subcord_width u -> bank_permutation u ->
     0 <= a < 2 ^ 31 -> 0 <= b < 2 ^ 31 ->
     eva_to_npa u (bsg_dram_ptr a) = eva_to_npa u (bsg_dram_ptr b) <-> a / 4 = b / 4).
Proof.
  split; [|intros u a b; by apply dram_words]. intros x y a x' y' a' d Hx Hy Ha Hd.
  rewrite bsg_dram_ptr_sum by done.
  split_and!; [rewrite bsg_remote_ptr_sum by done; lia| |]; intros Hx' Hy' Ha'.
  - rewrite bsg_remote_ptr_sum, bsg_global_ptr_sum by done. lia.
  - by apply bsg_remote_ptr_inj.
Qed.

(** C25 (roundtrip).  The three kinds of pointer to a tile are decoded to what they were built from:
    a tile-group pointer to the tile at the given offset from the group's origin and the word of
    the byte address, as long as the group fits in the pod; a global pointer to the coordinate
    itself, whatever tile uses it; a pod pointer to the compute array of the pod, so that distinct
    pods and subcoordinates reach distinct tiles.

    And no two pointers alias: tile-group, global and DRAM pointers are pairwise different, and a
    tile-group pointer determines its tile and local address.  Two DRAM addresses are served by
    the same bank and row exactly when they lie in the same word: the bank hash, IPOLY or default,
    loses no memory and never makes two words collide. *)
Theorem pointers_decode :
  (forall u x y a, 0 <= a -> 0 <= x -> 0 <= y ->
  (x < 64 -> y < 32 -> a < 2 ^ 18 ->
   0 <= tgo_x u -> x + tgo_x u < 2 ^ x_subcord_width u ->
   0 <= tgo_y u -> y + tgo_y u < 2 ^ y_subcord_width u ->
   eva_to_npa u (bsg_remote_ptr x y a) =
     Some {| x_cord := pod_x u * 2 ^ x_subcord_width u + (tgo_x u + x);
             y_cord := pod_y u * 2 ^ y_subcord_width u + (tgo_y u + y);
             epa := a / 4 |}) /\
  (x < 128 -> y < 128 -> a < 2 ^ 16 -> x < 2 ^ x_cord_width u -> y < 2 ^ y_cord_width u ->
   eva_to_npa u (bsg_global_ptr x y a) = Some {| x_cord := x; y_cord := y; epa := a / 4 |}) /\
  (forall c px py, 0 <= px -> 0 <= py -> x < bsg_global_X c -> y < bsg_global_Y c ->
   (px + 1) * bsg_global_X c + x < Z.min 128 (2 ^ x_cord_width u) ->
   (1 + py * 2) * bsg_global_Y c + y < Z.min 128 (2 ^ y_cord_width u) -> a < 2 ^ 16 ->
   exists n, eva_to_npa u (bsg_global_pod_ptr c px py x y a) = Some n /\
     epa n = a / 4 /\
     x_cord n / bsg_global_X c = px + 1 /\ x_cord n mod bsg_global_X c = x /\
     y_cord n / bsg_global_Y c = 1 + 2 * py /\ y_cord n mod bsg_global_Y c = y)) /\
  (forall x y a x' y' a' d,
     0 <= x < 64 -> 0 <= y < 32 -> 0 <= a < 2 ^ 18 -> 0 <= d < 2 ^ 31 ->
     bsg_remote_ptr x y a <> bsg_dram_ptr d /\
     (0 <= x' < 128 -> 0 <= y' < 128 -> 0 <= a' < 2 ^ 16 ->
        bsg_remote_ptr x y a <> bsg_global_ptr x' y' a' /\
        bsg_global_ptr x' y' a' <> bsg_dram_ptr d) /\
     (0 <= x' < 64 -> 0 <= y' < 32 -> 0 <= a' < 2 ^ 18 ->
        bsg_remote_ptr x y a = bsg_remote_ptr x' y' a' -> x = x' /\ y = y' /\ a = a')) /\
  (forall u a b,
     0 <= x_subcord_width u <= 27 -> 0 < y_subcord_width u -> bank_permutation u ->
     0 <= a < 2 ^ 31 -> 0 <= b < 2 ^ 31 ->
     eva_to_npa u (bsg_dram_ptr a) = eva_to_npa u (bsg_dram_ptr b) <-> a / 4 = b / 4).
Proof.
  split; [exact tile_pointers_decode|exact distinct_pointers].
Qed.

Lemma pointers_decode_witness :
  eva_to_npa unit_16x8 (bsg_remote_ptr 3 2 0x1004) =
    Some {| x_cord := 1 * 2 ^ 4 + (2 + 3); y_cord := 2 * 2 ^ 3 + (1 + 2); epa := 0x1004 / 4 |} /\
  eva_to_npa unit_16x8 (bsg_global_ptr 16 0 0xEAD0) =
    Some {| x_cord := 16; y_cord := 0; epa := 0xEAD0 / 4 |} /\
  (exists n, eva_to_npa unit_16x8 (bsg_global_pod_ptr config_4x4 1 2 3 4 0x10) = Some n /\
    epa n = 0x10 / 4 /\
    x_cord n / 16 = 1 + 1 /\ x_cord n mod 16 = 3 /\
    y_cord n / 8 = 1 + 2 * 2 /\ y_cord n mod 8 = 4) /\
  bsg_remote_ptr 1 2 0x40 <> bsg_global_ptr 1 2 0x44 /\
  (eva_to_npa unit_xor (bsg_dram_ptr 0x1234) = eva_to_npa unit_xor (bsg_dram_ptr 0x1235)
   <-> 0x1234 / 4 = 0x1235 / 4).
Proof.
  destruct pointers_decode as (Hdec & Hp & Hd). split_and!.
  - apply (Hdec unit_16x8 3 2 0x1004); simpl; lia.
  - apply (Hdec unit_16x8 16 0 0xEAD0); simpl; lia.
  - apply (Hdec unit_16x8 3 4 0x10) with (c := config_4x4); simpl; lia.
  - apply (Hp 1 2 0x40 1 2 0x44 0x40); lia.
  - apply (Hd unit_xor 0x1234 0x1235); simpl; try lia. exact unit_xor_permutes.
Defined.
