(* ===== verification/Striped.v ===== *)
(** * Arrays striped over a tile group

    [Module StripedArray] is the class [TileGroupStripedArray] of [bsg_striped_array.hpp];
    [Module Strider] the pointer that walks over the tiles of a group of
    [bsg_group_strider.hpp], with the test [strider]; [Module Pass] the run-time of the
    compiler pass, [bsg_tilegroup.h], on a memory of bytes; which byte an address names is a
    parameter, since a tile's own memory has local and remote addresses.

    [bsg_tilegroup.h] builds its pointers with macros that no header of the tree defines; they
    are parameters of [Module Pass]. *)

From S2P Require Import Prelude Arch Eva.
Local Open Scope Z_scope.

Module StripedArray.
Section array.
Variable c : config.
Variables SIZE TG_DIM_X TG_DIM_Y STRIPE_SIZE : Z.
Variables sizeof_TYPE data : Z.       (* the size of an element, the local address of [_data] *)

(** [size_t] has 32 bits. *)
Definition TILES : Z := u32 (TG_DIM_X * TG_DIM_Y).
Definition STRIPES : Z := u32 (SIZE / STRIPE_SIZE + SIZE mod STRIPE_SIZE).
Definition STRIPES_PER_TILE : Z := u32 (STRIPES / TILES + if STRIPES mod TILES =? 0 then 0 else 1).
Definition ELEMENTS_PER_TILE : Z := u32 (STRIPES_PER_TILE * STRIPE_SIZE).

Definition _stripe (i : Z) : Z := i / STRIPE_SIZE.
Definition _word_in_stripe (i : Z) : Z := i mod STRIPE_SIZE.
Definition _tile (stripe : Z) : Z := stripe mod TILES.
Definition _stripe_in_tile (stripe : Z) : Z := stripe / TILES.

(** The index into [_data], and the pointer. *)
Definition local_index (i : Z) : Z :=
  u32 (_stripe_in_tile (_stripe i) * STRIPE_SIZE + _word_in_stripe i).

Definition _address (i : Z) : Z :=
  bsg_remote_ptr (bsg_id_to_x c (_tile (_stripe i))) (bsg_id_to_y c (_tile (_stripe i)))
    (data + sizeof_TYPE * local_index i).

(** What the class relies on: the template's group is the program's, and the local part fits in
    the local memory. *)
Hypothesis wf : wf_config c.
Hypothesis dim_x : TG_DIM_X = bsg_tiles_X c.
Hypothesis dim_y : TG_DIM_Y = bsg_tiles_Y c.
Hypothesis size_range : 0 <= SIZE < 2 ^ 31.
Hypothesis stripe_range : 0 < STRIPE_SIZE < 2 ^ 31.
Hypothesis type_range : 0 < sizeof_TYPE.
Hypothesis data_range : 0 <= data.
Hypothesis fits : data + sizeof_TYPE * (STRIPES_PER_TILE * STRIPE_SIZE) <= 2 ^ 18.

Lemma tiles_eq : TILES = bsg_tiles_X c * bsg_tiles_Y c /\ 0 < TILES <= 4096.
Proof using wf dim_x dim_y.
  unfold TILES. destruct wf as (HX & HY & _). subst. rewrite u32_id; [nia|unfold is_u32; nia].
Qed.

Lemma stripes_eq : STRIPES = SIZE / STRIPE_SIZE + SIZE mod STRIPE_SIZE.
Proof using size_range stripe_range.
  unfold STRIPES. apply u32_id. unfold is_u32.
  pose proof (Z.div_mod SIZE STRIPE_SIZE ltac:(lia)).
  pose proof (Z.mod_pos_bound SIZE STRIPE_SIZE ltac:(lia)).
  assert (0 <= SIZE / STRIPE_SIZE) by (apply Z.div_pos; lia). nia.
Qed.

Lemma per_tile_eq : STRIPES_PER_TILE = (STRIPES + TILES - 1) / TILES /\
  0 <= STRIPES_PER_TILE * STRIPE_SIZE <= 2 ^ 18 /\ ELEMENTS_PER_TILE = STRIPES_PER_TILE * STRIPE_SIZE.
Proof using wf dim_x dim_y size_range stripe_range type_range data_range fits.
  destruct tiles_eq as [_ HT]. assert (0 <= STRIPES) as HS by (unfold STRIPES, u32; by apply Z.mod_pos_bound).
  assert (0 <= STRIPES_PER_TILE) as HP by (unfold STRIPES_PER_TILE, u32; by apply Z.mod_pos_bound).
  assert (0 <= STRIPES_PER_TILE * STRIPE_SIZE <= 2 ^ 18) as HE by nia.
  split_and!; [|lia|lia|unfold ELEMENTS_PER_TILE; apply u32_id; unfold is_u32; lia].
  unfold STRIPES_PER_TILE. assert (STRIPES < 2 ^ 32) by (unfold STRIPES, u32; by apply Z.mod_pos_bound).
  assert (STRIPES / TILES + (if STRIPES mod TILES =? 0 then 0 else 1) = (STRIPES + TILES - 1) / TILES) as E.
  { pose proof (Z.div_mod STRIPES TILES ltac:(lia)). pose proof (Z.mod_pos_bound STRIPES TILES ltac:(lia)).
    destruct (Z.eqb_spec (STRIPES mod TILES) 0) as [E0|E0].
    - apply (Z.div_unique_pos _ _ _ (TILES - 1)); lia.
    - apply (Z.div_unique_pos _ _ _ (STRIPES mod TILES - 1)); lia. }
  rewrite E. apply u32_id. unfold is_u32. split; [apply Z.div_pos; lia|].
  destruct (decide (TILES = 1)) as [->|]; [rewrite Z.div_1_r; lia|].
  apply Z.div_lt_upper_bound; nia.
Qed.

(** The local place of element [i], and who has it. *)
Lemma element_place i : 0 <= i < SIZE ->
  local_index i = i / STRIPE_SIZE / TILES * STRIPE_SIZE + i mod STRIPE_SIZE /\
  0 <= local_index i < ELEMENTS_PER_TILE.
Proof using wf dim_x dim_y size_range stripe_range type_range data_range fits.
  intros Hi. destruct tiles_eq as [_ HT]. destruct per_tile_eq as (EP & HE & ->). rewrite EP in *.
  pose proof stripes_eq as ES. pose proof (Z.mod_pos_bound i STRIPE_SIZE ltac:(lia)) as Hm.
  assert (0 <= i / STRIPE_SIZE < STRIPES) as Hs.
  { split; [apply Z.div_pos; lia|]. rewrite ES. pose proof (Z.div_mod SIZE STRIPE_SIZE ltac:(lia)).
    pose proof (Z.mod_pos_bound SIZE STRIPE_SIZE ltac:(lia)).
    destruct (decide (SIZE mod STRIPE_SIZE = 0)) as [E0|E0]; [apply Z.div_lt_upper_bound; nia|].
    apply Z.lt_le_trans with (SIZE / STRIPE_SIZE + 1); [|lia]. apply Z.div_lt_upper_bound; nia. }
  assert (0 <= i / STRIPE_SIZE / TILES < (STRIPES + TILES - 1) / TILES) as Hq.
  { split; [apply Z.div_pos; lia|]. apply Z.lt_le_trans with (i / STRIPE_SIZE / TILES + 1); [lia|].
    rewrite <-Z.div_add by lia. apply Z.div_le_mono; lia. }
  assert (local_index i = i / STRIPE_SIZE / TILES * STRIPE_SIZE + i mod STRIPE_SIZE) as ->; [|split; [done|nia]].
  unfold local_index, _stripe_in_tile, _stripe, _word_in_stripe. apply u32_id. unfold is_u32. nia.
Qed.

Definition element_x (i : Z) : Z := (i / STRIPE_SIZE) mod TILES mod bsg_tiles_X c.
Definition element_y (i : Z) : Z := (i / STRIPE_SIZE) mod TILES / bsg_tiles_X c.

Lemma element_tile i : 0 <= i ->
  0 <= element_x i < bsg_tiles_X c /\ 0 <= element_y i < bsg_tiles_Y c /\
  _address i = bsg_remote_ptr (element_x i) (element_y i) (data + sizeof_TYPE * local_index i).
Proof using wf dim_x dim_y stripe_range.
  intros Hi. destruct tiles_eq as [ET HT]. destruct wf as (HX & HY & _).
  pose proof (Z.mod_pos_bound (i / STRIPE_SIZE) TILES ltac:(lia)) as Hm. unfold element_x, element_y.
  split; [apply Z.mod_pos_bound; lia|]. split.
  - split; [apply Z.div_pos; lia|]. apply Z.div_lt_upper_bound; lia.
  - unfold _address, bsg_id_to_x, bsg_id_to_y, _tile, _stripe.
    by rewrite Z.rem_mod_nonneg, Z.quot_div_nonneg by lia.
Qed.
Lemma element_range i : 0 <= i < SIZE -> 0 <= data + sizeof_TYPE * local_index i < 2 ^ 18.
Proof using wf dim_x dim_y size_range stripe_range type_range data_range fits.
  intros Hi. destruct (element_place i Hi) as [_ Hp]. destruct per_tile_eq as (_ & HE & EE). nia.
Qed.

Lemma element_decodes u i : 0 <= i < SIZE ->
  0 <= tgo_x u -> bsg_tiles_X c + tgo_x u <= 2 ^ x_subcord_width u ->
  0 <= tgo_y u -> bsg_tiles_Y c + tgo_y u <= 2 ^ y_subcord_width u ->
  exists x y, 0 <= x < bsg_tiles_X c /\ 0 <= y < bsg_tiles_Y c /\
    bsg_x_y_to_id c x y = (i / STRIPE_SIZE) mod (bsg_tiles_X c * bsg_tiles_Y c) /\
    eva_to_npa u (_address i) =
      Some {| x_cord := pod_x u * 2 ^ x_subcord_width u + (tgo_x u + x);
              y_cord := pod_y u * 2 ^ y_subcord_width u + (tgo_y u + y);
              epa := (data + sizeof_TYPE * local_index i) / 4 |}.
Proof using wf dim_x dim_y size_range stripe_range type_range data_range fits.
  intros Hi ????. destruct (element_tile i ltac:(lia)) as (Hx & Hy & E). destruct tiles_eq as [ET HT].
  pose proof wf as (HX & HY & _). exists (element_x i), (element_y i). split_and!; try lia.
  - unfold bsg_x_y_to_id, element_x, element_y. rewrite ET, <-Z.div_mod by lia. done.
  - rewrite E. apply eva_to_npa_remote_ptr; try lia. by apply element_range.
Qed.

Lemma striped_next i : 0 <= i -> i + 1 < SIZE -> i / STRIPE_SIZE = (i + 1) / STRIPE_SIZE ->
  _address (i + 1) = _address i + sizeof_TYPE.
Proof using wf dim_x dim_y size_range stripe_range type_range data_range fits.
  intros Hi Hi1 Est. destruct (element_tile i Hi) as (Hx & Hy & E).
  destruct (element_tile (i + 1) ltac:(lia)) as (_ & _ & E1). pose proof wf as (HX & HY & _).
  assert (local_index (i + 1) = local_index i + 1) as Ep.
  { destruct (element_place i ltac:(lia)) as [-> _], (element_place (i + 1) ltac:(lia)) as [-> _].
    rewrite <-Est. pose proof (Z.div_mod i STRIPE_SIZE ltac:(lia)).
    pose proof (Z.div_mod (i + 1) STRIPE_SIZE ltac:(lia)) as E2. rewrite <-Est in E2. lia. }
  pose proof (element_range i ltac:(lia)). pose proof (element_range (i + 1) ltac:(lia)) as R1.
  rewrite E, E1, Ep in *. unfold element_x, element_y in *. rewrite <-Est.
  rewrite !bsg_remote_ptr_sum by lia. lia.
Qed.

Lemma element_inj i j : 0 <= i < SIZE -> 0 <= j < SIZE -> _address i = _address j -> i = j.
Proof using wf dim_x dim_y size_range stripe_range type_range data_range fits.
  intros Hi Hj E. destruct (element_tile i ltac:(lia)) as (Hxi & Hyi & Ei).
  destruct (element_tile j ltac:(lia)) as (Hxj & Hyj & Ej). destruct tiles_eq as [ET HT].
  pose proof (element_range i Hi). pose proof (element_range j Hj). pose proof wf as (HX & HY & _).
  rewrite Ei, Ej in E. apply bsg_remote_ptr_inj in E as (Ex & Ey & Ed); try lia.
  assert (local_index i = local_index j) as Ep by nia.
  destruct (element_place i Hi) as [Pi _], (element_place j Hj) as [Pj _]. rewrite Pi, Pj in Ep.
  pose proof (Z.mod_pos_bound i STRIPE_SIZE ltac:(lia)). pose proof (Z.mod_pos_bound j STRIPE_SIZE ltac:(lia)).
  assert (i / STRIPE_SIZE / TILES = j / STRIPE_SIZE / TILES /\ i mod STRIPE_SIZE = j mod STRIPE_SIZE) as [E1 E2]
    by (apply (Z.div_mod_unique STRIPE_SIZE); lia).
  assert ((i / STRIPE_SIZE) mod TILES = (j / STRIPE_SIZE) mod TILES) as E3.
  { unfold element_x, element_y in Ex, Ey.
    rewrite (Z.div_mod ((i / STRIPE_SIZE) mod TILES) (bsg_tiles_X c)),
      (Z.div_mod ((j / STRIPE_SIZE) mod TILES) (bsg_tiles_X c)) by lia. congruence. }
  rewrite (Z.div_mod i STRIPE_SIZE), (Z.div_mod j STRIPE_SIZE) by lia.
  rewrite (Z.div_mod (i / STRIPE_SIZE) TILES), (Z.div_mod (j / STRIPE_SIZE) TILES) by lia.
  congruence.
Qed.
End array.

(** C27 (safety).  The striped array: every element lies on a tile of the group, inside the part
    of the array that the class declares there; its pointer is decoded to that tile, the one whose
    id is the number of its stripe modulo the number of tiles; the elements of a stripe follow each
    other in the memory of one tile; and no two elements share a place. *)
Theorem striped_array_placement c SIZE STRIPE_SIZE sizeof_TYPE data u i j :
  let X := bsg_tiles_X c in let Y := bsg_tiles_Y c in
  let place := local_index X Y STRIPE_SIZE in
  let address := _address c X Y STRIPE_SIZE sizeof_TYPE data in
  wf_config c -> 0 <= SIZE < 2 ^ 31 -> 0 < STRIPE_SIZE < 2 ^ 31 -> 0 < sizeof_TYPE -> 0 <= data ->
  data + sizeof_TYPE * (STRIPES_PER_TILE SIZE X Y STRIPE_SIZE * STRIPE_SIZE) <= 2 ^ 18 ->
  0 <= tgo_x u -> X + tgo_x u <= 2 ^ x_subcord_width u ->
  0 <= tgo_y u -> Y + tgo_y u <= 2 ^ y_subcord_width u ->
  0 <= i < SIZE -> 0 <= j < SIZE ->
  0 <= place i < ELEMENTS_PER_TILE SIZE X Y STRIPE_SIZE /\
  (exists x y, 0 <= x < X /\ 0 <= y < Y /\ bsg_x_y_to_id c x y = (i / STRIPE_SIZE) mod (X * Y) /\
     eva_to_npa u (address i) =
       Some {| x_cord := pod_x u * 2 ^ x_subcord_width u + (tgo_x u + x);
               y_cord := pod_y u * 2 ^ y_subcord_width u + (tgo_y u + y);
               epa := (data + sizeof_TYPE * place i) / 4 |}) /\
  (i / STRIPE_SIZE = (i + 1) / STRIPE_SIZE -> i + 1 < SIZE -> address (i + 1) = address i + sizeof_TYPE) /\
  (address i = address j -> i = j).
Proof.
  intros X Y place address wf HS HT Hsz Hd Hfit Hox HoX Hoy HoY Hi Hj. split_and!.
  1-2: by apply (element_place c SIZE X Y STRIPE_SIZE sizeof_TYPE data).
  - by apply (element_decodes c SIZE X Y STRIPE_SIZE sizeof_TYPE data).
  - intros Est Hi1. apply (striped_next c SIZE X Y STRIPE_SIZE sizeof_TYPE data); done || lia.
  - by apply (element_inj c SIZE X Y STRIPE_SIZE sizeof_TYPE data).
Qed.

(** 100 words in stripes of three over a 4x4 group. *)
Lemma striped_array_placement_witness :
  let place := local_index 4 4 3 in let address := _address config_4x4 4 4 3 4 0x1000 in
  0 <= place 50 < ELEMENTS_PER_TILE 100 4 4 3 /\
  (exists x y, 0 <= x < 4 /\ 0 <= y < 4 /\ bsg_x_y_to_id config_4x4 x y = (50 / 3) mod (4 * 4) /\
     eva_to_npa unit_16x8 (address 50) =
       Some {| x_cord := 1 * 2 ^ 4 + (2 + x); y_cord := 2 * 2 ^ 3 + (1 + y);
               epa := (0x1000 + 4 * place 50) / 4 |}) /\
  (50 / 3 = (50 + 1) / 3 -> 50 + 1 < 100 -> address (50 + 1) = address 50 + 4) /\
  (address 50 = address 51 -> 50 = 51).
Proof.
  apply (striped_array_placement config_4x4 100 3 4 0x1000 unit_16x8 50 51);
    unfold wf_config; simpl; try lia. vm_compute. discriminate.
Defined.
End StripedArray.

Module Strider.
(** [bsg_tile_group_strider<TG_X, S_X, TG_Y, S_Y, T>]: a pointer, whose coordinate fields are
    stepped with the carry masked away. *)
Section strider.
Variables TG_X S_X TG_Y S_Y : Z.

Definition GROUP_X_COORD_SHIFT : Z := REMOTE_EPA_WIDTH.
Definition GROUP_Y_COORD_SHIFT : Z := GROUP_X_COORD_SHIFT + REMOTE_X_CORD_WIDTH.
Definition GROUP_PREFIX_SHIFT : Z := GROUP_Y_COORD_SHIFT + REMOTE_Y_CORD_WIDTH.

Definition MAKE_MASK (WIDTH : Z) : Z := u32 (u32 (Z.shiftl 1 WIDTH) - 1).

Definition Y_STRIDE : Z := u32 (1 <<i GROUP_Y_COORD_SHIFT)%c.
Definition X_STRIDE : Z := u32 (1 <<i GROUP_X_COORD_SHIFT)%c.

(** [log2] of a power of two is exact. *)
Definition Y_MASK : Z :=
  u32 (Z.lnot (u32 (Z.shiftl (MAKE_MASK (REMOTE_Y_CORD_WIDTH - Z.log2 TG_Y)) (Z.log2 TG_Y + GROUP_Y_COORD_SHIFT)))).
Definition X_MASK : Z :=
  u32 (Z.lnot (u32 (Z.shiftl (MAKE_MASK (REMOTE_X_CORD_WIDTH - Z.log2 TG_X)) (Z.log2 TG_X + GROUP_X_COORD_SHIFT)))).

(** The constructor, and [stride]: the new value of [ptr]. *)
Definition bsg_tile_group_strider (p x_off y_off : Z) : Z :=
  u32 ((1 <<i GROUP_PREFIX_SHIFT) .| (y_off <<i GROUP_Y_COORD_SHIFT) .| (x_off <<i GROUP_X_COORD_SHIFT) .| p)%c.

Definition stride (ptr : Z) : Z :=
  if S_X =? 0 then (u32 (ptr + Y_STRIDE) .& Y_MASK)%c
  else if S_Y =? 0 then (u32 (ptr + X_STRIDE) .& X_MASK)%c
  else (u32 ((u32 (ptr + X_STRIDE) .& X_MASK) + Y_STRIDE) .& Y_MASK)%c.
End strider.

(** [main] of the test, after the barrier, on tile (0,0); [load] reads a word through a pointer.
    [bsg_x] and [bsg_y] are the addresses of [__bsg_x] and [__bsg_y]; each loop returns [None]
    where the program calls [bsg_fail]. *)
Fixpoint stride_loop (n : nat) (i : Z) (load : Z -> Z) (step : Z -> Z) (expected : Z -> Z) (ptr : Z) :
    option Z :=
  match n with
  | O => Some ptr
  | S n =>
      let ptr := step ptr in
      if load ptr =? expected i then stride_loop n (i + 1) load step expected ptr else None
  end.

Definition main_passes (c : config) (bsg_x bsg_y : Z) (load : Z -> Z) : bool :=
  let X := bsg_tiles_X c in let Y := bsg_tiles_Y c in
  let stride_x := bsg_tile_group_strider bsg_x 0 0 in
  let stride_y := bsg_tile_group_strider bsg_y 0 0 in
  let stride_xy := bsg_tile_group_strider bsg_y 0 0 in
  match stride_loop (Z.to_nat Y) 1 load (stride X 0 Y 1) (fun i => Z.rem i Y) stride_y,
        stride_loop (Z.to_nat X) 1 load (stride X 1 Y 0) (fun i => Z.rem i X) stride_x,
        stride_loop (Z.to_nat (Z.min X Y - 1)) 1 load (stride X 1 Y 1) (fun i => i) stride_xy with
  | Some _, Some _, Some _ => true
  | _, _, _ => false
  end.

(** ** The masks *)

(** Clearing the bits [l] to [w - 1] of a field reduces it modulo [2 ^ l]. *)
Lemma land_mask hi f lo l w sh :
  0 <= l <= w -> 0 <= sh -> 0 <= f < 2 ^ w -> 0 <= lo < 2 ^ sh ->
  Z.land (hi * 2 ^ (sh + w) + f * 2 ^ sh + lo) (Z.lnot (Z.shiftl (Z.ones (w - l)) (l + sh))) =
  hi * 2 ^ (sh + w) + (f mod 2 ^ l) * 2 ^ sh + lo.
Proof.
  intros Hl Hsh Hf Hlo. set (p := hi * 2 ^ (sh + w) + f * 2 ^ sh + lo).
  set (k := l + sh). set (q := f / 2 ^ l). set (m := Z.shiftl (Z.ones (w - l)) k).
  assert (0 < 2 ^ l /\ 0 < 2 ^ sh /\ 0 < 2 ^ (w - l)) as (Hpl & Hps & Hpw)
    by (split_and!; apply Z.pow_pos_nonneg; lia).
  assert (2 ^ w = 2 ^ l * 2 ^ (w - l)) as Ew by (rewrite <-Z.pow_add_r by lia; f_equal; lia).
  assert (2 ^ k = 2 ^ l * 2 ^ sh) as Ek by (by rewrite <-Z.pow_add_r by lia).
  assert (2 ^ (sh + w) = 2 ^ k * 2 ^ (w - l)) as Esw by (rewrite <-Z.pow_add_r by lia; f_equal; lia).
  pose proof (Z.div_mod f (2 ^ l) ltac:(lia)) as Ef. pose proof (Z.mod_pos_bound f (2 ^ l) Hpl) as Hm.
  fold q in Ef. assert (0 <= q < 2 ^ (w - l)) as Hq.
  { split; [apply Z.div_pos; lia|]. apply Z.div_lt_upper_bound; lia. }
  assert (Z.shiftr p k = hi * 2 ^ (w - l) + q) as Ep.
  { rewrite Z.shiftr_div_pow2 by lia. symmetry.
    apply (Z.div_unique_pos _ _ _ ((f mod 2 ^ l) * 2 ^ sh + lo)); unfold p; rewrite ?Esw, ?Ek; nia. }
  assert (Z.land p m = 2 ^ k * q) as Em.
  { transitivity (Z.shiftl (Z.land (Z.shiftr p k) (Z.ones (w - l))) k).
    - apply Z.bits_inj'. intros i Hi. unfold m. rewrite Z.land_spec.
      destruct (Z.lt_ge_cases i k).
      + rewrite !Z.shiftl_spec_low by done. by rewrite andb_false_r.
      + rewrite !Z.shiftl_spec by done. rewrite Z.land_spec, Z.shiftr_spec by lia. do 2 f_equal. lia.
    - rewrite Ep, Z.land_ones, Z.shiftl_mul_pow2 by lia.
      rewrite (Z.add_comm (hi * _)), Z.mod_add, Z.mod_small by lia. lia. }
  assert (Z.land p (Z.lnot m) = p - Z.land p m) as ->.
  { rewrite Z.sub_nocarry_ldiff.
    - apply Z.bits_inj'. intros i Hi. rewrite !Z.ldiff_spec, !Z.land_spec, Z.lnot_spec by done.
      by destruct (Z.testbit p i), (Z.testbit m i).
    - apply Z.bits_inj'. intros i Hi. rewrite Z.ldiff_spec, Z.land_spec, Z.bits_0.
      by destruct (Z.testbit p i), (Z.testbit m i). }
  rewrite Em. unfold p. rewrite Ek. nia.
Qed.

Lemma land_u32_mask p m : 0 <= p < 2 ^ 32 -> Z.land p (u32 m) = Z.land p m.
Proof.
  intros Hp. change (u32 m) with (m mod 2 ^ 32). rewrite <-Z.land_ones, (Z.land_comm m), Z.land_assoc by lia.
  by rewrite Z.land_ones, (Z.mod_small p) by lia.
Qed.

Lemma MAKE_MASK_ones n : 0 <= n < 32 -> MAKE_MASK n = Z.ones n.
Proof.
  intros Hn. assert (0 < 2 ^ n < 2 ^ 32) by (split; [apply Z.pow_pos_nonneg; lia|apply Z.pow_lt_mono_r; lia]).
  unfold MAKE_MASK. rewrite Z.shiftl_1_l, (u32_id (2 ^ n)), Z.ones_equiv by (unfold is_u32; lia).
  apply u32_id. unfold is_u32. lia.
Qed.

Lemma clear_field hi f lo l w sh :
  0 <= l <= w -> 0 <= sh -> w + sh < 32 -> 0 <= f < 2 ^ w -> 0 <= lo < 2 ^ sh ->
  0 <= hi * 2 ^ (sh + w) + f * 2 ^ sh + lo < 2 ^ 32 ->
  Z.land (hi * 2 ^ (sh + w) + f * 2 ^ sh + lo) (u32 (Z.lnot (u32 (Z.shiftl (MAKE_MASK (w - l)) (l + sh))))) =
  hi * 2 ^ (sh + w) + (f mod 2 ^ l) * 2 ^ sh + lo.
Proof.
  intros Hl Hsh Hw Hf Hlo Hp. rewrite land_u32_mask, MAKE_MASK_ones by lia.
  rewrite (u32_id (Z.shiftl _ _)); [by apply land_mask|]. unfold is_u32.
  rewrite Z.shiftl_mul_pow2, Z.ones_equiv by lia.
  assert (0 < 2 ^ (w - l) /\ 0 < 2 ^ (l + sh)) as [??] by (split; apply Z.pow_pos_nonneg; lia).
  assert (2 ^ (w - l) * 2 ^ (l + sh) = 2 ^ (w + sh)) as E by (rewrite <-Z.pow_add_r by lia; f_equal; lia).
  assert (2 ^ (w + sh) < 4294967296) by (change 4294967296 with (2 ^ 32); apply Z.pow_lt_mono_r; lia).
  nia.
Qed.

Section steps.
Variables lx ly : Z.
Hypothesis lx_range : 0 <= lx < 6.
Hypothesis ly_range : 0 <= ly < 5.

Lemma pow_bounds : 1 <= 2 ^ lx <= 32 /\ 1 <= 2 ^ ly <= 16.
Proof using lx_range ly_range.
  split; (split; [apply (Z.pow_le_mono_r 2 0); lia|]).
  - change 32 with (2 ^ 5). apply Z.pow_le_mono_r; lia.
  - change 16 with (2 ^ 4). apply Z.pow_le_mono_r; lia.
Qed.

Lemma step_x x y a : 0 <= x < 2 ^ lx -> 0 <= y < 32 -> 0 <= a < 2 ^ 18 ->
  Z.land (u32 (bsg_remote_ptr x y a + X_STRIDE)) (X_MASK (2 ^ lx)) = bsg_remote_ptr ((x + 1) mod 2 ^ lx) y a.
Proof using lx_range ly_range.
  intros Hx Hy Ha. destruct pow_bounds. pose proof (Z.mod_pos_bound (x + 1) (2 ^ lx) ltac:(lia)).
  rewrite !bsg_remote_ptr_sum by lia. change X_STRIDE with 262144. rewrite u32_id by (unfold is_u32; lia).
  unfold X_MASK. rewrite Z.log2_pow2 by lia.
  pose proof (clear_field (32 + y) (x + 1) a lx 6 18 ltac:(lia) ltac:(lia) ltac:(lia) ltac:(lia) ltac:(lia) ltac:(lia)) as E.
  change GROUP_X_COORD_SHIFT with 18. change REMOTE_X_CORD_WIDTH with 6. change (2 ^ (18 + 6)) with 16777216 in E.
  change (2 ^ 18) with 262144 in E. 
  replace (536870912 + y * 16777216 + x * 262144 + a + 262144)
    with ((32 + y) * 16777216 + (x + 1) * 262144 + a) by lia. rewrite E. lia.
Qed.

Lemma step_y x y a : 0 <= x < 64 -> 0 <= y < 2 ^ ly -> 0 <= a < 2 ^ 18 ->
  Z.land (u32 (bsg_remote_ptr x y a + Y_STRIDE)) (Y_MASK (2 ^ ly)) = bsg_remote_ptr x ((y + 1) mod 2 ^ ly) a.
Proof using lx_range ly_range.
  intros Hx Hy Ha. destruct pow_bounds. pose proof (Z.mod_pos_bound (y + 1) (2 ^ ly) ltac:(lia)).
  rewrite !bsg_remote_ptr_sum by lia. change Y_STRIDE with 16777216. rewrite u32_id by (unfold is_u32; lia).
  unfold Y_MASK. rewrite Z.log2_pow2 by lia.
  pose proof (clear_field 1 (y + 1) (x * 262144 + a) ly 5 24 ltac:(lia) ltac:(lia) ltac:(lia) ltac:(lia) ltac:(lia) ltac:(lia)) as E.
  change GROUP_Y_COORD_SHIFT with 24. change REMOTE_Y_CORD_WIDTH with 5. change (2 ^ (24 + 5)) with 536870912 in E.
  change (2 ^ 24) with 16777216 in E.
  replace (536870912 + y * 16777216 + x * 262144 + a + 16777216)
    with (1 * 536870912 + (y + 1) * 16777216 + (x * 262144 + a)) by lia. rewrite E. lia.
Qed.

Lemma strider_ptr p x y : 0 <= x < 64 -> 0 <= y < 32 -> 0 <= p < 2 ^ 18 ->
  bsg_tile_group_strider p x y = bsg_remote_ptr x y p.
Proof using.
  intros. unfold bsg_tile_group_strider, bsg_remote_ptr. by rewrite (i32_id p) by (unfold is_i32; lia).
Qed.

(** [n] strides in a row. *)
Lemma stride_loop_runs (n : nat) i load step expected (at_ : Z -> Z) :
  (forall k, i - 1 <= k < i - 1 + Z.of_nat n -> step (at_ k) = at_ (k + 1) /\ load (at_ (k + 1)) = expected (k + 1)) ->
  stride_loop n i load step expected (at_ (i - 1)) = Some (at_ (i - 1 + Z.of_nat n)).
Proof using.
  revert i. induction n as [|n IH]; intros i H; [by rewrite Z.add_0_r|]. cbn [stride_loop].
  destruct (H (i - 1) ltac:(lia)) as [-> Hl]. rewrite Z.sub_add in *. rewrite Hl, Z.eqb_refl.
  replace (at_ i) with (at_ (i + 1 - 1)) by (f_equal; lia). rewrite IH by (intros; apply H; lia).
  do 2 f_equal. lia.
Qed.
End steps.

(** C28 (functional).  The strider: on a group whose dimensions are powers of two, at most 32 by 16 (the
    coordinate field has one bit more), a stride leads from a tile to the next one in its row, in its
    column or diagonally, back to 0 at the edge of the group, and never touches the local address
    or the prefix.  The test [strider] passes, where the words its tiles are read at hold their own
    coordinates. *)
Theorem strider_steps lx ly :
  0 <= lx < 6 -> 0 <= ly < 5 ->
  (forall S x y a, S <> 0 -> 0 <= x < 2 ^ lx -> 0 <= y < 2 ^ ly -> 0 <= a < 2 ^ 18 ->
     stride (2 ^ lx) S (2 ^ ly) 0 (bsg_remote_ptr x y a) = bsg_remote_ptr ((x + 1) mod 2 ^ lx) y a /\
     stride (2 ^ lx) 0 (2 ^ ly) S (bsg_remote_ptr x y a) = bsg_remote_ptr x ((y + 1) mod 2 ^ ly) a /\
     stride (2 ^ lx) S (2 ^ ly) S (bsg_remote_ptr x y a) =
       bsg_remote_ptr ((x + 1) mod 2 ^ lx) ((y + 1) mod 2 ^ ly) a) /\
  (forall c bsg_x bsg_y load,
     bsg_tiles_X c = 2 ^ lx -> bsg_tiles_Y c = 2 ^ ly -> 0 <= bsg_x < 2 ^ 18 -> 0 <= bsg_y < 2 ^ 18 ->
     (forall x y, 0 <= x < 2 ^ lx -> 0 <= y < 2 ^ ly ->
        load (bsg_remote_ptr x y bsg_x) = x /\ load (bsg_remote_ptr x y bsg_y) = y) ->
     main_passes c bsg_x bsg_y load = true).
Proof.
  intros Hlx Hly. destruct (pow_bounds lx ly Hlx Hly) as [Hpx Hpy].
  assert (forall S x y a, S <> 0 -> 0 <= x < 2 ^ lx -> 0 <= y < 2 ^ ly -> 0 <= a < 2 ^ 18 ->
     stride (2 ^ lx) S (2 ^ ly) 0 (bsg_remote_ptr x y a) = bsg_remote_ptr ((x + 1) mod 2 ^ lx) y a /\
     stride (2 ^ lx) 0 (2 ^ ly) S (bsg_remote_ptr x y a) = bsg_remote_ptr x ((y + 1) mod 2 ^ ly) a /\
     stride (2 ^ lx) S (2 ^ ly) S (bsg_remote_ptr x y a) =
       bsg_remote_ptr ((x + 1) mod 2 ^ lx) ((y + 1) mod 2 ^ ly) a) as Hstep.
  { intros S x y a HS Hx Hy Ha. unfold stride. rewrite (proj2 (Z.eqb_neq S 0)) by done. cbn [Z.eqb].
    pose proof (Z.mod_pos_bound (x + 1) (2 ^ lx) ltac:(lia)).
    split_and!; rewrite ?(step_x lx ly), ?(step_y lx ly) by lia; done. }
  split; [done|]. intros c bsg_x bsg_y load EX EY Hbx Hby Hload. unfold main_passes. rewrite EX, EY.
  rewrite !strider_ptr by lia.
  assert (forall k n, 0 <= k < n -> (k mod n + 1) mod n = (k + 1) mod n /\ 0 <= (k + 1) mod n < n /\
     Z.rem (k + 1) n = (k + 1) mod n) as Hm.
  { intros k n Hk. rewrite Z.add_mod_idemp_l, Z.rem_mod_nonneg by lia.
    split_and!; [done|apply Z.mod_pos_bound; lia..|done]. }
  pose proof (stride_loop_runs (Z.to_nat (2 ^ ly)) 1 load (stride (2 ^ lx) 0 (2 ^ ly) 1) (fun i => Z.rem i (2 ^ ly))
    (fun k => bsg_remote_ptr 0 (k mod 2 ^ ly) bsg_y)) as Ey.
  pose proof (stride_loop_runs (Z.to_nat (2 ^ lx)) 1 load (stride (2 ^ lx) 1 (2 ^ ly) 0) (fun i => Z.rem i (2 ^ lx))
    (fun k => bsg_remote_ptr (k mod 2 ^ lx) 0 bsg_x)) as Ex.
  pose proof (stride_loop_runs (Z.to_nat (Z.min (2 ^ lx) (2 ^ ly) - 1)) 1 load (stride (2 ^ lx) 1 (2 ^ ly) 1) (fun i => i)
    (fun k => bsg_remote_ptr k k bsg_y)) as Exy.
  cbv beta in *. change (1 - 1) with 0 in *. rewrite Z.mod_0_l in Ex, Ey by lia.
  rewrite Ey, Ex, Exy; [done|..]; intros k Hk.
  - destruct (Hstep 1 k k bsg_y) as (_ & _ & ->); [lia..|]. rewrite !Z.mod_small by lia.
    split; [done|]. apply Hload; lia.
  - destruct (Hm k (2 ^ lx)) as (E & ? & ->); [lia|]. pose proof (Z.mod_pos_bound k (2 ^ lx) ltac:(lia)).
    destruct (Hstep 1 (k mod 2 ^ lx) 0 bsg_x) as (-> & _); [lia..|]. rewrite E. split; [done|]. apply Hload; lia.
  - destruct (Hm k (2 ^ ly)) as (E & ? & ->); [lia|]. pose proof (Z.mod_pos_bound k (2 ^ ly) ltac:(lia)).
    destruct (Hstep 1 0 (k mod 2 ^ ly) bsg_y) as (_ & -> & _); [lia..|]. rewrite E. split; [done|]. apply Hload; lia.
Qed.

(** A 4x2 group. *)
Lemma strider_steps_witness :
  stride 4 1 2 0 (bsg_remote_ptr 3 1 0x1000) = bsg_remote_ptr 0 1 0x1000 /\
  stride 4 1 2 1 (bsg_remote_ptr 2 1 0x1000) = bsg_remote_ptr 3 0 0x1000 /\
  main_passes {| bsg_tiles_X := 4; bsg_tiles_Y := 2; bsg_global_X := 16; bsg_global_Y := 8;
                 IO_X_INDEX := 16; IO_Y_INDEX := 0 |} 0x1000 0x1004
    (fun p => if p mod 8 =? 0 then (p / 262144) mod 64 else (p / 16777216) mod 32) = true.
Proof.
  destruct (strider_steps 2 1) as [Hs Hm]; [lia..|]. split_and!.
  - apply (Hs 1 3 1 0x1000); lia.
  - apply (Hs 1 2 1 0x1000); lia.
  - apply Hm; [done|done|lia|lia|]. intros x y Hx Hy. change (2 ^ 2) with 4 in Hx. change (2 ^ 1) with 2 in Hy.
    rewrite !bsg_remote_ptr_sum by lia.
    assert ((x = 0 \/ x = 1 \/ x = 2 \/ x = 3) /\ (y = 0 \/ y = 1)) as [[->|[->|[->| ->]]] [->| ->]] by lia; done.
Defined.
End Strider.

Module Pass.
(** ** Memory as bytes

    [place] gives the byte that an address names for the tile that uses it, so that a word may have
    a local and a remote address. *)

Section bytes.
Context {L : Type} `{EqDecision L}.
Variable place : Z -> L.
Implicit Types (m : L -> Z).

Fixpoint load_bytes (n : nat) m (p : Z) : Z :=
  match n with O => 0 | S n => m (place p) + 256 * load_bytes n m (p + 1) end.

Fixpoint store_bytes (n : nat) (p v : Z) m : L -> Z :=
  match n with O => m | S n => store_bytes n (p + 1) (v / 256) (<[place p := v mod 256]> m) end.

(** Byte [k] of a little-endian value. *)
Definition byte_of (v k : Z) : Z := (v / 256 ^ k) mod 256.

(** The [n] bytes from [p] on are different bytes. *)
Definition separate (p n : Z) : Prop := forall i j,
  0 <= i < n -> 0 <= j < n -> place (p + i) = place (p + j) -> i = j.

(** [m'] is [m] with the [n] bytes from [p] on replaced by [val 0], [val 1], ..., and no other byte
    changed. *)
Definition wrote (p n : Z) (val : Z -> Z) m m' : Prop :=
  (forall k, 0 <= k < n -> m' (place (p + k)) = val k) /\
  (forall l, (forall k, 0 <= k < n -> l <> place (p + k)) -> m' l = m l).

Lemma separate_sub p n a k : separate p n -> 0 <= a -> a + k <= n -> separate (p + a) k.
Proof using.
  intros Hs Ha Hk i j Hi Hj E. assert (a + i = a + j); [|lia].
  apply Hs; [lia..|]. by rewrite !Z.add_assoc.
Qed.

Lemma wrote_ext p n val val' m m' : (forall k, 0 <= k < n -> val k = val' k) ->
  wrote p n val m m' -> wrote p n val' m m'.
Proof using. intros E [Hw Hf]. split; [|done]. intros k Hk. by rewrite <-E, Hw. Qed.

Lemma wrote_nothing p val m : wrote p 0 val m m.
Proof using. split; [lia|done]. Qed.

Lemma wrote_byte p v m : wrote p 1 (fun _ => v) m (<[place p := v]> m).
Proof using.
  split.
  - intros k Hk. replace (p + k) with p by lia. by rewrite fn_lookup_insert.
  - intros l Hl. rewrite fn_lookup_insert_ne; [done|]. intros <-. apply (Hl 0); [lia|]. by rewrite Z.add_0_r.
Qed.

Lemma wrote_app p a b val m m1 m2 : 0 <= a -> 0 <= b -> separate p (a + b) ->
  wrote p a val m m1 -> wrote (p + a) b (fun k => val (a + k)) m1 m2 ->
  wrote p (a + b) val m m2.
Proof using.
  intros Ha Hb Hs [Hw1 Hf1] [Hw2 Hf2]. split.
  - intros k Hk. destruct (Z.lt_ge_cases k a) as [Hlt|Hge].
    + rewrite Hf2; [apply Hw1; lia|]. intros j Hj E. rewrite <-Z.add_assoc in E. apply Hs in E; lia.
    + specialize (Hw2 (k - a) ltac:(lia)). replace (p + a + (k - a)) with (p + k) in Hw2 by lia.
      rewrite Hw2. f_equal. lia.
  - intros l Hl. rewrite Hf2; [apply Hf1|]; intros k Hk; [apply Hl; lia|].
    rewrite <-Z.add_assoc. apply Hl. lia.
Qed.

Lemma byte_of_succ v k : 0 <= k -> byte_of v (1 + k) = byte_of (v / 256) k.
Proof using. intros Hk. unfold byte_of. by rewrite Z.pow_add_r, <-Z.div_div by lia. Qed.

Lemma byte_of_0 v : byte_of v 0 = v mod 256.
Proof using. unfold byte_of. by rewrite Z.pow_0_r, Z.div_1_r. Qed.

Lemma store_wrote n p v m : separate p (Z.of_nat n) ->
  wrote p (Z.of_nat n) (byte_of v) m (store_bytes n p v m).
Proof using.
  revert p v m. induction n as [|n IH]; intros p v m Hs; [apply wrote_nothing|].
  rewrite Nat2Z.inj_succ, <-Z.add_1_l in Hs |- *. cbn [store_bytes].
  eapply wrote_app; [lia|lia|done| |].
  - eapply wrote_ext; [|apply wrote_byte]. intros k Hk. replace k with 0 by lia. symmetry. apply byte_of_0.
  - eapply wrote_ext; [|apply IH; eapply separate_sub; [done|lia..]].
    intros k Hk. symmetry. apply byte_of_succ. lia.
Qed.

(** Reading back the bytes of a value. *)
Lemma load_value n p v m : (forall k, 0 <= k < Z.of_nat n -> m (place (p + k)) = byte_of v k) ->
  load_bytes n m p = v mod 256 ^ Z.of_nat n.
Proof using.
  revert p v. induction n as [|n IH]; intros p v Hm; [by rewrite Z.mod_1_r|]. cbn [load_bytes].
  rewrite (IH (p + 1) (v / 256)).
  - rewrite <-(Z.add_0_r p), Hm, byte_of_0, Nat2Z.inj_succ, Z.pow_succ_r by lia.
    rewrite Z.rem_mul_r; [done|lia|]. apply Z.pow_pos_nonneg; lia.
  - intros k Hk. rewrite <-byte_of_succ, <-Hm by lia. do 2 f_equal. lia.
Qed.

Lemma load_store n p v m : separate p (Z.of_nat n) ->
  load_bytes n (store_bytes n p v m) p = v mod 256 ^ Z.of_nat n.
Proof using. intros Hs. apply load_value. by apply store_wrote. Qed.

(** A copied word has the bytes of the source. *)
Lemma copied_byte n m p k : 0 <= k < Z.of_nat n -> (forall l, 0 <= m l < 256) ->
  byte_of (load_bytes n m p) k = m (place (p + k)).
Proof using.
  intros Hk Hm. revert p k Hk. induction n as [|n IH]; intros p k Hk; [lia|]. cbn [load_bytes].
  destruct (decide (k = 0)) as [->|Hk0].
  - rewrite byte_of_0, Z.add_0_r, (Z.mul_comm 256), Z.mod_add, Z.mod_small by (done || lia). done.
  - replace k with (1 + (k - 1)) at 1 by lia.
    rewrite byte_of_succ, (Z.mul_comm 256), Z.div_add, (Z.div_small (m (place p))), Z.add_0_l, IH by (done || lia).
    do 2 f_equal. lia.
Qed.

Lemma store_bytes_range n p v m : (forall l, 0 <= m l < 256) -> forall l, 0 <= store_bytes n p v m l < 256.
Proof using.
  revert p v m. induction n as [|n IH]; intros p v m Hm; [done|]. cbn [store_bytes]. apply IH. intros l.
  destruct (decide (l = place p)) as [->|]; [rewrite fn_lookup_insert; by apply Z.mod_pos_bound|].
  by rewrite fn_lookup_insert_ne.
Qed.
End bytes.

Section pointers.
Variables REMOTE_EPA_PREFIX REMOTE_EPA_MASK_SHIFTS X_CORD_SHIFTS Y_CORD_SHIFTS : Z.
Variable c : config.
Variable bsg_group_size : Z.
Variable start_ptr : Z.               (* &_bsg_striped_data_start *)

(** The number of an element in the striped data, and its place in the tile that has it. *)
Definition striped_index (arr_ptr elem_size : Z) : Z := u32 (arr_ptr - start_ptr) / elem_size.
Definition striped_local (arr_ptr elem_size : Z) : Z :=
  u32 (start_ptr + striped_index arr_ptr elem_size / bsg_group_size * elem_size).

Definition get_ptr_val (arr_ptr elem_size local_offset : Z) : Z :=
  let local_addr := u32 (striped_local arr_ptr elem_size + local_offset) in
  let core_id := striped_index arr_ptr elem_size mod bsg_group_size in
  let tile_x := core_id / bsg_tiles_X c in
  let tile_y := core_id mod bsg_tiles_X c in
  u32 (Z.shiftl REMOTE_EPA_PREFIX REMOTE_EPA_MASK_SHIFTS .| Z.shiftl tile_x X_CORD_SHIFTS
       .| Z.shiftl tile_y Y_CORD_SHIFTS .| local_addr)%c.

(** ** The routines *)

Section pass.
Context {L : Type} `{EqDecision L}.
Variable place : Z -> L.
Implicit Types (m : L -> Z).
#[local] Abbreviation load_bytes := (load_bytes place).
#[local] Abbreviation store_bytes := (store_bytes place).

(** The loop of [load_extern_array]; [src i] is word [i] of the array in DRAM. *)
Fixpoint load_extern_loop (n : nat) (dest src_ptr : Z) (src : Z -> Z) m : L -> Z :=
  match n with
  | O => m
  | S n => load_extern_loop n (dest + 4) (src_ptr + bsg_group_size) src (store_bytes 4 dest (src src_ptr) m)
  end.

Definition load_extern_array (bsg_id dest_ptr : Z) (src : Z -> Z) (num_elems elem_size : Z) m : L -> Z :=
  load_extern_loop (Z.to_nat (u32 (num_elems * (elem_size / 4)))) (striped_local dest_ptr elem_size) bsg_id src m.

(** Stores and loads of one value; a [float] is its word, [char] is unsigned. *)
Definition extern_store_float (arr_ptr elem_size offset val : Z) m := store_bytes 4 (get_ptr_val arr_ptr elem_size offset) val m.
Definition extern_store_int (arr_ptr elem_size offset val : Z) m := store_bytes 4 (get_ptr_val arr_ptr elem_size offset) val m.
Definition extern_store_short (arr_ptr elem_size offset val : Z) m := store_bytes 2 (get_ptr_val arr_ptr elem_size offset) val m.
Definition extern_store_char (arr_ptr elem_size offset val : Z) m := store_bytes 1 (get_ptr_val arr_ptr elem_size offset) val m.

Definition extern_load_float (arr_ptr elem_size offset : Z) m : Z := load_bytes 4 m (get_ptr_val arr_ptr elem_size offset).
Definition extern_load_int (arr_ptr elem_size offset : Z) m : Z := i32 (load_bytes 4 m (get_ptr_val arr_ptr elem_size offset)).
Definition extern_load_short (arr_ptr elem_size offset : Z) m : Z := i16 (load_bytes 2 m (get_ptr_val arr_ptr elem_size offset)).
Definition extern_load_char (arr_ptr elem_size offset : Z) m : Z := u8 (load_bytes 1 m (get_ptr_val arr_ptr elem_size offset)).

(** The loops [while (len)]; [None] when the fuel runs out. *)
Fixpoint memcpy_loop (fuel : nat) (dst src len : Z) m : option (L -> Z) :=
  if len =? 0 then Some m
  else match fuel with
  | O => None
  | S fuel => memcpy_loop fuel (dst + 4) (src + 4) (u32 (len - 4)) (store_bytes 4 dst (load_bytes 4 m src) m)
  end.

Fixpoint memset_loop (fuel : nat) (dst val len : Z) m : option (L -> Z) :=
  if len =? 0 then Some m
  else match fuel with
  | O => None
  | S fuel => memset_loop fuel (dst + 1) val (u32 (len - 4)) (<[place dst := u8 val]> m)
  end.

Definition extern_load_memcpy (fuel : nat) (dest src len : Z) m : option (L -> Z) :=
  memcpy_loop fuel dest (get_ptr_val src len 0) len m.
Definition extern_store_memcpy (fuel : nat) (dest src len : Z) m : option (L -> Z) :=
  memcpy_loop fuel (get_ptr_val dest len 0) src len m.
Definition extern_memset (fuel : nat) (dest val len : Z) m : option (L -> Z) :=
  memset_loop fuel (get_ptr_val dest len 0) val len m.

(** ** The loops *)

(** The bytes at [p] and those at [q] are different. *)
Definition apart (p q n : Z) : Prop := forall i j,
  0 <= i < n -> 0 <= j < n -> place (p + i) <> place (q + j).

Lemma apart_sub p q n a k : apart p q n -> 0 <= a -> a + k <= n -> apart (p + a) (q + a) k.
Proof using. intros Hd Ha Hk i j Hi Hj. rewrite <-!Z.add_assoc. apply Hd; lia. Qed.

Lemma memcpy_loop_wrote (n fuel : nat) dst src m :
  (n <= fuel)%nat -> 4 * Z.of_nat n < 2 ^ 32 -> (forall l, 0 <= m l < 256) ->
  separate place dst (4 * Z.of_nat n) -> apart dst src (4 * Z.of_nat n) ->
  exists m', memcpy_loop fuel dst src (4 * Z.of_nat n) m = Some m' /\
    wrote place dst (4 * Z.of_nat n) (fun k => m (place (src + k))) m m'.
Proof using.
  revert fuel dst src m. induction n as [|n IH]; intros fuel dst src m Hf Hn Hm Hs Hd.
  { exists m. split; [by destruct fuel|apply wrote_nothing]. }
  destruct fuel as [|fuel]; [lia|]. cbn [memcpy_loop]. rewrite (proj2 (Z.eqb_neq _ 0)) by lia.
  set (m1 := store_bytes 4 dst (load_bytes 4 m src) m).
  replace (4 * Z.of_nat (S n)) with (4 + 4 * Z.of_nat n) in * by lia.
  replace (u32 (4 + 4 * Z.of_nat n - 4)) with (4 * Z.of_nat n) by (rewrite u32_id; unfold is_u32; lia).
  assert (wrote place dst 4 (fun k => m (place (src + k))) m m1) as H1.
  { eapply wrote_ext; [|apply (store_wrote place 4)].
    - intros k Hk. by apply copied_byte; [lia|].
    - rewrite <-(Z.add_0_r dst). eapply separate_sub; [done|lia..]. }
  destruct (IH fuel (dst + 4) (src + 4) m1) as (m' & E & Hw); [lia|lia| | | |].
  - by apply store_bytes_range.
  - eapply separate_sub; [done|lia..].
  - eapply apart_sub; [done|lia..].
  - exists m'. split; [done|]. eapply wrote_app; [lia|lia|done|exact H1|].
    eapply wrote_ext; [|exact Hw]. intros k Hk. cbn beta. rewrite <-Z.add_assoc. apply (proj2 H1).
    intros j Hj E'. symmetry in E'. revert E'. apply Hd; lia.
Qed.

(** A length that is not a multiple of four never comes to zero. *)
Lemma memcpy_loop_diverges fuel dst src len m : len mod 4 <> 0 -> memcpy_loop fuel dst src len m = None.
Proof using.
  revert dst src len m. induction fuel as [|fuel IH]; intros dst src len m Hl; cbn [memcpy_loop];
    rewrite (proj2 (Z.eqb_neq len 0)) by (by intros ->); [done|].
  apply IH. intros E. apply Hl. revert E. unfold u32. Z.to_euclidean_division_equations. lia.
Qed.

Lemma memset_loop_diverges fuel dst val len m : len mod 4 <> 0 -> memset_loop fuel dst val len m = None.
Proof using.
  revert dst len m. induction fuel as [|fuel IH]; intros dst len m Hl; cbn [memset_loop];
    rewrite (proj2 (Z.eqb_neq len 0)) by (by intros ->); [done|].
  apply IH. intros E. apply Hl. revert E. unfold u32. Z.to_euclidean_division_equations. lia.
Qed.

Lemma memset_loop_wrote (n fuel : nat) dst val m :
  (n <= fuel)%nat -> 4 * Z.of_nat n < 2 ^ 32 -> separate place dst (Z.of_nat n) ->
  exists m', memset_loop fuel dst val (4 * Z.of_nat n) m = Some m' /\
    wrote place dst (Z.of_nat n) (fun _ => u8 val) m m'.
Proof using.
  revert fuel dst m. induction n as [|n IH]; intros fuel dst m Hf Hn Hs.
  { exists m. split; [by destruct fuel|apply wrote_nothing]. }
  destruct fuel as [|fuel]; [lia|]. cbn [memset_loop]. rewrite (proj2 (Z.eqb_neq _ 0)) by lia.
  replace (u32 (4 * Z.of_nat (S n) - 4)) with (4 * Z.of_nat n) by (rewrite u32_id; unfold is_u32; lia).
  replace (Z.of_nat (S n)) with (1 + Z.of_nat n) in * by lia.
  destruct (IH fuel (dst + 1) (<[place dst := u8 val]> m)) as (m' & E & Hw); [lia|lia| |].
  { eapply separate_sub; [done|lia..]. }
  exists m'. split; [done|]. eapply wrote_app; [lia|lia|done|apply wrote_byte|done].
Qed.

(** The bytes of the words of the array with the numbers [src_ptr], [src_ptr + bsg_group_size], .... *)
Definition initializer (src_ptr : Z) (src : Z -> Z) (k : Z) : Z :=
  byte_of (src (src_ptr + k / 4 * bsg_group_size)) (k mod 4).

Lemma load_extern_loop_wrote (n : nat) dest src_ptr src m : separate place dest (4 * Z.of_nat n) ->
  wrote place dest (4 * Z.of_nat n) (initializer src_ptr src) m (load_extern_loop n dest src_ptr src m).
Proof using.
  revert dest src_ptr m. induction n as [|n IH]; intros dest src_ptr m Hs; [apply wrote_nothing|].
  cbn [load_extern_loop]. replace (4 * Z.of_nat (S n)) with (4 + 4 * Z.of_nat n) in * by lia.
  eapply wrote_app; [lia|lia|done| |].
  - eapply wrote_ext; [|apply (store_wrote place 4 dest (src src_ptr))].
    + intros k Hk. unfold initializer. rewrite Z.div_small, Z.mod_small by lia. f_equal. f_equal. lia.
    + rewrite <-(Z.add_0_r dest). eapply separate_sub; [done|lia..].
  - eapply wrote_ext; [|apply IH; eapply separate_sub; [done|lia..]].
    intros k Hk. unfold initializer. replace (4 + k) with (k + 1 * 4) by lia.
    rewrite Z.div_add, Z.mod_add by lia. do 2 f_equal. lia.
Qed.

(** C29 (functional).  The runtime of the striping pass, whatever the layout of its pointers and
    whichever bytes they name, on a memory of bytes.  A store writes the bytes of its value, four,
    two or one by its type, where the pointer points, and no others; a load of that type returns
    the value, cut to the type.  The copies write [len] bytes of the source to the destination, if
    the two do not overlap, and no others, when [len] is a multiple of four.  [extern_memset] writes
    only the first quarter of the [len] bytes it is asked to set.  With another [len] none of the
    three ends.  [load_extern_array] writes to the tile's part of the array the words of the
    initializer with the numbers [bsg_id], [bsg_id + bsg_group_size], and so on, as many as it is
    told, and nothing else. *)
Theorem pass_moves_values m :
  (forall arr sz off v,
     let p := get_ptr_val arr sz off in
     (separate place p 4 ->
        wrote place p 4 (byte_of v) m (extern_store_float arr sz off v m) /\
        extern_load_float arr sz off (extern_store_float arr sz off v m) = u32 v /\
        wrote place p 4 (byte_of v) m (extern_store_int arr sz off v m) /\
        extern_load_int arr sz off (extern_store_int arr sz off v m) = i32 v) /\
     (separate place p 2 ->
        wrote place p 2 (byte_of v) m (extern_store_short arr sz off v m) /\
        extern_load_short arr sz off (extern_store_short arr sz off v m) = i16 v) /\
     wrote place p 1 (byte_of v) m (extern_store_char arr sz off v m) /\
     extern_load_char arr sz off (extern_store_char arr sz off v m) = u8 v) /\
  (forall arr other n fuel, 0 <= n < 2 ^ 30 -> n <= Z.of_nat fuel -> (forall l, 0 <= m l < 256) ->
     let p := get_ptr_val arr (4 * n) 0 in
     apart other p (4 * n) ->
     (separate place other (4 * n) -> exists m', extern_load_memcpy fuel other arr (4 * n) m = Some m' /\
        wrote place other (4 * n) (fun k => m (place (p + k))) m m') /\
     (separate place p (4 * n) -> exists m', extern_store_memcpy fuel arr other (4 * n) m = Some m' /\
        wrote place p (4 * n) (fun k => m (place (other + k))) m m')) /\
  (forall arr val n fuel, 0 <= n < 2 ^ 30 -> n <= Z.of_nat fuel ->
     let p := get_ptr_val arr (4 * n) 0 in
     separate place p n -> exists m', extern_memset fuel arr val (4 * n) m = Some m' /\
       wrote place p n (fun _ => u8 val) m m') /\
  (forall arr other val len fuel, len mod 4 <> 0 ->
     extern_load_memcpy fuel other arr len m = None /\ extern_store_memcpy fuel arr other len m = None /\
     extern_memset fuel arr val len m = None) /\
  (forall bsg_id arr src num sz, 0 <= num * (sz / 4) < 2 ^ 32 ->
     let dest := striped_local arr sz in let len := 4 * (num * (sz / 4)) in
     separate place dest len ->
     wrote place dest len (initializer bsg_id src) m (load_extern_array bsg_id arr src num sz m)).
Proof using.
  split_and!.
  - intros arr sz off v p.
    unfold extern_load_float, extern_store_float, extern_load_int, extern_store_int, extern_load_short,
      extern_store_short, extern_load_char, extern_store_char. fold p.
    assert (separate place p 1) as H1 by (intros i j Hi Hj _; lia).
    split_and!; [intros Hs; split_and!|intros Hs; split|..];
      try (by apply (store_wrote place 4)); try (by apply (store_wrote place 2));
      try (by apply (store_wrote place 1)); rewrite load_store by done; try done; try exact (i32_u32 v);
      unfold i16, u8; Z.to_euclidean_division_equations; lia.
  - intros arr other n fuel Hn Hf Hm p Hd. destruct (Z_of_nat_complete n ltac:(lia)) as [k ->].
    split; intros Hs; apply memcpy_loop_wrote; try done; try lia.
    intros i j Hi Hj E. by apply (Hd j i).
  - intros arr val n fuel Hn Hf p Hs. destruct (Z_of_nat_complete n ltac:(lia)) as [k ->].
    apply memset_loop_wrote; [lia|lia|done].
  - intros. split_and!; [by apply memcpy_loop_diverges..|by apply memset_loop_diverges].
  - intros bsg_id arr src num sz Hn dest len Hs. unfold load_extern_array. rewrite u32_id by (unfold is_u32; lia).
    replace len with (4 * Z.of_nat (Z.to_nat (num * (sz / 4)))) in Hs |- * by (unfold len; lia).
    by apply load_extern_loop_wrote.
Qed.
End pass.
End pointers.

(** The bytes that the addresses of tile (0,0) name, with the layout that the comment in
    [get_ptr_val] draws: its own memory has local and remote addresses. *)
Definition example_place (p : Z) : Z * Z * Z :=
  if p <? 2 ^ 18 then (0, 0, p) else ((p / 2 ^ 18) mod 64, (p / 2 ^ 24) mod 64, p mod 2 ^ 18).

Lemma example_separate p n : 0 <= p -> p mod 2 ^ 18 + n <= 2 ^ 18 -> separate example_place p n.
Proof.
  intros Hp Hn i j Hi Hj. unfold example_place. norm_pow2.
  destruct (Z.ltb_spec (p + i) 262144), (Z.ltb_spec (p + j) 262144);
    intros E%(f_equal snd); simpl in E; Z.to_euclidean_division_equations; lia.
Qed.

Lemma pass_moves_values_witness :
  let m (l : Z * Z * Z) := l.2 mod 256 in
  let own := 2 ^ 30 + 0x1000 in
  get_ptr_val 1 30 18 24 config_4x4 16 0x1000 0x1000 12 0 = own /\
  wrote example_place own 2 (byte_of 0x1234) m
    (extern_store_short 1 30 18 24 config_4x4 16 0x1000 example_place 0x1000 12 0 0x1234 m) /\
  extern_load_int 1 30 18 24 config_4x4 16 0x1000 example_place 0x1000 12 0
    (extern_store_int 1 30 18 24 config_4x4 16 0x1000 example_place 0x1000 12 0 (-5) m) = -5 /\
  (exists m', extern_load_memcpy 1 30 18 24 config_4x4 16 0x1000 example_place 10 0x3F00 0x1000 12 m = Some m' /\
     wrote example_place 0x3F00 12 (fun k => m (example_place (own + k))) m m') /\
  (exists m', extern_memset 1 30 18 24 config_4x4 16 0x1000 example_place 10 0x1000 7 12 m = Some m' /\
     wrote example_place own 3 (fun _ => 7) m m') /\
  extern_load_memcpy 1 30 18 24 config_4x4 16 0x1000 example_place 10 0x3F00 0x1040 13 m = None /\
  wrote example_place 0x1000 40 (initializer 16 5 (fun k => 100 * k)) m
    (load_extern_array 16 0x1000 example_place 5 0x1000 (fun k => 100 * k) 10 4 m).
Proof.
  intros m own.
  destruct (pass_moves_values 1 30 18 24 config_4x4 16 0x1000 example_place m) as (Hv & Hc & Hs & Hd & Hl).
  split_and!.
  - by vm_compute.
  - apply (Hv 0x1000 12 0 0x1234). apply example_separate; by vm_compute.
  - apply (Hv 0x1000 12 0 (-5)). apply example_separate; by vm_compute.
  - apply (Hc 0x1000 0x3F00 3 10%nat); [lia|lia|intros l; apply Z.mod_pos_bound; lia| |
      apply example_separate; by vm_compute].
    intros i j Hi Hj. change (get_ptr_val _ _ _ _ _ _ _ _ _ _) with own. unfold example_place, own. norm_pow2.
    rewrite (proj2 (Z.ltb_lt _ _)), (proj2 (Z.ltb_ge _ _)) by lia. intros E%(f_equal snd); simpl in E.
    Z.to_euclidean_division_equations. lia.
  - apply (Hs 0x1000 7 3 10%nat); [lia|lia|]. apply example_separate; by vm_compute.
  - apply (Hd 0x1040 0x3F00 0 13 10%nat). discriminate.
  - apply (Hl 5 0x1000 (fun k => 100 * k) 10 4); [by vm_compute|]. apply example_separate; by vm_compute.
Defined.

(** ** The pointers, with the layout that the comment in [get_ptr_val] draws *)

(** [01YY_YYYY_XXXX_XXPP_PPPP_PPPP_PPPP_PPPP]. *)
Definition drawn_ptr : config -> Z -> Z -> Z -> Z -> Z -> Z := get_ptr_val 1 30 18 24.

Lemma drawn_ptr_sum c gs start_ptr arr sz off :
  let id := striped_index start_ptr arr sz mod gs in
  let a := striped_local gs start_ptr arr sz + off in
  0 <= a < 2 ^ 18 -> 0 <= id / bsg_tiles_X c < 64 -> 0 <= id mod bsg_tiles_X c < 64 ->
  drawn_ptr c gs start_ptr arr sz off =
    2 ^ 30 + (id mod bsg_tiles_X c) * 2 ^ 24 + id / bsg_tiles_X c * 2 ^ 18 + a.
Proof.
  intros id a Ha Hx Hy. unfold drawn_ptr, get_ptr_val. fold id. fold a.
  rewrite (u32_id a) by (unfold is_u32; lia). set (x := id / bsg_tiles_X c) in *. set (y := id mod bsg_tiles_X c) in *.
  rewrite <-!Z.lor_assoc, (Z.lor_comm (Z.shiftl x 18)), <-Z.lor_assoc, (Z.lor_comm a).
  rewrite (lor_shiftl_add x a), (lor_shiftl_add y), (lor_shiftl_add 1) by lia.
  rewrite u32_id; [lia|unfold is_u32; lia].
Qed.

(** The layout of the striped data and its pointers disagree.  [load_extern_array] gives
    the element with number [i] to the tile whose id is [i] modulo the size of the group, which is
    the tile at ([bsg_id_to_x], [bsg_id_to_y]) of that id; the pointer that [get_ptr_val] makes for it
    has these two coordinates swapped.  So an access goes to the tile that owns the element only on
    the diagonal of the group, and in a group that is wider than high it can name a tile that is not
    in the group at all. *)
Theorem pass_pointers_transposed c start_ptr arr sz off :
  let X := bsg_tiles_X c in let Y := bsg_tiles_Y c in
  let i := striped_index start_ptr arr sz in
  let id := i mod (X * Y) in
  let x := bsg_id_to_x c id in let y := bsg_id_to_y c id in
  wf_config c -> 0 < sz -> 0 <= striped_local (X * Y) start_ptr arr sz + off < 2 ^ 18 ->
  let p := drawn_ptr c (X * Y) start_ptr arr sz off in
  (0 <= x < X /\ 0 <= y < Y /\ bsg_x_y_to_id c x y = id) /\
  p / 2 ^ 30 = 1 /\ p mod 2 ^ 18 = striped_local (X * Y) start_ptr arr sz + off /\
  (p / 2 ^ 24) mod 64 = x /\ (p / 2 ^ 18) mod 64 = y /\
  ((p / 2 ^ 24) mod 64 = y /\ (p / 2 ^ 18) mod 64 = x <-> x = y) /\
  (Y <= x -> Y <= (p / 2 ^ 24) mod 64).
Proof.
  intros X Y i id x y wf Hsz Ha p. pose proof wf as (HX & HY & _). fold X Y in HX, HY.
  assert (0 <= id < X * Y) as Hid by (apply Z.mod_pos_bound; nia).
  assert (x = id mod X) as Ex by (unfold x, bsg_id_to_x; fold X; by rewrite Z.rem_mod_nonneg by lia).
  assert (y = id / X) as Ey by (unfold y, bsg_id_to_y; fold X; by rewrite Z.quot_div_nonneg by lia).
  assert (0 <= x < X) as Hx by (rewrite Ex; apply Z.mod_pos_bound; lia).
  assert (0 <= y < Y) as Hy by (rewrite Ey; split; [apply Z.div_pos; lia|apply Z.div_lt_upper_bound; lia]).
  assert (p = 2 ^ 30 + x * 2 ^ 24 + y * 2 ^ 18 + (striped_local (X * Y) start_ptr arr sz + off)) as Ep.
  { unfold p. rewrite Ex, Ey. apply drawn_ptr_sum; fold X; fold i; fold id; rewrite <-?Ex, <-?Ey; lia. }
  assert (bsg_x_y_to_id c x y = id) as E.
  { unfold bsg_x_y_to_id. fold X. rewrite Ex, Ey. rewrite (Z.div_mod id X) at 3 by lia. lia. }
  rewrite !Ep. clearbody p x y. clear Ex Ey.
  split_and!; try done; try lia; Z.to_euclidean_division_equations; lia.
Qed.

(** Element 33 of an array of words on a 4x4 group is the third that tile (1,0) has; its pointer
    names tile (0,1). *)
Lemma pass_pointers_transposed_witness :
  let p := drawn_ptr config_4x4 16 0x1000 (0x1000 + 4 * 33) 4 0 in
  (p / 2 ^ 24) mod 64 = 1 /\ (p / 2 ^ 18) mod 64 = 0 /\ p mod 2 ^ 18 = 0x1008 /\
  p = bsg_remote_ptr 0 1 0x1008 + 2 ^ 29 /\
  ~ ((p / 2 ^ 24) mod 64 = 0 /\ (p / 2 ^ 18) mod 64 = 1).
Proof.
  destruct (pass_pointers_transposed config_4x4 0x1000 (0x1000 + 4 * 33) 4 0) as (_ & _ & Ha & Hx & Hy & Hd & _).
  - unfold wf_config; simpl; lia.
  - lia.
  - vm_compute. split; [discriminate|reflexivity].
  - split_and!; [exact Hx|exact Hy|exact Ha|by vm_compute|].
    intros [E _]. revert E. vm_compute. discriminate.
Defined.
End Pass.
