(* ===== verification/Console.v ===== *)
(** * Host packets: the I/O macros of [bsg_manycore.h]

    A tile talks to the host by storing to the I/O node ([IO_X_INDEX], [IO_Y_INDEX]) at the
    addresses listed in [v/bsg_manycore_addr_pkg.sv].  [packet] has one constructor per macro,
    [packet_store] is the pointer and the word the macro stores, and the theorems say that the
    network delivers it to the I/O node, at an address no other macro uses, with the fields
    still readable.  [bsg_finish] and [bsg_fail] spin after the store; the programs of [Spmd]
    end there. *)

From S2P Require Import Prelude Arch Eva.
Local Open Scope Z_scope.

(** The word addresses the host decodes. *)
Definition bsg_saif_start_addr_gp : Z := 0xFFF0.
Definition bsg_saif_end_addr_gp : Z := 0xFFF4.
Definition bsg_heartbeat_init_epa_gp : Z := 0xBEA0.
Definition bsg_heartbeat_iter_epa_gp : Z := 0xBEA4.
Definition bsg_heartbeat_end_epa_gp : Z := 0xBEA8.
Definition bsg_finish_epa_gp : Z := 0xEAD0.
Definition bsg_time_epa_gp : Z := 0xEAD4.
Definition bsg_fail_epa_gp : Z := 0xEAD8.
Definition bsg_stdout_epa_gp : Z := 0xEADC.
Definition bsg_stderr_epa_gp : Z := 0xEEE0.
Definition bsg_print_stat_epa_gp : Z := 0x0D0C.

Inductive packet : Type :=
| Finished | Failed | PrintTime
| Putchar (ch : Z) | PutcharErr (ch : Z)
| HeartbeatInit | HeartbeatIter (itr : Z) | HeartbeatEnd
| PrintInt (i : Z) | PrintUnsigned (u : Z) | PrintHexadecimal (u : Z)
| PrintFloat (bits : Z) | PrintFloatScientific (bits : Z)
| SaifStart | SaifEnd
| PrintStat (tag : Z)
| IoStore (addr v : Z).      (* bsg_remote_ptr_io_store(IO_X_INDEX, addr, v) *)

#[export] Instance packet_eq_dec : EqDecision packet.
Proof. solve_decision. Defined.

(** [(bsg_y << 16) + bsg_x], the word that names the sender. *)
Definition sender_word (x y : Z) : Z := ((y <<i 16) +i x)%c.

(** The local address each macro passes to [bsg_remote_ptr_io], and the word it stores
    ([unsigned char] for the two character macros). *)
Definition packet_fields (x y : Z) (p : packet) : Z * Z :=
  match p with
  | Finished => (0xEAD0, sender_word x y)
  | Failed => (0xEAD8, sender_word x y)
  | PrintTime => (0xEAD4, sender_word x y)
  | Putchar ch => (0xEADC, u8 ch)
  | PutcharErr ch => (0xEEE0, u8 ch)
  | HeartbeatInit => (0xBEA0, 0)
  | HeartbeatIter itr => (0xBEA4, itr)
  | HeartbeatEnd => (0xBEA8, 0)
  | PrintInt i => (0xEAE0, i)
  | PrintUnsigned u => (0xEAE4, u)
  | PrintHexadecimal u => (0xEAE8, u)
  | PrintFloat b => (0xEAEC, b)
  | PrintFloatScientific b => (0xEAF0, b)
  | SaifStart => (0xFFF0, 0)
  | SaifEnd => (0xFFF4, 0)
  | PrintStat tag => (0xD0C, tag)
  | IoStore a v => (a, v)
  end.

Definition packet_store (c : config) (x y : Z) (p : packet) : Z * Z :=
  let '(a, v) := packet_fields x y p in (bsg_remote_ptr_io c (IO_X_INDEX c) a, v).

(** ** [bsg_cuda_print_stat_type] *)

Definition BSG_CUDA_PRINT_STAT_ID_START : Z := 0.
Definition BSG_CUDA_PRINT_STAT_ID_END : Z := 1.
Definition BSG_CUDA_PRINT_STAT_ID_KERNEL_START : Z := 2.
Definition BSG_CUDA_PRINT_STAT_ID_KERNEL_END : Z := 3.
Definition BSG_CUDA_PRINT_STAT_TAG_WIDTH : Z := 4.
Definition BSG_CUDA_PRINT_STAT_TG_ID_WIDTH : Z := 14.
Definition BSG_CUDA_PRINT_STAT_X_WIDTH : Z := 6.
Definition BSG_CUDA_PRINT_STAT_Y_WIDTH : Z := 6.
Definition BSG_CUDA_PRINT_STAT_TYPE_WIDTH : Z := 2.
Definition BSG_CUDA_PRINT_STAT_TAG_SHIFT : Z := 0.
Definition BSG_CUDA_PRINT_STAT_TG_ID_SHIFT : Z :=
  BSG_CUDA_PRINT_STAT_TAG_SHIFT + BSG_CUDA_PRINT_STAT_TAG_WIDTH.
Definition BSG_CUDA_PRINT_STAT_X_SHIFT : Z :=
  BSG_CUDA_PRINT_STAT_TG_ID_SHIFT + BSG_CUDA_PRINT_STAT_TG_ID_WIDTH.
Definition BSG_CUDA_PRINT_STAT_Y_SHIFT : Z :=
  BSG_CUDA_PRINT_STAT_X_SHIFT + BSG_CUDA_PRINT_STAT_X_WIDTH.
Definition BSG_CUDA_PRINT_STAT_TYPE_SHIFT : Z :=
  BSG_CUDA_PRINT_STAT_Y_SHIFT + BSG_CUDA_PRINT_STAT_Y_WIDTH.
Definition BSG_CUDA_PRINT_STAT_TAG_MASK : Z := ((1 <<i BSG_CUDA_PRINT_STAT_TAG_WIDTH) -i 1)%c.
Definition BSG_CUDA_PRINT_STAT_TG_ID_MASK : Z := ((1 <<i BSG_CUDA_PRINT_STAT_TG_ID_WIDTH) -i 1)%c.
Definition BSG_CUDA_PRINT_STAT_X_MASK : Z := ((1 <<i BSG_CUDA_PRINT_STAT_X_WIDTH) -i 1)%c.
Definition BSG_CUDA_PRINT_STAT_Y_MASK : Z := ((1 <<i BSG_CUDA_PRINT_STAT_Y_WIDTH) -i 1)%c.

(** The word the macro prints, an [int]. *)
Definition bsg_cuda_print_stat_val (grp_x grp_y x y tg_id tag stat_type : Z) : Z :=
  ((stat_type <<i BSG_CUDA_PRINT_STAT_TYPE_SHIFT)
   .| (((grp_y +i y) .& BSG_CUDA_PRINT_STAT_Y_MASK) <<i BSG_CUDA_PRINT_STAT_Y_SHIFT)
   .| (((grp_x +i x) .& BSG_CUDA_PRINT_STAT_X_MASK) <<i BSG_CUDA_PRINT_STAT_X_SHIFT)
   .| ((tg_id .& BSG_CUDA_PRINT_STAT_TG_ID_MASK) <<i BSG_CUDA_PRINT_STAT_TG_ID_SHIFT)
   .| ((tag .& BSG_CUDA_PRINT_STAT_TAG_MASK) <<i BSG_CUDA_PRINT_STAT_TAG_SHIFT))%c.

Definition bsg_cuda_print_stat_type (grp_x grp_y x y tg_id tag stat_type : Z) : packet :=
  PrintStat (bsg_cuda_print_stat_val grp_x grp_y x y tg_id tag stat_type).

Definition bsg_cuda_print_stat_start (gx gy x y tg tag : Z) : packet :=
  bsg_cuda_print_stat_type gx gy x y tg tag BSG_CUDA_PRINT_STAT_ID_START.
Definition bsg_cuda_print_stat_end (gx gy x y tg tag : Z) : packet :=
  bsg_cuda_print_stat_type gx gy x y tg tag BSG_CUDA_PRINT_STAT_ID_END.
Definition bsg_cuda_print_stat_kernel_start (gx gy x y tg : Z) : packet :=
  bsg_cuda_print_stat_type gx gy x y tg 0 BSG_CUDA_PRINT_STAT_ID_KERNEL_START.
Definition bsg_cuda_print_stat_kernel_end (gx gy x y tg : Z) : packet :=
  bsg_cuda_print_stat_type gx gy x y tg 0 BSG_CUDA_PRINT_STAT_ID_KERNEL_END.

(** ** What the host can tell apart *)

(** The local address of a packet other than a raw store. *)
Definition host_addresses : list Z :=
  [0xEAD0; 0xEAD8; 0xEAD4; 0xEADC; 0xEEE0; 0xBEA0; 0xBEA4; 0xBEA8; 0xEAE0; 0xEAE4; 0xEAE8;
   0xEAEC; 0xEAF0; 0xFFF0; 0xFFF4; 0xD0C].

(** Two packets of the same macro. *)
Definition same_macro (p q : packet) : bool :=
  match p, q with
  | Finished, Finished | Failed, Failed | PrintTime, PrintTime | Putchar _, Putchar _
  | PutcharErr _, PutcharErr _ | HeartbeatInit, HeartbeatInit
  | HeartbeatIter _, HeartbeatIter _ | HeartbeatEnd, HeartbeatEnd | PrintInt _, PrintInt _
  | PrintUnsigned _, PrintUnsigned _ | PrintHexadecimal _, PrintHexadecimal _
  | PrintFloat _, PrintFloat _ | PrintFloatScientific _, PrintFloatScientific _
  | SaifStart, SaifStart | SaifEnd, SaifEnd | PrintStat _, PrintStat _ => true
  | _, _ => false
  end.

Definition is_raw (p : packet) : bool := match p with IoStore _ _ => true | _ => false end.

Lemma packet_address_range x y p : is_raw p = false -> 0 <= (packet_fields x y p).1 < 2 ^ 16.
Proof. intros Hp. by destruct p. Qed.

Lemma packet_address_inj x y p x' y' q :
  is_raw p = false -> is_raw q = false ->
  (packet_fields x y p).1 / 4 = (packet_fields x' y' q).1 / 4 -> same_macro p q = true.
Proof. by destruct p, q. Qed.

Lemma sender_word_fields x y :
  0 <= x < 65536 -> 0 <= y < 32768 ->
  sender_word x y mod 65536 = x /\ sender_word x y / 65536 = y.
Proof.
  intros Hx Hy. unfold sender_word. rewrite Z.shiftl_mul_pow2 by lia.
  change (2 ^ 16) with 65536. unwrap. Z.to_euclidean_division_equations. lia.
Qed.

(** C35 (safety).  Every I/O macro reaches the I/O node, from every tile, at the word of its own
    address: packets of different macros never arrive at the same word, so the host cannot take
    one for another; the addresses the RTL package names are the ones the macros use; and the
    word of [bsg_finish], [bsg_fail] and [bsg_print_time] gives the sender's coordinates back. *)
Theorem io_packets_reach_host c u x y p q :
  wf_config c -> IO_X_INDEX c < 2 ^ x_cord_width u -> IO_Y_INDEX c < 2 ^ y_cord_width u ->
  is_raw p = false -> is_raw q = false -> 0 <= x < 65536 -> 0 <= y < 32768 ->
  exists w, eva_to_npa u (packet_store c x y p).1 =
      Some {| x_cord := IO_X_INDEX c; y_cord := IO_Y_INDEX c; epa := w |} /\
    (same_macro p q = false -> eva_to_npa u (packet_store c x y q).1 <>
      Some {| x_cord := IO_X_INDEX c; y_cord := IO_Y_INDEX c; epa := w |}) /\
    (p = Finished -> w = bsg_finish_epa_gp / 4) /\ (p = Failed -> w = bsg_fail_epa_gp / 4) /\
    (p = PrintTime -> w = bsg_time_epa_gp / 4) /\
    (forall ch, p = Putchar ch -> w = bsg_stdout_epa_gp / 4) /\
    (forall ch, p = PutcharErr ch -> w = bsg_stderr_epa_gp / 4) /\
    (forall tag, p = PrintStat tag -> w = bsg_print_stat_epa_gp / 4) /\
    (p ∈ [Finished; Failed; PrintTime] ->
      (packet_store c x y p).2 mod 65536 = x /\ (packet_store c x y p).2 / 65536 = y).
Proof.
  intros (_ & _ & _ & _ & HX & HY) HXw HYw Hp Hq Hx Hy.
  assert (forall p, is_raw p = false -> eva_to_npa u (packet_store c x y p).1 =
    Some {| x_cord := IO_X_INDEX c; y_cord := IO_Y_INDEX c; epa := (packet_fields x y p).1 / 4 |})
    as Hnpa.
  { intros p' Hp'. pose proof (packet_address_range x y p' Hp').
    unfold packet_store. destruct (packet_fields x y p') as [a v]. simpl in *.
    unfold bsg_remote_ptr_io. destruct (global_ptr_fields (IO_X_INDEX c) (IO_Y_INDEX c) a)
      as (E1 & E2 & E3 & E4 & E5); [done..|].
    unfold eva_to_npa. rewrite E1, E2, E3, E4, E5. simpl.
    by rewrite !trunc_small by lia. }
  exists ((packet_fields x y p).1 / 4). split; [by apply Hnpa|]. split.
  { intros Hne E. rewrite Hnpa in E by done. injection E as E.
    symmetry in E. apply packet_address_inj in E; [congruence|done..]. }
  repeat split; try (intros ->; reflexivity); try (intros ? ->; reflexivity).
  - rewrite !elem_of_cons in H. destruct H as [->|[->|[->|H]]]; [by apply sender_word_fields..|].
    by apply not_elem_of_nil in H.
  - rewrite !elem_of_cons in H. destruct H as [->|[->|[->|H]]]; [by apply sender_word_fields..|].
    by apply not_elem_of_nil in H.
Qed.

Lemma io_packets_reach_host_witness :
  exists w, eva_to_npa unit_16x8 (packet_store config_4x4 3 1 Finished).1 =
      Some {| x_cord := 16; y_cord := 0; epa := w |} /\
    (same_macro Finished Failed = false -> eva_to_npa unit_16x8 (packet_store config_4x4 3 1 Failed).1 <>
      Some {| x_cord := 16; y_cord := 0; epa := w |}) /\
    (Finished = Finished -> w = 0xEAD0 / 4).
Proof.
  destruct (io_packets_reach_host config_4x4 unit_16x8 3 1 Finished Failed)
    as (w & ? & ? & ? & _);
    [unfold wf_config; simpl; lia|done|done|done|done|lia|lia|].
  exists w. repeat split; assumption.
Defined.

(** The packed word is the sum of its fields. *)
Lemma print_stat_val_sum gx gy x y tg tag ty :
  0 <= gx -> 0 <= x -> gx + x < 2 ^ 31 -> 0 <= gy -> 0 <= y -> gy + y < 2 ^ 31 ->
  0 <= tg < 2 ^ 31 -> 0 <= tag < 2 ^ 31 -> 0 <= ty < 4 ->
  u32 (bsg_cuda_print_stat_val gx gy x y tg tag ty) =
    ty * 2 ^ 30 + (gy + y) mod 64 * 2 ^ 24 + (gx + x) mod 64 * 2 ^ 18 + tg mod 16384 * 2 ^ 4 +
    tag mod 16.
Proof.
  intros Hgx Hx Hgxx Hgy Hy Hgyy Htg Htag Hty.
  unfold bsg_cuda_print_stat_val.
  change BSG_CUDA_PRINT_STAT_Y_MASK with (Z.ones 6).
  change BSG_CUDA_PRINT_STAT_X_MASK with (Z.ones 6).
  change BSG_CUDA_PRINT_STAT_TG_ID_MASK with (Z.ones 14).
  change BSG_CUDA_PRINT_STAT_TAG_MASK with (Z.ones 4).
  change BSG_CUDA_PRINT_STAT_TYPE_SHIFT with 30. change BSG_CUDA_PRINT_STAT_Y_SHIFT with 24.
  change BSG_CUDA_PRINT_STAT_X_SHIFT with 18. change BSG_CUDA_PRINT_STAT_TG_ID_SHIFT with 4.
  change BSG_CUDA_PRINT_STAT_TAG_SHIFT with 0.
  rewrite !Z.land_ones by lia. rewrite (i32_id (gy + y)), (i32_id (gx + x)) by (unfold is_i32; lia).
  assert (exists k, i32 (Z.shiftl ty 30) = Z.shiftl k 30 /\ k mod 4 = ty) as (k & -> & Hk).
  { exists ((ty + 2) mod 4 - 2). rewrite !Z.shiftl_mul_pow2 by lia.
    split; norm_pow2; word_lia. }
  rewrite <-!Z.lor_assoc. pose proof (Z.mod_pos_bound (gy + y) (2 ^ 6)).
  pose proof (Z.mod_pos_bound (gx + x) (2 ^ 6)). pose proof (Z.mod_pos_bound tg (2 ^ 14)).
  pose proof (Z.mod_pos_bound tag (2 ^ 4)).
  assert (forall z s m, 0 <= s -> 0 <= z < 2 ^ m -> m + s < 32 -> 0 <= m ->
    i32 (Z.shiftl z s) = Z.shiftl z s) as Hsh.
  { intros z s m Hs Hz Hm Hm0. rewrite Z.shiftl_mul_pow2 by done. apply i32_id.
    assert (2 ^ m * 2 ^ s <= 2 ^ 31).
    { rewrite <-Z.pow_add_r by lia. apply Z.pow_le_mono_r; lia. }
    assert (0 < 2 ^ s) by lia. unfold is_i32. nia. }
  rewrite (Hsh _ 24 6), (Hsh _ 18 6), (Hsh _ 4 14), (Hsh _ 0 4) by lia.
  rewrite Z.shiftl_0_r.
  rewrite (lor_shiftl_add (tg mod 2 ^ 14) _ 4) by lia.
  rewrite (lor_shiftl_add ((gx + x) mod 2 ^ 6) _ 18) by lia.
  rewrite (lor_shiftl_add ((gy + y) mod 2 ^ 6) _ 24) by lia.
  rewrite (lor_shiftl_add k _ 30) by lia.
  change (2 ^ 6) with 64 in *. change (2 ^ 14) with 16384 in *. change (2 ^ 4) with 16 in *.
  norm_pow2. clear - Hk H H0 H1 H2 Hty. unfold u32.
  revert H H0 H1 H2. generalize ((gy + y) mod 64) ((gx + x) mod 64) (tg mod 16384) (tag mod 16).
  intros a b c d Ha Hb Hc Hd. Z.to_euclidean_division_equations. lia.
Qed.

(** The fields [bsg_cuda_print_stat_type] packs into one [int] come out of it
    by slicing: the tile's coordinates modulo 64, the tile-group id modulo 2^14, the tag modulo
    16 and the kind of event. *)
Theorem print_stat_fields gx gy x y tg tag ty :
  0 <= gx -> 0 <= x -> gx + x < 2 ^ 31 -> 0 <= gy -> 0 <= y -> gy + y < 2 ^ 31 ->
  0 <= tg < 2 ^ 31 -> 0 <= tag < 2 ^ 31 -> 0 <= ty < 4 ->
  let v := u32 (bsg_cuda_print_stat_val gx gy x y tg tag ty) in
  slice v BSG_CUDA_PRINT_STAT_TYPE_SHIFT BSG_CUDA_PRINT_STAT_TYPE_WIDTH = ty /\
  slice v BSG_CUDA_PRINT_STAT_Y_SHIFT BSG_CUDA_PRINT_STAT_Y_WIDTH = (gy + y) mod 64 /\
  slice v BSG_CUDA_PRINT_STAT_X_SHIFT BSG_CUDA_PRINT_STAT_X_WIDTH = (gx + x) mod 64 /\
  slice v BSG_CUDA_PRINT_STAT_TG_ID_SHIFT BSG_CUDA_PRINT_STAT_TG_ID_WIDTH = tg mod 16384 /\
  slice v BSG_CUDA_PRINT_STAT_TAG_SHIFT BSG_CUDA_PRINT_STAT_TAG_WIDTH = tag mod 16.
Proof.
  intros Hgx Hx Hgxx Hgy Hy Hgyy Htg Htag Hty v.
  assert (0 <= (gy + y) mod 64 < 64) by (apply Z.mod_pos_bound; lia).
  assert (0 <= (gx + x) mod 64 < 64) by (apply Z.mod_pos_bound; lia).
  assert (0 <= tg mod 16384 < 16384) by (apply Z.mod_pos_bound; lia).
  assert (0 <= tag mod 16 < 16) by (apply Z.mod_pos_bound; lia).
  subst v. rewrite print_stat_val_sum by done.
  revert H H0 H1 H2. generalize ((gy + y) mod 64) ((gx + x) mod 64) (tg mod 16384) (tag mod 16).
  intros a b c d Ha Hb Hc Hd. rewrite !slice_div_mod by done.
  change BSG_CUDA_PRINT_STAT_TYPE_SHIFT with 30. change BSG_CUDA_PRINT_STAT_Y_SHIFT with 24.
  change BSG_CUDA_PRINT_STAT_X_SHIFT with 18. change BSG_CUDA_PRINT_STAT_TG_ID_SHIFT with 4.
  change BSG_CUDA_PRINT_STAT_TAG_SHIFT with 0.
  change BSG_CUDA_PRINT_STAT_TYPE_WIDTH with 2. change BSG_CUDA_PRINT_STAT_Y_WIDTH with 6.
  change BSG_CUDA_PRINT_STAT_X_WIDTH with 6. change BSG_CUDA_PRINT_STAT_TG_ID_WIDTH with 14.
  change BSG_CUDA_PRINT_STAT_TAG_WIDTH with 4.
  norm_pow2. clear - Ha Hb Hc Hd Hty. repeat split; Z.to_euclidean_division_equations; lia.
Qed.

Lemma print_stat_fields_witness :
  let v := u32 (bsg_cuda_print_stat_val 16 8 3 2 5 0x12 3) in
  slice v 30 2 = 3 /\ slice v 24 6 = (8 + 2) mod 64 /\ slice v 18 6 = (16 + 3) mod 64 /\
  slice v 4 14 = 5 mod 16384 /\ slice v 0 4 = 0x12 mod 16.
Proof. apply (print_stat_fields 16 8 3 2 5 0x12 3); lia. Defined.
