(* ===== verification/Spmd.v ===== *)
(** * The programs of [software/spmd]

    A test program is run by every tile of a group.  [prog] is what one tile still has to do: a
    tree of memory accesses, atomics, host packets and barrier calls, in the order of the source;
    loops are unfolded by [for_] and [fold_].  [spmd_step] interleaves the tiles.

    The barrier is the specification that [Barrier] and [TileBarrier] prove of the two software
    barriers: nobody leaves a call before everybody has begun it, and then everybody can.  A
    tile that spins on a taken lock stores 1 over 1, so it is shown as not moving. *)

From S2P Require Import Prelude Lts Arch Eva Console.
Local Open Scope Z_scope.

(** A word of a tile's data memory, or of DRAM. *)
Inductive loc : Type :=
| Dmem (x y a : Z)
| Dram (a : Z).

#[export] Instance loc_eq_dec : EqDecision loc.
Proof. solve_decision. Defined.

(** Element [i] of an array of words at [p] in DRAM, and a vcache line of it. *)
Definition elem (p i : Z) : loc := Dram (u32 (p + 4 * i)).
Definition line (p i : Z) : list loc := (fun j => elem p (i + j)) <$> seqZ 0 8.

(** The location a pointer names, for a tile with the translation unit [u]; the network drops
    an access to an address without a translation, which the programs never make. *)
Definition deref (u : eva_unit) (p : Z) : loc :=
  match eva_to_npa u p with
  | Some n => Dmem (x_cord n) (y_cord n) (4 * epa n)
  | None => Dmem (-1) (-1) p
  end.

Lemma elem_inj p i j : Z.abs (i - j) < 2 ^ 30 -> elem p i = elem p j -> i = j.
Proof. intros H [= E]. norm_pow2. unfold u32 in E. Z.to_euclidean_division_equations. lia. Qed.

Inductive prog : Type :=
| Done                                    (* [while (1);] *)
| Load (a : loc) (k : Z -> prog)
| Store (a : loc) (v : Z) (k : prog)
| Amo (a : loc) (f : Z -> Z) (k : Z -> prog)   (* an atomic: what it stores, and the old value *)
| Acquire (a : loc) (k : prog)            (* [do old = bsg_amoswap_aq(a, 1); while (old != 0);] *)
| Send (p : packet) (k : prog)
| Sync (k : prog)                         (* a call of a barrier *)
| Wait (k : prog).                        (* inside it *)

#[export] Instance prog_done_dec p : Decision (p = Done).
Proof. destruct p; [by left|by right..]. Defined.

(** [bsg_finish()] and [bsg_fail()] end in [while (1);]. *)
Definition finish : prog := Send Finished Done.
Definition fail : prog := Send Failed Done.

(** [for (a in l) body], and the same with local variables [s] carried along. *)
Fixpoint for_ {A} (l : list A) (body : A -> prog -> prog) (k : prog) : prog :=
  match l with [] => k | a :: l => body a (for_ l body k) end.

Fixpoint fold_ {A S} (l : list A) (body : A -> S -> (S -> prog) -> prog) (s : S)
    (k : S -> prog) : prog :=
  match l with [] => k s | a :: l => body a s (fun s => fold_ l body s k) end.

(** [if (load of a != v) bsg_fail();] *)
Definition check (a : loc) (v : Z) (k : prog) : prog :=
  Load a (fun r => if r =? v then k else fail).

Lemma for_fmap {A B} (f : A -> B) l body k : for_ (f <$> l) body k = for_ l (fun a => body (f a)) k.
Proof. induction l as [|a l IH]; [done|]. rewrite fmap_cons. simpl. by rewrite IH. Qed.

Lemma zip_with_fmap {A B C D} (h : B -> C -> D) (f : A -> B) (g : A -> C) l :
  zip_with h (f <$> l) (g <$> l) = (fun a => h (f a) (g a)) <$> l.
Proof. induction l as [|a l IH]; [done|]. rewrite !fmap_cons. simpl. by rewrite IH. Qed.

(** Nested loops are one loop. *)
Lemma for_bind {A B} (g : A -> list B) body l k :
  for_ (l ≫= g) body k = for_ l (fun a kk => for_ (g a) body kk) k.
Proof.
  induction l as [|a l IH]; [done|]. rewrite bind_cons. simpl. rewrite <-IH. clear IH.
  induction (g a) as [|b l' IH]; [done|]. simpl. by rewrite IH.
Qed.

Definition pairs {A B} (l : list A) (l' : list B) : list (A * B) :=
  l ≫= (fun a => (fun b => (a, b)) <$> l').

Lemma elem_of_pairs {A B} (l : list A) (l' : list B) a b :
  (a, b) ∈ pairs l l' <-> a ∈ l /\ b ∈ l'.
Proof.
  unfold pairs. rewrite list_elem_of_bind. split.
  - intros (a' & H & Ha). apply list_elem_of_fmap in H as (b' & [= -> ->] & Hb). done.
  - intros [Ha Hb]. exists a. split; [|done]. apply list_elem_of_fmap. by exists b.
Qed.

Lemma for_pairs {A B} (l : list A) (l' : list B) body k :
  for_ (pairs l l') body k =
  for_ l (fun a kk => for_ l' (fun b kk => body (a, b) kk) kk) k.
Proof.
  unfold pairs. rewrite for_bind. induction l as [|a l IH]; [done|]. simpl.
  rewrite IH. apply for_fmap.
Qed.

Lemma for_ext {A} (l : list A) body body' k :
  (forall a k, body a k = body' a k) -> for_ l body k = for_ l body' k.
Proof. intros H. induction l as [|a l IH]; [done|]. simpl. by rewrite IH. Qed.

Lemma for_ext_in {A} (l : list A) body body' k :
  (forall a k, a ∈ l -> body a k = body' a k) -> for_ l body k = for_ l body' k.
Proof.
  induction l as [|a l IH]; intros H; [done|]. simpl. rewrite IH by (intros; apply H; by right).
  apply H. by left.
Qed.

(** [for (a in l) if (b a) body]. *)
Lemma for_filter {A} (b : A -> bool) l body k :
  for_ l (fun a kk => if b a then body a kk else kk) k = for_ (filter b l) body k.
Proof.
  induction l as [|a l IH]; [done|]. simpl. rewrite IH. rewrite filter_cons.
  by destruct (b a).
Qed.

(** Unrolled loads into an array of locals, and unrolled [if (! b) bsg_fail();]. *)
Fixpoint load_list (l : list loc) (k : list Z -> prog) : prog :=
  match l with [] => k [] | a :: l => Load a (fun v => load_list l (fun vs => k (v :: vs))) end.

Fixpoint assert_list (l : list bool) (k : prog) : prog :=
  match l with [] => k | b :: l => if b then assert_list l k else fail end.

(** The indices [a, a + d, ...] of [for (i = a; i < b; i += d)]. *)
Definition range_step (a b d : Z) : list Z :=
  (fun j => a + d * j) <$> seqZ 0 ((b - a + d - 1) / d).
Definition range (a b : Z) : list Z := seqZ a (b - a).

Lemma elem_of_range a b i : i ∈ range a b <-> a <= i < b.
Proof. unfold range. rewrite elem_of_seqZ. lia. Qed.

Lemma elem_of_range_step a b d i : 0 < d ->
  i ∈ range_step a b d <-> a <= i < b /\ (i - a) mod d = 0.
Proof.
  intros Hd. unfold range_step. rewrite list_elem_of_fmap. split.
  - intros (j & -> & Hj). apply elem_of_seqZ in Hj.
    replace (a + d * j - a) with (j * d) by lia. rewrite Z.mod_mul by lia.
    split; [|done]. split; [nia|]. destruct Hj as [H0 Hj].
    assert (d * ((b - a + d - 1) / d) <= b - a + d - 1) by (apply Z.mul_div_le; lia). nia.
  - intros [Hi Hm]. exists ((i - a) / d). pose proof (Z.div_mod (i - a) d) as E.
    split; [lia|]. apply elem_of_seqZ. split; [apply Z.div_pos; lia|].
    apply Z.div_lt_upper_bound; [lia|].
    assert (b - a <= d * ((b - a + d - 1) / d)); [|lia].
    pose proof (Z.div_mod (b - a + d - 1) d). pose proof (Z.mod_pos_bound (b - a + d - 1) d). lia.
Qed.

(** The element a loop has come to. *)
Lemma range_step_at a b d done i rest :
  range_step a b d = done ++ i :: rest -> i = a + d * Z.of_nat (length done).
Proof.
  unfold range_step. intros E.
  assert (((fun j => a + d * j) <$> seqZ 0 ((b - a + d - 1) / d)) !! length done = Some i) as H.
  { rewrite E, lookup_app_r by lia. by rewrite Nat.sub_diag. }
  apply list_lookup_fmap_Some in H as (j & -> & H). apply lookup_seqZ in H. lia.
Qed.

Lemma range_at a b done i rest : range a b = done ++ i :: rest -> i = a + Z.of_nat (length done).
Proof.
  unfold range. intros E. assert (seqZ a (b - a) !! length done = Some i) as H.
  { rewrite E, lookup_app_r by lia. by rewrite Nat.sub_diag. }
  apply lookup_seqZ in H. lia.
Qed.

Lemma length_range_step a b d : Z.of_nat (length (range_step a b d)) = Z.max 0 ((b - a + d - 1) / d).
Proof. unfold range_step. rewrite length_fmap, length_seqZ. lia. Qed.

Lemma length_range a b : Z.of_nat (length (range a b)) = Z.max 0 (b - a).
Proof. unfold range. rewrite length_seqZ. lia. Qed.

Lemma forallb_elem {A} (f : A -> bool) l :
  forallb f l = true <-> forall x, x ∈ l -> f x = true.
Proof. rewrite forallb_forall. by setoid_rewrite list_elem_of_In. Qed.

(** ** Interleaved execution *)

Record sstate {Tid : Type} := {
  smem : loc -> Z;
  sprog : Tid -> prog;
  ssyncs : Tid -> nat;             (* barrier calls begun *)
  sout : Tid -> list packet;       (* packets sent, oldest first *)
}.
Arguments sstate : clear implicits.
Arguments Build_sstate {Tid}.

Section spmd.
Context {Tid : Type} `{EqDecision Tid}.
Variable tiles : list Tid.
Implicit Types (s : sstate Tid) (t : Tid).

Definition goto t (p : prog) s : sstate Tid :=
  Build_sstate (smem s) (<[t := p]> (sprog s)) (ssyncs s) (sout s).

Definition spmd_step t s : option (sstate Tid) :=
  if decide (t ∈ tiles) then
    match sprog s t with
    | Done => None
    | Load a k => Some (goto t (k (smem s a)) s)
    | Store a v k =>
        Some (goto t k (Build_sstate (<[a := v]> (smem s)) (sprog s) (ssyncs s) (sout s)))
    | Amo a f k =>
        Some (goto t (k (smem s a))
                (Build_sstate (<[a := f (smem s a)]> (smem s)) (sprog s) (ssyncs s) (sout s)))
    | Acquire a k =>
        if smem s a =? 0
        then Some (goto t k (Build_sstate (<[a := 1]> (smem s)) (sprog s) (ssyncs s) (sout s)))
        else None
    | Send p k =>
        Some (goto t k (Build_sstate (smem s) (sprog s) (ssyncs s)
                          (<[t := sout s t ++ [p]]> (sout s))))
    | Sync k =>
        Some (goto t (Wait k) (Build_sstate (smem s) (sprog s) (<[t := S (ssyncs s t)]> (ssyncs s))
                                 (sout s)))
    | Wait k =>
        if forallb (fun t' => (ssyncs s t <=? ssyncs s t')%nat) tiles then Some (goto t k s)
        else None
    end
  else None.

Definition spmd_init (main : Tid -> prog) (m0 : loc -> Z) s : Prop :=
  smem s = m0 /\ (forall t, t ∈ tiles -> sprog s t = main t /\ ssyncs s t = 0%nat /\ sout s t = []).

Definition spmd_lts (main : Tid -> prog) (m0 : loc -> Z) : Lts (sstate Tid) Tid :=
  {| lts_init := spmd_init main m0; lts_step := spmd_step |}.

Definition all_done s : Prop := forall t, t ∈ tiles -> sprog s t = Done.
End spmd.

(** ** Every step goes down the tree *)

Definition sub (p' p : prog) : Prop :=
  match p with
  | Done => False
  | Load _ k | Amo _ _ k => exists v, p' = k v
  | Store _ _ k | Acquire _ k | Send _ k | Wait k => p' = k
  | Sync k => p' = Wait k
  end.

Lemma sub_acc p : Acc sub p.
Proof.
  induction p as [|? ? IH|? ? ? IH|? ? ? IH|? ? IH|? ? IH|? IH|? IH]; constructor; intros p' H;
    simpl in H; [done|by destruct H as [v ->]|by subst|by destruct H as [v ->]|by subst|by subst| |by subst].
  subst. constructor. intros p' ->. done.
Qed.

Lemma spmd_step_sub {Tid} `{EqDecision Tid} (tiles : list Tid) t s s' :
  spmd_step tiles t s = Some s' ->
  t ∈ tiles /\ sub (sprog s' t) (sprog s t) /\
  forall t', t' <> t ->
    sprog s' t' = sprog s t' /\ ssyncs s' t' = ssyncs s t' /\ sout s' t' = sout s t'.
Proof.
  intros H. unfold spmd_step in H. destruct (decide (t ∈ tiles)) as [Ht|]; [|done].
  split; [done|]. split.
  - destruct (sprog s t); repeat case_match; try discriminate H; apply (inj Some) in H; subst s';
      simpl; rewrite fn_lookup_insert; simpl; eauto.
  - intros t' Hne.
    destruct (sprog s t); repeat case_match; try discriminate H; apply (inj Some) in H; subst s';
      simpl; rewrite ?fn_lookup_insert_ne by done; done.
Qed.

(** ** Atomics: [bsg_manycore_atomic.h]

    An atomic and its [.aq], [.rl] and [.aqrl] forms differ in the order they impose on the
    accesses around them, which every execution here respects. *)

Definition bsg_amoswap (p : loc) (val : Z) (k : Z -> prog) : prog := Amo p (fun _ => val) k.
Definition bsg_amoswap_aq (p : loc) (val : Z) (k : Z -> prog) : prog := Amo p (fun _ => val) k.
Definition bsg_amoswap_rl (p : loc) (val : Z) (k : Z -> prog) : prog := Amo p (fun _ => val) k.
Definition bsg_amoswap_aqrl (p : loc) (val : Z) (k : Z -> prog) : prog := Amo p (fun _ => val) k.

Definition bsg_amoor (p : loc) (val : Z) (k : Z -> prog) : prog := Amo p (fun r => Z.lor r val) k.
Definition bsg_amoor_aq (p : loc) (val : Z) (k : Z -> prog) : prog := Amo p (fun r => Z.lor r val) k.
Definition bsg_amoor_rl (p : loc) (val : Z) (k : Z -> prog) : prog := Amo p (fun r => Z.lor r val) k.
Definition bsg_amoor_aqrl (p : loc) (val : Z) (k : Z -> prog) : prog := Amo p (fun r => Z.lor r val) k.

Definition bsg_amoadd (p : loc) (val : Z) (k : Z -> prog) : prog := Amo p (fun r => (r +i val)%c) k.
Definition bsg_amoadd_aq (p : loc) (val : Z) (k : Z -> prog) : prog := Amo p (fun r => (r +i val)%c) k.
Definition bsg_amoadd_rl (p : loc) (val : Z) (k : Z -> prog) : prog := Amo p (fun r => (r +i val)%c) k.
Definition bsg_amoadd_aqrl (p : loc) (val : Z) (k : Z -> prog) : prog :=
  Amo p (fun r => (r +i val)%c) k.
