(* ===== verification/SpmdLogic.v ===== *)
(** * A program logic for [software/spmd]

    A [plan] says, for each phase of a test (the stretch between two barriers), what each
    location is used for: private to one tile, fixed, a sum to which tiles add under a lock or
    with an atomic, or a lock; what memory holds when the phase begins, and how much each tile
    adds to the sums.  [safe] runs one tile against the plan.  [spmd_correct] and
    [spmd_completes] turn one derivation of [safe] per tile into facts about every
    interleaving; [test_passes] is what they say of a test. *)

From S2P Require Import Prelude Lts Arch Eva Console Spmd.
Local Open Scope Z_scope.

(** What a location is used for in a phase. *)
Inductive role {Tid : Type} : Type :=
| Private (t : Tid)
| Fixed
| Sum (l : option loc)       (* added to under the lock [l], or with atomics *)
| Lock.
Arguments role : clear implicits.

#[export] Instance role_eq_dec {Tid} `{EqDecision Tid} : EqDecision (role Tid).
Proof. solve_decision. Defined.

Record plan {Tid : Type} := {
  roles : nat -> loc -> role Tid;
  contents : nat -> loc -> Z;              (* memory when the phase begins *)
  share : nat -> Tid -> loc -> Z;          (* what a tile adds to a sum *)
  last_phase : nat;
  post : Tid -> list packet -> (loc -> Z) -> Prop;   (* of a tile that is done *)
}.
Arguments plan : clear implicits.

Definition no_adds : loc -> Z := fun _ => 0.

Section spmd.
Context {Tid : Type} `{EqDecision Tid}.
Variable tiles : list Tid.
Implicit Types (s : sstate Tid) (t : Tid).

Variable pl : plan Tid.

(** Owners are tiles of the group; the contents of two phases agree with what happens between
    them to each kind of location; sums are guarded by locks. *)
Definition plan_ok : Prop :=
  forall n a, match roles pl n a with
  | Private t => t ∈ tiles
  | Fixed => contents pl (S n) a = contents pl n a
  | Sum g => (forall l, g = Some l -> roles pl n l = Lock) /\ NoDup tiles /\ is_i32 (contents pl n a) /\
      contents pl (S n) a = i32 (contents pl n a + sum_over (fun t => share pl n t a) tiles)
  | Lock => contents pl n a = 0 /\ contents pl (S n) a = 0
  end.

(** The locations a tile may read, when it holds the lock [h]. *)
Definition readable (n : nat) t (h : option loc) (a : loc) : Prop :=
  roles pl n a = Fixed \/ roles pl n a = Private t \/
  exists l, h = Some l /\ roles pl n a = Sum (Some l).

(** [safe n t p m d h o]: tile [t], in phase [n], with the view [m] of memory, having added [d]
    to the sums of the phase, holding the lock [h], and having sent [o], runs [p] without a
    race to its end. *)
Inductive safe (n : nat) t : prog -> (loc -> Z) -> (loc -> Z) -> option loc -> list packet -> Prop :=
| safe_done m d o :
    n = last_phase pl -> post pl t o m -> safe n t Done m d None o
| safe_load a k m d h o :
    readable n t h a -> safe n t (k (m a)) m d h o -> safe n t (Load a k) m d h o
| safe_store a v k m d h o :
    roles pl n a = Private t -> safe n t k (<[a := v]> m) d h o ->
    safe n t (Store a v k) m d h o
| safe_store_sum a l c v k m d o :
    roles pl n a = Sum (Some l) -> v = i32 (m a + c) ->
    safe n t k (<[a := v]> m) (<[a := d a + c]> d) (Some l) o ->
    safe n t (Store a v k) m d (Some l) o
| safe_amo a f k m d h o :
    roles pl n a = Private t -> safe n t (k (m a)) (<[a := f (m a)]> m) d h o ->
    safe n t (Amo a f k) m d h o
| safe_amo_sum a f c k m d h o :
    roles pl n a = Sum None -> (forall r, f r = i32 (r + c)) ->
    (forall r, safe n t (k r) m (<[a := d a + c]> d) h o) ->
    safe n t (Amo a f k) m d h o
| safe_acquire_private l k m d h o :
    roles pl n l = Private t -> m l = 0 -> safe n t k (<[l := 1]> m) d h o ->
    safe n t (Acquire l k) m d h o
| safe_acquire l k m d o :
    roles pl n l = Lock ->
    (forall m', (forall a, roles pl n a <> Sum (Some l) -> m' a = m a) ->
       safe n t k m' d (Some l) o) ->
    safe n t (Acquire l k) m d None o
| safe_release l f k m d o :
    roles pl n l = Lock -> (forall r, f r = 0) -> (forall r, safe n t (k r) m d None o) ->
    safe n t (Amo l f k) m d (Some l) o
| safe_send p k m d h o :
    safe n t k m d h (o ++ [p]) -> safe n t (Send p k) m d h o
| safe_sync k m d o :
    (forall a, roles pl n a = Private t -> m a = contents pl (S n) a) ->
    (forall a l, roles pl n a = Sum l -> d a = share pl n t a) ->
    safe (S n) t k (contents pl (S n)) no_adds None o -> safe n t (Sync k) m d None o.

Lemma safe_check n t a v k m d h o :
  readable n t h a -> m a = v -> safe n t k m d h o -> safe n t (check a v k) m d h o.
Proof. intros ? E ?. apply safe_load; [done|]. by rewrite E, Z.eqb_refl. Qed.

(** A location that is added to under a lock: [lock; v = *a; *a = v + c; unlock]. *)
Lemma safe_locked_add n t a l c k m d o :
  roles pl n a = Sum (Some l) -> roles pl n l = Lock ->
  (forall m', (forall b, roles pl n b <> Sum (Some l) -> m' b = m b) ->
     safe n t k m' (<[a := d a + c]> d) None o) ->
  safe n t (Acquire l (Load a (fun v => Store a (v +i c)%c (bsg_amoswap_rl l 0 (fun _ => k))))) m d None o.
Proof.
  intros Ha Hl Hk. apply safe_acquire; [done|]. intros m' Hm'.
  apply safe_load; [right; right; by exists l|]. apply (safe_store_sum _ _ _ l c); [done|done|].
  apply safe_release; [done|done|]. intros _. apply Hk. intros b Hb.
  rewrite fn_lookup_insert_ne by congruence. by apply Hm'.
Qed.

(** Loops, by an invariant on what has been visited. *)
Lemma safe_for {A} n t (l : list A) body k m d h o
    (I : list A -> (loc -> Z) -> (loc -> Z) -> option loc -> list packet -> Prop) :
  I [] m d h o ->
  (forall done a rest m d h o kk, l = done ++ a :: rest -> I done m d h o ->
     (forall m' d' h' o', I (done ++ [a]) m' d' h' o' -> safe n t kk m' d' h' o') ->
     safe n t (body a kk) m d h o) ->
  (forall m d h o, I l m d h o -> safe n t k m d h o) ->
  safe n t (for_ l body k) m d h o.
Proof.
  intros H0 Hbody Hk.
  assert (forall rest done m d h o, l = done ++ rest -> I done m d h o ->
    safe n t (for_ rest body k) m d h o) as H.
  { intros rest. induction rest as [|a rest IH]; intros done m' d' h' o' E Hi; simpl.
    - rewrite app_nil_r in E. subst. by apply Hk.
    - apply (Hbody done a rest); [done|done|]. intros. apply (IH (done ++ [a])); [|done].
      by rewrite <-app_assoc. }
  by apply (H l []).
Qed.

Lemma safe_fold {A S} n t (l : list A) body (z : S) k m d h o
    (I : list A -> S -> (loc -> Z) -> (loc -> Z) -> option loc -> list packet -> Prop) :
  I [] z m d h o ->
  (forall done a rest z m d h o kk, l = done ++ a :: rest -> I done z m d h o ->
     (forall z' m' d' h' o', I (done ++ [a]) z' m' d' h' o' -> safe n t (kk z') m' d' h' o') ->
     safe n t (body a z kk) m d h o) ->
  (forall z m d h o, I l z m d h o -> safe n t (k z) m d h o) ->
  safe n t (fold_ l body z k) m d h o.
Proof.
  intros H0 Hbody Hk.
  assert (forall rest done z m d h o, l = done ++ rest -> I done z m d h o ->
    safe n t (fold_ rest body z k) m d h o) as H.
  { intros rest. induction rest as [|a rest IH]; intros done z' m' d' h' o' E Hi; simpl.
    - rewrite app_nil_r in E. subst. by apply Hk.
    - apply (Hbody done a rest); [done|done|]. intros. apply (IH (done ++ [a])); [|done].
      by rewrite <-app_assoc. }
  by apply (H l []).
Qed.

(** ** Programs without locks *)

Definition safely (n : nat) t (p : prog) (m : loc -> Z) (o : list packet) : Prop :=
  safe n t p m no_adds None o.

(** The locations a tile that holds no lock may read. *)
Definition legible (n : nat) t (a : loc) : Prop :=
  roles pl n a = Fixed \/ roles pl n a = Private t.

Lemma legible_readable n t h a : legible n t a -> readable n t h a.
Proof. intros [|]; [by left|by right; left]. Qed.

Lemma safely_done n t m o :
  n = last_phase pl -> post pl t o m -> safely n t Done m o.
Proof. by constructor. Qed.

Lemma safely_load n t a k m o :
  legible n t a -> safely n t (k (m a)) m o -> safely n t (Load a k) m o.
Proof. intros. apply safe_load; [by apply legible_readable|done]. Qed.

Lemma safely_check n t a v k m o :
  legible n t a -> m a = v -> safely n t k m o -> safely n t (check a v k) m o.
Proof. intros. apply safe_check; [by apply legible_readable|done..]. Qed.

Lemma safely_store n t a v k m o :
  roles pl n a = Private t -> safely n t k (<[a := v]> m) o -> safely n t (Store a v k) m o.
Proof. intros. by apply safe_store. Qed.

Lemma safely_amo n t a f k m o :
  roles pl n a = Private t -> safely n t (k (m a)) (<[a := f (m a)]> m) o ->
  safely n t (Amo a f k) m o.
Proof. intros. by apply safe_amo. Qed.

Lemma safely_acquire n t l k m o :
  roles pl n l = Private t -> m l = 0 -> safely n t k (<[l := 1]> m) o ->
  safely n t (Acquire l k) m o.
Proof. intros. by apply safe_acquire_private. Qed.

Lemma safely_send n t p k m o :
  safely n t k m (o ++ [p]) -> safely n t (Send p k) m o.
Proof. intros. by apply safe_send. Qed.

Lemma safely_sync n t k m o :
  (forall a, roles pl n a = Private t -> m a = contents pl (S n) a) ->
  (forall a l, roles pl n a = Sum l -> share pl n t a = 0) ->
  safely (S n) t k (contents pl (S n)) o -> safely n t (Sync k) m o.
Proof. intros Hm Hs Hk. apply safe_sync; [done| |done]. intros a l E. by rewrite (Hs a l). Qed.

Lemma safely_for {A} n t (l : list A) body k m o
    (I : list A -> (loc -> Z) -> list packet -> Prop) :
  I [] m o ->
  (forall done a rest m o kk, l = done ++ a :: rest -> I done m o ->
     (forall m' o', I (done ++ [a]) m' o' -> safely n t kk m' o') ->
     safely n t (body a kk) m o) ->
  (forall m o, I l m o -> safely n t k m o) ->
  safely n t (for_ l body k) m o.
Proof.
  intros H0 Hbody Hk.
  apply (safe_for _ _ _ _ _ _ _ _ _ (fun done m d h o => d = no_adds /\ h = None /\ I done m o)).
  - done.
  - intros done a rest m' d h o' kk E (-> & -> & HI) Hkk. apply (Hbody done a rest); [done|done|].
    intros m'' o'' HI'. by apply Hkk.
  - intros m' d h o' (-> & -> & HI). by apply Hk.
Qed.

Lemma safely_sends n t l k m o :
  safely n t k m (o ++ l) -> safely n t (for_ l Send k) m o.
Proof.
  revert o. induction l as [|p l IH]; intros o H; cbn [for_].
  - by rewrite app_nil_r in H.
  - apply safely_send, IH. by rewrite <-app_assoc.
Qed.

(** A loop whose iterations pass barriers. *)
Lemma safely_for_phases {A} t (l : list A) body k n m o
    (I : list A -> nat -> (loc -> Z) -> list packet -> Prop) :
  I [] n m o ->
  (forall done a rest n m o kk, l = done ++ a :: rest -> I done n m o ->
     (forall n' m' o', I (done ++ [a]) n' m' o' -> safely n' t kk m' o') ->
     safely n t (body a kk) m o) ->
  (forall n m o, I l n m o -> safely n t k m o) ->
  safely n t (for_ l body k) m o.
Proof.
  intros H0 Hbody Hk.
  assert (forall rest done n m o, l = done ++ rest -> I done n m o ->
    safely n t (for_ rest body k) m o) as H.
  { intros rest. induction rest as [|a rest IH]; intros done n' m' o' E Hi; simpl.
    - rewrite app_nil_r in E. subst. by apply Hk.
    - apply (Hbody done a rest); [done|done|]. intros. apply (IH (done ++ [a])); [|done].
      by rewrite <-app_assoc. }
  by apply (H l []).
Qed.

Lemma safely_fold {A S} n t (l : list A) body (z : S) k m o
    (I : list A -> S -> (loc -> Z) -> list packet -> Prop) :
  I [] z m o ->
  (forall done a rest z m o kk, l = done ++ a :: rest -> I done z m o ->
     (forall z' m' o', I (done ++ [a]) z' m' o' -> safely n t (kk z') m' o') ->
     safely n t (body a z kk) m o) ->
  (forall z m o, I l z m o -> safely n t (k z) m o) ->
  safely n t (fold_ l body z k) m o.
Proof.
  intros H0 Hbody Hk.
  apply (safe_fold _ _ _ _ _ _ _ _ _ _ (fun done z m d h o => d = no_adds /\ h = None /\ I done z m o)).
  - done.
  - intros done a rest z' m' d h o' kk E (-> & -> & HI) Hkk.
    apply (Hbody done a rest); [done|done|]. intros z'' m'' o'' HI'. by apply Hkk.
  - intros z' m' d h o' (-> & -> & HI). by apply Hk.
Qed.
(** A loop of stores to owned locations. *)
Lemma safely_for_store {A} n t (l : list A) (f : A -> loc) (g : A -> Z) k m o :
  (forall a, a ∈ l -> roles pl n (f a) = Private t) ->
  safely n t k (fold_left (fun m a => <[f a := g a]> m) l m) o ->
  safely n t (for_ l (fun a kk => Store (f a) (g a) kk) k) m o.
Proof.
  revert m. induction l as [|a l IH]; intros m Ho Hk; simpl; [done|].
  apply safely_store; [apply Ho; by left|]. apply IH; [|done]. intros. apply Ho. by right.
Qed.

(** The same, with what memory holds after it. *)
Lemma safely_fill {A} n t (l : list A) (f : A -> loc) (g : A -> Z) k m o :
  (forall a, a ∈ l -> roles pl n (f a) = Private t) ->
  (forall a b, a ∈ l -> b ∈ l -> f a = f b -> g a = g b) ->
  (forall m', (forall a, a ∈ l -> m' (f a) = g a) ->
     (forall x, (forall a, a ∈ l -> f a <> x) -> m' x = m x) -> safely n t k m' o) ->
  safely n t (for_ l (fun a kk => Store (f a) (g a) kk) k) m o.
Proof.
  intros Ho Hfg Hk. apply safely_for_store; [done|]. apply Hk.
  - intros a Ha. apply fold_insert_lookup; [done|]. intros b Hb. by apply Hfg.
  - intros x Hx. by apply fold_insert_other.
Qed.

(** A loop of checks that hold. *)
Lemma safely_for_check {A} n t (l : list A) (f : A -> loc) (g : A -> Z) k m o :
  (forall a, a ∈ l -> legible n t (f a) /\ m (f a) = g a) ->
  safely n t k m o ->
  safely n t (for_ l (fun a kk => check (f a) (g a) kk) k) m o.
Proof.
  intros Hl Hk. induction l as [|a l IH]; simpl; [done|].
  destruct (Hl a) as [Ho E]; [by left|]. apply safely_check; [done|done|].
  apply IH. intros. apply Hl. by right.
Qed.

Lemma safely_load_list n t l k m o :
  (forall a, a ∈ l -> legible n t a) ->
  safely n t (k (m <$> l)) m o -> safely n t (load_list l k) m o.
Proof.
  revert k. induction l as [|a l IH]; intros k Hl Hk; simpl; [done|].
  apply safely_load; [apply Hl; by left|].
  apply IH; [intros; apply Hl; by right|done].
Qed.

Lemma safely_assert_list n t l k m o :
  (forall b, b ∈ l -> b = true) -> safely n t k m o -> safely n t (assert_list l k) m o.
Proof.
  intros Hl Hk. induction l as [|b l IH]; simpl; [done|].
  rewrite (Hl b) by by left. apply IH. intros. apply Hl. by right.
Qed.

(** Unrolled loads, then unrolled checks that hold. *)
Lemma safely_load_checks {A} n t (l : list A) (f : A -> loc) (g : A -> Z) h k m o :
  (forall a, a ∈ l -> legible n t (f a) /\
     h (m (f a)) (g a) = true) ->
  safely n t k m o ->
  safely n t (load_list (f <$> l) (fun vs => assert_list (zip_with h vs (g <$> l)) k)) m o.
Proof.
  intros Hl Hk. apply safely_load_list.
  { intros a Ha. apply list_elem_of_fmap in Ha as (b & -> & Hb). by apply Hl. }
  apply safely_assert_list; [|done]. rewrite <-list_fmap_compose, zip_with_fmap.
  intros b Hb. apply list_elem_of_fmap in Hb as (a & -> & Ha). by apply Hl.
Qed.

(** A loop of loads whose values do not matter. *)
Lemma safely_for_load {A} n t (l : list A) (f : A -> loc) k m o :
  (forall a, a ∈ l -> legible n t (f a)) ->
  safely n t k m o ->
  safely n t (for_ l (fun a kk => Load (f a) (fun _ => kk)) k) m o.
Proof.
  intros Hl Hk. induction l as [|a l IH]; simpl; [done|].
  apply safely_load; [apply Hl; by left|]. apply IH. intros. apply Hl. by right.
Qed.

Lemma safe_phase n t p m d h o : safe n t p m d h o -> (n <= last_phase pl)%nat.
Proof.
  induction 1; try lia.
  - match goal with IH : Z -> (_ <= _)%nat |- _ => by apply (IH 0) end.
  - match goal with IH : forall m', _ -> (_ <= _)%nat |- _ => by apply (IH m) end.
  - match goal with IH : Z -> (_ <= _)%nat |- _ => by apply (IH 0) end.
Qed.

(** ** Every interleaving *)

(** What holds of one tile while the slowest tiles are in phase [L]: it has added [d] and
    holds [h]. *)
Inductive tile_ok (L : nat) s t (d : loc -> Z) (h : option loc) : Prop :=
| ok_active m :
    ssyncs s t = L -> safe L t (sprog s t) m d h (sout s t) ->
    (forall a, readable L t h a -> smem s a = m a) -> tile_ok L s t d h
| ok_leaving k :
    ssyncs s t = L -> sprog s t = Wait k -> d = no_adds -> h = None ->
    safe L t k (contents pl L) no_adds None (sout s t) ->
    (forall a, roles pl L a = Private t -> smem s a = contents pl L a) -> tile_ok L s t d h
| ok_arrived k :
    ssyncs s t = S L -> sprog s t = Wait k -> h = None ->
    (forall a l, roles pl L a = Sum l -> d a = share pl L t a) ->
    safe (S L) t k (contents pl (S L)) no_adds None (sout s t) ->
    (forall a, roles pl L a = Private t -> smem s a = contents pl (S L) a) -> tile_ok L s t d h.

Implicit Types (A : Tid -> loc -> Z) (H : Tid -> option loc).

(** What holds of a location, by its role. *)
Definition loc_ok (L : nat) A H s (a : loc) : Prop :=
  match roles pl L a with
  | Private _ => True
  | Fixed => smem s a = contents pl L a
  | Sum _ => smem s a = i32 (contents pl L a + sum_over (fun t => A t a) tiles)
  | Lock => if smem s a =? 0 then forall t, t ∈ tiles -> H t <> Some a
            else exists t, t ∈ tiles /\ H t = Some a /\
                   forall t', t' ∈ tiles -> H t' = Some a -> t' = t
  end.

(** [A t] is what tile [t] has added in the phase, [H t] the lock it holds. *)
Record spmd_inv (L : nat) A H s : Prop := {
  si_tile : forall t, t ∈ tiles -> tile_ok L s t (A t) (H t);
  si_loc : forall a, loc_ok L A H s a;
}.

Hypothesis Hpl : plan_ok.

(** When everybody has arrived, the next phase begins. *)
Lemma spmd_inv_next L A H s :
  spmd_inv L A H s -> (forall t, t ∈ tiles -> (S L <= ssyncs s t)%nat) ->
  spmd_inv (S L) (fun _ => no_adds) (fun _ => None) s.
Proof using Hpl.
  intros I Hall.
  assert (forall t, t ∈ tiles -> exists k, ssyncs s t = S L /\ sprog s t = Wait k /\
    H t = None /\ (forall a l, roles pl L a = Sum l -> A t a = share pl L t a) /\
    safe (S L) t k (contents pl (S L)) no_adds None (sout s t) /\
    (forall a, roles pl L a = Private t -> smem s a = contents pl (S L) a)) as Ha.
  { intros t Ht. specialize (Hall t Ht).
    destruct (si_tile _ _ _ _ I t Ht) as [m E|k E|k E]; [lia|lia|]. exists k. auto 6. }
  assert (forall a, smem s a = contents pl (S L) a) as Hm.
  { intros a. pose proof (Hpl L a) as Hp. pose proof (si_loc _ _ _ _ I a) as Hl. unfold loc_ok in Hl.
    destruct (roles pl L a) as [t| |l|] eqn:E.
    - destruct (Ha t Hp) as (k & _ & _ & _ & _ & _ & Hown). by apply Hown.
    - congruence.
    - destruct Hp as (_ & _ & _ & ->). rewrite Hl. do 2 f_equal. apply sum_over_ext.
      intros t Ht. destruct (Ha t Ht) as (k & _ & _ & _ & Hs & _). by eapply Hs.
    - destruct Hp as [_ ->]. destruct (Z.eqb_spec (smem s a) 0) as [|_]; [done|].
      destruct Hl as (t & Ht & Hh & _). destruct (Ha t Ht) as (k & _ & _ & Hn & _). congruence. }
  split.
  - intros t Ht. destruct (Ha t Ht) as (k & Es & Ep & _ & _ & Hs & _).
    by eapply ok_leaving.
  - intros a. pose proof (Hpl (S L) a) as Hp. unfold loc_ok. rewrite Hm.
    destruct (roles pl (S L) a) as [t| |l|] eqn:E; [done|done| |].
    + rewrite sum_over_zero, Z.add_0_r, i32_id by (apply Hp || done). done.
    + destruct Hp as [-> _]. simpl. done.
Qed.

(** What a step of a tile does to memory, to its additions and to its lock. *)
Inductive effect (L : nat) t (m : loc -> Z) (d : loc -> Z) (h : option loc) :
    (loc -> Z) -> (loc -> Z) -> option loc -> Prop :=
| eff_none : effect L t m d h m d h
| eff_private a v : roles pl L a = Private t -> effect L t m d h (<[a := v]> m) d h
| eff_sum a l c : roles pl L a = Sum l -> (forall l', l = Some l' -> h = l) ->
    effect L t m d h (<[a := i32 (m a + c)]> m) (<[a := d a + c]> d) h
| eff_acquire l : roles pl L l = Lock -> m l = 0 -> h = None ->
    effect L t m d h (<[l := 1]> m) d (Some l)
| eff_release l : roles pl L l = Lock -> h = Some l -> effect L t m d h (<[l := 0]> m) d None.

(** A store leaves the locations of other roles alone. *)
Lemma insert_role L (m : loc -> Z) a v b :
  roles pl L a <> roles pl L b -> (<[a := v]> m) b = m b.
Proof. intros Hr. apply fn_lookup_insert_ne. intros ->. done. Qed.

Lemma not_readable_other L t h a : roles pl L a = Lock \/ roles pl L a = Sum None -> ~ readable L t h a.
Proof. intros E [F|[F|(l & _ & F)]]; rewrite F in E; destruct E; done. Qed.

(** The view of memory of a tile that has got a lock. *)
Definition locked_view (L : nat) (m mem : loc -> Z) (l : loc) (a : loc) : Z :=
  if decide (roles pl L a = Sum (Some l)) then mem a else m a.

Lemma tile_ok_step L A H s t s' :
  spmd_inv L A H s -> t ∈ tiles -> ssyncs s t = L -> spmd_step tiles t s = Some s' ->
  exists d' h', tile_ok L s' t d' h' /\
    effect L t (smem s) (A t) (H t) (smem s') d' h'.
Proof.
  intros I Ht Hs Hstep. unfold spmd_step in Hstep. rewrite decide_True in Hstep by done.
  destruct (si_tile _ _ _ _ I t Ht) as [m _ Hsafe Hm|k _ Hp Ed Eh Hsafe Hm|k Hs' _ _ _ _ _]; [| |lia].
  - remember (sprog s t) as q eqn:Eq. remember (sout s t) as o' eqn:Eo.
    remember (A t) as d' eqn:Ed. remember (H t) as h' eqn:Eh.
    destruct Hsafe as [m d o|a k m d h o Ha Hk|a v k m d h o Ha Hk|a l c v k m d o Ha Ev Hk
      |a f k m d h o Ha Hk|a f c k m d h o Ha Hf Hk|l k m d h o Hl E0 Hk|l k m d o Hl Hk|l f k m d o Hl Hf Hk
      |p k m d h o Hk|k m d o Hfin Hsh Hk]; [done|..|].
    + apply (inj Some) in Hstep; subst s'. exists d, h. split; [|constructor].
      eapply ok_active with m; simpl; [done| |done]. by rewrite fn_lookup_insert, <-Eo, Hm.
    + apply (inj Some) in Hstep; subst s'. exists d, h. split; [|by constructor].
      eapply ok_active with (<[a := v]> m); simpl; [done|by rewrite fn_lookup_insert, <-Eo|].
      intros b Hb. destruct (decide (a = b)) as [->|Hab]; [by rewrite !fn_lookup_insert|].
      rewrite !fn_lookup_insert_ne by done. auto.
    + apply (inj Some) in Hstep; subst s'. exists (<[a := d a + c]> d), (Some l). split.
      * eapply ok_active with (<[a := v]> m); simpl; [done|by rewrite fn_lookup_insert, <-Eo|].
        intros b Hb. destruct (decide (a = b)) as [->|Hab]; [by rewrite !fn_lookup_insert|].
        rewrite !fn_lookup_insert_ne by done. auto.
      * simpl. rewrite Ev, <-Hm by (right; right; eauto). eapply eff_sum; [done|].
        by intros l' [= <-].
    + apply (inj Some) in Hstep; subst s'. exists d, h.
      assert (smem s a = m a) as Ea by (apply Hm; by right; left).
      split; [|rewrite Ea; by apply eff_private].
      eapply ok_active with (<[a := f (m a)]> m); simpl;
        [done|by rewrite fn_lookup_insert, <-Eo, Ea|].
      intros b Hb. rewrite Ea. destruct (decide (a = b)) as [->|Hab]; [by rewrite !fn_lookup_insert|].
      rewrite !fn_lookup_insert_ne by done. auto.
    + apply (inj Some) in Hstep; subst s'. exists (<[a := d a + c]> d), h. split.
      * eapply ok_active with m; simpl; [done|by rewrite fn_lookup_insert, <-Eo|].
        intros b Hb. rewrite fn_lookup_insert_ne; [by apply Hm|]. intros ->. revert Hb.
        apply not_readable_other. auto.
      * simpl. rewrite Hf. by eapply eff_sum.
    + rewrite Hm, E0 in Hstep by (by right; left). simpl in Hstep.
      apply (inj Some) in Hstep; subst s'. exists d, h. split; [|by apply eff_private].
      eapply ok_active with (<[l := 1]> m); simpl; [done|by rewrite fn_lookup_insert, <-Eo|].
      intros b Hb. destruct (decide (l = b)) as [->|Hab]; [by rewrite !fn_lookup_insert|].
      rewrite !fn_lookup_insert_ne by done. auto.
    + destruct (Z.eqb_spec (smem s l) 0) as [E0|]; [|done].
      apply (inj Some) in Hstep; subst s'. exists d, (Some l). split; [|by constructor].
      eapply ok_active with (locked_view L m (smem s) l); simpl; [done| |].
      * rewrite fn_lookup_insert, <-Eo. apply Hk. intros a Ha. unfold locked_view.
        by rewrite decide_False.
      * intros b Hb. rewrite fn_lookup_insert_ne
          by (intros ->; revert Hb; apply not_readable_other; auto).
        unfold locked_view. case_decide as Hd; [done|]. apply Hm.
        destruct Hb as [Hb|[Hb|(l' & [= <-] & Hb)]]; [by left|by right; left|done].
    + apply (inj Some) in Hstep; subst s'. exists d, None. split.
      * eapply ok_active with m; simpl; [done|by rewrite fn_lookup_insert, <-Eo|].
        intros b Hb. rewrite fn_lookup_insert_ne
          by (intros ->; revert Hb; apply not_readable_other; auto).
        apply Hm. destruct Hb as [Hb|[Hb|(l' & [=] & Hb)]]; [by left|by right; left].
      * simpl. rewrite Hf. by constructor.
    + apply (inj Some) in Hstep; subst s'. exists d, h. split; [|constructor].
      eapply ok_active with m; simpl; [done| |done]. by rewrite !fn_lookup_insert.
    + apply (inj Some) in Hstep; subst s'. exists d, None. split; [|constructor].
      eapply ok_arrived with k; simpl;
        [by rewrite fn_lookup_insert, Hs|by rewrite fn_lookup_insert|done|done|by rewrite <-Eo|].
      intros a Ha. rewrite Hm, Hfin; [done|done|by right; left].
  - rewrite Hp in Hstep. case_match; [|done]. apply (inj Some) in Hstep; subst s'.
    exists (A t), (H t). split; [|constructor].
    eapply ok_active with (contents pl L); simpl; [done|by rewrite fn_lookup_insert, Ed, Eh|].
    intros a [Ha|[Ha|(l & Hl & _)]]; [|by apply Hm|congruence].
    pose proof (si_loc _ _ _ _ I a) as Hl. unfold loc_ok in Hl. by rewrite Ha in Hl.
Qed.

(** The lock a tile is said to hold is held by nobody else. *)
Lemma held_alone L A H s t t' l :
  spmd_inv L A H s -> t ∈ tiles -> t' ∈ tiles -> roles pl L l = Lock ->
  H t = Some l -> H t' = Some l -> t = t'.
Proof.
  intros I Ht Ht' Hr E E'. pose proof (si_loc _ _ _ _ I l) as Hl. unfold loc_ok in Hl. rewrite Hr in Hl.
  destruct (smem s l =? 0); [by destruct (Hl t Ht)|].
  destruct Hl as (t0 & _ & _ & Hu). rewrite (Hu t Ht E). symmetry. by apply Hu.
Qed.

Lemma guard_lock n a l : roles pl n a = Sum (Some l) -> roles pl n l = Lock.
Proof using Hpl. intros E. pose proof (Hpl n a) as Hp. rewrite E in Hp. by apply (proj1 Hp). Qed.

(** The other tiles do not notice. *)
Lemma effect_other L A H s t s' d' h' t' :
  spmd_inv L A H s -> t ∈ tiles -> t' ∈ tiles -> t' <> t ->
  effect L t (smem s) (A t) (H t) (smem s') d' h' ->
  sprog s' t' = sprog s t' -> ssyncs s' t' = ssyncs s t' -> sout s' t' = sout s t' ->
  tile_ok L s' t' (A t') (H t').
Proof using Hpl.
  intros I Ht Ht' Hne Heff Ep Es Eo.
  assert (forall a, readable L t' (H t') a -> smem s' a = smem s a) as Hread.
  { intros a Ha. inversion Heff as [E|b v Hb E|b l c Hb Hl E|l Hl _ _ E|l Hl _ E];
      [done|apply (insert_role L)..].
    - intros Ea. destruct Ha as [Ha|[Ha|(? & _ & Ha)]]; congruence.
    - intros Ea. destruct l as [l|];
        [|by apply (not_readable_other L t' (H t') a); [right; congruence|]].
      destruct Ha as [Ha|[Ha|(l' & El & Ha)]]; [congruence..|].
      assert (l' = l) as -> by congruence.
      apply Hne, (held_alone L A H s t' t l); [done|done|done| |done|by eapply Hl].
      by apply (guard_lock L b).
    - intros Ea. by apply (not_readable_other L t' (H t') a); [left; congruence|].
    - intros Ea. by apply (not_readable_other L t' (H t') a); [left; congruence|]. }
  assert (forall a, roles pl L a = Private t' -> smem s' a = smem s a) as Hpriv
    by (intros a Ha; apply Hread; by right; left).
  destruct (si_tile _ _ _ _ I t' Ht') as [m H1 H2 H3|k H1 H2 H3 H4 H5 H6|k H1 H2 H3 H4 H5 H6].
  - eapply ok_active; [congruence|by rewrite Ep, Eo|]. intros a Ha. rewrite Hread; auto.
  - eapply ok_leaving; [congruence|by rewrite Ep|done|done|by rewrite Eo|].
    intros a Ha. rewrite Hpriv; auto.
  - eapply ok_arrived; [congruence|by rewrite Ep|done|done|by rewrite Eo|].
    intros a Ha. rewrite Hpriv; auto.
Qed.

Lemma sum_ghost A t d' a :
  NoDup tiles -> t ∈ tiles ->
  sum_over (fun u => (<[t := d']> A) u a) tiles = sum_over (fun u => A u a) tiles + (d' a - A t a).
Proof.
  intros Hnd Ht. rewrite (sum_over_update (fun u => A u a) _ _ t); [|done|done|].
  - by rewrite fn_lookup_insert.
  - intros b _ Hb. by rewrite fn_lookup_insert_ne.
Qed.

(** The same additions and locks, or other memory at other locations. *)
Lemma loc_ok_same L A H s A' H' s' a :
  smem s' a = smem s a -> (forall t, t ∈ tiles -> A' t a = A t a) ->
  (forall t, t ∈ tiles -> H' t = Some a <-> H t = Some a) ->
  loc_ok L A H s a -> loc_ok L A' H' s' a.
Proof.
  intros Em EA EH. unfold loc_ok. rewrite Em. destruct (roles pl L a); [done|done| |].
  - intros ->. do 2 f_equal. symmetry. by apply sum_over_ext.
  - destruct (smem s a =? 0).
    + intros Hn t Ht. rewrite EH by done. by apply Hn.
    + intros (t & Ht & E & Hu). exists t. split; [done|]. split; [by apply EH|].
      intros t' Ht' E'. apply Hu; [done|]. by apply EH.
Qed.

(** [H] changed at one tile, between locks other than [a]. *)
Lemma held_insert_ne H t h' a u :
  H t <> Some a -> h' <> Some a -> (<[t := h']> H) u = Some a <-> H u = Some a.
Proof.
  intros H1 H2. destruct (decide (u = t)) as [->|Hne].
  - rewrite fn_lookup_insert. by split.
  - by rewrite fn_lookup_insert_ne.
Qed.

Lemma effect_loc L A H s t s' d' h' a :
  spmd_inv L A H s -> t ∈ tiles ->
  effect L t (smem s) (A t) (H t) (smem s') d' h' ->
  loc_ok L (<[t := d']> A) (<[t := h']> H) s' a.
Proof using Hpl.
  intros I Ht Heff. pose proof (si_loc _ _ _ _ I a) as Hl. pose proof (Hpl L a) as Hp.
  assert (forall t', (<[t := A t]> A) t' = A t') as HAid.
  { intros t'. destruct (decide (t' = t)) as [->|]; [by rewrite fn_lookup_insert|by rewrite fn_lookup_insert_ne]. }
  assert (forall t', (<[t := H t]> H) t' = H t') as HHid.
  { intros t'. destruct (decide (t' = t)) as [->|]; [by rewrite fn_lookup_insert|by rewrite fn_lookup_insert_ne]. }
  inversion Heff as [E Ed Eh|b v Hb E Ed Eh|b l c Hb _ E Ed Eh|b Hb E0 Hn E Ed Eh|b Hb Hh E Ed Eh].
  - apply (loc_ok_same L A H s); [by rewrite E|intros; by rewrite HAid|intros; by rewrite HHid|done].
  - destruct (decide (a = b)) as [->|Hab]; [unfold loc_ok; by rewrite Hb|].
    apply (loc_ok_same L A H s); [by rewrite <-E, fn_lookup_insert_ne|intros; by rewrite HAid
      |intros; by rewrite HHid|done].
  - destruct (decide (a = b)) as [->|Hab].
    + unfold loc_ok in *. rewrite Hb in *. destruct Hp as (_ & Hnd & _).
      rewrite sum_ghost, <-E, !fn_lookup_insert, Hl, i32_add_l by done. f_equal. lia.
    + apply (loc_ok_same L A H s); [by rewrite <-E, fn_lookup_insert_ne| |intros; by rewrite HHid|done].
      intros t' _. destruct (decide (t' = t)) as [->|]; [|by rewrite fn_lookup_insert_ne].
      by rewrite fn_lookup_insert, fn_lookup_insert_ne.
  - destruct (decide (a = b)) as [->|Hab].
    + unfold loc_ok in *. rewrite Hb in *. rewrite E0 in Hl. simpl in Hl.
      rewrite <-E, fn_lookup_insert. simpl. exists t. split; [done|].
      split; [by rewrite fn_lookup_insert|]. intros t' Ht' Hh.
      destruct (decide (t' = t)); [done|]. rewrite fn_lookup_insert_ne in Hh by done.
      by destruct (Hl t' Ht').
    + apply (loc_ok_same L A H s); [by rewrite <-E, fn_lookup_insert_ne|intros; by rewrite HAid
        |intros; apply held_insert_ne; congruence|done].
  - destruct (decide (a = b)) as [->|Hab].
    + unfold loc_ok in *. rewrite Hb in *. rewrite <-E, fn_lookup_insert. simpl. intros t' Ht'.
      destruct (decide (t' = t)) as [->|Hne]; [by rewrite fn_lookup_insert|].
      rewrite fn_lookup_insert_ne by done. intros Hh'. apply Hne.
      by apply (held_alone L A H s t' t b).
    + apply (loc_ok_same L A H s); [by rewrite <-E, fn_lookup_insert_ne|intros; by rewrite HAid
        |intros; apply held_insert_ne; congruence|done].
Qed.

Lemma spmd_inv_step_in L A H s t s' :
  spmd_inv L A H s -> ssyncs s t = L -> spmd_step tiles t s = Some s' ->
  exists A' H', spmd_inv L A' H' s'.
Proof using Hpl.
  intros I Hs Hstep. destruct (spmd_step_sub _ _ _ _ Hstep) as (Ht & _ & Hother).
  destruct (tile_ok_step _ _ _ _ _ _ I Ht Hs Hstep) as (d' & h' & Hok & Heff).
  exists (<[t := d']> A), (<[t := h']> H). split.
  - intros t' Ht'. destruct (decide (t' = t)) as [->|Hne]; [by rewrite !fn_lookup_insert|].
    rewrite !fn_lookup_insert_ne by done. destruct (Hother t' Hne) as (E1 & E2 & E3).
    by apply (effect_other L A H s t s' d' h').
  - intros a. by apply (effect_loc L A H s t s').
Qed.

Lemma spmd_inv_step L A H s t s' :
  spmd_inv L A H s -> spmd_step tiles t s = Some s' -> exists L' A' H', spmd_inv L' A' H' s'.
Proof using Hpl.
  intros I Hstep. destruct (spmd_step_sub _ _ _ _ Hstep) as (Ht & _).
  destruct (decide (ssyncs s t = L)) as [Hs|Hs].
  - destruct (spmd_inv_step_in _ _ _ _ _ _ I Hs Hstep) as (? & ? & ?). eauto.
  - assert (ssyncs s t = S L) as Hs'
      by (destruct (si_tile _ _ _ _ I t Ht); congruence).
    assert (forall t', t' ∈ tiles -> (S L <= ssyncs s t')%nat) as Hall.
    { destruct (si_tile _ _ _ _ I t Ht) as [|? E|k E Hp _ _ _ _]; [congruence..|].
      unfold spmd_step in Hstep. rewrite decide_True, Hp in Hstep by done.
      destruct (forallb _ tiles) eqn:Hf; [|done].
      intros t' Ht'. apply (proj1 (forallb_elem _ _) Hf), Nat.leb_le in Ht'. lia. }
    destruct (spmd_inv_step_in _ _ _ _ _ _ (spmd_inv_next _ _ _ _ I Hall) Hs' Hstep) as (? & ? & ?).
    eauto.
Qed.

(** ** What a derivation per tile gives *)

Variable main : Tid -> prog.
Hypothesis Hsafe : forall t, t ∈ tiles -> safely 0 t (main t) (contents pl 0) [].

Lemma spmd_inv_init s :
  spmd_init tiles main (contents pl 0) s -> spmd_inv 0 (fun _ => no_adds) (fun _ => None) s.
Proof using Hsafe Hpl.
  intros [Hm Hinit]. split.
  - intros t Ht. destruct (Hinit t Ht) as (Ep & Es & Eo).
    eapply ok_active with (contents pl 0); [done| |by rewrite Hm].
    rewrite Ep, Eo. by apply Hsafe.
  - intros a. pose proof (Hpl 0%nat a) as Hp. unfold loc_ok. rewrite Hm.
    destruct (roles pl 0 a); [done|done| |].
    + rewrite sum_over_zero, Z.add_0_r, i32_id by (apply Hp || done). done.
    + destruct Hp as [-> _]. done.
Qed.

#[local] Instance main_lts : Lts (sstate Tid) Tid := spmd_lts tiles main (contents pl 0).

Lemma spmd_inv_reachable s : reachable s -> exists L A H, spmd_inv L A H s.
Proof using Hsafe Hpl.
  revert s. apply invariant_reachable.
  - intros s Hs. apply spmd_inv_init in Hs. eauto.
  - intros s t s' (L & A & H & I) Hstep. exact (spmd_inv_step _ _ _ _ _ _ I Hstep).
Qed.

(** The holder of a lock can move. *)
Lemma holder_moves L A H s t l :
  spmd_inv L A H s -> t ∈ tiles -> H t = Some l -> exists s', spmd_step tiles t s = Some s'.
Proof.
  intros I Ht Hh. unfold spmd_step. rewrite decide_True by done.
  destruct (si_tile _ _ _ _ I t Ht) as [m _ Hs Hm|? ? ? ? ? ? ?|? ? ? ? ? ? ?]; [|congruence..].
  rewrite Hh in Hs, Hm. remember (Some l) as h eqn:Eh.
  destruct Hs as [| | | | | |l' k m d h o Hr E0| | | |]; try (by eauto).
  rewrite Hm, E0 by (by right; left). eauto.
Qed.

(** A tile in the phase of the slowest is done, or can move, or waits for a lock. *)
Lemma slowest_moves L A H s t :
  spmd_inv L A H s -> t ∈ tiles -> ssyncs s t = L ->
  sprog s t = Done \/ exists t' s', t' ∈ tiles /\ spmd_step tiles t' s = Some s'.
Proof.
  intros I Ht Hs.
  destruct (sprog s t) as [|a k|a v k|a f k|l k|p k|k|k] eqn:Hp; [by left|right..];
    try (exists t; unfold spmd_step; rewrite decide_True, Hp by done; eauto; fail).
  - destruct (smem s l =? 0) eqn:E0.
    + exists t. unfold spmd_step. rewrite decide_True, Hp, E0 by done. eauto.
    + destruct (si_tile _ _ _ _ I t Ht) as [m _ Hk Hm| |]; [|congruence..].
      rewrite Hp in Hk. inversion Hk; subst.
      { rewrite Hm in E0 by (by right; left). bprop. done. }
      pose proof (si_loc _ _ _ _ I l) as Hl. unfold loc_ok in Hl.
      match goal with Hr : roles pl _ l = Lock |- _ => rewrite Hr, E0 in Hl end.
      destruct Hl as (t' & Ht' & Hh & _). exists t'.
      destruct (holder_moves _ _ _ _ _ _ I Ht' Hh) as [s' ?]. eauto.
  - exists t. unfold spmd_step. rewrite decide_True, Hp by done.
    assert (forallb (fun t' => (ssyncs s t <=? ssyncs s t')%nat) tiles = true) as ->; [|eauto].
    apply forallb_elem. intros t' Ht'. apply Nat.leb_le.
    destruct (si_tile _ _ _ _ I t' Ht'); lia.
Qed.

(** Short of the end, some tile can move. *)
Lemma spmd_moves L A H s :
  spmd_inv L A H s ->
  all_done tiles s \/ exists t s', t ∈ tiles /\ spmd_step tiles t s = Some s'.
Proof.
  intros I.
  destruct (decide (Exists (fun t => ssyncs s t = L /\ sprog s t <> Done) tiles)) as [HE|HE].
  { apply Exists_exists in HE as (t & Ht & Hs & Hp).
    destruct (slowest_moves _ _ _ _ _ I Ht Hs) as [|?]; [done|by right]. }
  assert (forall t, t ∈ tiles -> ssyncs s t = L -> sprog s t = Done) as HD.
  { intros t Ht Hs. destruct (decide (sprog s t = Done)); [done|].
    exfalso. apply HE, Exists_exists. eauto. }
  destruct (decide (Exists (fun t => ssyncs s t <> L) tiles)) as [HA|HA].
  - right. apply Exists_exists in HA as (t & Ht & Hs).
    destruct (si_tile _ _ _ _ I t Ht) as [|? E|k E Hp _ _ Hk _]; [congruence..|].
    exists t. unfold spmd_step. rewrite decide_True, Hp by done.
    assert (forallb (fun t' => (ssyncs s t <=? ssyncs s t')%nat) tiles = true) as ->; [|eauto].
    apply forallb_elem. intros t' Ht'. apply Nat.leb_le.
    destruct (si_tile _ _ _ _ I t' Ht') as [m E' Hk' _|? E' Hp'|]; [| |lia].
    + rewrite (HD t' Ht' E') in Hk'. inversion Hk'; subst. apply safe_phase in Hk. lia.
    + rewrite HD in Hp'; done.
  - left. intros t Ht. apply HD; [done|]. destruct (decide (ssyncs s t = L)); [done|].
    exfalso. apply HA, Exists_exists. eauto.
Qed.

(** In every reachable state a tile that has come to the end satisfies the postcondition, with
    a view of memory that is right about all it may read. *)
Lemma spmd_correct s t : reachable s -> t ∈ tiles -> sprog s t = Done ->
  exists m, post pl t (sout s t) m /\
    forall a, legible (last_phase pl) t a -> smem s a = m a.
Proof using Hsafe Hpl.
  intros Hs Ht Hd. destruct (spmd_inv_reachable s Hs) as (L & A & H & I).
  destruct (si_tile _ _ _ _ I t Ht) as [m _ Hk Hm|? ? Hp|? ? Hp]; [|congruence..].
  rewrite Hd in Hk. inversion Hk; subst. exists m. split; [done|].
  intros a Ha. by apply Hm, legible_readable.
Qed.

(** All tiles can always come to the end, whatever has been scheduled so far. *)
Lemma spmd_completes s : reachable s -> can_reach (.∈ tiles) s (all_done tiles).
Proof using Hsafe Hpl.
  intros Hs. assert (Acc (one_smaller sub tiles) (sprog s)) as Hacc
    by (apply one_smaller_acc; intros; apply sub_acc).
  remember (sprog s) as ps eqn:Eps. revert s Hs Eps. induction Hacc as [ps _ IH]. intros s Hs ->.
  destruct (spmd_inv_reachable s Hs) as (L & A & H & I).
  destruct (spmd_moves _ _ _ _ I) as [Hd|(t & s' & Ht & Hstep)]; [by apply can_reach_refl|].
  destruct (spmd_step_sub _ _ _ _ Hstep) as (_ & Hsub & Hother).
  eapply can_reach_step; [done|done|]. eapply (IH (sprog s')); [|by eapply reach_step|done].
  exists t. split; [done|]. split; [done|]. intros t' Hne. by apply Hother.
Qed.

Lemma safe_post n t p m d h o : safe n t p m d h o -> exists o' m', post pl t (o ++ o') m'.
Proof.
  induction 1; try done.
  - exists [], m. by rewrite app_nil_r.
  - match goal with IH : Z -> _ |- _ => apply (IH 0) end.
  - match goal with IH : forall m', _ -> exists o' _, _ |- _ => by apply (IH m) end.
  - match goal with IH : Z -> _ |- _ => apply (IH 0) end.
  - match goal with IH : exists o' _, _ |- _ => destruct IH as (o' & m' & IH');
      exists (p :: o'), m'; by rewrite <-app_assoc in IH' end.
Qed.

(** What a tile has sent can be extended to something the postcondition allows. *)
Lemma spmd_post_extends s t :
  reachable s -> t ∈ tiles -> exists o' m', post pl t (sout s t ++ o') m'.
Proof using Hsafe Hpl.
  intros Hs Ht. destruct (spmd_inv_reachable s Hs) as (L & A & H & I).
  destruct (si_tile _ _ _ _ I t Ht) as [m _ Hk|k _ _ _ _ Hk|k _ _ _ _ Hk]; by apply safe_post in Hk.
Qed.
End spmd.

(** ** What it means that a test passes

    Whatever the interleaving, no tile reports a failure; every tile of [finishers] that comes
    to the end has reported success; and all tiles can always come to the end. *)
Definition test_passes {Tid} `{EqDecision Tid} (tiles : list Tid) (main : Tid -> prog)
    (m0 : loc -> Z) (finishers : Tid -> Prop) : Prop :=
  forall s, @reachable _ _ (spmd_lts tiles main m0) s ->
    (forall t, t ∈ tiles -> Failed ∉ sout s t) /\
    (forall t, t ∈ tiles -> finishers t -> sprog s t = Done -> Finished ∈ sout s t) /\
    @can_reach _ _ (spmd_lts tiles main m0) (fun t => t ∈ tiles) s (all_done tiles).

(** The postcondition of a test. *)
Definition reports {Tid} (finishers : Tid -> Prop) (t : Tid) (o : list packet)
    (_ : loc -> Z) : Prop :=
  (Failed ∉ o) /\ (finishers t -> Finished ∈ o).

Lemma safe_test_passes {Tid} `{EqDecision Tid} (tiles : list Tid) (main : Tid -> prog) pl
    (finishers : Tid -> Prop) :
  plan_ok tiles pl -> post pl = reports finishers ->
  (forall t, t ∈ tiles -> safely pl 0 t (main t) (contents pl 0) []) ->
  test_passes tiles main (contents pl 0) finishers.
Proof.
  intros Hpl Hpost Hsafe s Hs. split; [|split].
  - intros t Ht Hf. destruct (spmd_post_extends tiles pl Hpl main Hsafe s t Hs Ht) as (o' & m & Ho).
    rewrite Hpost in Ho. apply (proj1 Ho). apply elem_of_app. by left.
  - intros t Ht Hfin Hd. destruct (spmd_correct tiles pl Hpl main Hsafe s t Hs Ht Hd) as (m & H & _).
    rewrite Hpost in H. by apply (proj2 H).
  - by apply (spmd_completes tiles pl Hpl main Hsafe).
Qed.

(** A test whose tiles send exactly [out]. *)
Definition test_prints {Tid} `{EqDecision Tid} (tiles : list Tid) (main : Tid -> prog)
    (m0 : loc -> Z) (out : Tid -> list packet) : Prop :=
  forall s, @reachable _ _ (spmd_lts tiles main m0) s ->
    (forall t, t ∈ tiles -> sout s t `prefix_of` out t) /\
    (forall t, t ∈ tiles -> sprog s t = Done -> sout s t = out t) /\
    @can_reach _ _ (spmd_lts tiles main m0) (fun t => t ∈ tiles) s (all_done tiles).

Definition has_sent {Tid} (out : Tid -> list packet) (t : Tid) (o : list packet) (_ : loc -> Z) : Prop :=
  o = out t.

Lemma safe_test_prints {Tid} `{EqDecision Tid} (tiles : list Tid) (main : Tid -> prog) pl
    (out : Tid -> list packet) :
  plan_ok tiles pl -> post pl = has_sent out ->
  (forall t, t ∈ tiles -> safely pl 0 t (main t) (contents pl 0) []) ->
  test_prints tiles main (contents pl 0) out.
Proof.
  intros Hpl Hpost Hsafe s Hs. split; [|split].
  - intros t Ht. destruct (spmd_post_extends tiles pl Hpl main Hsafe s t Hs Ht) as (o' & m & Ho).
    rewrite Hpost in Ho. by exists o'.
  - intros t Ht Hd. destruct (spmd_correct tiles pl Hpl main Hsafe s t Hs Ht Hd) as (m & H & _).
    by rewrite Hpost in H.
  - by apply (spmd_completes tiles pl Hpl main Hsafe).
Qed.

(** The end of a program that reports success, or nothing. *)
Lemma safely_finish {Tid} (pl : plan Tid) (finishers : Tid -> Prop) n t m o :
  post pl = reports finishers -> n = last_phase pl -> Failed ∉ o ->
  safely pl n t finish m o.
Proof.
  intros Hpost Hn Ho. apply safely_send, safely_done; [done|].
  rewrite Hpost. split.
  - intros [H|H%list_elem_of_singleton]%elem_of_app; done.
  - intros _. apply elem_of_app. right. by left.
Qed.

Lemma safely_spin {Tid} (pl : plan Tid) (finishers : Tid -> Prop) n t m o :
  post pl = reports finishers -> n = last_phase pl -> Failed ∉ o -> ~ finishers t ->
  safely pl n t Done m o.
Proof.
  intros Hpost Hn Ho Hf. apply safely_done; [done|]. rewrite Hpost. by split.
Qed.

(** ** Plans with a single phase *)

Definition one_phase {Tid} (own : loc -> option Tid) (m0 : loc -> Z) (finishers : Tid -> Prop) :
    plan Tid :=
  {| roles := fun _ a => match own a with Some t => Private t | None => Fixed end;
     contents := fun _ => m0; share := fun _ _ => no_adds; last_phase := 0;
     post := reports finishers |}.

Lemma one_phase_ok {Tid} (tiles : list Tid) own m0 finishers :
  (forall a t, own a = Some t -> t ∈ tiles) -> plan_ok tiles (one_phase own m0 finishers).
Proof. intros H n a. simpl. destruct (own a) eqn:E; [by eapply H|done]. Qed.

Lemma one_phase_private {Tid} own m0 finishers n a (t : Tid) :
  own a = Some t -> roles (one_phase own m0 finishers) n a = Private t.
Proof. intros E. simpl. by rewrite E. Qed.

(** ** A phase of additions, a barrier, and a phase of reading

    [kind] is what locations are in the first phase (nothing is private), [sh] what each tile
    adds. *)
Definition sum_plan {Tid} (tiles : list Tid) (kind : loc -> role Tid) (sh : Tid -> loc -> Z)
    (m0 : loc -> Z) (finishers : Tid -> Prop) : plan Tid :=
  {| roles := fun n a => match n with O => kind a | _ => Fixed end;
     contents := fun n a => match n, kind a with
       | S _, Sum _ => i32 (m0 a + sum_over (fun t => sh t a) tiles)
       | _, _ => m0 a end;
     share := fun _ => sh; last_phase := 1; post := reports finishers |}.

Lemma sum_plan_ok {Tid} (tiles : list Tid) kind sh m0 finishers :
  NoDup tiles ->
  (forall a, match kind a with
   | Private _ => False | Fixed => True
   | Sum g => (forall l, g = Some l -> kind l = Lock) /\ is_i32 (m0 a)
   | Lock => m0 a = 0 end) ->
  plan_ok tiles (sum_plan tiles kind sh m0 finishers).
Proof.
  intros Hnd Hk n a. specialize (Hk a). destruct n as [|n]; [|done].
  simpl. destruct (kind a); [done|done| |by split]. destruct Hk. done.
Qed.

(** The plan of a test whose tiles have disjoint footprints. *)
Definition footprint_owner {Tid} (tiles : list Tid) (cells : Tid -> list loc) (a : loc) :
    option Tid :=
  snd <$> list_find (fun t => a ∈ cells t) tiles.

Definition footprint_plan {Tid} (tiles : list Tid) (cells : Tid -> list loc) (m0 : loc -> Z)
    (finishers : Tid -> Prop) : plan Tid :=
  one_phase (footprint_owner tiles cells) m0 finishers.

Lemma footprint_plan_ok {Tid} (tiles : list Tid) cells m0 finishers :
  plan_ok tiles (footprint_plan tiles cells m0 finishers).
Proof.
  apply one_phase_ok. intros a t E. apply fmap_Some in E as ([i t'] & E & ->).
  apply list_find_Some in E as (E & _). by eapply list_elem_of_lookup_2.
Qed.

Lemma footprint_owner_cell {Tid} (tiles : list Tid) cells a t :
  (forall t1 t2, t1 ∈ tiles -> t2 ∈ tiles -> a ∈ cells t1 -> a ∈ cells t2 -> t1 = t2) ->
  t ∈ tiles -> a ∈ cells t -> footprint_owner tiles cells a = Some t.
Proof.
  intros Hd Ht Ha. unfold footprint_owner.
  destruct (list_find _ tiles) as [[i t']|] eqn:E.
  - apply list_find_Some in E as (E & Ha' & _). simpl. f_equal.
    eapply Hd; [by eapply list_elem_of_lookup_2|done..].
  - eapply list_find_None in E. rewrite Forall_forall in E. by destruct (E t Ht).
Qed.

(** ** Phases of stores

    Between two barriers every tile stores to locations of its own what the plan says, and reads
    what nobody stores to. *)

(** What each tile stores in each phase. *)
Section write_plan.
Context {Tid : Type} `{EqDecision Tid}.
Variable tiles : list Tid.
Variable writes : nat -> Tid -> list (loc * Z).
Variable m0 : loc -> Z.
Variable last : nat.
Variable final : Tid -> list packet -> (loc -> Z) -> Prop.

Definition write_owner (n : nat) : loc -> option Tid :=
  footprint_owner tiles (fun t => fst <$> writes n t).

Definition written_value (n : nat) (a : loc) : Z :=
  match list_find (fun w => w.1 = a) (tiles ≫= writes n) with Some (_, w) => w.2 | None => 0 end.

Fixpoint write_contents (n : nat) (a : loc) : Z :=
  match n with
  | O => m0 a
  | S n => match write_owner n a with Some _ => written_value n a | None => write_contents n a end
  end.

Definition write_plan : plan Tid :=
  {| roles := fun n a => match write_owner n a with Some t => Private t | None => Fixed end;
     contents := write_contents; share := fun _ _ => no_adds; last_phase := last;
     post := final |}.

Lemma write_plan_ok : plan_ok tiles write_plan.
Proof.
  intros n a. cbn [write_plan roles contents write_contents].
  destruct (write_owner n a) as [t|] eqn:E; [|done].
  unfold write_owner, footprint_owner in E. apply fmap_Some in E as ([i t'] & E & ->).
  apply list_find_Some in E as (E & _). by eapply list_elem_of_lookup_2.
Qed.

(** Nobody stores two values, and no two tiles store, to one location in one phase. *)
Hypothesis disjoint : forall n t t' w w', t ∈ tiles -> t' ∈ tiles ->
  w ∈ writes n t -> w' ∈ writes n t' -> w.1 = w'.1 -> t = t' /\ w = w'.

Lemma write_role n t w : t ∈ tiles -> w ∈ writes n t -> roles write_plan n w.1 = Private t.
Proof using disjoint.
  intros Ht Hw. cbn [write_plan roles]. unfold write_owner.
  rewrite (footprint_owner_cell _ _ _ t); [done| |done|by apply list_elem_of_fmap_2].
  intros t1 t2 Ht1 Ht2 H1 H2.
  apply list_elem_of_fmap in H1 as (w1 & E1 & H1), H2 as (w2 & E2 & H2).
  apply (disjoint n t1 t2 w1 w2); [done..|congruence].
Qed.

Lemma write_next n t w : t ∈ tiles -> w ∈ writes n t -> contents write_plan (S n) w.1 = w.2.
Proof using disjoint.
  intros Ht Hw. pose proof (write_role n t w Ht Hw) as Hr.
  cbn [write_plan roles contents write_contents] in *.
  destruct (write_owner n w.1); [|done]. unfold written_value.
  destruct (list_find _ _) as [ [i w'] | ] eqn:E.
  - apply list_find_Some in E as (Hi & E & _). apply list_elem_of_lookup_2 in Hi.
    apply list_elem_of_bind in Hi as (t' & Hw' & Ht').
    by destruct (disjoint n t' t w' w) as [_ ->].
  - eapply list_find_None in E. rewrite Forall_forall in E. destruct (E w); [|done].
    apply list_elem_of_bind. eauto.
Qed.

Lemma write_private n a t : roles write_plan n a = Private t ->
  exists w, w ∈ writes n t /\ a = w.1.
Proof.
  cbn [write_plan roles]. destruct (write_owner n a) as [t'|] eqn:E; [|done]. intros [= ->].
  unfold write_owner, footprint_owner in E. apply fmap_Some in E as ([i t'] & E & ->).
  apply list_find_Some in E as (_ & E & _). apply list_elem_of_fmap in E as (w & -> & Hw). eauto.
Qed.

(** A location nobody stores to in a phase. *)
Lemma write_fixed n a : (forall t, t ∈ tiles -> a ∉ (fst <$> writes n t)) ->
  roles write_plan n a = Fixed /\ contents write_plan (S n) a = contents write_plan n a.
Proof.
  intros Ha. cbn [write_plan roles contents write_contents].
  destruct (write_owner n a) as [t|] eqn:E; [|done].
  unfold write_owner, footprint_owner in E. apply fmap_Some in E as ([i t'] & E & ->).
  apply list_find_Some in E as (Hi & E & _). apply list_elem_of_lookup_2 in Hi. by destruct (Ha t').
Qed.

(** A phase in which a tile stores what it should, perhaps sends packets, and comes to the
    barrier. *)
Lemma safely_phase_sends n t ws l k m o : t ∈ tiles -> writes n t = ws ->
  safely write_plan (S n) t k (contents write_plan (S n)) (o ++ l) ->
  safely write_plan n t (for_ ws (fun w k => Store w.1 w.2 k) (for_ l Send (Sync k))) m o.
Proof using disjoint.
  intros Ht <- Hk. apply (safely_fill _ _ _ _ fst snd).
  - intros w Hw. by apply write_role.
  - intros w w' Hw Hw' E. by destruct (disjoint n t t w w') as [_ ->].
  - intros m' Hm' _. apply safely_sends, safely_sync; [| |done].
    + intros a (w & Hw & ->)%write_private. rewrite Hm' by done. by rewrite (write_next n t).
    + intros a l' Ha. cbn [write_plan roles] in Ha. by case_match.
Qed.

Lemma safely_phase n t ws k m o : t ∈ tiles -> writes n t = ws ->
  safely write_plan (S n) t k (contents write_plan (S n)) o ->
  safely write_plan n t (for_ ws (fun w k => Store w.1 w.2 k) (Sync k)) m o.
Proof using disjoint.
  intros Ht Hw Hk. apply (safely_phase_sends n t ws [] k m o); [done..|]. by rewrite app_nil_r.
Qed.

(** A phase in which a tile stores nothing. *)
Lemma safely_quiet n t k m o : t ∈ tiles -> writes n t = [] ->
  safely write_plan (S n) t k (contents write_plan (S n)) o ->
  safely write_plan n t (Sync k) m o.
Proof using disjoint.
  intros Ht Hw Hk. by apply (safely_phase n t [] k m o).
Qed.
End write_plan.

(** ** Tests that one tile runs alone *)

Definition solo_plan {Tid} (t : Tid) (m0 : loc -> Z) (finishers : Tid -> Prop) : plan Tid :=
  one_phase (fun _ => Some t) m0 finishers.

Lemma solo_plan_ok {Tid} (tiles : list Tid) t m0 finishers :
  t ∈ tiles -> plan_ok tiles (solo_plan t m0 finishers).
Proof. intros Ht. apply one_phase_ok. by intros a t' [= <-]. Qed.

(** Running a program without barriers. *)
Fixpoint exec (n : nat) (p : prog) (m : loc -> Z) (o : list packet) :
    option (list packet * (loc -> Z)) :=
  match n with
  | O => None
  | S n =>
      match p with
      | Done => Some (o, m)
      | Load a k => exec n (k (m a)) m o
      | Store a v k => exec n k (<[a := v]> m) o
      | Send p k => exec n k m (o ++ [p])
      | Amo a f k => exec n (k (m a)) (<[a := f (m a)]> m) o
      | Acquire a k => if m a =? 0 then exec n k (<[a := 1]> m) o else None
      | Sync _ | Wait _ => None
      end
  end.

Lemma exec_safely {Tid} n (t : Tid) m0 finishers p m o o' m' :
  exec n p m o = Some (o', m') -> reports finishers t o' m' ->
  safely (solo_plan t m0 finishers) 0 t p m o.
Proof.
  revert p m o. induction n as [|n IH]; intros p m o E Hr; [done|].
  destruct p as [|a k|a v k|a f k|l k|p k|k|k]; simpl in E.
  - injection E as -> ->. by apply safely_done.
  - apply safely_load; [by right|by apply IH].
  - apply safely_store; [done|by apply IH].
  - apply safely_amo; [done|by apply IH].
  - destruct (Z.eqb_spec (m l) 0); [|done]. apply safely_acquire; [done|done|by apply IH].
  - apply safely_send. by apply IH.
  - done.
  - done.
Qed.

(** ** The tiles of a group and their ids *)

Section group.
Variable c : config.
Hypothesis wf : wf_config c.

Definition group_tiles : list (Z * Z) := grid 0 (bsg_tiles_X c) 0 (bsg_tiles_Y c).

(** [__bsg_id], as [bsg_set_tile_x_y] computes it. *)
Definition tile_id (t : Z * Z) : Z := bsg_x_y_to_id c t.1 t.2.

Definition id_tile (id : Z) : Z * Z := (id mod bsg_tiles_X c, id / bsg_tiles_X c).

Lemma elem_of_group x y :
  (x, y) ∈ group_tiles <-> 0 <= x < bsg_tiles_X c /\ 0 <= y < bsg_tiles_Y c.
Proof. unfold group_tiles. apply elem_of_grid. Qed.

Lemma tile_id_range t : t ∈ group_tiles -> 0 <= tile_id t < bsg_num_tiles c.
Proof using wf.
  destruct t as [x y]. rewrite elem_of_group. destruct wf as (? & ? & _).
  unfold tile_id, bsg_x_y_to_id, bsg_num_tiles. simpl. nia.
Qed.

Lemma id_tile_id t : t ∈ group_tiles -> id_tile (tile_id t) = t.
Proof using wf.
  destruct t as [x y]. rewrite elem_of_group. destruct wf as (? & ? & _). intros [Hx Hy].
  unfold id_tile, tile_id, bsg_x_y_to_id. simpl.
  rewrite (Z.mul_comm (bsg_tiles_X c)), Z.add_comm, Z.mod_add, Z.div_add by lia.
  by rewrite Z.mod_small, Z.div_small by lia.
Qed.

Lemma tile_id_inj t t' : t ∈ group_tiles -> t' ∈ group_tiles -> tile_id t = tile_id t' -> t = t'.
Proof using wf. intros Ht Ht' E. by rewrite <-(id_tile_id t), <-(id_tile_id t'), E. Qed.

Lemma id_tile_in id : 0 <= id < bsg_num_tiles c -> id_tile id ∈ group_tiles.
Proof using wf.
  destruct wf as (? & ? & _). unfold bsg_num_tiles, id_tile. intros Hid. apply elem_of_group.
  split; [apply Z.mod_pos_bound; lia|]. split; [apply Z.div_pos; lia|].
  apply Z.div_lt_upper_bound; lia.
Qed.

Lemma tile_id_tile id : 0 <= id -> tile_id (id_tile id) = id.
Proof using wf.
  destruct wf as (? & _). intros Hid. unfold tile_id, id_tile, bsg_x_y_to_id. simpl.
  pose proof (Z.div_mod id (bsg_tiles_X c)). lia.
Qed.

Lemma NoDup_group_tiles : NoDup group_tiles.
Proof. apply NoDup_grid. Qed.

Lemma group_ids : tile_id <$> group_tiles ≡ₚ range 0 (bsg_num_tiles c).
Proof using wf.
  apply NoDup_Permutation.
  - apply NoDup_fmap_2_strong; [|apply NoDup_grid]. intros t t' Ht Ht'. by apply tile_id_inj.
  - apply NoDup_seqZ.
  - intros id. rewrite list_elem_of_fmap, elem_of_range. split.
    + intros (t & -> & Ht). by apply tile_id_range.
    + intros Hid. exists (id_tile id). split; [by rewrite tile_id_tile by lia|by apply id_tile_in].
Qed.

(** A sum over the tiles of sums over their chunks is the sum over the array. *)
Lemma sum_chunks (f : Z -> Z) w : 0 <= w ->
  sum_over (fun t => sum_over (fun i => f (tile_id t * w + i)) (range 0 w)) group_tiles =
  sum_over f (range 0 (bsg_num_tiles c * w)).
Proof using wf.
  intros Hw. rewrite <-(sum_over_fmap tile_id (fun id => sum_over (fun i => f (id * w + i)) (range 0 w))).
  rewrite (sum_over_perm _ _ _ group_ids).
  assert (0 <= bsg_num_tiles c) as Hn by (destruct wf as (? & ? & _); unfold bsg_num_tiles; nia).
  revert Hn. generalize (bsg_num_tiles c). apply natlike_ind.
  - by rewrite Z.mul_0_l.
  - intros n Hn IH. unfold Z.succ, range in *. rewrite !Z.sub_0_r in *.
    rewrite seqZ_app, sum_over_app, IH by lia. rewrite Z.mul_add_distr_r, seqZ_app, sum_over_app by lia.
    rewrite Z.mul_1_l. f_equal.
    replace (seqZ (0 + n * w) w) with (Z.add (n * w) <$> seqZ 0 w)
      by (rewrite fmap_add_seqZ; f_equal; lia).
    rewrite sum_over_fmap. simpl. by rewrite Z.add_0_r.
Qed.

Lemma origin_in_group : (0, 0) ∈ group_tiles.
Proof using wf. destruct wf as (? & ? & _). apply elem_of_group. lia. Qed.

(** ** An array in DRAM cut into one chunk of [len] words per tile *)

Variables base len : Z.
Hypothesis len_pos : 0 < len.

Definition chunk_word (t : Z * Z) (q : Z) : loc := Dram (base + 4 * (tile_id t * len + q)).

Definition chunk_owner (a : loc) : option (Z * Z) :=
  match a with
  | Dram a => if (base <=? a) && (a <? base + 4 * (bsg_num_tiles c * len)) &&
                 ((a - base) mod 4 =? 0)
              then Some (id_tile ((a - base) / 4 / len)) else None
  | Dmem _ _ _ => None
  end.

Lemma chunk_word_inj t t' q q' : t ∈ group_tiles -> t' ∈ group_tiles ->
  0 <= q < len -> 0 <= q' < len -> chunk_word t q = chunk_word t' q' -> t = t' /\ q = q'.
Proof using wf len_pos.
  intros Ht Ht' Hq Hq' [= E]. assert (tile_id t = tile_id t' /\ q = q') as [E1 E2]
    by (apply (Z.div_mod_unique len); lia).
  split; [by apply tile_id_inj|done].
Qed.

Lemma chunk_index t q : t ∈ group_tiles -> 0 <= q < len ->
  (base + 4 * (tile_id t * len + q) - base) / 4 = tile_id t * len + q.
Proof using len_pos. intros. Z.to_euclidean_division_equations. lia. Qed.

Lemma chunk_owner_word t q : t ∈ group_tiles -> 0 <= q < len -> chunk_owner (chunk_word t q) = Some t.
Proof using wf len_pos.
  intros Ht Hq. pose proof (tile_id_range t Ht). unfold chunk_owner, chunk_word.
  rewrite chunk_index, Z.div_add_l, (Z.div_small q), Z.add_0_r, id_tile_id by (done || lia).
  replace (base <=? _) with true by (symmetry; apply Z.leb_le; nia).
  replace (_ <? _) with true by (symmetry; apply Z.ltb_lt; nia).
  replace (base + 4 * (tile_id t * len + q) - base) with ((tile_id t * len + q) * 4) by lia.
  by rewrite Z.mod_mul by lia.
Qed.

Lemma chunk_owner_inv a t : chunk_owner a = Some t ->
  t ∈ group_tiles /\ exists q, 0 <= q < len /\ a = chunk_word t q.
Proof using wf len_pos.
  destruct a as [x y a|a]; simpl; [done|]. destruct (_ && _) eqn:E; [|done]. intros [= <-].
  bprop. assert (0 <= (a - base) / 4 < bsg_num_tiles c * len) as Hq
    by (Z.to_euclidean_division_equations; lia).
  assert (0 <= (a - base) / 4 / len < bsg_num_tiles c) as Hid.
  { split; [apply Z.div_pos; lia|]. apply Z.div_lt_upper_bound; lia. }
  split; [by apply id_tile_in|]. exists ((a - base) / 4 mod len).
  split; [by apply Z.mod_pos_bound|]. unfold chunk_word. f_equal.
  rewrite tile_id_tile by lia. pose proof (Z.div_mod ((a - base) / 4) len).
  assert (4 * ((a - base) / 4) = a - base) by (Z.to_euclidean_division_equations; lia). lia.
Qed.

(** [&data[__bsg_id * len]], indexed. *)
Lemma chunk_elem t q : 0 <= base -> base + 4 * (bsg_num_tiles c * len) <= 2 ^ 32 ->
  bsg_num_tiles c * len < 2 ^ 31 -> t ∈ group_tiles -> 0 <= q < len ->
  elem (u32 (base + 4 * i32 (tile_id t * len))) q = chunk_word t q.
Proof using wf len_pos.
  norm_pow2. intros Hb Hb2 Hn Ht Hq. pose proof (tile_id_range t Ht).
  assert (0 <= tile_id t * len) by nia.
  assert (tile_id t * len + len <= bsg_num_tiles c * len) by nia.
  unfold elem, chunk_word. f_equal. unwrap. lia.
Qed.

(** The plan of a test in which every tile works on its own chunk. *)
Definition chunk_plan (m0 : loc -> Z) (finishers : Z * Z -> Prop) : plan (Z * Z) :=
  one_phase chunk_owner m0 finishers.

Lemma chunk_plan_ok m0 finishers : plan_ok group_tiles (chunk_plan m0 finishers).
Proof using wf len_pos. apply one_phase_ok. intros a t E. by apply chunk_owner_inv in E as [? _]. Qed.
End group.
