(* ===== verification/StartUp.v ===== *)
(** * Start-up: [bsg_set_tile_x_y]

    Every program of [software/spmd] starts with [bsg_set_tile_x_y]: a tile does not know its
    coordinates, [__bsg_x] and [__bsg_y] hold -1, and only [(0,0)] can be addressed without knowing
    more.  Every tile stores 0 into the two variables of [(0,0)], waits for its own, and the tile
    that finds zeroes tells the others.  Memory is the memory of [Spmd]; remote stores go through
    [bsg_remote_ptr] and the decoder.  One step is one access. *)

From S2P Require Import Prelude Lts Arch Eva Spmd SpmdLogic.
Local Open Scope Z_scope.

(** The variables of [bsg_tile_config_vars.c] that no other tile writes. *)
Record config_vars := {
  bsg_id : Z;
  bsg_grp_org_x : Z;
  bsg_grp_org_y : Z;
  bsg_grid_dim_x : Z;
  bsg_grid_dim_y : Z;
  bsg_tile_group_id_x : Z;
  bsg_tile_group_id_y : Z;
  bsg_tile_group_id : Z;
}.

Definition config_vars_init : config_vars := {|
  bsg_id := -1; bsg_grp_org_x := -1; bsg_grp_org_y := -1; bsg_grid_dim_x := -1;
  bsg_grid_dim_y := -1; bsg_tile_group_id_x := -1; bsg_tile_group_id_y := -1;
  bsg_tile_group_id := -1 |}.

(** The next access of a tile. *)
Inductive su_pc : Type :=
| SZeroX | SZeroY                   (* bsg_remote_store(0,0,bsg_x_v,0), ... *)
| SWaitX | SWaitY                   (* bsg_wait_while( *bsg_x_v < 0), ... *)
| STestX | STestY                   (* !*bsg_x_v && !*bsg_y_v *)
| STellX (todo : list (Z * Z))      (* bsg_remote_store(x,y,bsg_x_v,x) *)
| STellY (todo : list (Z * Z))      (* bsg_remote_store(x,y,bsg_y_v,y) *)
| SOrgX | SOrgY                     (* __bsg_grp_org_x = * grp_org_x_p, ... *)
| SId                               (* the remaining assignments *)
| SDone.

Global Instance su_pc_eq_dec : EqDecision su_pc.
Proof. solve_decision. Defined.

Record su_state := {
  su_mem : loc -> Z;
  su_vars : Z * Z -> config_vars;
  su_pcs : Z * Z -> su_pc;
}.

Section start_up.
Variable c : config.
Variable u : eva_unit.
Variable bsg_x_v bsg_y_v : Z.       (* &__bsg_x, &__bsg_y *)
Variable m0 : loc -> Z.             (* memory at reset *)
Implicit Types (s : su_state) (t : Z * Z).

(** A word of the tile's own memory. *)
Definition own t (a : Z) : loc :=
  Dmem (pod_x u * 2 ^ x_subcord_width u + (tgo_x u + t.1))
       (pod_y u * 2 ^ y_subcord_width u + (tgo_y u + t.2)) a.

Definition store (a : loc) (v : Z) s : su_state :=
  Build_su_state (<[a := v]> (su_mem s)) (su_vars s) (su_pcs s).

Definition goto t (pc : su_pc) s : su_state :=
  Build_su_state (su_mem s) (su_vars s) (<[t := pc]> (su_pcs s)).

Definition assign t (v : config_vars) s : su_state :=
  Build_su_state (su_mem s) (<[t := v]> (su_vars s)) (su_pcs s).

Definition set_org_x (v : Z) (w : config_vars) : config_vars :=
  Build_config_vars (bsg_id w) v (bsg_grp_org_y w) (bsg_grid_dim_x w) (bsg_grid_dim_y w)
    (bsg_tile_group_id_x w) (bsg_tile_group_id_y w) (bsg_tile_group_id w).

Definition set_org_y (v : Z) (w : config_vars) : config_vars :=
  Build_config_vars (bsg_id w) (bsg_grp_org_x w) v (bsg_grid_dim_x w) (bsg_grid_dim_y w)
    (bsg_tile_group_id_x w) (bsg_tile_group_id_y w) (bsg_tile_group_id w).

(** [__bsg_id = __bsg_y * bsg_tiles_X + __bsg_x], and the constants. *)
Definition set_id (x y : Z) (w : config_vars) : config_vars :=
  Build_config_vars (y *i bsg_tiles_X c +i x)%c (bsg_grp_org_x w) (bsg_grp_org_y w) 1 1 0 0 0.

Definition bsg_set_tile_x_y t s : option su_state :=
  let x := su_mem s (own t bsg_x_v) in
  let y := su_mem s (own t bsg_y_v) in
  match su_pcs s t with
  | SZeroX => Some (goto t SZeroY (store (deref u (bsg_remote_ptr 0 0 bsg_x_v)) 0 s))
  | SZeroY => Some (goto t SWaitX (store (deref u (bsg_remote_ptr 0 0 bsg_y_v)) 0 s))
  | SWaitX => Some (goto t (if x <? 0 then SWaitX else SWaitY) s)
  | SWaitY => Some (goto t (if y <? 0 then SWaitY else STestX) s)
  | STestX => Some (goto t (if x =? 0 then STestY else SOrgX) s)
  | STestY => Some (goto t (if y =? 0 then STellX (group_tiles c) else SOrgX) s)
  | STellX [] => Some (goto t SOrgX s)
  | STellX ((i, j) :: todo) =>
      Some (goto t (STellY ((i, j) :: todo)) (store (deref u (bsg_remote_ptr i j bsg_x_v)) i s))
  | STellY [] => None
  | STellY ((i, j) :: todo) =>
      Some (goto t (STellX todo) (store (deref u (bsg_remote_ptr i j bsg_y_v)) j s))
  | SOrgX =>
      let org := su_mem s (deref u (bsg_remote_ptr_control x y CSR_TGO_X)) in
      Some (goto t SOrgY (assign t (set_org_x org (su_vars s t)) s))
  | SOrgY =>
      let org := su_mem s (deref u (bsg_remote_ptr_control x y CSR_TGO_Y)) in
      Some (goto t SId (assign t (set_org_y org (su_vars s t)) s))
  | SId => Some (goto t SDone (assign t (set_id x y (su_vars s t)) s))
  | SDone => None
  end.

Definition su_step t s : option su_state :=
  if decide (t ∈ group_tiles c) then bsg_set_tile_x_y t s else None.

(** Reset: -1 in every variable. *)
Definition su_init s : Prop :=
  su_mem s = m0 /\
  (forall t, t ∈ group_tiles c -> m0 (own t bsg_x_v) = -1 /\ m0 (own t bsg_y_v) = -1 /\
    su_vars s t = config_vars_init /\ su_pcs s t = SZeroX).

#[local] Instance su_lts : Lts su_state (Z * Z) := { lts_init := su_init; lts_step := su_step }.

(** ** Addresses *)

Hypothesis wf : wf_config c.
Hypothesis fits : 0 <= tgo_x u /\ bsg_tiles_X c + tgo_x u <= 2 ^ x_subcord_width u /\
  0 <= tgo_y u /\ bsg_tiles_Y c + tgo_y u <= 2 ^ y_subcord_width u.

Lemma own_inj t t' a a' : own t a = own t' a' -> t = t' /\ a = a'.
Proof. destruct t, t'. unfold own. simpl. intros [= ???]. split; [f_equal; lia|done]. Qed.

Lemma remote_own x y a : (x, y) ∈ group_tiles c -> 0 <= a < 2 ^ 18 -> a mod 4 = 0 ->
  deref u (bsg_remote_ptr x y a) = own (x, y) a.
Proof using wf fits.
  rewrite elem_of_group. intros Hxy. norm_pow2. intros Ha H4. destruct wf as (? & ? & _).
  unfold deref, own. rewrite eva_to_npa_remote_ptr by (norm_pow2; lia). cbn [x_cord y_cord epa fst snd].
  f_equal. Z.to_euclidean_division_equations. lia.
Qed.

(** The CSR with the given offset, in the tile itself. *)
Definition csr t (offset : Z) : loc := own t (2 ^ 17 + offset).

Lemma control_own x y offset : (x, y) ∈ group_tiles c -> offset = CSR_TGO_X \/ offset = CSR_TGO_Y ->
  deref u (bsg_remote_ptr_control x y offset) = csr (x, y) offset.
Proof using wf fits.
  intros Hxy Ho. unfold bsg_remote_ptr_control, csr.
  assert ((CSR_BASE_ADDR +i offset)%c = 2 ^ 17 + offset) as -> by (destruct Ho as [->| ->]; reflexivity).
  apply remote_own; [done|..]; destruct Ho as [->| ->]; vm_compute; split; congruence.
Qed.

(** The variables are two words of the data memory, which ends below the CSRs. *)
Hypothesis placed : 0 <= bsg_x_v < 2 ^ 17 /\ bsg_x_v mod 4 = 0 /\ 0 <= bsg_y_v < 2 ^ 17 /\
  bsg_y_v mod 4 = 0 /\ bsg_x_v <> bsg_y_v.

Lemma remote_x x y : (x, y) ∈ group_tiles c -> deref u (bsg_remote_ptr x y bsg_x_v) = own (x, y) bsg_x_v.
Proof using wf fits placed. intros H. apply remote_own; [done|revert placed; norm_pow2; lia|apply placed]. Qed.

Lemma remote_y x y : (x, y) ∈ group_tiles c -> deref u (bsg_remote_ptr x y bsg_y_v) = own (x, y) bsg_y_v.
Proof using wf fits placed. intros H. apply remote_own; [done|revert placed; norm_pow2; lia|apply placed]. Qed.

(** ** The invariant *)

(** How far a call has come. *)
Definition su_stage (pc : su_pc) : Z :=
  match pc with
  | SZeroX => 0 | SZeroY => 1 | SWaitX => 2 | SWaitY => 3 | STestX => 4 | STestY => 5
  | STellX _ => 6 | STellY _ => 6 | SOrgX => 7 | SOrgY => 8 | SId => 9 | SDone => 10
  end.

(** The tiles that (0,0) still has to tell. *)
Definition untold (pc : su_pc) : list (Z * Z) :=
  match pc with
  | STellX todo | STellY todo => todo
  | SOrgX | SOrgY | SId | SDone => []
  | _ => group_tiles c
  end.

Record su_inv s : Prop := {
  su_x : forall t, t ∈ group_tiles c -> su_mem s (own t bsg_x_v) = -1 \/ su_mem s (own t bsg_x_v) = t.1;
  su_y : forall t, t ∈ group_tiles c -> su_mem s (own t bsg_y_v) = -1 \/ su_mem s (own t bsg_y_v) = t.2;
  su_knows_x : forall t, t ∈ group_tiles c -> 2 < su_stage (su_pcs s t) ->
    su_mem s (own t bsg_x_v) = t.1;
  su_knows_y : forall t, t ∈ group_tiles c -> 3 < su_stage (su_pcs s t) ->
    su_mem s (own t bsg_y_v) = t.2;
  su_first_x : 0 < su_stage (su_pcs s (0, 0)) -> su_mem s (own (0, 0) bsg_x_v) = 0;
  su_first_y : 1 < su_stage (su_pcs s (0, 0)) -> su_mem s (own (0, 0) bsg_y_v) = 0;
  su_teller : forall t, t ∈ group_tiles c -> su_stage (su_pcs s t) = 6 -> t = (0, 0);
  su_tested : forall t, t ∈ group_tiles c -> su_pcs s t = STestY -> t.1 = 0;
  su_list : forall t, t ∈ group_tiles c -> untold (su_pcs s t) ⊆ group_tiles c /\
    su_pcs s t <> STellY [];
  su_told_x : forall t, t ∈ group_tiles c -> t ∉ untold (su_pcs s (0, 0)) ->
    su_mem s (own t bsg_x_v) = t.1;
  su_told_y : forall t, t ∈ group_tiles c -> t ∉ untold (su_pcs s (0, 0)) ->
    su_mem s (own t bsg_y_v) = t.2;
  su_half : forall v rest, su_pcs s (0, 0) = STellY (v :: rest) -> su_mem s (own v bsg_x_v) = v.1;
  su_csr : forall t o, t ∈ group_tiles c -> 0 <= o -> su_mem s (csr t o) = m0 (csr t o);
  su_org_x : forall t, t ∈ group_tiles c -> 7 < su_stage (su_pcs s t) ->
    bsg_grp_org_x (su_vars s t) = m0 (csr t CSR_TGO_X);
  su_org_y : forall t, t ∈ group_tiles c -> 8 < su_stage (su_pcs s t) ->
    bsg_grp_org_y (su_vars s t) = m0 (csr t CSR_TGO_Y);
  su_rest : forall t, t ∈ group_tiles c -> 9 < su_stage (su_pcs s t) ->
    bsg_id (su_vars s t) = tile_id c t /\ bsg_grid_dim_x (su_vars s t) = 1 /\
    bsg_grid_dim_y (su_vars s t) = 1 /\ bsg_tile_group_id_x (su_vars s t) = 0 /\
    bsg_tile_group_id_y (su_vars s t) = 0 /\ bsg_tile_group_id (su_vars s t) = 0;
}.

(** What a store leaves behind. *)
Lemma read_store_x v w s t : su_mem (store (own v bsg_x_v) w s) (own t bsg_x_v) =
  if decide (t = v) then w else su_mem s (own t bsg_x_v).
Proof.
  cbn. destruct (decide (t = v)) as [->|Hne]; [apply fn_lookup_insert|].
  rewrite fn_lookup_insert_ne; [done|]. by intros [-> _]%own_inj.
Qed.

Lemma read_store_y v w s t : su_mem (store (own v bsg_y_v) w s) (own t bsg_y_v) =
  if decide (t = v) then w else su_mem s (own t bsg_y_v).
Proof.
  cbn. destruct (decide (t = v)) as [->|Hne]; [apply fn_lookup_insert|].
  rewrite fn_lookup_insert_ne; [done|]. by intros [-> _]%own_inj.
Qed.

Lemma read_store_other v a w s t b : a <> b ->
  su_mem (store (own v a) w s) (own t b) = su_mem s (own t b).
Proof. intros Hne. cbn. rewrite fn_lookup_insert_ne; [done|]. by intros [_ E]%own_inj. Qed.

Lemma read_csr v a w s t o : a < 2 ^ 17 -> 0 <= o ->
  su_mem (store (own v a) w s) (csr t o) = su_mem s (csr t o).
Proof. intros Ha Ho. apply read_store_other. lia. Qed.

Lemma goto_same t pc s : su_pcs (goto t pc s) t = pc.
Proof. apply fn_lookup_insert. Qed.

Lemma goto_other t pc s x : x <> t -> su_pcs (goto t pc s) x = su_pcs s x.
Proof. intros Hx. by apply fn_lookup_insert_ne. Qed.

(** A step of [t]: coordinates, once known, stay, and what [t] claims at its new place holds. *)
Lemma su_inv_move s s' t pc : su_inv s -> t ∈ group_tiles c ->
  su_pcs s' = <[t := pc]> (su_pcs s) -> (forall x, x <> t -> su_vars s' x = su_vars s x) ->
  (forall x, x ∈ group_tiles c -> su_mem s' (own x bsg_x_v) = su_mem s (own x bsg_x_v) \/
     su_mem s' (own x bsg_x_v) = x.1) ->
  (forall x, x ∈ group_tiles c -> su_mem s' (own x bsg_y_v) = su_mem s (own x bsg_y_v) \/
     su_mem s' (own x bsg_y_v) = x.2) ->
  (forall x o, 0 <= o -> su_mem s' (csr x o) = su_mem s (csr x o)) ->
  (2 < su_stage pc -> su_mem s' (own t bsg_x_v) = t.1) ->
  (3 < su_stage pc -> su_mem s' (own t bsg_y_v) = t.2) ->
  (t = (0, 0) -> 0 < su_stage pc -> su_mem s' (own t bsg_x_v) = 0) ->
  (t = (0, 0) -> 1 < su_stage pc -> su_mem s' (own t bsg_y_v) = 0) ->
  (su_stage pc = 6 -> t = (0, 0)) -> (pc = STestY -> t.1 = 0) -> untold pc ⊆ group_tiles c -> pc <> STellY [] ->
  (t = (0, 0) -> forall x, x ∈ group_tiles c -> x ∉ untold pc ->
     su_mem s' (own x bsg_x_v) = x.1 /\ su_mem s' (own x bsg_y_v) = x.2) ->
  (forall v rest, pc = STellY (v :: rest) -> su_mem s' (own v bsg_x_v) = v.1) ->
  (7 < su_stage pc -> bsg_grp_org_x (su_vars s' t) = m0 (csr t CSR_TGO_X)) ->
  (8 < su_stage pc -> bsg_grp_org_y (su_vars s' t) = m0 (csr t CSR_TGO_Y)) ->
  (9 < su_stage pc -> bsg_id (su_vars s' t) = tile_id c t /\ bsg_grid_dim_x (su_vars s' t) = 1 /\
     bsg_grid_dim_y (su_vars s' t) = 1 /\ bsg_tile_group_id_x (su_vars s' t) = 0 /\
     bsg_tile_group_id_y (su_vars s' t) = 0 /\ bsg_tile_group_id (su_vars s' t) = 0) ->
  su_inv s'.
Proof.
  intros I Ht Ep Hv Rx Ry Rc Hx Hy Hfx Hfy H6 Htest Hun Hne Htold Hhalf Hox Hoy Hid.
  assert (forall x, x <> t -> su_pcs s' x = su_pcs s x) as Hpc
    by (intros; rewrite Ep; by apply fn_lookup_insert_ne).
  assert (su_pcs s' t = pc) as Epc by (rewrite Ep; apply fn_lookup_insert).
  assert (forall x, x ∈ group_tiles c -> su_mem s (own x bsg_x_v) = x.1 -> su_mem s' (own x bsg_x_v) = x.1)
    as Kx by (intros x Hin E; destruct (Rx x Hin) as [->|]; done).
  assert (forall x, x ∈ group_tiles c -> su_mem s (own x bsg_y_v) = x.2 -> su_mem s' (own x bsg_y_v) = x.2)
    as Ky by (intros x Hin E; destruct (Ry x Hin) as [->|]; done).
  pose proof (origin_in_group c wf) as H0.
  split.
  - intros x Hin. destruct (Rx x Hin) as [->|]; [by apply (su_x s I)|by right].
  - intros x Hin. destruct (Ry x Hin) as [->|]; [by apply (su_y s I)|by right].
  - intros x Hin Hs. destruct (decide (x = t)) as [->|?]; [rewrite Epc in Hs; auto|].
    rewrite Hpc in Hs by done. by apply Kx, (su_knows_x s I).
  - intros x Hin Hs. destruct (decide (x = t)) as [->|?]; [rewrite Epc in Hs; auto|].
    rewrite Hpc in Hs by done. by apply Ky, (su_knows_y s I).
  - intros Hs. destruct (decide (t = (0, 0))) as [E|?]; [subst t; rewrite Epc in Hs; auto|].
    rewrite Hpc in Hs by done. by apply Kx, (su_first_x s I).
  - intros Hs. destruct (decide (t = (0, 0))) as [E|?]; [subst t; rewrite Epc in Hs; auto|].
    rewrite Hpc in Hs by done. by apply Ky, (su_first_y s I).
  - intros x Hin Hs. destruct (decide (x = t)) as [->|?]; [rewrite Epc in Hs; auto|].
    rewrite Hpc in Hs by done. by apply (su_teller s I).
  - intros x Hin Hs. destruct (decide (x = t)) as [->|?]; [rewrite Epc in Hs; auto|].
    rewrite Hpc in Hs by done. by apply (su_tested s I).
  - intros x Hin. destruct (decide (x = t)) as [->|?]; [by rewrite Epc|].
    rewrite Hpc by done. by apply (su_list s I).
  - intros x Hin Hx'. destruct (decide (t = (0, 0))) as [E|?].
    + subst t. rewrite Epc in Hx'. by apply Htold.
    + rewrite Hpc in Hx' by done. by apply Kx, (su_told_x s I).
  - intros x Hin Hx'. destruct (decide (t = (0, 0))) as [E|?].
    + subst t. rewrite Epc in Hx'. by apply Htold.
    + rewrite Hpc in Hx' by done. by apply Ky, (su_told_y s I).
  - intros v rest Hs. destruct (decide (t = (0, 0))) as [E|?].
    + subst t. rewrite Epc in Hs. by eapply Hhalf.
    + rewrite Hpc in Hs by done. apply Kx; [|by eapply su_half].
      apply (proj1 (su_list s I (0, 0) H0)). rewrite Hs. by left.
  - intros x o Hin Ho. rewrite Rc by done. by apply (su_csr s I).
  - intros x Hin Hs. destruct (decide (x = t)) as [->|?]; [rewrite Epc in Hs; auto|].
    rewrite Hpc in Hs by done. rewrite Hv by done. by apply (su_org_x s I).
  - intros x Hin Hs. destruct (decide (x = t)) as [->|?]; [rewrite Epc in Hs; auto|].
    rewrite Hpc in Hs by done. rewrite Hv by done. by apply (su_org_y s I).
  - intros x Hin Hs. destruct (decide (x = t)) as [->|?]; [rewrite Epc in Hs; auto|].
    rewrite Hpc in Hs by done. rewrite Hv by done. by apply (su_rest s I).
Qed.

Lemma mem_goto t pc s a : su_mem (goto t pc s) a = su_mem s a.
Proof. done. Qed.

Lemma mem_assign t w s a : su_mem (assign t w s) a = su_mem s a.
Proof. done. Qed.

(** Reads after the step's store. *)
Ltac reads :=
  rewrite ?mem_goto, ?mem_assign, ?read_store_x, ?read_store_y;
  rewrite ?read_store_other by (first [apply placed|apply not_eq_sym; apply placed]);
  try rewrite read_csr by (apply placed || done);
  try case_decide; subst; auto; try congruence.

(** The conditions of [su_inv_move], the step leading to [pc]. *)
Ltac su_move t pc I Ht Epc :=
  apply (su_inv_move _ _ t pc I Ht);
  [ reflexivity | intros; cbn; by rewrite ?fn_lookup_insert_ne | .. ];
  try done; try (simpl; lia); try (intros; reads; fail).

Lemma tile_id_i32 t : t ∈ group_tiles c -> (t.2 *i bsg_tiles_X c +i t.1)%c = tile_id c t.
Proof.
  destruct t as [x y]. rewrite elem_of_group. destruct wf as (? & ? & _). intros [? ?]. simpl.
  unfold tile_id, bsg_x_y_to_id. simpl. rewrite (i32_id (y * _)), i32_id by (unfold is_i32; nia). lia.
Qed.

Lemma group_nonneg t : t ∈ group_tiles c -> 0 <= t.1 /\ 0 <= t.2.
Proof. destruct t. rewrite elem_of_group. simpl. lia. Qed.

(** What the invariant says of [t], should it be (0,0). *)
Lemma su_first s t : su_inv s -> t = (0, 0) ->
  (0 < su_stage (su_pcs s t) -> su_mem s (own t bsg_x_v) = 0) /\
  (1 < su_stage (su_pcs s t) -> su_mem s (own t bsg_y_v) = 0).
Proof. intros I ->. split; apply I. Qed.

Lemma su_told s t : su_inv s -> t = (0, 0) ->
  forall x, x ∈ group_tiles c -> x ∉ untold (su_pcs s t) ->
    su_mem s (own x bsg_x_v) = x.1 /\ su_mem s (own x bsg_y_v) = x.2.
Proof. intros I -> x Hx Hu. split; [by apply (su_told_x s I)|by apply (su_told_y s I)]. Qed.

(** The conditions that come from what [t] knows. *)
Ltac su_rest_of Ft :=
  try (intros; reads; apply Ft; (done || lia));
  try (intros v Hv; by apply not_elem_of_nil in Hv);
  try (intros ->; simpl in *; lia);
  try (intros _; reads; lia).

Lemma su_inv_step s t s' : su_inv s -> su_step t s = Some s' -> su_inv s'.
Proof.
  intros I E. unfold su_step in E. destruct (decide (t ∈ group_tiles c)) as [Ht|]; [|done].
  pose proof (origin_in_group c wf) as H0. pose proof (group_nonneg t Ht) as [Ht1 Ht2].
  pose proof (su_x s I t Ht) as Xt. pose proof (su_y s I t Ht) as Yt.
  pose proof (su_knows_x s I t Ht) as Kx. pose proof (su_knows_y s I t Ht) as Ky.
  pose proof (su_teller s I t Ht) as Tt. pose proof (su_list s I t Ht) as [Lt _].
  pose proof (su_tested s I t Ht) as Dt. pose proof (su_first s t I) as Ft.
  pose proof (su_told s t I) as Told.
  pose proof (su_org_x s I t Ht) as Ox. pose proof (su_org_y s I t Ht) as Oy.
  unfold bsg_set_tile_x_y in E.
  destruct (su_pcs s t) as [| | | | | |todo|todo| | | |] eqn:Epc; cbn in Kx, Ky, Tt, Lt, Ft, Told, Ox, Oy.
  - rewrite remote_x in E by done. injection E as <-. su_move t SZeroY I Ht Epc.
  - rewrite remote_y in E by done. injection E as <-. su_move t SWaitX I Ht Epc; su_rest_of Ft.
  - injection E as <-. destruct (Z.ltb_spec (su_mem s (own t bsg_x_v)) 0).
    + su_move t SWaitX I Ht Epc; su_rest_of Ft.
    + su_move t SWaitY I Ht Epc; su_rest_of Ft.
  - injection E as <-. specialize (Kx ltac:(lia)). destruct (Z.ltb_spec (su_mem s (own t bsg_y_v)) 0).
    + su_move t SWaitY I Ht Epc; su_rest_of Ft.
    + su_move t STestX I Ht Epc; su_rest_of Ft.
  - injection E as <-. specialize (Kx ltac:(lia)). specialize (Ky ltac:(lia)).
    destruct (Z.eqb_spec (su_mem s (own t bsg_x_v)) 0).
    + su_move t STestY I Ht Epc; su_rest_of Ft.
    + su_move t SOrgX I Ht Epc; su_rest_of Ft.
  - injection E as <-. specialize (Kx ltac:(lia)). specialize (Ky ltac:(lia)). specialize (Dt eq_refl).
    destruct (Z.eqb_spec (su_mem s (own t bsg_y_v)) 0).
    + su_move t (STellX (group_tiles c)) I Ht Epc; su_rest_of Ft.
      intros _. destruct t; simpl in *. f_equal; lia.
    + su_move t SOrgX I Ht Epc; su_rest_of Ft.
  - specialize (Kx ltac:(lia)). specialize (Ky ltac:(lia)). specialize (Tt eq_refl).
    destruct todo as [| [i j] todo].
    + injection E as <-. su_move t SOrgX I Ht Epc; su_rest_of Ft.
    + assert ((i, j) ∈ group_tiles c) as Hij by (apply Lt; left). rewrite remote_x in E by done.
      injection E as <-. su_move t (STellY ((i, j) :: todo)) I Ht Epc; su_rest_of Ft.
      * intros _. rewrite mem_goto, read_store_x. case_decide as E; [by rewrite E|done].
      * intros Et x Hx Hu. destruct (Told Et x Hx Hu) as [A B].
        rewrite !mem_goto, read_store_x, read_store_other by apply placed.
        case_decide as E; [by rewrite E in *|done].
  - specialize (Kx ltac:(lia)). specialize (Ky ltac:(lia)). specialize (Tt eq_refl).
    destruct todo as [| [i j] todo]; [done|].
    assert ((i, j) ∈ group_tiles c) as Hij by (apply Lt; left). rewrite remote_y in E by done.
    assert (su_mem s (own (i, j) bsg_x_v) = i) as Hi by (apply (su_half s I (i, j) todo); by rewrite <-Tt).
    injection E as <-. su_move t (STellX todo) I Ht Epc; su_rest_of Ft.
    + intros _. rewrite mem_goto, read_store_y. case_decide as E; [by rewrite E|done].
    + intros v Hv. apply Lt. by right.
    + intros Et x Hx Hu. rewrite !mem_goto, read_store_y, read_store_other by (apply not_eq_sym, placed).
      case_decide as E; [by rewrite E|]. apply Told; [done|done|]. by intros [|]%elem_of_cons.
  - specialize (Kx ltac:(lia)). specialize (Ky ltac:(lia)). rewrite Kx, Ky in E. destruct t as [x y].
    rewrite control_own in E by (done || by left). injection E as <-.
    su_move (x, y) SOrgY I Ht Epc; su_rest_of Ft.
    intros _. cbn. rewrite fn_lookup_insert. by apply (su_csr s I).
  - specialize (Kx ltac:(lia)). specialize (Ky ltac:(lia)). rewrite Kx, Ky in E. destruct t as [x y].
    rewrite control_own in E by (done || by right). injection E as <-.
    su_move (x, y) SId I Ht Epc; su_rest_of Ft; intros _; cbn; rewrite fn_lookup_insert.
    + apply Ox. lia.
    + by apply (su_csr s I).
  - specialize (Kx ltac:(lia)). specialize (Ky ltac:(lia)). rewrite Kx, Ky in E. injection E as <-.
    su_move t SDone I Ht Epc; su_rest_of Ft; intros _; cbn; rewrite fn_lookup_insert; cbn.
    + apply Ox. lia.
    + apply Oy. lia.
    + by rewrite tile_id_i32.
  - done.
Qed.

Lemma su_inv_init s : su_init s -> su_inv s.
Proof.
  intros [Em Hi]. pose proof (origin_in_group c wf) as H0.
  assert (forall t, t ∈ group_tiles c -> su_pcs s t = SZeroX) as Hpc by (intros t Ht; by apply Hi).
  split; rewrite ?Hpc by done; intros; rewrite ?Em, ?Hpc in * by done; simpl in *; try done; try lia.
  - left. by apply Hi.
  - left. by apply Hi.
Qed.

Lemma su_reachable_inv s : reachable s -> su_inv s.
Proof. apply invariant_reachable; [apply su_inv_init|intros; by eapply su_inv_step]. Qed.

(** ** Progress *)

(** The tile makes headway: it does not wait. *)
Definition su_moves s t : bool :=
  match su_pcs s t with
  | SWaitX => 0 <=? su_mem s (own t bsg_x_v)
  | SWaitY => 0 <=? su_mem s (own t bsg_y_v)
  | SDone => false
  | _ => true
  end.

Definition su_rank (pc : su_pc) : Z :=
  let n := Z.of_nat (length (group_tiles c)) in
  match pc with
  | SZeroX => 2 * n + 10 | SZeroY => 2 * n + 9 | SWaitX => 2 * n + 8 | SWaitY => 2 * n + 7
  | STestX => 2 * n + 6 | STestY => 2 * n + 5
  | STellX todo => 2 * Z.of_nat (length todo) + 4
  | STellY todo => 2 * Z.of_nat (length todo) + 3
  | SOrgX => 3 | SOrgY => 2 | SId => 1 | SDone => 0
  end.

Definition su_measure s : Z := sum_over (fun t => su_rank (su_pcs s t)) (group_tiles c).

Lemma su_moves_step s t : su_inv s -> t ∈ group_tiles c -> su_moves s t = true ->
  exists s', su_step t s = Some s' /\ su_measure s' < su_measure s.
Proof.
  intros I Ht Hm. unfold su_step. rewrite decide_True by done.
  assert (forall pc s0, su_pcs s0 = su_pcs s -> su_rank pc < su_rank (su_pcs s t) ->
    su_measure (goto t pc s0) < su_measure s) as Hlt.
  { intros pc s0 E0 Hr. unfold su_measure.
    rewrite (sum_over_update (fun t => su_rank (su_pcs s t)) _ (group_tiles c) t); [| |done|].
    - cbn. rewrite E0, fn_lookup_insert. lia.
    - apply NoDup_group_tiles.
    - intros x _ Hx. cbn. by rewrite E0, fn_lookup_insert_ne. }
  pose proof (proj2 (su_list s I t Ht)) as Hne.
  unfold su_moves in Hm. unfold bsg_set_tile_x_y.
  destruct (su_pcs s t) as [| | | | | |todo|todo| | | |] eqn:Epc; try done.
  all: try (destruct todo as [| [i j] todo]; [try done|]).
  all: eexists; (split; [reflexivity|]); apply Hlt; [done|]; repeat case_match; unfold su_rank; simpl; lia.
Qed.

Definition su_finished s : Prop := forall t, t ∈ group_tiles c -> su_pcs s t = SDone.

(** (0,0) never waits, and nobody waits once it has finished. *)
Lemma su_progress s : su_inv s -> su_finished s \/ exists t, t ∈ group_tiles c /\ su_moves s t = true.
Proof.
  intros I. pose proof (origin_in_group c wf) as H0.
  destruct (decide (su_pcs s (0, 0) = SDone)) as [E0|E0].
  - destruct (decide (Forall (fun t => su_pcs s t = SDone) (group_tiles c))) as [HF|HF].
    + left. by rewrite Forall_forall in HF.
    + right. apply not_Forall_Exists in HF; [|apply _]. apply Exists_exists in HF as (t & Ht & Hd).
      exists t. split; [done|]. unfold su_moves. pose proof (group_nonneg t Ht) as [? ?].
      assert (t ∉ untold (su_pcs s (0, 0))) as Hu by (rewrite E0; apply not_elem_of_nil).
      pose proof (su_told_x s I t Ht Hu). pose proof (su_told_y s I t Ht Hu).
      change (su_pcs s t <> SDone) in Hd. destruct (su_pcs s t); (done || lia).
  - right. exists (0, 0). split; [done|]. pose proof (su_first_x s I). pose proof (su_first_y s I).
    unfold su_moves. destruct (su_pcs s (0, 0)) eqn:Epc; try done; simpl in *; lia.
Qed.

(** Start-up hands out the coordinates: in every interleaving, a tile that has
    returned from [bsg_set_tile_x_y] holds its own coordinates (which nobody changes any more, in
    spite of the tiles still storing zeroes into (0,0)), the id that goes with them, and the group
    origin that its own control registers held. *)
Lemma start_up_coordinates s t :
  reachable s -> t ∈ group_tiles c -> su_pcs s t = SDone ->
  su_mem s (own t bsg_x_v) = t.1 /\ su_mem s (own t bsg_y_v) = t.2 /\
  bsg_id (su_vars s t) = tile_id c t /\
  bsg_grp_org_x (su_vars s t) = m0 (csr t CSR_TGO_X) /\
  bsg_grp_org_y (su_vars s t) = m0 (csr t CSR_TGO_Y).
Proof.
  intros Hs Ht Hd. pose proof (su_reachable_inv s Hs) as I.
  split_and!; [apply (su_knows_x s I)|apply (su_knows_y s I)|apply (su_rest s I)
    |apply (su_org_x s I)|apply (su_org_y s I)]; rewrite ?Hd; done.
Qed.

(** Start-up completes: from every reachable state some continuation lets every
    tile of the group return. *)
Lemma start_up_completes s :
  reachable s -> can_reach (fun t => t ∈ group_tiles c) s su_finished.
Proof.
  intros Hs. apply (can_reach_measure _ su_inv _ su_measure); [| |by apply su_reachable_inv].
  - intros s' I. apply sum_over_nonneg. intros t _. destruct (su_pcs s' t); unfold su_rank; simpl; lia.
  - intros s' I. destruct (su_progress s' I) as [Hd|(t & Ht & Hm)]; [by left|right].
    destruct (su_moves_step s' t I Ht Hm) as (s'' & E & Hlt).
    exists t, s''. split_and!; [done..|by eapply su_inv_step|done].
Qed.

(** C22 (safety).  Start-up is correct in every interleaving: a tile that has returned from
    [bsg_set_tile_x_y] holds its own coordinates (which nobody changes any more, in spite of the
    tiles still storing zeroes into (0,0)), the id that goes with them, and the group origin that
    its own control registers held; and from every reachable state some continuation lets every
    tile of the group return. *)
Theorem start_up_correct s :
  reachable s ->
  (forall t, t ∈ group_tiles c -> su_pcs s t = SDone ->
     su_mem s (own t bsg_x_v) = t.1 /\ su_mem s (own t bsg_y_v) = t.2 /\
     bsg_id (su_vars s t) = tile_id c t /\
     bsg_grp_org_x (su_vars s t) = m0 (csr t CSR_TGO_X) /\
     bsg_grp_org_y (su_vars s t) = m0 (csr t CSR_TGO_Y)) /\
  can_reach (fun t => t ∈ group_tiles c) s su_finished.
Proof.
  intros Hs. split; [intros t; by apply start_up_coordinates|by apply start_up_completes].
Qed.
End start_up.

(** *** Witness: a group of four tiles *)

Definition config_2x2 : config :=
  {| bsg_tiles_X := 2; bsg_tiles_Y := 2; bsg_global_X := 16; bsg_global_Y := 8;
     IO_X_INDEX := 16; IO_Y_INDEX := 0 |}.

(** [__bsg_x] and [__bsg_y] at 0x1000 and 0x1004; the registers hold the origin of the group. *)
Definition reset_memory (a : loc) : Z :=
  match a with
  | Dmem _ _ w =>
      if w =? 2 ^ 17 + CSR_TGO_X then 2 else if w =? 2 ^ 17 + CSR_TGO_Y then 1 else -1
  | Dram _ => 0
  end.

Definition reset_state : su_state :=
  Build_su_state reset_memory (fun _ => config_vars_init) (fun _ => SZeroX).

#[local] Instance example_lts : Lts su_state (Z * Z) :=
  su_lts config_2x2 unit_16x8 0x1000 0x1004 reset_memory.

(** Tile (1,1) stores its zeroes last, when the others have their coordinates. *)
Definition start_schedule : list (Z * Z) :=
  mjoin (replicate 20%nat [(0, 0); (0, 1); (1, 0)]) ++ replicate 10%nat (1, 1).

Lemma reset_state_init : su_init config_2x2 unit_16x8 0x1000 0x1004 reset_memory reset_state.
Proof. split; [done|]. intros t _. unfold own, reset_memory. by repeat split. Qed.

Lemma example_conditions :
  wf_config config_2x2 /\
  (0 <= tgo_x unit_16x8 /\ bsg_tiles_X config_2x2 + tgo_x unit_16x8 <= 2 ^ x_subcord_width unit_16x8 /\
   0 <= tgo_y unit_16x8 /\ bsg_tiles_Y config_2x2 + tgo_y unit_16x8 <= 2 ^ y_subcord_width unit_16x8) /\
  (0 <= 0x1000 < 2 ^ 17 /\ 0x1000 mod 4 = 0 /\ 0 <= 0x1004 < 2 ^ 17 /\ 0x1004 mod 4 = 0 /\
   0x1000 <> 0x1004).
Proof. unfold wf_config, bsg_num_tiles. simpl. split_and!; (done || lia). Qed.

Lemma start_up_correct_witness :
  let s := run_skip start_schedule reset_state in
  (su_pcs s (1, 1) = SDone /\ bsg_id (su_vars s (1, 1)) = 3 /\ bsg_grp_org_x (su_vars s (1, 1)) = 2) /\
  can_reach (fun t => t ∈ group_tiles config_2x2) (run_skip [(1, 1); (0, 0); (0, 1)] reset_state)
    (su_finished config_2x2).
Proof.
  cbv zeta. destruct example_conditions as (H1 & H2 & H3). split.
  - assert (su_pcs (run_skip start_schedule reset_state) (1, 1) = SDone) as Hd by (vm_compute; reflexivity).
    assert (reachable (run_skip start_schedule reset_state)) as Hr
      by (apply run_skip_reachable; constructor; apply reset_state_init).
    revert Hd Hr. generalize (run_skip start_schedule reset_state). intros s Hd Hr.
    assert ((1, 1) ∈ group_tiles config_2x2) as Ht by (apply elem_of_group; simpl; lia).
    destruct (start_up_correct config_2x2 unit_16x8 0x1000 0x1004 reset_memory H1 H2 H3 s Hr) as [Hc _].
    destruct (Hc (1, 1) Ht Hd) as (_ & _ & Hid & Hx & _).
    rewrite Hid, Hx. split; [exact Hd|]. by split.
  - apply (start_up_correct config_2x2 unit_16x8 0x1000 0x1004 reset_memory H1 H2 H3).
    apply run_skip_reachable. constructor. apply reset_state_init.
Defined.
