(* ===== verification/Prbs.v ===== *)
(** * The pseudo-random tests: [hb_mc_07_vcache_dram_prbs], [hb_mc_10] to [hb_mc_13]

    [hb_mc_07] fills DRAM with the bytes of a linear-feedback shift register and reads them
    back; [hb_mc_12] and [hb_mc_13] send such bytes over the links between pods and read them
    back; [hb_mc_10] and [hb_mc_11] only wake those links up.  The four link tests pair every
    sending tile with a tile of the pod above or below. *)

From S2P Require Import Prelude Lts Arch Eva Console Spmd SpmdLogic.
Local Open Scope Z_scope.

(** ** The generators *)

(** [((curr >> 7) ^ (curr >> 5) ^ (curr >> 4) ^ (curr >> 3)) & 1], on a [uint8_t]. *)
Definition newbit (curr : Z) : Z :=
  Z.land (Z.lxor (Z.lxor (Z.lxor (Z.shiftr curr 7) (Z.shiftr curr 5)) (Z.shiftr curr 4))
            (Z.shiftr curr 3)) 1.

(** The same line of [hb_mc_12] and [hb_mc_13], which has [curr > 5]. *)
Definition newbit_gt (curr : Z) : Z :=
  Z.land (Z.lxor (Z.lxor (Z.lxor (Z.shiftr curr 7) (if 5 <? curr then 1 else 0))
            (Z.shiftr curr 4)) (Z.shiftr curr 3)) 1.

(** [curr = ((curr << 1) | newbit) & 0xff;] *)
Definition prbs_next (bit : Z -> Z) (curr : Z) : Z :=
  Z.land (Z.lor (Z.shiftl curr 1) (bit curr)) 0xff.

(** The loop over [j]: the bytes written to the buffer, and the register after it. *)
Fixpoint prbs_fill (bit : Z -> Z) (n : nat) (curr : Z) : list Z * Z :=
  match n with
  | O => ([], curr)
  | S n => let '(bs, c) := prbs_fill bit n (prbs_next bit curr) in (curr :: bs, c)
  end.

Definition VCACHE_LINE_WORDS : Z := 8.
Definition VCACHE_LINE_BYTES : nat := 32.

(** Reading the byte buffer through [uint32_t *]: little-endian words. *)
Fixpoint buffer_words (bs : list Z) : list Z :=
  match bs with
  | b0 :: b1 :: b2 :: b3 :: bs =>
      (b0 + 256 * b1 + 65536 * b2 + 16777216 * b3) :: buffer_words bs
  | _ => []
  end.

(** The register after [k] steps. *)
Definition prbs (bit : Z -> Z) (k : nat) (seed : Z) : Z := Nat.iter k (prbs_next bit) seed.

Lemma prbs_add bit j k seed : prbs bit (j + k) seed = prbs bit j (prbs bit k seed).
Proof. unfold prbs. apply Nat.iter_add. Qed.

Lemma prbs_S bit n seed : prbs bit (S n) seed = prbs bit n (prbs_next bit seed).
Proof. unfold prbs. by rewrite Nat.iter_succ_r. Qed.

Lemma prbs_fill_spec bit n curr :
  prbs_fill bit n curr = ((fun j => prbs bit j curr) <$> seq 0 n, prbs bit n curr).
Proof.
  revert curr. induction n as [|n IH]; intros curr; [done|]. simpl prbs_fill. rewrite IH.
  rewrite <-prbs_S. f_equal. simpl. f_equal. rewrite <-(fmap_S_seq 0 n), <-list_fmap_compose.
  apply list_fmap_ext. intros i j _. simpl. by rewrite <-prbs_S.
Qed.

Lemma prbs_next_range bit c : 0 <= c -> 0 <= prbs_next bit c < 256.
Proof.
  intros Hc. unfold prbs_next. change 0xff with (Z.ones 8). rewrite Z.land_ones by lia.
  apply Z.mod_pos_bound. lia.
Qed.

Lemma prbs_range bit k c : 0 <= c < 256 -> 0 <= prbs bit k c < 256.
Proof.
  intros Hc. induction k as [|k IH]; [done|]. simpl. apply prbs_next_range. lia.
Qed.

(** [l] holds every value of [vs]. *)
Definition covers (vs l : list Z) : bool := forallb (fun v => existsb (Z.eqb v) l) vs.

Lemma covers_permutation vs l :
  NoDup vs -> length vs = length l -> covers vs l = true -> l ≡ₚ vs.
Proof.
  intros Hnd Hlen Hc. symmetry. apply NoDup_ListNoDup in Hnd.
  apply NoDup_Permutation_bis; [done|lia|]. intros v Hv.
  unfold covers in Hc. rewrite forallb_forall in Hc. specialize (Hc v Hv).
  apply existsb_exists in Hc as (w & Hw & E). apply Z.eqb_eq in E. by subst.
Qed.

(** The cycle a sequence falls into within 256 steps, by its length. *)
Definition falls_into_cycle (bit : Z -> Z) (s : Z) (p : nat) : bool :=
  prbs bit (p + 256) s =? prbs bit 256 s.

(** The register of [hb_mc_07] is a maximal-length one: from any non-zero
    seed the 255 bytes before it comes back to the seed are the 255 non-zero bytes, each once
    (and the seed 0 stays 0).  The register of [hb_mc_12] and [hb_mc_13], which compares
    [curr > 5] where it should shift [curr >> 5], is not: whatever the seed, after 256 bytes at
    the latest it runs in a cycle of 1, 2 or 21 bytes. *)
Lemma prbs_cycles s :
  0 <= s < 256 ->
  (s <> 0 -> prbs newbit 255 s = s /\
    ((fun j => prbs newbit j s) <$> seq 0 255) ≡ₚ seqZ 1 255) /\
  prbs newbit 1 0 = 0 /\
  (forall k, (256 <= k)%nat -> exists p, p ∈ [1; 2; 21]%nat /\
    prbs newbit_gt (p + k) s = prbs newbit_gt k s).
Proof.
  intros Hs. split; [|split; [done|]].
  - intros Hs0.
    assert (forallb (fun s => (prbs newbit 255 s =? s) &&
      covers (seqZ 1 255) (prbs_fill newbit 255 s).1) (seqZ 1 255) = true) as H
      by (vm_compute; reflexivity).
    rewrite forallb_elem in H. specialize (H s). rewrite elem_of_seqZ in H.
    specialize (H ltac:(lia)). apply andb_true_iff in H as [H1 H2]. split; [by apply Z.eqb_eq|].
    rewrite prbs_fill_spec in H2. apply covers_permutation; [apply NoDup_seqZ| |done].
    by rewrite length_seqZ, length_fmap, length_seq.
  - assert (forallb (fun s => existsb (falls_into_cycle newbit_gt s) [1; 2; 21]%nat) (seqZ 0 256)
      = true) as H by (vm_compute; reflexivity).
    rewrite forallb_elem in H. specialize (H s). rewrite elem_of_seqZ in H.
    specialize (H ltac:(lia)). apply existsb_exists in H as (p & Hp & E).
    unfold falls_into_cycle in E. apply Z.eqb_eq in E.
    intros k Hk. exists p. split; [by apply list_elem_of_In|].
    replace k with ((k - 256) + 256)%nat by lia.
    rewrite (Nat.add_comm p), <-Nat.add_assoc, (Nat.add_comm 256 p), !(prbs_add _ (k - 256)).
    by rewrite E.
Qed.

(** ** Bytes and words *)

(** Word [q] of the byte sequence that starts at [seed]. *)
Definition prbs_word (bit : Z -> Z) (seed q : Z) : Z :=
  let b j := prbs bit (Z.to_nat (4 * q + j)) seed in
  b 0 + 256 * b 1 + 65536 * b 2 + 16777216 * b 3.

Lemma buffer_words_fun (f : nat -> Z) :
  buffer_words (f <$> seq 0 32) =
  (fun q => let b j := f (Z.to_nat (4 * q + j)) in
     b 0 + 256 * b 1 + 65536 * b 2 + 16777216 * b 3) <$> seqZ 0 8.
Proof. reflexivity. Qed.

Lemma fill_words bit curr :
  buffer_words (prbs_fill bit VCACHE_LINE_BYTES curr).1 = prbs_word bit curr <$> seqZ 0 8.
Proof. rewrite prbs_fill_spec. apply (buffer_words_fun (fun j => prbs bit j curr)). Qed.

(** Continuing the sequence. *)
Lemma prbs_word_shift bit seed q j : 0 <= q -> 0 <= j ->
  prbs_word bit (prbs bit (Z.to_nat (4 * q)) seed) j = prbs_word bit seed (q + j).
Proof.
  intros Hq Hj. unfold prbs_word. cbv zeta.
  assert (forall i, 0 <= i -> prbs bit (Z.to_nat (4 * j + i)) (prbs bit (Z.to_nat (4 * q)) seed) =
    prbs bit (Z.to_nat (4 * (q + j) + i)) seed) as H.
  { intros i Hi. rewrite <-prbs_add. f_equal. lia. }
  by rewrite !H by lia.
Qed.

Lemma prbs_word_range bit seed q : 0 <= seed < 256 -> 0 <= prbs_word bit seed q < 4294967296.
Proof.
  intros Hs. unfold prbs_word. cbv zeta.
  pose proof (prbs_range bit (Z.to_nat (4 * q + 0)) seed Hs).
  pose proof (prbs_range bit (Z.to_nat (4 * q + 1)) seed Hs).
  pose proof (prbs_range bit (Z.to_nat (4 * q + 2)) seed Hs).
  pose proof (prbs_range bit (Z.to_nat (4 * q + 3)) seed Hs). lia.
Qed.

(** The register before line [l] of a sequence, and the words of that line. *)
Definition curr_at (bit : Z -> Z) (seed : Z) (l : nat) : Z :=
  prbs bit (Z.to_nat (4 * (8 * Z.of_nat l))) seed.

Lemma line_words bit seed l :
  buffer_words (prbs_fill bit VCACHE_LINE_BYTES (curr_at bit seed l)).1 =
  (fun j => prbs_word bit seed (8 * Z.of_nat l + j)) <$> seqZ 0 8.
Proof.
  rewrite fill_words. apply list_fmap_ext. intros i j Hj. apply lookup_seqZ in Hj.
  unfold curr_at. by rewrite prbs_word_shift by lia.
Qed.

Lemma line_next bit seed l :
  (prbs_fill bit VCACHE_LINE_BYTES (curr_at bit seed l)).2 = curr_at bit seed (S l).
Proof.
  rewrite prbs_fill_spec. cbn [snd]. unfold curr_at. rewrite <-prbs_add. f_equal.
  unfold VCACHE_LINE_BYTES. lia.
Qed.

(** [uint8_t curr = (__bsg_id + 1) & 0xff;] *)
Definition prbs_seed (id : Z) : Z := Z.land (id +i 1)%c 0xff.

Lemma prbs_seed_range id : 0 <= prbs_seed id < 256.
Proof.
  unfold prbs_seed. change 0xff with (Z.ones 8). rewrite Z.land_ones by lia.
  apply Z.mod_pos_bound. lia.
Qed.

(** ** [hb_mc_07_vcache_dram_prbs] *)

Section hb_mc_07.
Variable c : config.

Definition hb07_N : Z := 536870912.
Definition dram_ptr : Z := 0x80000000.

Definition hb07_stop : Z := Z.quot hb07_N (bsg_tiles_Y c *i bsg_tiles_X c)%c.

(** [int* ptr = &dram_ptr[__bsg_id*stop];]. *)
Definition hb07_ptr (id : Z) : Z := u32 (dram_ptr + 4 * (id *i hb07_stop)%c).

Definition hb07_store (p : Z) (curr : Z) (k : prog) : prog :=
  fold_ (range_step 0 hb07_stop VCACHE_LINE_WORDS) (fun i curr k =>
    let '(bs, curr) := prbs_fill newbit VCACHE_LINE_BYTES curr in
    for_ (zip (line p i) (buffer_words bs)) (fun aw k => Store aw.1 (i32 aw.2) k) (k curr))
    curr (fun _ => k).

Definition hb07_load (p : Z) (curr : Z) (k : prog) : prog :=
  fold_ (range_step 0 hb07_stop VCACHE_LINE_WORDS) (fun i curr k =>
    load_list (line p i) (fun words =>
    let '(bs, curr) := prbs_fill newbit VCACHE_LINE_BYTES curr in
    assert_list (zip_with (fun w b => u32 w =? b) words (buffer_words bs)) (k curr)))
    curr (fun _ => k).

Definition hb07_main (t : Z * Z) : prog :=
  let id := tile_id c t in
  let p := hb07_ptr id in
  hb07_store p (prbs_seed id) (hb07_load p (prbs_seed id) finish).

Hypothesis wf : wf_config c.
Hypothesis stop_lines : hb07_stop mod 8 = 0 /\ 0 < hb07_stop.

Lemma hb07_bound : bsg_num_tiles c * hb07_stop <= hb07_N.
Proof using wf.
  destruct wf as (? & ? & _). unfold hb07_stop, bsg_num_tiles.
  rewrite i32_id by (unfold is_i32; nia). rewrite Z.quot_div_nonneg by (unfold hb07_N; nia).
  rewrite (Z.mul_comm (bsg_tiles_X c)). apply Z.mul_div_le. nia.
Qed.

Lemma hb07_elem t q : t ∈ group_tiles c -> 0 <= q < hb07_stop ->
  elem (hb07_ptr (tile_id c t)) q = chunk_word c dram_ptr hb07_stop t q.
Proof using wf stop_lines.
  intros Ht Hq. pose proof (tile_id_range c wf t Ht). pose proof hb07_bound.
  unfold elem, hb07_ptr, chunk_word, dram_ptr, hb07_N in *. f_equal.
  assert (0 <= tile_id c t * hb07_stop) by nia.
  assert (tile_id c t * hb07_stop + hb07_stop <= 536870912) by nia.
  unwrap. lia.
Qed.

(** What tile [t] writes to word [q] of its chunk. *)
Definition hb07_val (t : Z * Z) (q : Z) : Z := i32 (prbs_word newbit (prbs_seed (tile_id c t)) q).
#[local] Abbreviation pl := (chunk_plan c dram_ptr hb07_stop).

(** Iteration [l] of either loop is at a whole line of the chunk. *)
Lemma hb07_line done i rest :
  range_step 0 hb07_stop VCACHE_LINE_WORDS = done ++ i :: rest ->
  i = 8 * Z.of_nat (length done) /\ i + 8 <= hb07_stop.
Proof using stop_lines.
  intros E. pose proof (range_step_at _ _ _ _ _ _ E) as Hi. unfold VCACHE_LINE_WORDS in *.
  split; [lia|]. assert (i ∈ range_step 0 hb07_stop 8) as Hin
    by (rewrite E; apply elem_of_app; right; by left).
  apply elem_of_range_step in Hin as [? ?]; [|lia]. destruct stop_lines.
  Z.to_euclidean_division_equations. lia.
Qed.

Lemma hb07_store_safe t finishers m0 k o : t ∈ group_tiles c ->
  (forall m, (forall q, 0 <= q < hb07_stop -> m (chunk_word c dram_ptr hb07_stop t q) = hb07_val t q) ->
     safely (pl m0 finishers) 0 t k m o) ->
  safely (pl m0 finishers) 0 t
    (hb07_store (hb07_ptr (tile_id c t)) (prbs_seed (tile_id c t)) k) m0 o.
Proof using wf stop_lines.
  intros Ht Hk. unfold hb07_store.
  apply (safely_fold _ _ _ _ _ _ _ _ _ (fun done curr m o' => o' = o /\
    curr = curr_at newbit (prbs_seed (tile_id c t)) (length done) /\
    forall q, 0 <= q < 8 * Z.of_nat (length done) -> q < hb07_stop ->
      m (chunk_word c dram_ptr hb07_stop t q) = hb07_val t q)).
  - split; [done|]. split; [done|]. simpl. lia.
  - intros done i rest curr m o' kk E (-> & -> & Hm) Hkk.
    destruct (hb07_line _ _ _ E) as [Hi Hi8].
    pose proof (line_words newbit (prbs_seed (tile_id c t)) (length done)) as Hw.
    pose proof (line_next newbit (prbs_seed (tile_id c t)) (length done)) as Hn.
    destruct (prbs_fill newbit VCACHE_LINE_BYTES _) as [bs curr']. cbn [fst snd] in Hw, Hn.
    rewrite Hw, Hn. unfold line. rewrite (zip_with_fmap pair), for_fmap. cbn [fst snd].
    apply safely_for_store.
    + intros j Hj. apply elem_of_seqZ in Hj. rewrite hb07_elem by (done || lia).
      apply one_phase_private, chunk_owner_word; [done|lia|done|lia].
    + apply Hkk. split; [done|]. rewrite length_app, Nat.add_1_r. split; [done|].
      intros q Hq Hqs. destruct (decide (q < 8 * Z.of_nat (length done))).
      * rewrite fold_insert_other; [by apply Hm; lia|].
        intros j Hj. apply elem_of_seqZ in Hj. rewrite hb07_elem by (done || lia).
        intros Ec. apply chunk_word_inj in Ec; [lia|done|lia|done|done|lia|lia].
      * rewrite <-(hb07_elem t q) by (done || lia). replace q with (i + (q - i)) at 1 by lia.
        rewrite (fold_insert_lookup (fun j => elem (hb07_ptr (tile_id c t)) (i + j))
          (fun j => i32 (prbs_word newbit (prbs_seed (tile_id c t))
             (8 * Z.of_nat (length done) + j)))).
        -- unfold hb07_val. do 2 f_equal. lia.
        -- apply elem_of_seqZ. lia.
        -- intros j Hj Ec. apply elem_of_seqZ in Hj. rewrite !hb07_elem in Ec by (done || lia).
           apply chunk_word_inj in Ec; [|done|lia|done|done|lia|lia]. do 2 f_equal. lia.
  - intros curr m o' (-> & _ & Hm). apply Hk. intros q Hq. apply Hm; [|lia].
    pose proof (length_range_step 0 hb07_stop VCACHE_LINE_WORDS). unfold VCACHE_LINE_WORDS in *.
    destruct stop_lines. Z.to_euclidean_division_equations. lia.
Qed.

Lemma hb07_load_safe t finishers m0 m k o : t ∈ group_tiles c ->
  (forall q, 0 <= q < hb07_stop -> m (chunk_word c dram_ptr hb07_stop t q) = hb07_val t q) ->
  safely (pl m0 finishers) 0 t k m o ->
  safely (pl m0 finishers) 0 t
    (hb07_load (hb07_ptr (tile_id c t)) (prbs_seed (tile_id c t)) k) m o.
Proof using wf stop_lines.
  intros Ht Hm Hk. unfold hb07_load.
  apply (safely_fold _ _ _ _ _ _ _ _ _ (fun done curr m' o' => m' = m /\ o' = o /\
    curr = curr_at newbit (prbs_seed (tile_id c t)) (length done))).
  - done.
  - intros done i rest curr m' o' kk E (-> & -> & ->) Hkk.
    destruct (hb07_line _ _ _ E) as [Hi Hi8].
    pose proof (line_words newbit (prbs_seed (tile_id c t)) (length done)) as Hw.
    pose proof (line_next newbit (prbs_seed (tile_id c t)) (length done)) as Hn.
    destruct (prbs_fill newbit VCACHE_LINE_BYTES _) as [bs curr']. cbn [fst snd] in Hw, Hn.
    unfold line. apply safely_load_list.
    + intros a Ha. apply list_elem_of_fmap in Ha as (j & -> & Hj). apply elem_of_seqZ in Hj.
      right. rewrite hb07_elem by (done || lia). apply one_phase_private, chunk_owner_word; [done|lia|done|lia].
    + rewrite Hw, <-list_fmap_compose, zip_with_fmap. apply safely_assert_list.
      * intros b Hb. apply list_elem_of_fmap in Hb as (j & -> & Hj). apply elem_of_seqZ in Hj.
        simpl. rewrite hb07_elem, Hm by (done || lia). unfold hb07_val. rewrite u32_i32.
        apply Z.eqb_eq. rewrite u32_id; [by rewrite Hi|]. apply prbs_word_range, prbs_seed_range.
      * apply Hkk. rewrite length_app, Nat.add_1_r, Hn. done.
  - intros curr m' o' (-> & -> & _). done.
Qed.

Lemma hb07_safe t finishers m0 : t ∈ group_tiles c ->
  safely (pl m0 finishers) 0 t (hb07_main t) m0 [].
Proof using wf stop_lines.
  intros Ht. unfold hb07_main. apply hb07_store_safe; [done|]. intros m Hm.
  apply hb07_load_safe; [done|done|].
  apply safely_finish with finishers; [done|done|apply not_elem_of_nil].
Qed.
End hb_mc_07.

(** ** The link tests [hb_mc_10] to [hb_mc_13] *)

(** A tile of the machine: its pod as the CSR gives it, and its coordinates in the pod. *)
Record ptile := { pod_x : Z; pod_y : Z; p_x : Z; p_y : Z }.

#[export] Instance ptile_eq_dec : EqDecision ptile.
Proof. solve_decision. Defined.

(** [cfg_pod & 0x7] and [(cfg_pod & 0x78) >> 3]. *)
Definition cfg_pod_x (cfg : Z) : Z := Z.land cfg 0x7.
Definition cfg_pod_y (cfg : Z) : Z := Z.shiftr (Z.land cfg 0x78) 3.

Definition global_x (t : ptile) : Z := ((pod_x t <<i 4) +i p_x t)%c.
Definition global_y (t : ptile) : Z := ((pod_y t <<i 3) +i p_y t)%c.

(** [0x40000000 | (y << 23) | (x << 16) | (int) &remote_buffer]. *)
Definition link_addr (x y buf : Z) : Z :=
  u32 (0x40000000 .| (y <<i 23) .| (x <<i 16) .| i32 buf)%c.

(** Which tiles send over the link below and above, and to which row. *)
Record link_test := {
  send_down : ptile -> bool;
  send_up : ptile -> bool;
  down_row : ptile -> Z;
  up_row : ptile -> Z;
}.

Definition hb10 : link_test := {|
  send_down t := ((pod_y t =? 1) || (pod_y t =? 3) || (pod_y t =? 5)) && (p_y t =? 7);
  send_up t := ((pod_y t =? 3) || (pod_y t =? 5) || (pod_y t =? 7)) && (p_y t =? 0);
  down_row t := (global_y t +i 9)%c;
  up_row t := (global_y t -i 9)%c |}.

Definition hb11 : link_test := {|
  send_down t := (pod_y t =? 1) && (p_y t =? 7);
  send_up t := (pod_y t =? 3) && (p_y t =? 0);
  down_row _ := 24;
  up_row _ := 15 |}.

Definition hb12 : link_test := {|
  send_down t := (pod_y t =? 1) && (p_y t <=? 7);
  send_up t := (pod_y t =? 3) && (0 <=? p_y t);
  down_row t := (p_y t +i 24)%c;
  up_row t := (p_y t +i 8)%c |}.

Definition hb13 : link_test := {|
  send_down t := ((pod_y t =? 1) || (pod_y t =? 3) || (pod_y t =? 5)) && (4 <=? p_y t);
  send_up t := ((pod_y t =? 3) || (pod_y t =? 5) || (pod_y t =? 7)) && (p_y t <=? 3);
  down_row t := (global_y t +i 12)%c;
  up_row t := (global_y t -i 12)%c |}.

Definition sends (T : link_test) (t : ptile) : bool := send_up T t || send_down T t.

(** [dest_addr]; it is not set (here: 0) when the tile does not send. *)
Definition dest_addr (T : link_test) (t : ptile) (buf : Z) : Z :=
  if send_down T t then link_addr (global_x t) (down_row T t) buf
  else if send_up T t then link_addr (global_x t) (up_row T t) buf else 0.

(** A tile of a machine whose pods are 16 tiles wide and 8 high. *)
Definition on_machine (t : ptile) : Prop :=
  0 <= pod_x t < 8 /\ 0 <= pod_y t < 16 /\ 0 <= p_x t < 16 /\ 0 <= p_y t < 8.

Lemma cfg_pod_range cfg : 0 <= cfg_pod_x cfg < 8 /\ 0 <= cfg_pod_y cfg < 16.
Proof.
  unfold cfg_pod_x, cfg_pod_y. change 0x7 with (Z.ones 3).
  assert (Z.shiftr (Z.land cfg 0x78) 3 = Z.land (Z.shiftr cfg 3) (Z.ones 4)) as ->
    by (rewrite Z.shiftr_land; done).
  rewrite !Z.land_ones by lia. split; apply Z.mod_pos_bound; lia.
Qed.

(** The tile at the other end of a link. *)
Definition at_global (x y : Z) : ptile :=
  {| pod_x := x / 16; pod_y := y / 8; p_x := x mod 16; p_y := y mod 8 |}.

Definition partner (T : link_test) (t : ptile) : ptile :=
  at_global (global_x t) (if send_down T t then down_row T t else up_row T t).

Lemma global_x_sum t : on_machine t -> global_x t = 16 * pod_x t + p_x t.
Proof.
  intros (? & ? & ? & ?). unfold global_x. rewrite Z.shiftl_mul_pow2 by lia.
  change (2 ^ 4) with 16. unwrap. lia.
Qed.

Lemma global_y_sum t : on_machine t -> global_y t = 8 * pod_y t + p_y t.
Proof.
  intros (? & ? & ? & ?). unfold global_y. rewrite Z.shiftl_mul_pow2 by lia.
  change (2 ^ 3) with 8. unwrap. lia.
Qed.

(** The row a sender stores to, in the next pod row down or up. *)
Definition partner_row (T : link_test) (t : ptile) : Z :=
  if send_down T t then down_row T t else up_row T t.

Definition link_tests : list link_test := [hb10; hb11; hb12; hb13].

Lemma partner_at T t : partner T t = at_global (global_x t) (partner_row T t).
Proof. done. Qed.

(** Whether and where a tile sends depends on its pod row and its row only. *)
Definition in_column_0 (t : ptile) : ptile :=
  {| pod_x := 0; pod_y := pod_y t; p_x := 0; p_y := p_y t |}.

Lemma link_column T t : T ∈ link_tests ->
  sends T t = sends T (in_column_0 t) /\ partner_row T t = partner_row T (in_column_0 t).
Proof.
  intros HT. unfold link_tests in HT. rewrite !elem_of_cons in HT.
  destruct HT as [->|[->|[->|[->|HT%elem_of_nil]]]]; done.
Qed.

(** The pairing of rows, checked for all of them. *)
Definition row_pairs (T : link_test) (py y : Z) : bool :=
  let t := {| pod_x := 0; pod_y := py; p_x := 0; p_y := y |} in
  let r := partner_row T t in
  let t' := at_global 0 r in
  negb (sends T t) ||
  ((0 <=? r) && (r <? 128) && (Z.abs (r / 8 - py) =? 2) && sends T t' &&
   (partner_row T t' =? 8 * py + y)).

Lemma row_pairs_all T py y :
  T ∈ link_tests -> 0 <= py < 16 -> 0 <= y < 8 -> row_pairs T py y = true.
Proof.
  intros HT Hpy Hy.
  assert (forallb (fun T => forallb (fun t => row_pairs T t.1 t.2) (grid 0 16 0 8)) link_tests = true)
    as H by (vm_compute; reflexivity).
  rewrite forallb_elem in H. specialize (H T HT). rewrite forallb_elem in H.
  apply (H (py, y)). apply elem_of_grid. lia.
Qed.

(** Every sender is paired: its partner is two pod rows away, sends as well, and sends back. *)
Lemma partner_pairs T t :
  T ∈ link_tests -> on_machine t -> sends T t = true ->
  partner_row T t = 8 * pod_y (partner T t) + p_y (partner T t) /\
  global_x t = 16 * pod_x (partner T t) + p_x (partner T t) /\
  on_machine (partner T t) /\ Z.abs (pod_y (partner T t) - pod_y t) = 2 /\
  sends T (partner T t) = true /\ partner T (partner T t) = t.
Proof.
  intros HT Ht Hs. pose proof (global_x_sum t Ht) as Ex.
  destruct (link_column T t HT) as [E1 E2]. destruct Ht as (Hpx & Hpy & Hx & Hy).
  pose proof (row_pairs_all T (pod_y t) (p_y t) HT Hpy Hy) as H. unfold row_pairs in H.
  fold (in_column_0 t) in H. rewrite <-E1, Hs, <-E2 in H. simpl negb in H. rewrite orb_false_l in H.
  bprop. rewrite !partner_at. set (r := partner_row T t) in *.
  assert (on_machine (at_global (global_x t) r)) as Hm.
  { unfold on_machine. simpl. rewrite Ex. Z.to_euclidean_division_equations. lia. }
  destruct (link_column T (at_global (global_x t) r) HT) as [E3 E4].
  change (in_column_0 (at_global (global_x t) r)) with (at_global 0 r) in E3, E4.
  split; [simpl; pose proof (Z.div_mod r 8); lia|].
  split; [simpl; pose proof (Z.div_mod (global_x t) 16); lia|].
  split; [done|]. split; [done|]. split; [congruence|].
  match goal with Hb : partner_row T (at_global 0 r) = _ |- _ =>
    rewrite E4, Hb, (global_x_sum _ Hm) end.
  simpl. rewrite Ex. clear - Hpx Hpy Hx Hy. destruct t as [px py x y]. simpl in *.
  unfold at_global. f_equal; Z.to_euclidean_division_equations; lia.
Qed.

Lemma at_global_tile q : on_machine q -> at_global (global_x q) (global_y q) = q.
Proof.
  intros Hq. rewrite global_x_sum, global_y_sum by done. destruct Hq as (? & ? & ? & ?).
  destruct q as [px py x y]. simpl in *. unfold at_global.
  f_equal; Z.to_euclidean_division_equations; lia.
Qed.

Lemma link_addr_global_ptr x y buf : 0 <= buf < 2 ^ 16 -> link_addr x y buf = bsg_global_ptr x y buf.
Proof. done. Qed.

(** The word of the partner's [remote_buffer] that [dest_addr + k] names. *)
Lemma dest_decodes T t u buf k :
  T ∈ link_tests -> on_machine t -> sends T t = true ->
  0 <= k < 8 -> 0 <= buf -> buf + 32 <= 2 ^ 16 -> x_cord_width u = 7 -> y_cord_width u = 7 ->
  dest_addr T t (buf + 4 * k) = u32 (dest_addr T t buf + 4 * k) /\
  eva_to_npa u (dest_addr T t (buf + 4 * k)) =
    Some {| x_cord := global_x (partner T t); y_cord := global_y (partner T t);
            epa := (buf + 4 * k) / 4 |}.
Proof.
  intros HT Ht Hs Hk Hb Hb2 Hwx Hwy.
  destruct (partner_pairs T t HT Ht Hs) as (Er & Ex & Hm & _).
  assert (forall b, dest_addr T t b = bsg_global_ptr (global_x t) (partner_row T t) b) as Ed.
  { intros b. unfold dest_addr, partner_row, sends in *. destruct (send_down T t); [done|].
    rewrite orb_false_r in Hs. by rewrite Hs. }
  rewrite !Ed, (global_x_sum _ Hm), (global_y_sum _ Hm), <-Ex, <-Er.
  assert (0 <= global_x t < 128 /\ 0 <= partner_row T t < 128) as [Hgx Hgy]
    by (destruct Hm as (? & ? & ? & ?); lia).
  split.
  - rewrite !bsg_global_ptr_sum by lia. norm_pow2. rewrite u32_id; [lia|unfold is_u32; lia].
  - destruct (global_ptr_fields (global_x t) (partner_row T t) (buf + 4 * k))
      as (F1 & F2 & F3 & F4 & F5); [lia..|].
    unfold eva_to_npa. rewrite F1, F2, F3, F4, F5, Hwx, Hwy. simpl.
    by rewrite !trunc_small by (norm_pow2; lia).
Qed.

Section link.
Variable T : link_test.
Variable u : eva_unit.
Variable remote_buffer : Z.
Variable REPEAT : Z.
Variable ts : list ptile.       (* the tiles that run the test *)

(** [__bsg_id] in a pod of 16 by 8 tiles. *)
Definition pod_tile_id (t : ptile) : Z := p_y t * 16 + p_x t.

Definition dest (t : ptile) (k : Z) : loc := deref u (u32 (dest_addr T t remote_buffer + 4 * k)).

(** [hb_mc_12] and [hb_mc_13]. *)
Definition link_prbs_main (t : ptile) : prog :=
  if sends T t then
    fold_ (range 0 REPEAT) (fun _ curr k =>
      let '(bs, curr) := prbs_fill newbit_gt VCACHE_LINE_BYTES curr in
      for_ (zip (dest t <$> seqZ 0 8) (buffer_words bs)) (fun aw k => Store aw.1 aw.2 k)
      (load_list (dest t <$> seqZ 0 8) (fun vals =>
       assert_list (zip_with (fun v w => v =? w) vals (buffer_words bs)) (k curr))))
      (prbs_seed (pod_tile_id t)) (fun _ => finish)
  else finish.

(** [hb_mc_10] and [hb_mc_11]: after a delay loop, seven stores of 0. *)
Definition link_init_main (t : ptile) : prog :=
  let zeros k := for_ (seqZ 0 7) (fun _ k => Store (dest t 0) 0 k) k in
  let down := if send_down T t then zeros finish else finish in
  if send_up T t then zeros down else down.

Hypothesis HT : T ∈ link_tests.
Hypothesis Hw : x_cord_width u = 7 /\ y_cord_width u = 7.
Hypothesis Hbuf : 0 <= remote_buffer /\ remote_buffer + 32 <= 2 ^ 16 /\ remote_buffer mod 4 = 0.
Hypothesis Hts : forall t, t ∈ ts -> on_machine t.

Lemma dest_word t k : on_machine t -> sends T t = true -> 0 <= k < 8 ->
  dest t k = Dmem (global_x (partner T t)) (global_y (partner T t)) (remote_buffer + 4 * k).
Proof using HT Hw Hbuf.
  intros Ht Hs Hk. destruct Hw, Hbuf as (? & ? & ?).
  destruct (dest_decodes T t u remote_buffer k) as [E1 E2]; [done..|].
  unfold dest, deref. rewrite <-E1, E2. simpl. f_equal. Z.to_euclidean_division_equations. lia.
Qed.

(** Who writes to a word of the machine: the partner of the tile it belongs to. *)
Definition link_owner (a : loc) : option ptile :=
  match a with
  | Dmem x y b =>
      let q := at_global x y in
      if (remote_buffer <=? b) && (b <? remote_buffer + 32) && ((b - remote_buffer) mod 4 =? 0) &&
         bool_decide (on_machine q /\ partner T q ∈ ts) && sends T q
      then Some (partner T q) else None
  | Dram _ => None
  end.

Lemma link_owner_dest t k : t ∈ ts -> sends T t = true -> 0 <= k < 8 ->
  link_owner (dest t k) = Some t.
Proof using HT Hw Hbuf Hts.
  intros Ht Hs Hk. pose proof (Hts _ Ht) as Hm. rewrite dest_word by done.
  destruct (partner_pairs T t HT Hm Hs) as (_ & _ & Hpm & _ & Hps & Hpp).
  unfold link_owner. rewrite at_global_tile, Hps, Hpp by done.
  rewrite bool_decide_true by done.
  replace (remote_buffer + 4 * k - remote_buffer) with (k * 4) by lia. rewrite Z.mod_mul by lia.
  replace (remote_buffer <=? _) with true by (symmetry; apply Z.leb_le; lia).
  replace (_ <? _) with true by (symmetry; apply Z.ltb_lt; lia). done.
Qed.

Lemma link_owner_inv a t : link_owner a = Some t ->
  t ∈ ts /\ sends T t = true /\ exists k, 0 <= k < 8 /\ a = dest t k.
Proof using HT Hw Hbuf Hts.
  destruct a as [x y b|]; [|done]. simpl. destruct (_ && _) eqn:E; [|done]. intros [= <-].
  bprop. apply bool_decide_eq_true in H1 as [Hq Hin].
  destruct (partner_pairs T (at_global x y)) as (_ & _ & Hpm & _ & Hps & Hpp); [done..|].
  split; [done|]. split; [done|]. exists ((b - remote_buffer) / 4).
  assert (0 <= (b - remote_buffer) / 4 < 8 /\ 4 * ((b - remote_buffer) / 4) = b - remote_buffer)
    as [Hk Ek] by (Z.to_euclidean_division_equations; lia).
  split; [done|]. rewrite dest_word, Hpp, Ek, global_x_sum, global_y_sum by done. simpl.
  f_equal; [pose proof (Z.div_mod x 16); lia|pose proof (Z.div_mod y 8); lia|lia].
Qed.

Lemma dest_inj t t' k k' : t ∈ ts -> t' ∈ ts -> sends T t = true -> sends T t' = true ->
  0 <= k < 8 -> 0 <= k' < 8 -> dest t k = dest t' k' -> t = t' /\ k = k'.
Proof using HT Hw Hbuf Hts.
  intros Ht Ht' Hs Hs' Hk Hk' E.
  assert (Some t = Some t') as [= ->] by (by rewrite <-(link_owner_dest t k), E, link_owner_dest).
  split; [done|]. rewrite !dest_word in E by auto. injection E as E. lia.
Qed.

Definition link_plan (m0 : loc -> Z) : plan ptile := one_phase link_owner m0 (fun _ => True).

Lemma link_plan_ok m0 : plan_ok ts (link_plan m0).
Proof using HT Hw Hbuf Hts. apply one_phase_ok. intros a t E. by apply link_owner_inv in E as [? _]. Qed.

Lemma link_finish m0 t m o : Failed ∉ o -> safely (link_plan m0) 0 t finish m o.
Proof. intros Ho. by apply safely_finish with (fun _ => True). Qed.

Lemma link_prbs_safe t m0 : t ∈ ts ->
  safely (link_plan m0) 0 t (link_prbs_main t) m0 [].
Proof using HT Hw Hbuf Hts.
  intros Ht. unfold link_prbs_main.
  destruct (sends T t) eqn:Hs; [|apply link_finish, not_elem_of_nil].
  set (seed := prbs_seed (pod_tile_id t)).
  apply (safely_fold _ _ _ _ _ _ _ _ _ (fun done curr m o => o = [] /\
    curr = curr_at newbit_gt seed (length done))).
  - done.
  - intros done i rest curr m o kk E (-> & ->) Hkk.
    pose proof (line_words newbit_gt seed (length done)) as Hwd.
    pose proof (line_next newbit_gt seed (length done)) as Hn.
    destruct (prbs_fill newbit_gt VCACHE_LINE_BYTES _) as [bs curr']. cbn [fst snd] in Hwd, Hn.
    rewrite Hwd, Hn, (zip_with_fmap pair), for_fmap. cbn [fst snd].
    set (w := prbs_word newbit_gt seed).
    apply safely_for_store; [intros k Hk; apply elem_of_seqZ in Hk; apply one_phase_private, link_owner_dest; auto; lia|].
    set (m1 := fold_left _ _ m).
    assert (forall k, 0 <= k < 8 -> m1 (dest t k) = w (8 * Z.of_nat (length done) + k)) as Hm1.
    { intros k Hk. subst m1. apply (fold_insert_lookup (dest t)
        (fun k => w (8 * Z.of_nat (length done) + k))); [apply elem_of_seqZ; lia|].
      intros k' Hk' Ek. apply elem_of_seqZ in Hk'. apply dest_inj in Ek as [_ ->]; auto; lia. }
    apply safely_load_list.
    { intros a Ha. apply list_elem_of_fmap in Ha as (k & -> & Hk). apply elem_of_seqZ in Hk.
      right. apply one_phase_private, link_owner_dest; auto; lia. }
    rewrite <-list_fmap_compose, zip_with_fmap. apply safely_assert_list.
    { intros b Hb. apply list_elem_of_fmap in Hb as (k & -> & Hk). apply elem_of_seqZ in Hk.
      unfold compose. rewrite Hm1 by lia. apply Z.eqb_refl. }
    apply Hkk. by rewrite length_app, Nat.add_1_r.
  - intros curr m o (-> & _). apply link_finish, not_elem_of_nil.
Qed.

Lemma link_init_safe t m0 : t ∈ ts -> safely (link_plan m0) 0 t (link_init_main t) m0 [].
Proof using HT Hw Hbuf Hts.
  intros Ht.
  assert (forall m k, sends T t = true -> (forall m', safely (link_plan m0) 0 t k m' []) ->
    safely (link_plan m0) 0 t (for_ (seqZ 0 7) (fun _ k => Store (dest t 0) 0 k) k) m []) as Hz.
  { intros m k Hs Hk. apply safely_for_store; [|done]. intros. apply one_phase_private, link_owner_dest; auto; lia. }
  assert (forall m, safely (link_plan m0) 0 t finish m []) as Hend
    by (intros; apply link_finish, not_elem_of_nil).
  unfold link_init_main. destruct (send_down T t) eqn:Hd, (send_up T t) eqn:Hu; [| | |done];
    (assert (sends T t = true) as Hs by (unfold sends; by rewrite Hd, Hu)); auto.
Qed.
End link.

(** ** Theorems *)

(** [hb_mc_07]: every tile writes its pseudo-random sequence to its own part of
    DRAM and reads it back.  If the number of words per tile is a multiple of the line, no tile
    ever sees a wrong word, whatever the interleaving and whatever DRAM held before; every tile
    reports success, and all can always come to the end. *)
Lemma vcache_dram_prbs_passes c m0 :
  wf_config c -> hb07_stop c mod 8 = 0 -> 0 < hb07_stop c ->
  test_passes (group_tiles c) (hb07_main c) m0 (fun _ => True).
Proof.
  intros wf Hs8 Hs0.
  apply (safe_test_passes _ _ (chunk_plan c dram_ptr (hb07_stop c) m0 (fun _ => True)));
    [by apply chunk_plan_ok|done|].
  intros t Ht. by apply hb07_safe.
Qed.

(** The links that [hb_mc_10] to [hb_mc_13] drive: the pointer a sending tile
    computes from its CSR and coordinates is decoded by the network to the buffer of a tile two
    pod rows away in its own column; that tile sends too, and sends back to it; so no two tiles
    store to the same buffer. *)
Theorem link_tests_pair T u t buf k :
  T ∈ link_tests -> on_machine t -> sends T t = true ->
  x_cord_width u = 7 -> y_cord_width u = 7 -> 0 <= k < 8 -> 0 <= buf -> buf + 32 <= 2 ^ 16 ->
  exists t', on_machine t' /\ sends T t' = true /\ pod_x t' = pod_x t /\ p_x t' = p_x t /\
    Z.abs (pod_y t' - pod_y t) = 2 /\
    eva_to_npa u (u32 (dest_addr T t buf + 4 * k)) =
      Some {| x_cord := global_x t'; y_cord := global_y t'; epa := (buf + 4 * k) / 4 |} /\
    eva_to_npa u (u32 (dest_addr T t' buf + 4 * k)) =
      Some {| x_cord := global_x t; y_cord := global_y t; epa := (buf + 4 * k) / 4 |} /\
    (forall t2, on_machine t2 -> sends T t2 = true ->
       eva_to_npa u (u32 (dest_addr T t2 buf + 4 * k)) =
       eva_to_npa u (u32 (dest_addr T t buf + 4 * k)) -> t2 = t).
Proof.
  intros HT Ht Hs Hwx Hwy Hk Hb Hb2.
  destruct (partner_pairs T t HT Ht Hs) as (_ & Ex & Hm & Hd & Hps & Hpp).
  destruct (dest_decodes T t u buf k) as [E1 E2]; [done..|].
  destruct (dest_decodes T (partner T t) u buf k) as [E3 E4]; [done..|].
  rewrite Hpp in E4. exists (partner T t).
  rewrite (global_x_sum _ Ht) in Ex. pose proof Hm as (Hm1 & Hm2 & Hm3 & Hm4).
  pose proof Ht as (Ht1 & Ht2 & Ht3 & Ht4).
  split; [done|]. split; [done|]. split; [lia|]. split; [lia|]. split; [done|].
  rewrite <-E1, <-E3. split; [done|]. split; [done|].
  intros t2 Ht2' Hs2 E. destruct (partner_pairs T t2 HT Ht2' Hs2) as (_ & _ & Hpm2 & _ & _ & Hpp2).
  destruct (dest_decodes T t2 u buf k) as [E5 E6]; [done..|].
  rewrite <-E5, E6, E2 in E. apply (inj Some) in E.
  pose proof (f_equal x_cord E) as Egx. pose proof (f_equal y_cord E) as Egy.
  cbn [x_cord y_cord] in Egx, Egy. rewrite <-Hpp, <-Hpp2. f_equal.
  by rewrite <-(at_global_tile _ Hpm2), <-(at_global_tile _ Hm), Egx, Egy.
Qed.

Lemma link_tests_pair_witness :
  exists t', on_machine t' /\ sends hb13 t' = true /\ pod_x t' = 1 /\ p_x t' = 5 /\
    Z.abs (pod_y t' - 1) = 2 /\
    eva_to_npa unit_16x8 (u32 (dest_addr hb13 {| pod_x := 1; pod_y := 1; p_x := 5; p_y := 6 |} 0x100 + 4 * 3)) =
      Some {| x_cord := global_x t'; y_cord := global_y t'; epa := (0x100 + 4 * 3) / 4 |}.
Proof.
  destruct (link_tests_pair hb13 unit_16x8 {| pod_x := 1; pod_y := 1; p_x := 5; p_y := 6 |} 0x100 3)
    as (t' & H1 & H2 & H3 & H4 & H5 & H6 & _);
    [unfold link_tests; rewrite !elem_of_cons; auto|unfold on_machine; simpl; lia
    |reflexivity|reflexivity|reflexivity|lia|lia|lia|].
  exists t'. do 5 (split; [assumption|]). assumption.
Defined.

(** The four programs. *)
Definition hb10_main (u : eva_unit) (remote_buffer : Z) : ptile -> prog :=
  link_init_main hb10 u remote_buffer.
Definition hb11_main (u : eva_unit) (remote_buffer : Z) : ptile -> prog :=
  link_init_main hb11 u remote_buffer.
Definition hb12_main (u : eva_unit) (remote_buffer : Z) : ptile -> prog :=
  link_prbs_main hb12 u remote_buffer 1000000.
Definition hb13_main (u : eva_unit) (remote_buffer : Z) : ptile -> prog :=
  link_prbs_main hb13 u remote_buffer 1000000.

Lemma elem_of_link_tests T :
  T ∈ link_tests <-> T = hb10 \/ T = hb11 \/ T = hb12 \/ T = hb13.
Proof. unfold link_tests. rewrite !elem_of_cons, elem_of_nil. tauto. Qed.

Lemma link_tests_pass u buf ts c m0 :
  x_cord_width u = 7 -> y_cord_width u = 7 ->
  0 <= buf -> buf + 32 <= 2 ^ 16 -> buf mod 4 = 0 -> (forall t, t ∈ ts -> on_machine t) ->
  wf_config c -> hb07_stop c mod 8 = 0 -> 0 < hb07_stop c ->
  test_passes ts (hb10_main u buf) m0 (fun _ => True) /\
  test_passes ts (hb11_main u buf) m0 (fun _ => True) /\
  test_passes ts (hb12_main u buf) m0 (fun _ => True) /\
  test_passes ts (hb13_main u buf) m0 (fun _ => True) /\
  test_passes (group_tiles c) (hb07_main c) m0 (fun _ => True).
Proof.
  intros Hwx Hwy Hb Hb2 Hb4 Hts wf Hs8 Hs0.
  assert (forall T, T ∈ link_tests ->
    test_passes ts (link_init_main T u buf) m0 (fun _ => True) /\
    test_passes ts (link_prbs_main T u buf 1000000) m0 (fun _ => True)) as H.
  { intros T HT. split.
    - eapply (safe_test_passes _ _ (link_plan T buf ts m0)); [by eapply link_plan_ok|done|].
      intros t Ht. by apply link_init_safe.
    - eapply (safe_test_passes _ _ (link_plan T buf ts m0));
        [by eapply link_plan_ok|done|].
      intros t Ht. by apply link_prbs_safe. }
  split_and!; try (apply H, elem_of_link_tests; by auto). by apply vcache_dram_prbs_passes.
Qed.

(** C34 (functional).  The registers of the pseudo-random tests.  That of [hb_mc_07] is a
    maximal-length one: from any non-zero seed the 255 bytes before it comes back to the seed are
    the 255 non-zero bytes, each once (and the seed 0 stays 0).  That of [hb_mc_12] and
    [hb_mc_13], which compares [curr > 5] where it should shift [curr >> 5], is not: whatever the
    seed, after 256 bytes at the latest it runs in a cycle of 1, 2 or 21 bytes.

    The tests nevertheless report success in every interleaving.  [hb_mc_10] to [hb_mc_13], on any
    set of tiles of the machine: the senders never disturb each other, so each reads back the
    bytes it sent.  [hb_mc_07], on any group whose number of words per tile is a multiple of the
    line: no tile ever reads a wrong word of DRAM, whatever DRAM held before.  No tile reports a
    failure, every tile reports success, and all can always come to the end. *)
Theorem prbs_tests_pass :
  (forall s, 0 <= s < 256 ->
     (s <> 0 -> prbs newbit 255 s = s /\
       ((fun j => prbs newbit j s) <$> seq 0 255) ≡ₚ seqZ 1 255) /\
     prbs newbit 1 0 = 0 /\
     (forall k, (256 <= k)%nat -> exists p, p ∈ [1; 2; 21]%nat /\
       prbs newbit_gt (p + k) s = prbs newbit_gt k s)) /\
  (forall u buf ts c m0,
     x_cord_width u = 7 -> y_cord_width u = 7 ->
     0 <= buf -> buf + 32 <= 2 ^ 16 -> buf mod 4 = 0 -> (forall t, t ∈ ts -> on_machine t) ->
     wf_config c -> hb07_stop c mod 8 = 0 -> 0 < hb07_stop c ->
     test_passes ts (hb10_main u buf) m0 (fun _ => True) /\
     test_passes ts (hb11_main u buf) m0 (fun _ => True) /\
     test_passes ts (hb12_main u buf) m0 (fun _ => True) /\
     test_passes ts (hb13_main u buf) m0 (fun _ => True) /\
     test_passes (group_tiles c) (hb07_main c) m0 (fun _ => True)).
Proof. split; [exact prbs_cycles|exact link_tests_pass]. Qed.

(** Two tiles of each of the pods (1,1) and (1,3). *)
Definition link_example : list ptile :=
  [{| pod_x := 1; pod_y := 1; p_x := 0; p_y := 7 |}; {| pod_x := 1; pod_y := 1; p_x := 9; p_y := 0 |};
   {| pod_x := 1; pod_y := 3; p_x := 0; p_y := 3 |}; {| pod_x := 1; pod_y := 3; p_x := 9; p_y := 4 |}].

Lemma prbs_tests_pass_witness :
  test_passes link_example (hb10_main unit_16x8 0x100) (fun _ => 0) (fun _ => True) /\
  test_passes link_example (hb11_main unit_16x8 0x100) (fun _ => 0) (fun _ => True) /\
  test_passes link_example (hb12_main unit_16x8 0x100) (fun _ => 0) (fun _ => True) /\
  test_passes link_example (hb13_main unit_16x8 0x100) (fun _ => 0) (fun _ => True) /\
  test_passes (group_tiles config_4x4) (hb07_main config_4x4) (fun _ => 0) (fun _ => True).
Proof.
  apply (proj2 prbs_tests_pass);
    [reflexivity|reflexivity|lia|lia|reflexivity| |unfold wf_config; simpl; lia|reflexivity|reflexivity].
  intros t Ht. unfold link_example in Ht. rewrite !elem_of_cons in Ht. unfold on_machine.
  destruct Ht as [->|[->|[->|[->|Ht]]]]; simpl; [lia..|]. by apply not_elem_of_nil in Ht.
Defined.
