(* ===== verification/MemTests.v ===== *)
(** * The memory tests

    Programs that write to DRAM or to data memories and read back: [hb_mc_01_vcache_dram] and
    [memtest2022], in which each tile has a chunk of an array; [hb_mc_02_noc_intrapod] and
    [hb_mc_04_noc_interpod], in which each tile has one word of every tile, the latter also as its
    Makefile launches it, on several pods at once; and [memtest_fast],
    [memtest9], [memtest2020], [simple_memory_test] and [quicktouch], which one tile runs. *)

From S2P Require Import Prelude Lts Arch Eva Console Spmd SpmdLogic.
Local Open Scope Z_scope.

(** ** Chunks: [hb_mc_01_vcache_dram] and [memtest2022] *)

Section chunks.
Variable c : config.

Definition hb01_N : Z := 536870912.
Definition dram_ptr : Z := 0x80000000.

Definition hb01_stop : Z := Z.quot hb01_N (bsg_tiles_Y c *i bsg_tiles_X c)%c.

Definition hb01_main (t : Z * Z) : prog :=
  let ptr := u32 (dram_ptr + 4 * (tile_id c t *i hb01_stop)%c) in
  for_ (range_step 0 hb01_stop 8) (fun i k =>
    for_ (seqZ 0 8) (fun j k => Store (elem ptr (i + j)) (i +i j)%c k) k)
  (for_ (range_step 0 hb01_stop 8) (fun i k =>
    load_list (line ptr i) (fun words =>
    assert_list (zip_with Z.eqb words ((fun j => (i +i j)%c) <$> seqZ 0 8)) k))
  finish).

Definition memtest2022_N : Z := 3500.

(** [((j % 7) == 0) || ((j % 13) == 0)]. *)
Definition written (j : Z) : bool := (Z.rem j 7 =? 0) || (Z.rem j 13 =? 0).

Definition valid_val (id j : Z) : Z := if written j then (id +i j)%c else 0.

Definition memtest2022_main (data : Z) (t : Z * Z) : prog :=
  let id := tile_id c t in
  let myarray := u32 (data + 4 * (id *i memtest2022_N)%c) in
  for_ (range_step 0 memtest2022_N 8) (fun j k => Load (elem myarray j) (fun _ => k))
  (for_ (range 0 memtest2022_N) (fun j k =>
    if written j then Store (elem myarray j) (id +i j)%c k else k)
  (for_ (range_step 0 memtest2022_N 2) (fun j k => check (elem myarray j) (valid_val id j) k)
  finish)).

Hypothesis wf : wf_config c.

Lemma hb01_bound : bsg_num_tiles c * hb01_stop <= hb01_N.
Proof using wf.
  destruct wf as (? & ? & _). unfold hb01_stop, bsg_num_tiles.
  rewrite i32_id by (unfold is_i32; nia). rewrite Z.quot_div_nonneg by (unfold hb01_N; nia).
  rewrite (Z.mul_comm (bsg_tiles_X c)). apply Z.mul_div_le. nia.
Qed.

Lemma hb01_safe t finishers m0 : hb01_stop mod 8 = 0 -> 0 < hb01_stop -> t ∈ group_tiles c ->
  safely (chunk_plan c dram_ptr hb01_stop m0 finishers) 0 t (hb01_main t) m0 [].
Proof using wf.
  intros H8 Hpos Ht. pose proof hb01_bound. unfold hb01_N in *. unfold hb01_main.
  set (ptr := u32 _).
  assert (1 <= bsg_num_tiles c) by (destruct wf as (? & ? & _); unfold bsg_num_tiles; nia).
  assert (hb01_stop <= 536870912) by nia.
  assert (forall q, 0 <= q < hb01_stop -> elem ptr q = chunk_word c dram_ptr hb01_stop t q) as He.
  { intros q Hq. subst ptr. apply chunk_elem; unfold dram_ptr; done || lia. }
  assert (forall q, 0 <= q < hb01_stop ->
    roles (chunk_plan c dram_ptr hb01_stop m0 finishers) 0 (elem ptr q) = Private t) as Ho.
  { intros q Hq. apply one_phase_private. rewrite He by done. by apply chunk_owner_word. }
  assert (forall i j, (i, j) ∈ pairs (range_step 0 hb01_stop 8) (seqZ 0 8) ->
    0 <= i + j < hb01_stop) as Hij.
  { intros i j Hin. apply elem_of_pairs in Hin as [Hi Hj]. apply elem_of_range_step in Hi; [|lia].
    apply elem_of_seqZ in Hj. Z.to_euclidean_division_equations. lia. }
  rewrite <-(for_pairs _ _ (fun ij k => Store (elem ptr (ij.1 + ij.2)) (i32 (ij.1 + ij.2)) k)).
  apply (safely_fill _ _ _ _ (fun ij => elem ptr (ij.1 + ij.2)) (fun ij => i32 (ij.1 + ij.2))).
  - intros [i j] Hin%Hij. by apply Ho.
  - intros [i j] [i' j'] Hin%Hij Hin'%Hij E. cbn [fst snd] in *. f_equal.
    apply (elem_inj ptr); [norm_pow2; lia|done].
  - intros m Hm _. apply (safely_for _ _ _ _ _ _ _ _ (fun _ m' o => m' = m /\ o = [])).
    + done.
    + intros done i rest m' o kk E (-> & ->) Hkk. unfold line.
      apply (safely_load_checks _ _ _ _ (fun j => elem ptr (i + j)) (fun j => i32 (i + j)));
        [|by apply Hkk].
      intros j Hj. assert ((i, j) ∈ pairs (range_step 0 hb01_stop 8) (seqZ 0 8)) as Hin.
      { apply elem_of_pairs. split; [|done]. rewrite E. apply elem_of_app. right. by left. }
      pose proof (Hij _ _ Hin). rewrite (Hm (i, j) Hin : m (elem ptr (i + j)) = _), Z.eqb_refl.
      split; [|done]. right. by apply Ho.
    + intros m' o (-> & ->). apply safely_finish with finishers; [done|done|apply not_elem_of_nil].
Qed.

Lemma memtest2022_safe data t finishers m0 :
  0 <= data -> data + 4 * (bsg_num_tiles c * memtest2022_N) <= 2 ^ 32 ->
  (forall t j, t ∈ group_tiles c -> 0 <= j < memtest2022_N ->
     m0 (chunk_word c data memtest2022_N t j) = 0) ->
  t ∈ group_tiles c ->
  safely (chunk_plan c data memtest2022_N m0 finishers) 0 t (memtest2022_main data t) m0 [].
Proof using wf.
  intros Hd Hd2 Hz Ht. unfold memtest2022_main. set (p := u32 _).
  assert (bsg_num_tiles c <= 2048) by (destruct wf as (? & ? & _); unfold bsg_num_tiles; nia).
  assert (0 < memtest2022_N) by (unfold memtest2022_N; lia).
  assert (forall q, 0 <= q < memtest2022_N -> elem p q = chunk_word c data memtest2022_N t q) as He.
  { intros q Hq. subst p. apply chunk_elem; unfold memtest2022_N in *; norm_pow2; done || lia. }
  assert (forall q, 0 <= q < memtest2022_N ->
    roles (chunk_plan c data memtest2022_N m0 finishers) 0 (elem p q) = Private t) as Ho.
  { intros q Hq. apply one_phase_private. rewrite He by done. by apply chunk_owner_word. }
  apply safely_for_load.
  { intros j Hj. apply elem_of_range_step in Hj as [Hj _]; [|lia]. right. by apply Ho. }
  rewrite for_filter.
  apply (safely_fill _ _ _ _ (fun j => elem p j) (fun j => i32 (tile_id c t + j))).
  - intros j Hj. apply list_elem_of_filter in Hj as [_ Hj%elem_of_range]. by apply Ho.
  - intros j j' Hj Hj' E. apply list_elem_of_filter in Hj as [_ Hj%elem_of_range], Hj' as [_ Hj'%elem_of_range].
    unfold memtest2022_N in *. do 2 f_equal. apply (elem_inj p); [norm_pow2; lia|done].
  - intros m Hm Hother. apply safely_for_check;
      [|apply safely_finish with finishers; [done|done|apply not_elem_of_nil]].
    intros j Hj. apply elem_of_range_step in Hj as [Hj _]; [|lia]. split; [right; by apply Ho|].
    unfold valid_val. destruct (written j) eqn:Hw.
    + apply Hm. apply list_elem_of_filter. split; [by rewrite Hw|by apply elem_of_range].
    + rewrite Hother; [rewrite He by done; by apply Hz|].
      intros j' Hj'. apply list_elem_of_filter in Hj' as [Hw' Hj'%elem_of_range].
      intros E. unfold memtest2022_N in *. apply (elem_inj p) in E; [|norm_pow2; lia]. subst.
      by rewrite Hw in Hw'.
Qed.
End chunks.

(** ** A word of every tile: [hb_mc_02_noc_intrapod] and [hb_mc_04_noc_interpod] *)

(** A test in which tile [t] stores [val i] to [cell t i] and reads it back, for the [i] of [l];
    what is common to the two programs. *)
Section own_words.
Context {Tid I : Type} `{EqDecision Tid}.
Variables (tiles : list Tid) (l : list I) (cell : Tid -> I -> loc) (finishers : Tid -> Prop).
Hypothesis cell_inj : forall t t' i i', t ∈ tiles -> t' ∈ tiles -> i ∈ l -> i' ∈ l ->
  cell t i = cell t' i' -> t = t' /\ i = i'.

Definition words (t : Tid) : list loc := cell t <$> l.

Lemma words_owner m0 t i : t ∈ tiles -> i ∈ l ->
  roles (footprint_plan tiles words m0 finishers) 0 (cell t i) = Private t.
Proof using cell_inj.
  intros Ht Hi. apply one_phase_private, footprint_owner_cell; [|done|by apply list_elem_of_fmap_2].
  intros t1 t2 Ht1 Ht2 H1 H2. apply list_elem_of_fmap in H1 as (i1 & E1 & Hi1), H2 as (i2 & E2 & Hi2).
  apply (cell_inj t1 t2 i1 i2); [done..|congruence].
Qed.

Lemma safely_store_words m0 t (val : I -> Z) k m o : t ∈ tiles ->
  (forall m', (forall i, i ∈ l -> m' (cell t i) = val i) ->
     safely (footprint_plan tiles words m0 finishers) 0 t k m' o) ->
  safely (footprint_plan tiles words m0 finishers) 0 t
    (for_ l (fun i k => Store (cell t i) (val i) k) k) m o.
Proof using cell_inj.
  intros Ht Hk. apply safely_fill.
  - intros i Hi. by apply words_owner.
  - intros i i' Hi Hi' E. by apply cell_inj in E as [_ ->].
  - intros m' Hm _. by apply Hk.
Qed.

Lemma safely_check_words m0 t (val : I -> Z) k m o : t ∈ tiles ->
  (forall i, i ∈ l -> m (cell t i) = val i) ->
  safely (footprint_plan tiles words m0 finishers) 0 t k m o ->
  safely (footprint_plan tiles words m0 finishers) 0 t
    (for_ l (fun i k => check (cell t i) (val i) k) k) m o.
Proof using cell_inj.
  intros Ht Hm Hk. apply safely_for_check; [|done]. intros i Hi. split; [|by apply Hm].
  right. by apply words_owner.
Qed.
End own_words.

Section noc.
Variable c : config.
Variable u : eva_unit.
Variables bsg_pods_X bsg_pods_Y : Z.
Variable data : Z.      (* &data[0] *)

Definition hb02_word (x y id : Z) : loc := deref u (bsg_remote_ptr x y (u32 (data + 4 * id))).

Definition hb02_main (t : Z * Z) : prog :=
  let id := tile_id c t in
  for_ (range 0 (bsg_tiles_Y c)) (fun y k => for_ (range 0 (bsg_tiles_X c)) (fun x k =>
    Store (hb02_word x y id) ((x +i 1) *i (y +i 1))%c k) k)
  (for_ (range 0 (bsg_tiles_Y c)) (fun y k => for_ (range 0 (bsg_tiles_X c)) (fun x k =>
    check (hb02_word x y id) ((x +i 1) *i (y +i 1))%c k) k)
  finish).

(** The loops over [py], [px], [y] and [x]. *)
Definition for_pods (body : Z -> Z -> Z -> Z -> prog -> prog) (k : prog) : prog :=
  for_ (range 0 bsg_pods_Y) (fun py k => for_ (range 0 bsg_pods_X) (fun px k =>
  for_ (range 0 (bsg_global_Y c)) (fun y k => for_ (range 0 (bsg_global_X c)) (fun x k =>
    body py px y x k) k) k) k) k.

Definition hb04_word (px py x y id : Z) : loc :=
  deref u (bsg_global_pod_ptr c px py x y (u32 (data + 4 * id))).

Definition hb04_val (py px y x id : Z) : Z :=
  ((py +i 1) *i (px +i 1) *i (y +i 1) *i (x +i 1) *i (id +i 1))%c.

Definition hb04_main (t : Z * Z) : prog :=
  let id := tile_id c t in
  for_pods (fun py px y x k => Store (hb04_word px py x y id) 0 k)
  (for_pods (fun py px y x k => check (hb04_word px py x y id) 0 k)
  (for_pods (fun py px y x k => Store (hb04_word px py x y id) (hb04_val py px y x id) k)
  (for_pods (fun py px y x k => check (hb04_word px py x y id) (hb04_val py px y x id) k)
  finish))).

Definition pod_cells : list ((Z * Z) * (Z * Z)) :=
  pairs (pairs (range 0 bsg_pods_Y) (range 0 bsg_pods_X))
        (pairs (range 0 (bsg_global_Y c)) (range 0 (bsg_global_X c))).

Lemma for_pods_flat body k :
  for_pods body k = for_ pod_cells (fun i => body i.1.1 i.1.2 i.2.1 i.2.2) k.
Proof.
  unfold pod_cells. rewrite !for_pairs. apply for_ext. intros py kk. apply for_ext. intros px kk'.
  by rewrite for_pairs.
Qed.

Hypothesis wf : wf_config c.
Hypothesis data_word : 0 <= data /\ data mod 4 = 0.

Lemma hb02_word_eq x y id : 0 <= x < bsg_tiles_X c -> 0 <= y < bsg_tiles_Y c -> 0 <= id ->
  0 <= tgo_x u -> bsg_tiles_X c + tgo_x u <= 2 ^ x_subcord_width u ->
  0 <= tgo_y u -> bsg_tiles_Y c + tgo_y u <= 2 ^ y_subcord_width u ->
  data + 4 * id < 2 ^ 18 ->
  hb02_word x y id = Dmem (pod_x u * 2 ^ x_subcord_width u + (tgo_x u + x))
                       (pod_y u * 2 ^ y_subcord_width u + (tgo_y u + y)) (data + 4 * id).
Proof using wf data_word.
  intros Hx Hy Hid Hox Hx2 Hoy Hy2 Hd. destruct wf as (? & ? & _), data_word as [? Hm].
  unfold hb02_word, deref. norm_pow2. rewrite u32_id by (unfold is_u32; lia).
  rewrite eva_to_npa_remote_ptr by lia. cbn [x_cord y_cord epa]. f_equal.
  Z.to_euclidean_division_equations. lia.
Qed.

Lemma hb04_word_eq px py x y id :
  0 <= px < bsg_pods_X -> 0 <= py < bsg_pods_Y ->
  0 <= x < bsg_global_X c -> 0 <= y < bsg_global_Y c -> 0 <= id ->
  x_cord_width u = 7 -> y_cord_width u = 7 ->
  (bsg_pods_X + 1) * bsg_global_X c <= 128 -> 2 * bsg_pods_Y * bsg_global_Y c <= 128 ->
  data + 4 * id < 2 ^ 16 ->
  hb04_word px py x y id = Dmem ((px + 1) * bsg_global_X c + x) ((1 + py * 2) * bsg_global_Y c + y)
                             (data + 4 * id).
Proof using data_word.
  intros Hpx Hpy Hx Hy Hid Ewx Ewy HX HY Hd. destruct data_word as [? Hm].
  unfold hb04_word, deref. norm_pow2. rewrite u32_id by (unfold is_u32; lia).
  assert ((px + 1) * bsg_global_X c + x < 128) by nia.
  assert ((1 + py * 2) * bsg_global_Y c + y < 128) by nia.
  rewrite bsg_global_pod_ptr_eq by lia.
  rewrite eva_to_npa_global_ptr by (rewrite ?Ewx, ?Ewy; norm_pow2; nia). cbn [x_cord y_cord epa].
  f_equal. Z.to_euclidean_division_equations. lia.
Qed.

Definition hb02_cells : list (Z * Z) := pairs (range 0 (bsg_tiles_Y c)) (range 0 (bsg_tiles_X c)).

Definition hb02_plan (m0 : loc -> Z) (finishers : Z * Z -> Prop) : plan (Z * Z) :=
  footprint_plan (group_tiles c)
    (words hb02_cells (fun t yx => hb02_word yx.2 yx.1 (tile_id c t))) m0 finishers.

Lemma hb02_safe t finishers m0 : t ∈ group_tiles c ->
  0 <= tgo_x u -> bsg_tiles_X c + tgo_x u <= 2 ^ x_subcord_width u ->
  0 <= tgo_y u -> bsg_tiles_Y c + tgo_y u <= 2 ^ y_subcord_width u ->
  data + 4 * bsg_num_tiles c <= 2 ^ 18 ->
  safely (hb02_plan m0 finishers) 0 t (hb02_main t) m0 [].
Proof using wf data_word.
  intros Ht Hox Hx Hoy Hy Hd. unfold hb02_main.
  assert (forall t t' i i', t ∈ group_tiles c -> t' ∈ group_tiles c -> i ∈ hb02_cells ->
    i' ∈ hb02_cells -> hb02_word i.2 i.1 (tile_id c t) = hb02_word i'.2 i'.1 (tile_id c t') ->
    t = t' /\ i = i') as Hinj.
  { intros t1 t2 [y1 x1] [y2 x2] Ht1 Ht2 H1 H2.
    apply elem_of_pairs in H1 as [Hy1%elem_of_range Hx1%elem_of_range],
      H2 as [Hy2%elem_of_range Hx2%elem_of_range].
    pose proof (tile_id_range c wf t1 Ht1). pose proof (tile_id_range c wf t2 Ht2).
    cbn [fst snd]. rewrite !hb02_word_eq by lia. intros [= E1 E2 E3].
    split; [apply (tile_id_inj c wf); [done|done|lia]|f_equal; lia]. }
  rewrite <-(for_pairs _ _ (fun yx k => Store (hb02_word yx.2 yx.1 (tile_id c t))
    (i32 (i32 (yx.2 + 1) * i32 (yx.1 + 1))) k)).
  apply (safely_store_words _ _ (fun t yx => hb02_word yx.2 yx.1 (tile_id c t))); [done|done|].
  intros m Hm.
  rewrite <-(for_pairs _ _ (fun yx k => check (hb02_word yx.2 yx.1 (tile_id c t))
    (i32 (i32 (yx.2 + 1) * i32 (yx.1 + 1))) k)).
  apply (safely_check_words _ _ (fun t yx => hb02_word yx.2 yx.1 (tile_id c t))); [done..|].
  apply safely_finish with finishers; [done|done|apply not_elem_of_nil].
Qed.

(** The plan when the tiles of one pod, [pod], run the program. *)
Definition hb04_plan (pod : Z * Z) (m0 : loc -> Z) (finishers : (Z * Z) * (Z * Z) -> Prop) :
    plan ((Z * Z) * (Z * Z)) :=
  footprint_plan (pairs [pod] (group_tiles c))
    (words pod_cells (fun pt i => hb04_word i.1.2 i.1.1 i.2.2 i.2.1 (tile_id c pt.2))) m0 finishers.

Lemma hb04_safe pod t finishers m0 : t ∈ group_tiles c ->
  x_cord_width u = 7 -> y_cord_width u = 7 ->
  (bsg_pods_X + 1) * bsg_global_X c <= 128 -> 2 * bsg_pods_Y * bsg_global_Y c <= 128 ->
  data + 4 * bsg_num_tiles c <= 2 ^ 16 ->
  safely (hb04_plan pod m0 finishers) 0 (pod, t) (hb04_main t) m0 [].
Proof using wf data_word.
  intros Ht Ewx Ewy HX HY Hd. unfold hb04_main.
  assert (forall pt pt' i i', pt ∈ pairs [pod] (group_tiles c) -> pt' ∈ pairs [pod] (group_tiles c) ->
    i ∈ pod_cells -> i' ∈ pod_cells -> hb04_word i.1.2 i.1.1 i.2.2 i.2.1 (tile_id c pt.2) =
      hb04_word i'.1.2 i'.1.1 i'.2.2 i'.2.1 (tile_id c pt'.2) -> pt = pt' /\ i = i') as Hinj.
  { intros [p1 t1] [p2 t2] [[py1 px1] [y1 x1]] [[py2 px2] [y2 x2]] Ht1 Ht2 H1 H2.
    apply elem_of_pairs in Ht1 as [->%list_elem_of_singleton Ht1], Ht2 as [->%list_elem_of_singleton Ht2].
    unfold pod_cells in H1, H2. rewrite !elem_of_pairs, !elem_of_range in H1, H2.
    pose proof (tile_id_range c wf t1 Ht1). pose proof (tile_id_range c wf t2 Ht2).
    cbn [fst snd]. rewrite !hb04_word_eq by lia. intros [= E1 E2 E3].
    assert (px1 + 1 = px2 + 1 /\ x1 = x2) as [??] by (apply (Z.div_mod_unique (bsg_global_X c)); lia).
    assert (1 + py1 * 2 = 1 + py2 * 2 /\ y1 = y2) as [??]
      by (apply (Z.div_mod_unique (bsg_global_Y c)); lia).
    split; [f_equal; apply (tile_id_inj c wf); [done|done|lia]|repeat f_equal; lia]. }
  assert ((pod, t) ∈ pairs [pod] (group_tiles c)) as Hpt.
  { apply elem_of_pairs. split; [by apply list_elem_of_singleton|done]. }
  rewrite !for_pods_flat.
  pose proof (safely_store_words (pairs [pod] (group_tiles c)) pod_cells
    (fun pt i => hb04_word i.1.2 i.1.1 i.2.2 i.2.1 (tile_id c pt.2)) finishers Hinj m0 (pod, t)) as Hst.
  pose proof (safely_check_words (pairs [pod] (group_tiles c)) pod_cells
    (fun pt i => hb04_word i.1.2 i.1.1 i.2.2 i.2.1 (tile_id c pt.2)) finishers Hinj m0 (pod, t)) as Hck.
  apply (Hst (fun _ => 0)); [done|]. intros m Hm. apply (Hck (fun _ => 0)); [done|done|].
  apply (Hst (fun i => hb04_val i.1.1 i.1.2 i.2.1 i.2.2 (tile_id c t))); [done|]. intros m' Hm'.
  apply (Hck (fun i => hb04_val i.1.1 i.1.2 i.2.1 i.2.2 (tile_id c t))); [done|done|].
  apply safely_finish with finishers; [done|done|apply not_elem_of_nil].
Qed.
End noc.

(** *** [hb_mc_04] on all pods *)

(** One tile running alone through a loop of stores, or of checks that succeed. *)
Section alone.
Context {Tid I : Type} `{EqDecision Tid}.
Variables (tiles : list Tid) (main : Tid -> prog) (m0 : loc -> Z).
#[local] Existing Instance spmd_lts.
#[local] Abbreviation reachable := (@reachable _ _ (spmd_lts tiles main m0)).
Implicit Types (s : sstate Tid) (f : I -> loc) (v : I -> Z).

(** [s'] differs from [s] in [t] alone, which has come to [k]. *)
Definition came_to (t : Tid) (k : prog) s s' : Prop :=
  sprog s' t = k /\ forall t', t' <> t -> sprog s' t' = sprog s t'.

Lemma stores_alone t f v k l s : t ∈ tiles -> reachable s ->
  sprog s t = for_ l (fun i k => Store (f i) (v i) k) k ->
  exists s', reachable s' /\ came_to t k s s' /\
    (forall a, a ∉ f <$> l -> smem s' a = smem s a) /\
    (forall z, (forall i, i ∈ l -> v i = z) -> forall i, i ∈ l -> smem s' (f i) = z).
Proof using Type.
  intros Ht. revert s. induction l as [|i l IH]; intros s Hs Hp.
  { exists s. split_and!; [done|done|done|]. intros z _ i Hi. by apply not_elem_of_nil in Hi. }
  simpl in Hp. set (k1 := for_ l _ k) in Hp.
  set (s1 := goto t k1 (Build_sstate (<[f i := v i]> (smem s)) (sprog s) (ssyncs s) (sout s))).
  destruct (IH s1) as (s' & Hs' & [Hk Ho] & Hm & Hz).
  - apply (reach_step s t s1); [done|]. simpl. unfold spmd_step. by rewrite decide_True, Hp by done.
  - simpl. by rewrite fn_lookup_insert.
  - exists s'. split_and!; [done| | |].
    + split; [done|]. intros t' Hne. rewrite Ho by done. simpl. by rewrite fn_lookup_insert_ne.
    + intros a Ha. rewrite fmap_cons, not_elem_of_cons in Ha. destruct Ha as [Ha1 Ha2].
      rewrite Hm by done. simpl. by rewrite fn_lookup_insert_ne.
    + intros z Hv j Hj. destruct (decide (f j ∈ f <$> l)) as [Hin|Hnin].
      * apply list_elem_of_fmap in Hin as (j' & -> & Hj'). apply Hz; [|done].
        intros i' Hi'. apply Hv. by right.
      * rewrite Hm by done. apply elem_of_cons in Hj as [->|Hj]; [|by destruct Hnin; apply list_elem_of_fmap_2].
        simpl. rewrite fn_lookup_insert. apply Hv. by left.
Qed.

Lemma checks_alone t f v k l s : t ∈ tiles -> reachable s ->
  sprog s t = for_ l (fun i k => check (f i) (v i) k) k ->
  (forall i, i ∈ l -> smem s (f i) = v i) ->
  exists s', reachable s' /\ came_to t k s s' /\ smem s' = smem s.
Proof using Type.
  intros Ht. revert s. induction l as [|i l IH]; intros s Hs Hp Hm; [by exists s|].
  simpl in Hp. unfold check in Hp at 1. set (k1 := for_ l _ k) in Hp. set (s1 := goto t k1 s).
  destruct (IH s1) as (s' & Hs' & [Hk Ho] & Hm').
  - apply (reach_step s t s1); [done|]. simpl. unfold spmd_step. rewrite decide_True, Hp by done.
    by rewrite Hm, Z.eqb_refl by by left.
  - simpl. by rewrite fn_lookup_insert.
  - intros j Hj. apply Hm. by right.
  - exists s'. split_and!; [done| |by rewrite Hm']. split; [done|].
    intros t' Hne. rewrite Ho by done. simpl. by rewrite fn_lookup_insert_ne.
Qed.

(** Another tile's store comes between a store and the check of it. *)
Lemma late_store_fails A B a (z z' : Z) k kB s : A ∈ tiles -> B ∈ tiles -> B <> A -> z <> z' -> reachable s ->
  sprog s A = check a z' k -> sprog s B = Store a z kB ->
  exists s', reachable s' /\ Failed ∈ sout s' A.
Proof using Type.
  intros HA HB Hne Hz Hs EA EB.
  set (s1 := goto B kB (Build_sstate (<[a := z]> (smem s)) (sprog s) (ssyncs s) (sout s))).
  set (s2 := goto A fail s1).
  set (s3 := goto A Done (Build_sstate (smem s2) (sprog s2) (ssyncs s2) (<[A := sout s2 A ++ [Failed]]> (sout s2)))).
  exists s3. split.
  - assert (sprog s1 A = check a z' k) as E1 by (unfold s1; simpl; by rewrite fn_lookup_insert_ne).
    assert (smem s1 a = z) as Em by apply fn_lookup_insert.
    assert (sprog s2 A = fail) as E2 by apply fn_lookup_insert.
    apply (reach_step s2 A s3); [apply (reach_step s1 A s2); [apply (reach_step s B s1); [done|]|]|];
      cbn [lts_step spmd_lts]; unfold spmd_step; rewrite decide_True by done.
    + by rewrite EB.
    + rewrite E1. unfold check. by rewrite Em, (proj2 (Z.eqb_neq z z')).
    + by rewrite E2.
  - assert (sout s3 A = sout s2 A ++ [Failed]) as -> by apply fn_lookup_insert.
    apply elem_of_app. right. by left.
Qed.
End alone.

Section machine.
Variable c : config.
Variable u : Z * Z -> eva_unit.     (* the translation unit of the tiles of a pod *)
Variables bsg_pods_X bsg_pods_Y : Z.
Variable data : Z.

(** A tile is named by its pod and its place there; the Makefile of the test launches it on every
    pod, and passes their number to the program. *)
Definition hb04_pods : list (Z * Z) := grid 0 bsg_pods_X 0 bsg_pods_Y.

Definition hb04_tiles (pods : list (Z * Z)) : list ((Z * Z) * (Z * Z)) := pairs pods (group_tiles c).

Definition hb04_launch (pt : (Z * Z) * (Z * Z)) : prog :=
  hb04_main c (u pt.1) bsg_pods_X bsg_pods_Y data pt.2.

Hypothesis wf : wf_config c.
Hypothesis data_word : 0 <= data /\ data mod 4 = 0 /\ data + 4 * bsg_num_tiles c <= 2 ^ 16.
Hypothesis cords : forall p, x_cord_width (u p) = 7 /\ y_cord_width (u p) = 7.
Hypothesis machine_fits : (bsg_pods_X + 1) * bsg_global_X c <= 128 /\ 2 * bsg_pods_Y * bsg_global_Y c <= 128.

Lemma hb04_one_pod p m0 : test_passes (hb04_tiles [p]) hb04_launch m0 (fun _ => True).
Proof using wf data_word cords machine_fits.
  destruct data_word as (? & ? & ?), (cords p), machine_fits.
  apply (safe_test_passes _ _ (hb04_plan c (u p) bsg_pods_X bsg_pods_Y data p m0 (fun _ => True)));
    [apply footprint_plan_ok|done|].
  intros [p' t] [->%list_elem_of_singleton Ht]%elem_of_pairs. by apply hb04_safe.
Qed.

Lemma first_cell : 0 < bsg_pods_X -> 0 < bsg_pods_Y ->
  exists rest, pod_cells c bsg_pods_X bsg_pods_Y = ((0, 0), (0, 0)) :: rest.
Proof using wf.
  intros HX HY. destruct wf as (? & ? & ? & ? & _).
  assert (forall n, 0 < n -> range 0 n = 0 :: seqZ 1 (Z.pred (n - 0))) as E.
  { intros n Hn. unfold range. by rewrite seqZ_cons by lia. }
  unfold pod_cells. rewrite !E by lia. by eexists.
Qed.

(** The tile at the origin of [p] runs up to its last loop; then the one of [p'] makes its first
    store. *)
Lemma hb04_race p p' m0 : p ∈ hb04_pods -> p' ∈ hb04_pods -> p <> p' ->
  exists s, @reachable _ _ (spmd_lts (hb04_tiles hb04_pods) hb04_launch m0) s /\ Failed ∈ sout s (p, (0, 0)).
Proof using wf data_word cords machine_fits.
  intros Hp Hp' Hne. set (tiles := hb04_tiles hb04_pods). set (A := (p, (0, 0))). set (B := (p', (0, 0))).
  assert (A ∈ tiles /\ B ∈ tiles) as [HA HB].
  { split; apply elem_of_pairs; (split; [done|by apply origin_in_group]). }
  assert (B <> A) as HBA by (intros [= ->]; done).
  assert (0 < bsg_pods_X /\ 0 < bsg_pods_Y) as [HX HY].
  { destruct p as [x y]. apply elem_of_grid in Hp. lia. }
  set (f q (i : (Z * Z) * (Z * Z)) := hb04_word c (u q) data i.1.2 i.1.1 i.2.2 i.2.1 0).
  assert (f p ((0, 0), (0, 0)) = f p' ((0, 0), (0, 0))) as Ef.
  { unfold f. destruct wf as (? & ? & ? & ? & _), data_word as (? & ? & ?), machine_fits.
    assert (1 <= bsg_num_tiles c) by (unfold bsg_num_tiles; nia).
    cbn [fst snd]. rewrite !(hb04_word_eq c _ bsg_pods_X bsg_pods_Y) by (try apply cords; done || lia). done. }
  destruct (first_cell HX HY) as [rest Ecells].
  set (v (i : (Z * Z) * (Z * Z)) := hb04_val i.1.1 i.1.2 i.2.1 i.2.2 0).
  set (cells := pod_cells c bsg_pods_X bsg_pods_Y) in *.
  assert (forall q, hb04_launch (q, (0, 0)) =
    for_ cells (fun i k => Store (f q i) 0 k) (for_ cells (fun i k => check (f q i) 0 k)
    (for_ cells (fun i k => Store (f q i) (v i) k) (for_ cells (fun i k => check (f q i) (v i) k) finish)))) as El.
  { intros q. unfold hb04_launch, hb04_main. cbn [fst snd].
    replace (tile_id c (0, 0)) with 0 by (unfold tile_id, bsg_x_y_to_id; simpl; lia). by rewrite !for_pods_flat. }
  set (s0 := Build_sstate m0 hb04_launch (fun _ => 0%nat) (fun _ => [])).
  assert (@reachable _ _ (spmd_lts tiles hb04_launch m0) s0) as H0 by (apply reach_init; by repeat split).
  destruct (stores_alone tiles hb04_launch m0 A (f p) (fun _ => 0) _ _ s0 HA H0 (El p))
    as (s1 & H1 & [Ek1 Eo1] & _ & Em1).
  destruct (checks_alone tiles hb04_launch m0 A (f p) (fun _ => 0) _ _ s1 HA H1 Ek1) as (s2 & H2 & [Ek2 Eo2] & _).
  { intros i Hi. by apply Em1. }
  destruct (stores_alone tiles hb04_launch m0 A (f p) v _ _ s2 HA H2 Ek2) as (s3 & H3 & [Ek3 Eo3] & _).
  assert (sprog s3 B = hb04_launch B) as EB by by rewrite Eo3, Eo2, Eo1.
  unfold B in EB at 2. rewrite El, Ecells in EB. rewrite Ecells in Ek3. cbn [for_] in EB, Ek3.
  rewrite <-Ef in EB. by eapply (late_store_fails tiles hb04_launch m0 A B); [..|exact Ek3|exact EB].
Qed.
End machine.

(** ** Tests that one tile runs *)

(** [memtest_fast]: five words of the same set of each of eight vcaches. *)
Definition cache_ids : list Z := [0; 1; 14; 15; 16; 17; 30; 31].
Definition VCACHE_BLOCK_SIZE_IN_WORDS : Z := 8.
Definition VCACHE_SETS : Z := 64.
Definition NUM_VCACHE : Z := 32.
Definition STRIDE : Z := NUM_VCACHE * VCACHE_BLOCK_SIZE_IN_WORDS * VCACHE_SETS.

(** The values [addr] takes, unrolled five times with [addr += STRIDE] in between. *)
Definition five_addrs (x : Z) : list Z :=
  let addr0 := (default 0 (cache_ids !! Z.to_nat x) *i VCACHE_BLOCK_SIZE_IN_WORDS)%c in
  let addr1 := (addr0 +i STRIDE)%c in
  let addr2 := (addr1 +i STRIDE)%c in
  let addr3 := (addr2 +i STRIDE)%c in
  let addr4 := (addr3 +i STRIDE)%c in
  [addr0; addr1; addr2; addr3; addr4].

(** [local_addr[x][0]] to [local_addr[x][4]] is row [x] of the local array. *)
Definition memtest_fast_main (data : Z) : prog :=
  fold_ (range 0 8) (fun x (s : Z * (Z -> list Z)) k =>
    let '(i, local_addr) := s in
    for_ (five_addrs x) (fun addr k => Store (elem data addr) addr k)
    (Send (PrintInt i) (k ((i +i 1)%c, <[x := five_addrs x]> local_addr))))
    (0, fun _ => []) (fun '(i, local_addr) =>
  fold_ (range 0 8) (fun x i k =>
    load_list (elem data <$> five_addrs x) (fun load_data =>
    assert_list (zip_with Z.eqb load_data (local_addr x))
    (Send (PrintInt i) (k (i +i 1)%c)))) i (fun _ => finish)).

(** [memtest9]: blocks of a vcache bank, by tag and bank. *)
Definition BLOCK_SIZE : Z := 8.

Definition gen_dram_addr (tag bank : Z) : list Z :=
  (fun b => ((3 <<i 30) +i (tag <<i 17) +i (bank <<i 5) +i (b <<i 2))%c) <$> seqZ 0 BLOCK_SIZE.

Definition write_block (tag bank : Z) (k : prog) : prog :=
  for_ (gen_dram_addr tag bank) (fun a k => Store (Dram (bsg_dram_ptr a)) a k) k.

Definition read_block (tag bank : Z) (k : prog) : prog :=
  for_ (gen_dram_addr tag bank) (fun a k => check (Dram (bsg_dram_ptr a)) a k) k.

Definition memtest9_main (t : Z * Z) : prog :=
  if (t.1 =? 0) && (t.2 =? 0) then
    Send (PrintStat 0)
    (for_ (range 0 8) (fun i k =>
      if Z.rem i 2 =? 0 then
        write_block 1 i (write_block 3 i (write_block 7 i
        (read_block 1 i (read_block 3 i (read_block 7 i k)))))
      else
        write_block 0 i (write_block 2 i (write_block 6 i
        (read_block 0 i (read_block 2 i (read_block 6 i k))))))
    (write_block 0 0 (write_block 1 1 (write_block 2 0 (write_block 3 1
    (read_block 0 0 (read_block 1 1 (read_block 2 0 (read_block 3 1
    (Send (PrintStat 0xdead) finish))))))))))
  else Done.

(** [memtest2020]: 256 words at each of the strides [2^n - 1]. *)
Definition memtest2020_N : Z := 256.

Definition get_stride (n : Z) : Z :=
  (fold_left (fun stride _ => (stride *i 2)%c) (range 0 n) 1 -i 1)%c.

Definition memtest2020_main (data : Z) : prog :=
  for_ (range 0 2) (fun _ k => for_ (range 1 21) (fun n k =>
    let stride := get_stride n in
    fold_ (range 0 memtest2020_N) (fun i idx k =>
      Store (elem data idx) i (k (idx +i stride)%c)) 0 (fun _ =>
    fold_ (range 0 memtest2020_N) (fun i (s : Z * list Z) k =>
      let '(idx, load_val) := s in
      Load (elem data idx) (fun v => k ((idx +i stride)%c, load_val ++ [v]))) (0, []) (fun s =>
    assert_list ((fun i => default 0 (s.2 !! Z.to_nat i) =? i) <$> range 0 memtest2020_N) k)))
    k) finish.

(** [simple_memory_test]: the sum of the numbers below 1024. *)
Definition ANSWER : Z := 523776.

Definition simple_memory_main (c : config) (data : Z) (t : Z * Z) : prog :=
  if tile_id c t =? 0 then
    for_ (range 0 1024) (fun i k => Store (elem data i) i k)
    (fold_ (range 0 1024) (fun i sum k => Load (elem data i) (fun v => k (sum +i v)%c)) 0
      (fun sum => if sum =? ANSWER then finish else fail))
  else Done.

(** [quicktouch]: a word of every tile of the pod, then a word of every vcache.  [flt_hash x]
    stands for the bits of [(a*b)+c] with [b = (float) x], and [flt_ne] for [!=] on floats. *)
Section quicktouch.
Variable c : config.
Variable u : eva_unit.
Variables my_int dram_data : Z.
Variable flt_hash : Z -> Z.
Variable flt_ne : Z -> Z -> bool.

Definition hash_val (x y : Z) : Z := (0xdead +i x +i y)%c.

Definition quicktouch_word (x y : Z) : loc := deref u (bsg_remote_ptr x y my_int).

Definition quicktouch_main : prog :=
  for_ (range 0 (bsg_global_Y c)) (fun y k => for_ (range 0 (bsg_global_X c)) (fun x k =>
    Store (quicktouch_word x y) (hash_val x y) k) k)
  (for_ (range 0 (bsg_global_Y c)) (fun y k => for_ (range 0 (Z.quot (bsg_global_X c) 8)) (fun x k =>
    load_list ((fun j => quicktouch_word (x *i 8 +i j)%c y) <$> seqZ 0 8) (fun local_hash =>
    assert_list (zip_with Z.eqb local_hash ((fun j => hash_val (x *i 8 +i j)%c y) <$> seqZ 0 8)) k)) k)
  (for_ (range 0 (2 * bsg_global_X c)) (fun x k =>
    Store (elem dram_data (8 * x)) (flt_hash x) k)
  (for_ (range 0 (Z.quot (2 * bsg_global_X c) 8)) (fun x k =>
    load_list ((fun j => elem dram_data (x * 64 + 8 * j)) <$> seqZ 0 8) (fun local_hash =>
    assert_list (zip_with (fun h v => negb (flt_ne h v)) local_hash
                   ((fun j => flt_hash (8 * x + j)) <$> seqZ 0 8)) k))
  (for_ (range 0 32) (fun i k => Send (PrintInt i) k)
  finish)))).
End quicktouch.

(** *** Running alone *)

Section solo.
Context {Tid : Type} `{EqDecision Tid}.
Variables (t : Tid) (m0 : loc -> Z) (finishers : Tid -> Prop).
#[local] Abbreviation pl := (solo_plan t m0 finishers).

(** Storing to elements of an array their own indices. *)
Lemma safely_fill_indices p (l : list Z) k m o :
  (forall a, a ∈ l -> 0 <= a < 2 ^ 30) ->
  (forall m', (forall a, 0 <= a < 2 ^ 30 -> a ∈ l \/ m (elem p a) = a -> m' (elem p a) = a) ->
     safely pl 0 t k m' o) ->
  safely pl 0 t (for_ l (fun a k => Store (elem p a) a k) k) m o.
Proof.
  intros Hl Hk. assert (forall a b, 0 <= a < 2 ^ 30 -> b ∈ l -> elem p a = elem p b -> a = b) as Hinj.
  { intros a b Ha Hb%Hl. apply elem_inj. norm_pow2. norm_pow2. revert Ha Hb. norm_pow2. lia. }
  apply safely_fill; [done|by eauto|]. intros m' Hm Hother. apply Hk.
  intros a Ha Hor. destruct (decide (a ∈ l)) as [Hin|Hin]; [by apply Hm|].
  destruct Hor as [|E]; [done|]. rewrite Hother; [done|].
  intros b Hb Eb. apply Hin. by rewrite (Hinj a b).
Qed.

(** A program that a run brings to a report of success. *)
Definition run_reports (n : nat) (p : prog) (m : loc -> Z) : bool :=
  match exec n p m [] with
  | Some (o, _) => bool_decide ((Failed ∉ o) /\ (Finished ∈ o))
  | None => false
  end.

Lemma run_reports_safely n p : run_reports n p m0 = true -> safely pl 0 t p m0 [].
Proof.
  unfold run_reports. intros H. destruct (exec n p m0 []) as [ [o m] | ] eqn:E; [|done].
  apply bool_decide_eq_true in H as [H1 H2].
  by eapply exec_safely.
Qed.

Lemma five_addrs_range x a : x ∈ range 0 8 -> a ∈ five_addrs x -> 0 <= a < 2 ^ 30.
Proof.
  intros Hx Ha.
  assert (forallb (fun x => forallb (fun a => (0 <=? a) && (a <? 2 ^ 30)) (five_addrs x)) (range 0 8)
    = true) as H by (vm_compute; reflexivity).
  rewrite forallb_elem in H. specialize (H x Hx). rewrite forallb_elem in H.
  specialize (H a Ha). bprop. done.
Qed.

Lemma memtest_fast_safe data : safely pl 0 t (memtest_fast_main data) m0 [].
Proof.
  unfold memtest_fast_main.
  apply (safely_fold _ _ _ _ _ _ _ _ _ (fun done s m o => (Failed ∉ o) /\
    forall x, x ∈ done -> s.2 x = five_addrs x /\ forall a, a ∈ five_addrs x -> m (elem data a) = a)).
  - split; [apply not_elem_of_nil|]. intros x Hx. by apply not_elem_of_nil in Hx.
  - intros done x rest [i la] m o kk E (Ho & Hm) Hkk.
    assert (forall x', x' ∈ done ++ [x] -> x' ∈ range 0 8) as Hin.
    { intros x' Hx'. rewrite E. apply elem_of_app. rewrite elem_of_app, list_elem_of_singleton in Hx'.
      destruct Hx' as [? | ->]; [by left|right; by left]. }
    apply safely_fill_indices.
    { intros a. apply five_addrs_range, Hin, elem_of_app. right. by left. }
    intros m' Hm'. apply safely_send, Hkk. split.
    { rewrite elem_of_app, list_elem_of_singleton. by intros [|]. }
    intros x' Hx'. pose proof (Hin x' Hx') as Hr. cbn [snd].
    destruct (decide (x' = x)) as [->|Hne].
    + rewrite fn_lookup_insert. split; [done|]. intros a Ha. apply Hm'; [|by left].
      by apply (five_addrs_range x).
    + rewrite fn_lookup_insert_ne by done. apply elem_of_app in Hx' as [Hx'|Hx'%list_elem_of_singleton];
        [|done]. destruct (Hm x' Hx') as [E1 E2]. split; [done|]. intros a Ha.
      apply Hm'; [by apply (five_addrs_range x')|right; by apply E2].
  - intros [i la] m o (Ho & Hm). cbn [snd] in Hm.
    apply (safely_fold _ _ _ _ _ _ _ _ _ (fun _ _ m' o' => m' = m /\ Failed ∉ o')).
    + done.
    + intros done x rest i' m' o' kk E (-> & Ho') Hkk.
      assert (x ∈ range 0 8) as Hx by (rewrite E; apply elem_of_app; right; by left).
      destruct (Hm x Hx) as [E1 E2]. rewrite E1.
      pose proof (safely_load_checks pl 0 t (five_addrs x) (elem data) id Z.eqb) as Hld.
      rewrite list_fmap_id in Hld. apply Hld; clear Hld.
      * intros a Ha. split; [by right|]. by rewrite E2, Z.eqb_refl.
      * apply safely_send, Hkk. split; [done|].
        rewrite elem_of_app, list_elem_of_singleton. by intros [|].
    + intros i' m' o' (-> & Ho'). by apply safely_finish with finishers.
Qed.
(** *** [memtest2020] *)

Lemma get_stride_eq n : n ∈ range 1 21 -> 1 <= get_stride n < 2 ^ 21.
Proof.
  intros Hn.
  assert (forallb (fun n => (1 <=? get_stride n) && (get_stride n <? 2 ^ 21)) (range 1 21) = true)
    as H by (vm_compute; reflexivity).
  rewrite forallb_elem in H. specialize (H n Hn). bprop. done.
Qed.

(** The element that iteration [i] of a loop with [idx += stride] has come to. *)
Lemma strided_elem_inj p stride i j :
  1 <= stride < 2 ^ 21 -> 0 <= i < memtest2020_N -> 0 <= j < memtest2020_N ->
  elem p (i * stride) = elem p (j * stride) -> i = j.
Proof. unfold memtest2020_N. intros Hs Hi Hj E. apply elem_inj in E; nia. Qed.

Lemma stride_step stride n : 1 <= stride < 2 ^ 21 -> 0 <= n < memtest2020_N ->
  i32 (n * stride + stride) = (n + 1) * stride.
Proof. unfold memtest2020_N. norm_pow2. intros. rewrite i32_id by (unfold is_i32; nia). lia. Qed.

(** Where a loop over [range 0 n] stands. *)
Lemma range_pos n done i rest : range 0 n = done ++ i :: rest ->
  i = Z.of_nat (length done) /\ 0 <= i < n.
Proof.
  intros E. pose proof (range_at _ _ _ _ _ E). split; [lia|].
  apply elem_of_range. rewrite E. apply elem_of_app. right. by left.
Qed.

Lemma seqZ_snoc n : 0 <= n -> seqZ 0 (n + 1) = seqZ 0 n ++ [n].
Proof. intros Hn. rewrite seqZ_app by lia. by rewrite Z.add_0_l. Qed.

Lemma stride_store_safe p stride k m o : 1 <= stride < 2 ^ 21 ->
  (forall m', (forall i, 0 <= i < memtest2020_N -> m' (elem p (i * stride)) = i) ->
     safely pl 0 t k m' o) ->
  safely pl 0 t (fold_ (range 0 memtest2020_N) (fun i idx k =>
      Store (elem p idx) i (k (idx +i stride)%c)) 0 (fun _ => k)) m o.
Proof.
  intros Hs Hk.
  apply (safely_fold _ _ _ _ _ _ _ _ _ (fun done idx m o' => o' = o /\
    idx = Z.of_nat (length done) * stride /\
    forall i, 0 <= i < Z.of_nat (length done) -> i < memtest2020_N -> m (elem p (i * stride)) = i)).
  - split; [done|]. split; [done|]. simpl. lia.
  - intros done i rest idx m' o' kk (Hi & Hr)%range_pos (-> & -> & Hm) Hkk.
    apply safely_store; [done|]. apply Hkk. rewrite length_app, Nat2Z.inj_add, <-Hi.
    split; [done|]. split; [by apply stride_step|]. simpl. intros j Hj Hj2.
    destruct (decide (j = i)) as [->|Hne]; [by rewrite fn_lookup_insert|].
    rewrite fn_lookup_insert_ne; [apply Hm; lia|].
    intros E. apply Hne. symmetry. by apply (strided_elem_inj p stride); [|lia|lia|].
  - intros idx m' o' (-> & _ & Hm). apply Hk. intros i Hi.
    pose proof (length_range 0 memtest2020_N). apply Hm; unfold memtest2020_N in *; lia.
Qed.

Lemma stride_load_safe p stride k m o : 1 <= stride < 2 ^ 21 ->
  (forall i, 0 <= i < memtest2020_N -> m (elem p (i * stride)) = i) ->
  (forall idx, safely pl 0 t (k (idx, seqZ 0 memtest2020_N)) m o) ->
  safely pl 0 t (fold_ (range 0 memtest2020_N) (fun i (s : Z * list Z) k =>
      let '(idx, load_val) := s in
      Load (elem p idx) (fun v => k ((idx +i stride)%c, load_val ++ [v]))) (0, []) k) m o.
Proof.
  intros Hs Hm Hk.
  apply (safely_fold _ _ _ _ _ _ _ _ _ (fun done s m' o' => m' = m /\ o' = o /\
    s = (Z.of_nat (length done) * stride, seqZ 0 (Z.of_nat (length done))))).
  - done.
  - intros done i rest s m' o' kk (Hi & Hr)%range_pos (-> & -> & ->) Hkk.
    apply safely_load; [by right|]. apply Hkk. rewrite length_app, Nat2Z.inj_add, <-Hi.
    split; [done|]. split; [done|].
    rewrite Hm, stride_step by done. f_equal. symmetry. apply seqZ_snoc. lia.
  - intros s m' o' (-> & -> & ->). rewrite length_range. apply Hk.
Qed.

Lemma memtest2020_safe data : safely pl 0 t (memtest2020_main data) m0 [].
Proof.
  unfold memtest2020_main.
  rewrite <-(for_pairs _ _ (fun kn k => let stride := get_stride kn.2 in
    fold_ (range 0 memtest2020_N) (fun i idx k =>
      Store (elem data idx) i (k (idx +i stride)%c)) 0 (fun _ =>
    fold_ (range 0 memtest2020_N) (fun i (s : Z * list Z) k =>
      let '(idx, load_val) := s in
      Load (elem data idx) (fun v => k ((idx +i stride)%c, load_val ++ [v]))) (0, []) (fun s =>
    assert_list ((fun i => default 0 (s.2 !! Z.to_nat i) =? i) <$> range 0 memtest2020_N) k)))).
  apply (safely_for _ _ _ _ _ _ _ _ (fun _ _ o => o = [])).
  - done.
  - intros done [j n] rest m o kk E -> Hkk. cbv zeta. cbn [snd].
    assert (1 <= get_stride n < 2 ^ 21) as Hs.
    { apply get_stride_eq. assert ((j, n) ∈ pairs (range 0 2) (range 1 21)) as H
        by (rewrite E; apply elem_of_app; right; by left).
      by apply elem_of_pairs in H as [_ ?]. }
    apply stride_store_safe; [done|]. intros m' Hm'.
    apply stride_load_safe; [done|done|]. intros idx. cbn [snd].
    apply safely_assert_list; [|by apply Hkk].
    intros b Hb. apply list_elem_of_fmap in Hb as (i & -> & Hi%elem_of_range).
    apply Z.eqb_eq. assert (seqZ 0 memtest2020_N !! Z.to_nat i = Some i) as ->; [|done].
    apply lookup_seqZ. lia.
  - intros m o ->. apply safely_finish with finishers; [done|done|apply not_elem_of_nil].
Qed.
(** *** [simple_memory_test] and [quicktouch] *)

Lemma sum_loop_safe data k m o :
  (forall i, 0 <= i < 1024 -> m (elem data i) = i) ->
  safely pl 0 t (k ANSWER) m o ->
  safely pl 0 t (fold_ (range 0 1024) (fun i sum k => Load (elem data i) (fun v => k (sum +i v)%c))
    0 k) m o.
Proof.
  intros Hm Hk. apply (safely_fold _ _ _ _ _ _ _ _ _ (fun done sum m' o' => m' = m /\ o' = o /\
    2 * sum = Z.of_nat (length done) * (Z.of_nat (length done) - 1))).
  - done.
  - intros done i rest sum m' o' kk (Hi & Hr)%range_pos (-> & -> & Hs) Hkk.
    apply safely_load; [by right|]. apply Hkk. rewrite length_app, Nat2Z.inj_add, <-Hi, Hm by done.
    split; [done|]. split; [done|]. rewrite <-Hi in Hs. change (Z.of_nat (length [i])) with 1.
    rewrite i32_id by (unfold is_i32; nia). lia.
  - intros sum m' o' (-> & -> & Hs). rewrite length_range in Hs.
    assert (sum = ANSWER) as -> by (unfold ANSWER; lia). done.
Qed.

Lemma simple_memory_body_safe data :
  safely pl 0 t (for_ (range 0 1024) (fun i k => Store (elem data i) i k)
    (fold_ (range 0 1024) (fun i sum k => Load (elem data i) (fun v => k (sum +i v)%c)) 0
      (fun sum => if sum =? ANSWER then finish else fail))) m0 [].
Proof.
  apply safely_fill_indices.
  { intros i Hi%elem_of_range. norm_pow2. lia. }
  intros m Hm. apply sum_loop_safe.
  - intros i Hi. apply Hm; [norm_pow2; lia|]. left. by apply elem_of_range.
  - rewrite Z.eqb_refl. apply safely_finish with finishers; [done|done|apply not_elem_of_nil].
Qed.

Lemma quicktouch_safe c u my_int dram_data flt_hash flt_ne :
  0 < bsg_global_X c <= 64 -> 0 < bsg_global_Y c <= 32 -> 0 <= my_int < 2 ^ 18 ->
  0 <= tgo_x u -> bsg_global_X c + tgo_x u <= 2 ^ x_subcord_width u ->
  0 <= tgo_y u -> bsg_global_Y c + tgo_y u <= 2 ^ y_subcord_width u ->
  (forall x, 0 <= x < 2 * bsg_global_X c -> flt_ne (flt_hash x) (flt_hash x) = false) ->
  safely pl 0 t (quicktouch_main c u my_int dram_data flt_hash flt_ne) m0 [].
Proof.
  intros HX HY Hi Hox Hx2 Hoy Hy2 Hf. unfold quicktouch_main.
  assert (forall x y x' y', 0 <= x < bsg_global_X c -> 0 <= y < bsg_global_Y c ->
    0 <= x' < bsg_global_X c -> 0 <= y' < bsg_global_Y c ->
    quicktouch_word u my_int x y = quicktouch_word u my_int x' y' -> x = x' /\ y = y') as Hinj.
  { intros x y x' y' ????. unfold quicktouch_word, deref. rewrite !eva_to_npa_remote_ptr by lia.
    cbn [x_cord y_cord epa]. intros [= E1 E2]. lia. }
  rewrite <-(for_pairs _ _ (fun yx k => Store (quicktouch_word u my_int yx.2 yx.1)
    (hash_val yx.2 yx.1) k)).
  apply (safely_fill _ _ _ _ (fun yx => quicktouch_word u my_int yx.2 yx.1)
    (fun yx => hash_val yx.2 yx.1)); [done| |].
  { intros [y x] [y' x'] H H'. rewrite elem_of_pairs, !elem_of_range in H, H'. cbn [fst snd].
    intros E. apply Hinj in E as [-> ->]; lia || done. }
  intros m Hm _.
  rewrite <-(for_pairs _ _ (fun yx k =>
    load_list ((fun j => quicktouch_word u my_int (i32 (i32 (yx.2 * 8) + j)) yx.1) <$> seqZ 0 8)
      (fun local_hash => assert_list (zip_with Z.eqb local_hash
         ((fun j => hash_val (i32 (i32 (yx.2 * 8) + j)) yx.1) <$> seqZ 0 8)) k))).
  apply (safely_for _ _ _ _ _ _ _ _ (fun _ m' o => m' = m /\ o = [])); [done| |].
  { intros done [y x] rest m' o kk E (-> & ->) Hkk. cbn [fst snd].
    apply (safely_load_checks _ _ _ _ (fun j => quicktouch_word u my_int (i32 (i32 (x * 8) + j)) y)
      (fun j => hash_val (i32 (i32 (x * 8) + j)) y)); [|by apply Hkk].
    assert ((y, x) ∈ pairs (range 0 (bsg_global_Y c)) (range 0 (Z.quot (bsg_global_X c) 8))) as Hin
      by (rewrite E; apply elem_of_app; right; by left).
    rewrite elem_of_pairs, !elem_of_range in Hin. intros j Hj%elem_of_seqZ. split; [by right|].
    rewrite (i32_id (x * 8)), i32_id by (unfold is_i32; Z.to_euclidean_division_equations; lia).
    assert (m (quicktouch_word u my_int (x * 8 + j) y) = hash_val (x * 8 + j) y) as ->;
      [|apply Z.eqb_refl]. apply (Hm (y, x * 8 + j)). rewrite elem_of_pairs, !elem_of_range.
    Z.to_euclidean_division_equations; lia. }
  intros m' o (-> & ->).
  apply (safely_fill _ _ _ _ (fun x => elem dram_data (8 * x)) flt_hash); [done| |].
  { intros x x' Hx%elem_of_range Hx'%elem_of_range E. f_equal. apply elem_inj in E; [lia|].
    norm_pow2. lia. }
  intros m' Hm' _. apply (safely_for _ _ _ _ _ _ _ _ (fun _ m'' o => m'' = m' /\ o = [])); [done| |].
  { intros done x rest m'' o kk E (-> & ->) Hkk.
    apply (safely_load_checks _ _ _ _ (fun j => elem dram_data (x * 64 + 8 * j))
      (fun j => flt_hash (8 * x + j))); [|by apply Hkk].
    apply range_pos in E as [_ Hx]. intros j Hj%elem_of_seqZ. split; [by right|].
    assert (8 * x + j ∈ range 0 (2 * bsg_global_X c)) as Hr
      by (apply elem_of_range; Z.to_euclidean_division_equations; lia).
    replace (x * 64 + 8 * j) with (8 * (8 * x + j)) by lia.
    rewrite (Hm' _ Hr), Hf; [done|]. by apply elem_of_range in Hr. }
  intros m'' o (-> & ->). apply (safely_for _ _ _ _ _ _ _ _ (fun _ _ o => Failed ∉ o)).
  - apply not_elem_of_nil.
  - intros done i rest m'' o kk _ Ho Hkk. apply safely_send, Hkk.
    rewrite elem_of_app, list_elem_of_singleton. by intros [|].
  - intros m'' o Ho. by apply safely_finish with finishers.
Qed.
End solo.

(** A test whose work tile [t] does, while the others spin. *)
Lemma solo_test_passes {Tid} `{EqDecision Tid} (tiles : list Tid) t main m0 :
  t ∈ tiles -> safely (solo_plan t m0 (.= t)) 0 t (main t) m0 [] ->
  (forall t', t' ∈ tiles -> t' <> t -> main t' = Done) ->
  test_passes tiles main m0 (.= t).
Proof.
  intros Ht Hs Hd. eapply (safe_test_passes _ _ (solo_plan t m0 (.= t))); [by apply solo_plan_ok|done|].
  intros t' Ht'. destruct (decide (t' = t)) as [->|Hne]; [done|]. rewrite Hd by done.
  apply safely_spin with (.= t); [done|done|apply not_elem_of_nil|done].
Qed.

Lemma memtest9_safe m0 finishers :
  safely (solo_plan (0, 0) m0 finishers) 0 (0, 0) (memtest9_main (0, 0)) m0 [].
Proof. apply (run_reports_safely _ _ _ 1000). vm_compute. reflexivity. Qed.

(** ** The tests pass *)

(** C33 (functional).  The memory tests that whole groups run.  [hb_mc_01] and [memtest2022] on
    chunks of DRAM, [hb_mc_02] on the words of the group's own data memories, and [hb_mc_04] on those
    of every pod, when the tiles of a single pod run it: every tile reads back what it wrote
    ([memtest2022] also the zeros it did not overwrite) whatever the other tiles do meanwhile, no
    tile reports a failure, every tile reports success, and all can always come to the end.  But the
    Makefile of [hb_mc_04] launches it on every pod, and there tiles with the same id write to the
    same words: with more than one pod, any pod's first tile can be made to report a failure by the
    late start of another pod. *)
Theorem group_memory_tests_pass c u u4 data bsg_pods_X bsg_pods_Y m0 :
  wf_config c ->
  (hb01_stop c mod 8 = 0 -> 0 < hb01_stop c ->
     test_passes (group_tiles c) (hb01_main c) m0 (fun _ => True)) /\
  (0 <= data -> data + 4 * (bsg_num_tiles c * memtest2022_N) <= 2 ^ 32 ->
   (forall t j, t ∈ group_tiles c -> 0 <= j < memtest2022_N ->
      m0 (chunk_word c data memtest2022_N t j) = 0) ->
     test_passes (group_tiles c) (memtest2022_main c data) m0 (fun _ => True)) /\
  (0 <= data -> data mod 4 = 0 -> data + 4 * bsg_num_tiles c <= 2 ^ 18 ->
   0 <= tgo_x u -> bsg_tiles_X c + tgo_x u <= 2 ^ x_subcord_width u ->
   0 <= tgo_y u -> bsg_tiles_Y c + tgo_y u <= 2 ^ y_subcord_width u ->
     test_passes (group_tiles c) (hb02_main c u data) m0 (fun _ => True)) /\
  (0 <= data -> data mod 4 = 0 -> data + 4 * bsg_num_tiles c <= 2 ^ 16 ->
   (forall p, x_cord_width (u4 p) = 7 /\ y_cord_width (u4 p) = 7) ->
   (bsg_pods_X + 1) * bsg_global_X c <= 128 -> 2 * bsg_pods_Y * bsg_global_Y c <= 128 ->
   let main := hb04_launch c u4 bsg_pods_X bsg_pods_Y data in
   let pods := hb04_pods bsg_pods_X bsg_pods_Y in
     (forall p, test_passes (hb04_tiles c [p]) main m0 (fun _ => True)) /\
     (forall p p', p ∈ pods -> p' ∈ pods -> p <> p' ->
        exists s, @reachable _ _ (spmd_lts (hb04_tiles c pods) main m0) s /\
          Failed ∈ sout s (p, (0, 0)))).
Proof.
  intros wf. split_and!; intros.
  - apply (safe_test_passes _ _ (chunk_plan c dram_ptr (hb01_stop c) m0 (fun _ => True)));
      [by apply chunk_plan_ok|done|]. intros t Ht. by apply hb01_safe.
  - apply (safe_test_passes _ _ (chunk_plan c data memtest2022_N m0 (fun _ => True)));
      [by apply chunk_plan_ok|done|]. intros t Ht. by apply memtest2022_safe.
  - apply (safe_test_passes _ _ (hb02_plan c u data m0 (fun _ => True)));
      [apply footprint_plan_ok|done|]. intros t Ht. by apply hb02_safe.
  - split; [intros p; by apply hb04_one_pod|intros p p' ???; by apply (hb04_race c u4) with (p' := p')].
Qed.

(** A 2x2 group at the origin of its pod. *)
Definition config_2x2 : config :=
  {| bsg_tiles_X := 2; bsg_tiles_Y := 2; bsg_global_X := 16; bsg_global_Y := 8;
     IO_X_INDEX := 16; IO_Y_INDEX := 0 |}.

Lemma group_memory_tests_pass_witness :
  test_passes (group_tiles config_2x2) (hb01_main config_2x2) (fun _ => 0) (fun _ => True) /\
  test_passes (group_tiles config_2x2) (memtest2022_main config_2x2 0x81000000) (fun _ => 0)
    (fun _ => True) /\
  test_passes (group_tiles config_2x2) (hb02_main config_2x2 unit_16x8 0x1000) (fun _ => 0)
    (fun _ => True) /\
  test_passes (hb04_tiles config_2x2 [(3, 1)])
    (hb04_launch config_2x2 (fun _ => unit_16x8) 4 4 0x1000) (fun _ => 0) (fun _ => True) /\
  (exists s, @reachable _ _ (spmd_lts (hb04_tiles config_2x2 (hb04_pods 2 1))
     (hb04_launch config_2x2 (fun _ => unit_16x8) 2 1 0x1000) (fun _ => 0)) s /\
     Failed ∈ sout s ((0, 0), (0, 0))).
Proof.
  assert (wf_config config_2x2) as wf by (unfold wf_config; simpl; lia). split_and!.
  - apply (group_memory_tests_pass config_2x2 unit_16x8 (fun _ => unit_16x8) 0x81000000 4 4); [done|by vm_compute..].
  - apply (group_memory_tests_pass config_2x2 unit_16x8 (fun _ => unit_16x8) 0x81000000 4 4);
      [done|by vm_compute|by vm_compute|done].
  - apply (group_memory_tests_pass config_2x2 unit_16x8 (fun _ => unit_16x8) 0x1000 4 4); [done|by vm_compute..].
  - apply (group_memory_tests_pass config_2x2 unit_16x8 (fun _ => unit_16x8) 0x1000 4 4); [done|by vm_compute..].
  - eapply (group_memory_tests_pass config_2x2 unit_16x8 (fun _ => unit_16x8) 0x1000 2 1) with (p' := (1, 0));
      [done|by vm_compute..| | |]; [apply elem_of_grid; lia..|done].
Defined.

(** The memory tests that one tile runs, on any initial memory: [memtest_fast],
    [memtest9] (for the tile at the origin of any group), [memtest2020] with all its strides,
    [simple_memory_test] with its sum 523776, and [quicktouch], for any float function whose
    values are equal to themselves. *)
Lemma solo_memory_tests_pass c u data my_int flt_hash flt_ne m0 :
  wf_config c ->
  test_passes [tt] (fun _ => memtest_fast_main data) m0 (.= tt) /\
  test_passes (group_tiles c) memtest9_main m0 (.= (0, 0)) /\
  test_passes [tt] (fun _ => memtest2020_main data) m0 (.= tt) /\
  test_passes (group_tiles c) (simple_memory_main c data) m0 (.= (0, 0)) /\
  (0 < bsg_global_X c <= 64 -> 0 < bsg_global_Y c <= 32 -> 0 <= my_int < 2 ^ 18 ->
   0 <= tgo_x u -> bsg_global_X c + tgo_x u <= 2 ^ x_subcord_width u ->
   0 <= tgo_y u -> bsg_global_Y c + tgo_y u <= 2 ^ y_subcord_width u ->
   (forall x, 0 <= x < 2 * bsg_global_X c -> flt_ne (flt_hash x) (flt_hash x) = false) ->
   test_passes [tt] (fun _ => quicktouch_main c u my_int data flt_hash flt_ne) m0 (.= tt)).
Proof.
  intros wf. split_and!; intros; apply solo_test_passes;
    try (by left); try (intros [] _; done); try by apply origin_in_group.
  - apply memtest_fast_safe.
  - apply memtest9_safe.
  - intros [x y] _ Hne. unfold memtest9_main. destruct (_ && _) eqn:E; [|done].
    cbn [fst snd] in E. bprop. by subst.
  - apply memtest2020_safe.
  - unfold simple_memory_main. replace (tile_id c (0, 0)) with 0
      by (unfold tile_id, bsg_x_y_to_id; simpl; lia). apply simple_memory_body_safe.
  - intros t Ht Hne. unfold simple_memory_main. destruct (Z.eqb_spec (tile_id c t) 0) as [E|]; [|done].
    destruct Hne. apply (tile_id_inj c wf); [done|by apply origin_in_group|].
    rewrite E. unfold tile_id, bsg_x_y_to_id. simpl. lia.
  - by apply quicktouch_safe.
Qed.

Lemma solo_memory_tests_pass_witness :
  test_passes [tt] (fun _ => memtest_fast_main 0x80001000) (fun _ => 7) (.= tt) /\
  test_passes [tt] (fun _ => quicktouch_main config_2x2
    {| addr_width := 28; x_cord_width := 7; y_cord_width := 7; pod_x_cord_width := 3;
       pod_y_cord_width := 4; x_subcord_width := 4; y_subcord_width := 3; tgo_x := 0;
       tgo_y := 0; pod_x := 1; pod_y := 1; new_bank_id := None |}
    0x1000 0x80001000 (fun x => 2 * x) (fun a b => negb (a =? b))) (fun _ => 7) (.= tt).
Proof.
  assert (wf_config config_2x2) as wf by (unfold wf_config; simpl; lia). split.
  - apply (solo_memory_tests_pass config_2x2 unit_16x8 0x80001000 0 (fun x => x) Z.eqb (fun _ => 7)).
    done.
  - eapply (solo_memory_tests_pass config_2x2 _ 0x80001000 0x1000 (fun x => 2 * x)); simpl;
      [done|lia|lia|lia|lia|lia|lia|lia|]. intros x _. by rewrite Z.eqb_refl.
Defined.
