(* ===== verification/Printf.v ===== *)
(** * Number formatting of [bsg_printf.c]

    [number], [eaddr], [iaddr], [strnlen] and [skip_atoi], written with the loops of the
    source.  A character is its code ([Z]); the text a function appends at [str] is returned
    as a list, so [str] itself is the length of what has been written.  [va_arg]s, flags and
    widths are 32-bit integers.  A C string is the list of its characters before the NUL. *)

From Stdlib Require Import Ascii String.
From S2P Require Import Prelude.
Abbreviation length := Datatypes.length.
Local Open Scope Z_scope.

Definition chars (s : String.string) : list Z :=
  map (fun c => Z.of_N (N_of_ascii c)) (String.list_ascii_of_string s).
Arguments chars s%_string.

Definition ZEROPAD : Z := 1.
Definition SIGN : Z := 2.
Definition PLUS : Z := 4.
Definition SPACE : Z := 8.
Definition LEFT : Z := 16.
Definition HEX_PREP : Z := 32.
Definition UPPERCASE : Z := 64.

Definition is_digit (c : Z) : bool := (48 <=? c) && (c <=? 57).

Definition digits : list Z := chars "0123456789abcdefghijklmnopqrstuvwxyz".
Definition upper_digits : list Z := chars "0123456789ABCDEFGHIJKLMNOPQRSTUVWXYZ".

(** [dig[i]]. *)
Definition dig_at (dig : list Z) (i : Z) : Z := nth (Z.to_nat i) dig 0.

(** ** [strnlen]: the header makes [size_t] an [int], so a negative [count] never runs out. *)

Fixpoint strnlen_loop (s : list Z) (count n : Z) : Z :=
  match s with
  | [] => n
  | c :: s => if (c =? 0) || (count =? 0) then n else strnlen_loop s (i32 (count - 1)) (n + 1)
  end.

Definition strnlen (s : list Z) (count : Z) : Z := strnlen_loop s count 0.

(** ** [skip_atoi]: the value of the leading digits, and what follows them *)

Fixpoint skip_atoi_loop (s : list Z) (i : Z) : Z * list Z :=
  match s with
  | c :: s' =>
      if is_digit c then skip_atoi_loop s' (i32 (i32 (i32 (i * 10) + c) - 48)) else (i, s)
  | [] => (i, [])
  end.

Definition skip_atoi (s : list Z) : Z * list Z := skip_atoi_loop s 0.

(** ** The padding loops *)

(** [while (size-- > 0) *str++ = c;] *)
Fixpoint pad_loop (fuel : nat) (size c : Z) (out : list Z) : Z * list Z :=
  match fuel with
  | O => (size, out)
  | S fuel =>
      if size >? 0 then pad_loop fuel (i32 (size - 1)) c (out ++ [c]) else (i32 (size - 1), out)
  end.

Definition pad_while (size c : Z) (out : list Z) : Z * list Z :=
  pad_loop (S (Z.to_nat size)) size c out.

(** [while (i < precision--) *str++ = '0';] and [while (len < size--) *str++ = ' ';] *)
Fixpoint fill_loop (fuel : nat) (len size c : Z) (out : list Z) : Z * list Z :=
  match fuel with
  | O => (size, out)
  | S fuel =>
      if len <? size then fill_loop fuel len (i32 (size - 1)) c (out ++ [c])
      else (i32 (size - 1), out)
  end.

Definition fill_while (len size c : Z) (out : list Z) : Z * list Z :=
  fill_loop (S (Z.to_nat (size - len))) len size c out.

(** [while (i-- > 0) *str++ = tmp[i];] *)
Fixpoint emit_rev (i : nat) (tmp out : list Z) : list Z :=
  match i with
  | O => out
  | S i => emit_rev i tmp (out ++ [nth i tmp 0])
  end.

(** ** [number] *)

(** The digit loop: [num] is a [long], divided as [unsigned long].  32 rounds empty any
    32-bit value in base 2 or more. *)
Fixpoint digit_loop (fuel : nat) (dig : list Z) (base num : Z) (tmp : list Z) : list Z :=
  match fuel with
  | O => tmp
  | S fuel =>
      if num =? 0 then tmp
      else digit_loop fuel dig base (i32 (u32 num / base)) (tmp ++ [dig_at dig (u32 num mod base)])
  end.

(** [number(str, num, base, size, precision, type)]: the characters written, or [None] for
    the null pointer of a base out of range. *)
Definition number (num base size precision type : Z) : option (list Z) :=
  let dig := if has type UPPERCASE then upper_digits else digits in
  let type := if has type LEFT then Z.ldiff type ZEROPAD else type in
  if (base <? 2) || (base >? 36) then None else
  let c := if has type ZEROPAD then 48 else 32 in
  let '(sign, num, size) :=
    if has type SIGN then
      if num <? 0 then (45, i32 (- num), i32 (size - 1))
      else if has type PLUS then (43, num, i32 (size - 1))
      else if has type SPACE then (32, num, i32 (size - 1))
      else (0, num, size)
    else (0, num, size) in
  let size :=
    if has type HEX_PREP then
      if base =? 16 then i32 (size - 2) else if base =? 8 then i32 (size - 1) else size
    else size in
  let tmp := if num =? 0 then [48] else digit_loop 32 dig base num [] in
  let i := Z.of_nat (length tmp) in
  let precision := if i >? precision then i else precision in
  let size := i32 (size - precision) in
  let '(size, out) :=
    if negb (has type (Z.lor ZEROPAD LEFT)) then pad_while size 32 [] else (size, []) in
  let out := if sign =? 0 then out else out ++ [sign] in
  let out :=
    if has type HEX_PREP then
      if base =? 8 then out ++ [48]
      else if base =? 16 then out ++ [48; dig_at digits 33] else out
    else out in
  let '(size, out) := if negb (has type LEFT) then pad_while size c out else (size, out) in
  let '(_, out) := fill_while i precision 48 out in
  let out := emit_rev (length tmp) tmp out in
  let '(_, out) := pad_while size 32 out in
  Some out.

(** ** [eaddr] and [iaddr] *)

(** The loop of [eaddr] that fills [tmp] with [xx:xx:xx:xx:xx:xx]. *)
Fixpoint eaddr_text (dig : list Z) (addr : list Z) (i n : nat) : list Z :=
  match n with
  | O => []
  | S n =>
      let b := nth i addr 0 in
      (if (i =? 0)%nat then [] else [58]) ++
      [dig_at dig (Z.shiftr b 4); dig_at dig (Z.land b 15)] ++ eaddr_text dig addr (S i) n
  end.

Definition addr_layout (tmp : list Z) (size type : Z) : list Z :=
  let len := Z.of_nat (length tmp) in
  let '(size, out) := if negb (has type LEFT) then fill_while len size 32 [] else (size, []) in
  let out := out ++ tmp in
  let '(_, out) := fill_while len size 32 out in
  out.

Definition eaddr (addr : list Z) (size precision type : Z) : list Z :=
  let dig := if has type UPPERCASE then upper_digits else digits in
  addr_layout (eaddr_text dig addr 0 6) size type.

(** One octet of a dotted address. *)
Definition octet_text (n : Z) : list Z :=
  if n =? 0 then [dig_at digits 0]
  else
    let '(pre, n) :=
      if n >=? 100 then
        let hundreds := dig_at digits (n / 100) in
        let n := n mod 100 in
        ([hundreds; dig_at digits (n / 10)], n mod 10)
      else if n >=? 10 then ([dig_at digits (n / 10)], n mod 10)
      else ([], n) in
    pre ++ [dig_at digits n].

Fixpoint iaddr_text (addr : list Z) (i n : nat) : list Z :=
  match n with
  | O => []
  | S n =>
      (if (i =? 0)%nat then [] else [46]) ++ octet_text (nth i addr 0) ++ iaddr_text addr (S i) n
  end.

Definition iaddr (addr : list Z) (size precision type : Z) : list Z :=
  addr_layout (iaddr_text addr 0 4) size type.

Example number_ex1 : number (-42) 10 6 (-1) SIGN = Some (chars "   -42").
Proof. reflexivity. Qed.
Example number_ex2 : number 255 16 8 4 (HEX_PREP + ZEROPAD) = Some (chars "0x0000ff").
Proof. reflexivity. Qed.
Example number_ex3 : number (-2147483648) 10 (-1) (-1) SIGN = Some (chars "-2147483648").
Proof. reflexivity. Qed.
Example iaddr_ex : iaddr [192; 168; 0; 1] 16 0 LEFT = chars "192.168.0.1     ".
Proof. reflexivity. Qed.
Example eaddr_ex : eaddr [0; 26; 255; 3; 4; 5] 0 0 UPPERCASE = chars "00:1A:FF:03:04:05".
Proof. reflexivity. Qed.

(** ** Specification: numerals and layout *)

(** The value of a list of digit values, most significant first. *)
Definition value (base : Z) (vs : list Z) : Z := fold_left (fun acc v => acc * base + v) vs 0.

(** [vs] is the numeral of [n] in [base]: digits below the base, no leading zero. *)
Definition numeral (base n : Z) (vs : list Z) : Prop :=
  vs <> [] /\ Forall (fun v => 0 <= v < base) vs /\ value base vs = n /\
  (head vs = Some 0 -> vs = [0]).

(** What [number] prints as a sign, and as a base prefix. *)
Definition sign_text (num type : Z) : list Z :=
  if has type SIGN then
    if num <? 0 then [45] else if has type PLUS then [43] else if has type SPACE then [32] else []
  else [].

Definition prefix_text (base type : Z) : list Z :=
  if has type HEX_PREP then
    if base =? 8 then [48] else if base =? 16 then [48; 120] else []
  else [].

(** The magnitude printed: the absolute value under [SIGN], the unsigned value otherwise. *)
Definition magnitude (num type : Z) : Z :=
  if has type SIGN && (num <? 0) then - num else u32 num.

(** The field of a text [sgn ++ pre ++ body] in a width of [size]. *)
Definition layout (type size : Z) (sgn pre body : list Z) : list Z :=
  let fill := Z.to_nat (size - zlen sgn - zlen pre - zlen body) in
  if has type LEFT then sgn ++ pre ++ body ++ replicate fill 32
  else if has type ZEROPAD then sgn ++ pre ++ replicate fill 48 ++ body
  else replicate fill 32 ++ sgn ++ pre ++ body.

(** The digits, extended with zeros to [precision]. *)
Definition number_body (precision : Z) (ds : list Z) : list Z :=
  replicate (Z.to_nat (precision - zlen ds)) 48 ++ ds.

(** ** Lemmas on flags and loops *)

Lemma has_pow2 w k : 0 <= k -> has w (2 ^ k) = Z.testbit w k.
Proof.
  intros Hk. unfold has.
  assert (Z.land w (2 ^ k) = if Z.testbit w k then 2 ^ k else 0) as ->.
  { apply Z.bits_inj'. intros i Hi. rewrite Z.land_spec, Z.pow2_bits_eqb by done.
    destruct (Z.eqb_spec k i) as [->|Hne].
    - rewrite andb_true_r. destruct (Z.testbit w i) eqn:E;
        by rewrite ?Z.pow2_bits_eqb, ?Z.eqb_refl, ?Z.bits_0.
    - rewrite andb_false_r. destruct (Z.testbit w k); [|by rewrite Z.bits_0].
      rewrite Z.pow2_bits_eqb by done. by destruct (Z.eqb_spec k i). }
  destruct (Z.testbit w k); [|done].
  assert (0 < 2 ^ k) by lia. by destruct (Z.eqb_spec (2 ^ k) 0); [lia|].
Qed.

(** Clearing [ZEROPAD] leaves the other flags alone. *)
Lemma has_clear_zeropad w k : 0 < k -> has (Z.ldiff w ZEROPAD) (2 ^ k) = has w (2 ^ k).
Proof.
  intros Hk. rewrite !has_pow2 by lia. rewrite Z.ldiff_spec.
  change ZEROPAD with (2 ^ 0). rewrite Z.pow2_bits_eqb by lia.
  destruct (Z.eqb_spec 0 k); [lia|]. by rewrite andb_true_r.
Qed.

Lemma has_cleared_zeropad w : has (Z.ldiff w ZEROPAD) ZEROPAD = false.
Proof.
  change ZEROPAD with (2 ^ 0). rewrite has_pow2 by lia. rewrite Z.ldiff_spec.
  rewrite Z.pow2_bits_eqb by lia. by rewrite andb_false_r.
Qed.

Lemma has_lor w a b : has w (Z.lor a b) = has w a || has w b.
Proof.
  unfold has. rewrite Z.land_lor_distr_r, <-negb_andb. f_equal.
  destruct (Z.eqb_spec (Z.lor (Z.land w a) (Z.land w b)) 0) as [E|E].
  - apply Z.lor_eq_0_iff in E as [-> ->]. done.
  - destruct (Z.eqb_spec (Z.land w a) 0) as [Ea|]; [|done].
    destruct (Z.eqb_spec (Z.land w b) 0) as [Eb|]; [|done]. by rewrite Ea, Eb in E.
Qed.

Lemma pad_loop_spec fuel size c out :
  (Z.to_nat size < fuel)%nat -> -2147483648 < size < 2147483648 ->
  pad_loop fuel size c out = (Z.min size 0 - 1, out ++ replicate (Z.to_nat size) c).
Proof.
  revert size out; induction fuel as [|fuel IH]; intros size out Hf Hs; [lia|].
  simpl. destruct (Z.gtb_spec size 0).
  - rewrite i32_id by (unfold is_i32; lia). rewrite IH by lia.
    replace (Z.to_nat size) with (S (Z.to_nat (size - 1))) by lia.
    simpl. rewrite <-app_assoc. f_equal. lia.
  - rewrite i32_id by (unfold is_i32; lia). replace (Z.to_nat size) with 0%nat by lia.
    rewrite app_nil_r. f_equal. lia.
Qed.

Lemma pad_while_spec size c out :
  -2147483648 < size < 2147483648 ->
  pad_while size c out = (Z.min size 0 - 1, out ++ replicate (Z.to_nat size) c).
Proof. intros. apply pad_loop_spec; lia. Qed.

Lemma fill_loop_spec fuel len size c out :
  (Z.to_nat (size - len) < fuel)%nat -> 0 <= len -> -2147483648 < size < 2147483648 ->
  fill_loop fuel len size c out =
    (Z.min size len - 1, out ++ replicate (Z.to_nat (size - len)) c).
Proof.
  intros Hf Hl; revert size out Hf; induction fuel as [|fuel IH]; intros size out Hf Hs; [lia|].
  simpl. destruct (Z.ltb_spec len size).
  - rewrite i32_id by (unfold is_i32; lia). rewrite IH by lia.
    replace (Z.to_nat (size - len)) with (S (Z.to_nat (size - 1 - len))) by lia.
    simpl. rewrite <-app_assoc. f_equal. lia.
  - rewrite i32_id by (unfold is_i32; lia). replace (Z.to_nat (size - len)) with 0%nat by lia.
    rewrite app_nil_r. f_equal. lia.
Qed.

Lemma fill_while_spec len size c out :
  0 <= len -> -2147483648 < size < 2147483648 ->
  fill_while len size c out =
    (Z.min size len - 1, out ++ replicate (Z.to_nat (size - len)) c).
Proof. intros. apply fill_loop_spec; lia. Qed.

Lemma emit_rev_spec i tmp out :
  (i <= length tmp)%nat -> emit_rev i tmp out = out ++ rev (take i tmp).
Proof.
  revert out; induction i as [|i IH]; intros out Hi; simpl; [by rewrite app_nil_r|].
  rewrite IH by lia. rewrite <-app_assoc. f_equal.
  destruct (nth_lookup_or_length tmp i 0) as [E|]; [|lia].
  rewrite (take_S_r _ _ _ E), rev_app_distr. done.
Qed.

(** ** The digit loop produces the numeral of its argument *)

(** The digits come out least significant first. *)
Definition lsd_value (base : Z) (vs : list Z) : Z := foldr (fun v acc => v + base * acc) 0 vs.

Lemma value_rev base vs : value base (rev vs) = lsd_value base vs.
Proof.
  unfold value, lsd_value. rewrite <-fold_left_rev_right, rev_involutive.
  induction vs as [|v vs IH]; simpl; [done|]. rewrite IH. lia.
Qed.

Lemma i32_zero z : is_u32 z -> i32 z = 0 -> z = 0.
Proof. word_lia. Qed.

Lemma digit_loop_spec fuel dig base num tmp :
  2 <= base <= 36 -> is_i32 num -> u32 num < 2 ^ Z.of_nat fuel ->
  exists vs, digit_loop fuel dig base num tmp = tmp ++ map (dig_at dig) vs /\
    Forall (fun v => 0 <= v < base) vs /\ lsd_value base vs = u32 num /\
    (num <> 0 -> exists d, last vs = Some d /\ d <> 0) /\ (length vs <= fuel)%nat.
Proof.
  intros Hb. revert num tmp. induction fuel as [|fuel IH]; intros num tmp Hnum Hlt.
  { exists []. simpl. rewrite app_nil_r. assert (num = 0) as -> by word_lia.
    repeat split; [constructor| |lia]. done. }
  simpl. destruct (Z.eqb_spec num 0) as [->|Hne].
  { exists []. rewrite app_nil_r. repeat split; [constructor|done|simpl; lia]. }
  pose proof (u32_range num) as Hu. set (n := u32 num) in *.
  assert (0 < n) by (subst n; word_lia).
  assert (0 <= n / base <= n / 2) as Hq.
  { split; [apply Z.div_pos; unfold is_u32 in *; lia|].
    apply Z.div_le_compat_l; unfold is_u32 in *; lia. }
  assert (u32 (i32 (n / base)) = n / base) as Eq
    by (rewrite u32_i32; apply u32_id; unfold is_u32 in *; Z.to_euclidean_division_equations; lia).
  destruct (IH (i32 (n / base)) (tmp ++ [dig_at dig (n mod base)])) as (vs & E & Hd & Hv & Hl & Hlen).
  { apply i32_range. }
  { rewrite Eq. rewrite Nat2Z.inj_succ, Z.pow_succ_r in Hlt by lia.
    apply Z.le_lt_trans with (n / 2); [lia|]. apply Z.div_lt_upper_bound; lia. }
  exists (n mod base :: vs). rewrite E. split_and!.
  - by rewrite <-app_assoc.
  - constructor; [apply Z.mod_pos_bound; lia|done].
  - simpl. fold (lsd_value base vs). rewrite Hv, Eq. pose proof (Z.div_mod n base). lia.
  - intros _. destruct (decide (i32 (n / base) = 0)) as [Hz|Hnz].
    + assert (n / base = 0) as Hz' by (rewrite <-Eq, Hz; done).
      rewrite Eq, Hz' in Hv. destruct vs as [|v vs].
      * exists (n mod base). split; [done|]. pose proof (Z.div_mod n base). lia.
      * rewrite Hz in E. destruct fuel; simpl in E; apply (f_equal (@length Z)) in E;
          rewrite !length_app in E; simpl in E; lia.
    + destruct (Hl Hnz) as (d & Hd' & Hd0). exists d. destruct vs; [done|]. done.
  - simpl. lia.
Qed.

(** The text of [tmp], most significant digit first. *)
Lemma digits_numeral dig base num :
  2 <= base <= 36 -> is_i32 num -> dig_at dig 0 = 48 ->
  exists vs, rev (if num =? 0 then [48] else digit_loop 32 dig base num []) = map (dig_at dig) vs /\
    numeral base (u32 num) vs /\ (length vs <= 32)%nat.
Proof.
  intros Hb Hnum Hd0. destruct (Z.eqb_spec num 0) as [->|Hne].
  { exists [0]. simpl. rewrite Hd0. repeat split; try done; [|lia].
    constructor; [lia|constructor]. }
  destruct (digit_loop_spec 32 dig base num []) as (vs & E & Hd & Hv & Hl & Hlen);
    [done|done|pose proof (u32_range num); unfold is_u32 in *; lia|].
  exists (rev vs). rewrite E. simpl. rewrite map_rev. split; [done|].
  destruct (Hl Hne) as (d & Hlast & Hd1). split; [|by rewrite length_rev].
  assert (head (rev vs) = Some d) as Hhd.
  { apply last_Some in Hlast as [l ->]. by rewrite rev_app_distr. }
  split_and!.
  - intros Hn. by rewrite Hn in Hhd.
  - apply Forall_rev. done.
  - rewrite value_rev. done.
  - rewrite Hhd. congruence.
Qed.

Lemma dig_at_zero (b : bool) : dig_at (if b then upper_digits else digits) 0 = 48.
Proof. by destruct b. Qed.

(** ** The whole of [number] *)

(** The flags after [if (type & LEFT) type &= ~ZEROPAD]. *)
Lemma effective_flags type :
  let type' := if has type LEFT then Z.ldiff type ZEROPAD else type in
  has type' SIGN = has type SIGN /\ has type' PLUS = has type PLUS /\
  has type' SPACE = has type SPACE /\ has type' LEFT = has type LEFT /\
  has type' HEX_PREP = has type HEX_PREP /\
  has type' ZEROPAD = has type ZEROPAD && negb (has type LEFT).
Proof.
  simpl. destruct (has type LEFT) eqn:E.
  - change SIGN with (2 ^ 1). change PLUS with (2 ^ 2). change SPACE with (2 ^ 3).
    change LEFT with (2 ^ 4) in *. change HEX_PREP with (2 ^ 5).
    rewrite !has_clear_zeropad, has_cleared_zeropad, andb_false_r by lia. done.
  - rewrite andb_true_r. done.
Qed.

(** The sign branch of [number]: the character to print (0 for none), the value left to
    convert and the remaining width. *)
Lemma sign_branch type type' num size :
  is_i32 num -> -1000000000 <= size <= 1000000000 ->
  has type' SIGN = has type SIGN -> has type' PLUS = has type PLUS ->
  has type' SPACE = has type SPACE ->
  exists sign num',
    (if has type' SIGN then
      if num <? 0 then (45, i32 (- num), i32 (size - 1))
      else if has type' PLUS then (43, num, i32 (size - 1))
      else if has type' SPACE then (32, num, i32 (size - 1))
      else (0, num, size)
    else (0, num, size)) = (sign, num', size - zlen (sign_text num type)) /\
    (if sign =? 0 then [] else [sign]) = sign_text num type /\
    is_i32 num' /\ u32 num' = magnitude num type.
Proof.
  intros Hn Hs -> -> ->. unfold sign_text, magnitude, zlen.
  rewrite (i32_id (size - 1)) by (unfold is_i32; lia).
  pose proof (i32_range (- num)).
  destruct (has type SIGN); simpl;
    [destruct (Z.ltb_spec num 0); [|destruct (has type PLUS); [|destruct (has type SPACE)]]|];
    eexists _, _; (split; [f_equal; simpl; lia|]); (split; [done|]); (split; [done|]);
    simpl; try done.
  rewrite u32_i32. apply u32_id. unfold is_i32, is_u32 in *. lia.
Qed.

Lemma prefix_branch type base out :
  (if has type HEX_PREP then
     if base =? 8 then out ++ [48]
     else if base =? 16 then out ++ [48; dig_at digits 33] else out
   else out) = out ++ prefix_text base type.
Proof.
  unfold prefix_text. change (dig_at digits 33) with 120.
  destruct (has type HEX_PREP), (base =? 8), (base =? 16); by rewrite ?app_nil_r.
Qed.

Lemma prefix_size type base size :
  -1073741826 <= size <= 1073741824 ->
  (if has type HEX_PREP then
     if base =? 16 then i32 (size - 2) else if base =? 8 then i32 (size - 1) else size
   else size) = size - zlen (prefix_text base type).
Proof.
  intros Hs. unfold prefix_text, zlen.
  destruct (has type HEX_PREP); [|simpl; lia].
  destruct (Z.eqb_spec base 16), (Z.eqb_spec base 8); simpl; unwrap; lia.
Qed.

Lemma sign_text_len num type : zlen (sign_text num type) <= 1.
Proof.
  unfold sign_text, zlen.
  destruct (has type SIGN), (num <? 0), (has type PLUS), (has type SPACE); simpl; lia.
Qed.

Lemma prefix_text_len base type : zlen (prefix_text base type) <= 2.
Proof.
  unfold prefix_text, zlen.
  destruct (has type HEX_PREP), (base =? 8), (base =? 16); simpl; lia.
Qed.

(** The output phase of [number] lays [sgn], the prefix, the extended digits out. *)
Definition emit_number (type c sign base size precision : Z) (tmp : list Z) : list Z :=
  let i := Z.of_nat (length tmp) in
  let '(size, out) :=
    if negb (has type (Z.lor ZEROPAD LEFT)) then pad_while size 32 [] else (size, []) in
  let out := if sign =? 0 then out else out ++ [sign] in
  let out :=
    if has type HEX_PREP then
      if base =? 8 then out ++ [48]
      else if base =? 16 then out ++ [48; dig_at digits 33] else out
    else out in
  let '(size, out) := if negb (has type LEFT) then pad_while size c out else (size, out) in
  let '(_, out) := fill_while i precision 48 out in
  let out := emit_rev (length tmp) tmp out in
  let '(_, out) := pad_while size 32 out in
  out.

Lemma replicate_neg (z c : Z) : z <= 0 -> replicate (Z.to_nat z) c = [].
Proof. intros. by replace (Z.to_nat z) with 0%nat by lia. Qed.

Lemma emit_number_spec type zp sign sgn base size precision tmp :
  (if sign =? 0 then [] else [sign]) = sgn ->
  has type ZEROPAD = zp && negb (has type LEFT) ->
  -2147483640 < size < 2147483648 -> -2147483648 < precision < 2147483648 ->
  let fill := replicate (Z.to_nat size) in
  let body := replicate (Z.to_nat (precision - zlen tmp)) 48 ++ rev tmp in
  let pre := prefix_text base type in
  emit_number type (if has type ZEROPAD then 48 else 32) sign base size precision tmp =
    if has type LEFT then sgn ++ pre ++ body ++ fill 32
    else if zp then sgn ++ pre ++ fill 48 ++ body else fill 32 ++ sgn ++ pre ++ body.
Proof.
  intros Esg Ezp Hs Hp. simpl. unfold emit_number. rewrite has_lor.
  assert (forall out, (if sign =? 0 then out else out ++ [sign]) = out ++ sgn) as Eout.
  { intros out. rewrite <-Esg. destruct (sign =? 0); by rewrite ?app_nil_r. }
  rewrite Ezp.
  destruct (has type LEFT) eqn:EL, zp; simpl;
    repeat first [rewrite pad_while_spec by lia | rewrite Eout | rewrite prefix_branch
      | rewrite fill_while_spec by lia | rewrite emit_rev_spec by lia | rewrite firstn_all];
    fold (zlen tmp); rewrite <-?app_assoc; simpl;
    rewrite ?(replicate_neg (Z.min _ _ - 1)), ?(replicate_neg (Z.min _ _ - 1 - 1)) by lia;
    rewrite ?app_nil_r; try done.
Qed.

(** [number] is the digit phase followed by the output phase. *)
Lemma number_emit num base size precision type :
  2 <= base <= 36 -> is_i32 num ->
  -1000000000 <= size <= 1000000000 -> -1000000000 <= precision <= 1000000000 ->
  let type' := if has type LEFT then Z.ldiff type ZEROPAD else type in
  let dig := if has type UPPERCASE then upper_digits else digits in
  exists sign num',
    let tmp := if num' =? 0 then [48] else digit_loop 32 dig base num' [] in
    (if sign =? 0 then [] else [sign]) = sign_text num type /\
    is_i32 num' /\ u32 num' = magnitude num type /\ zlen tmp <= 32 /\
    number num base size precision type =
      Some (emit_number type' (if has type' ZEROPAD then 48 else 32) sign base
        (size - zlen (sign_text num type) - zlen (prefix_text base type)
          - Z.max (zlen tmp) precision) (Z.max (zlen tmp) precision) tmp).
Proof.
  intros Hb Hn Hs Hp type' dig. unfold number. fold type' dig.
  destruct (effective_flags type) as (F1 & F2 & F3 & F4 & F5 & F6).
  fold type' in F1, F2, F3, F4, F5, F6.
  destruct (sign_branch type type' num size) as (sign & num' & -> & Esign & Hn' & Hmag); [done..|].
  exists sign, num'. cbv zeta.
  destruct (digits_numeral dig base num') as (vs & Ets & Hvs & Hlen);
    [done|done|apply dig_at_zero|].
  set (tmp := if num' =? 0 then _ else _) in *.
  assert (zlen tmp <= 32) as Htmp.
  { unfold zlen. apply (f_equal (@length Z)) in Ets. rewrite length_rev, length_map in Ets. lia. }
  replace ((base <? 2) || (base >? 36)) with false
    by (symmetry; apply orb_false_iff; rewrite Z.gtb_ltb; split; apply Z.ltb_ge; lia).
  pose proof (sign_text_len num type). pose proof (prefix_text_len base type).
  pose proof (zlen_nonneg (sign_text num type)). pose proof (zlen_nonneg (prefix_text base type)).
  pose proof (zlen_nonneg tmp).
  rewrite F5, prefix_size by lia. rewrite <-F5. fold (zlen tmp).
  assert ((if zlen tmp >? precision then zlen tmp else precision) = Z.max (zlen tmp) precision)
    as -> by (bcase; lia).
  rewrite i32_id by (unfold is_i32; lia).
  split_and!; try done. unfold emit_number. fold (zlen tmp).
  repeat (case_match; simplify_eq; try done).
Qed.

(** What [number] prints, over the numeral of the magnitude. *)
Lemma number_layout num base size precision type :
  2 <= base <= 36 -> is_i32 num ->
  -1000000000 <= size <= 1000000000 -> -1000000000 <= precision <= 1000000000 ->
  exists vs, numeral base (magnitude num type) vs /\
    number num base size precision type =
      Some (layout type size (sign_text num type) (prefix_text base type)
        (number_body precision
           (map (dig_at (if has type UPPERCASE then upper_digits else digits)) vs))).
Proof.
  intros Hb Hn Hs Hp.
  destruct (number_emit num base size precision type) as (sign & num' & Esg & Hn' & Hmag & Ht & ->);
    [done..|].
  destruct (effective_flags type) as (F1 & F2 & F3 & F4 & F5 & F6).
  set (dig := if has type UPPERCASE then upper_digits else digits) in *.
  destruct (digits_numeral dig base num') as (vs & Ets & Hvs & Hlen);
    [done|done|apply dig_at_zero|].
  exists vs. split; [by rewrite <-Hmag|]. f_equal.
  set (tmp := if num' =? 0 then _ else _) in *.
  pose proof (sign_text_len num type). pose proof (prefix_text_len base type).
  pose proof (zlen_nonneg (sign_text num type)). pose proof (zlen_nonneg (prefix_text base type)).
  pose proof (zlen_nonneg tmp).
  erewrite emit_number_spec; [|done|rewrite F4; done|lia|lia].
  assert (prefix_text base (if has type LEFT then Z.ldiff type ZEROPAD else type) =
    prefix_text base type) as -> by (unfold prefix_text; by rewrite F5).
  rewrite F4. assert (zlen tmp = zlen (map (dig_at dig) vs)) as El
    by (rewrite <-Ets; unfold zlen; by rewrite length_rev).
  rewrite Ets, El. unfold layout, number_body. rewrite zlen_app, zlen_replicate.
  rewrite !(Z.max_comm _ precision).
  replace (Z.to_nat (Z.max precision (zlen (map (dig_at dig) vs)) - zlen (map (dig_at dig) vs)))
    with (Z.to_nat (precision - zlen (map (dig_at dig) vs))) by lia.
  replace (Z.of_nat (Z.to_nat (precision - zlen (map (dig_at dig) vs))) + zlen (map (dig_at dig) vs))
    with (Z.max precision (zlen (map (dig_at dig) vs))) by lia.
  done.
Qed.

(** The numeral of a number is unique: [numeral] determines the text. *)
Lemma value_app base vs ws :
  value base (vs ++ ws) = value base vs * base ^ zlen ws + value base ws.
Proof.
  unfold zlen. revert vs; induction ws as [|w ws IH] using rev_ind; intros vs.
  { rewrite app_nil_r. unfold value at 3. simpl. lia. }
  unfold value in *. rewrite app_assoc, fold_left_app, IH, (fold_left_app _ ws), length_app. simpl.
  replace (Z.of_nat (length ws + 1)) with (Z.succ (Z.of_nat (length ws))) by lia.
  rewrite Z.pow_succ_r by lia. ring.
Qed.

Lemma value_bounds base vs :
  2 <= base -> Forall (fun v => 0 <= v < base) vs -> 0 <= value base vs < base ^ zlen vs.
Proof.
  intros Hb. induction vs as [|v vs IH] using rev_ind; intros HF; [done|].
  apply Forall_app in HF as [HF Hv]. apply Forall_cons in Hv as [Hv _].
  specialize (IH HF).
  rewrite value_app, zlen_app. change (zlen [v]) with 1. change (value base [v]) with v.
  pose proof (zlen_nonneg vs). rewrite Z.pow_add_r, Z.pow_1_r by lia.
  generalize dependent (base ^ zlen vs). intros P HP.
  assert (value base vs * base <= (P - 1) * base) by (apply Z.mul_le_mono_nonneg_r; lia).
  split; [|lia]. apply Z.add_nonneg_nonneg; [apply Z.mul_nonneg_nonneg|]; lia.
Qed.

Lemma layout_length type size sgn pre body :
  zlen (layout type size sgn pre body) = Z.max size (zlen sgn + zlen pre + zlen body).
Proof.
  unfold layout. destruct (has type LEFT), (has type ZEROPAD);
    rewrite !zlen_app, zlen_replicate; pose proof (zlen_nonneg sgn);
    pose proof (zlen_nonneg pre); pose proof (zlen_nonneg body); lia.
Qed.

Lemma number_body_length precision ds : zlen (number_body precision ds) = Z.max precision (zlen ds).
Proof.
  unfold number_body. rewrite zlen_app, zlen_replicate. pose proof (zlen_nonneg ds). lia.
Qed.

(** ** [skip_atoi] reads back what [number] prints *)

Lemma dig_at_decimal v : 0 <= v < 10 -> dig_at digits v = 48 + v.
Proof.
  intros. assert (Forall (fun v => dig_at digits v = 48 + v) (seqZ 0 10)) as HF
    by (repeat constructor).
  rewrite Forall_forall in HF. apply HF, elem_of_seqZ. lia.
Qed.

Lemma skip_atoi_loop_digits vs i rest :
  Forall (fun v => 0 <= v < 10) vs -> 0 <= i ->
  fold_left (fun acc v => acc * 10 + v) vs i < 2147483600 ->
  skip_atoi_loop (map (dig_at digits) vs ++ rest) i =
    skip_atoi_loop rest (fold_left (fun acc v => acc * 10 + v) vs i).
Proof.
  revert i; induction vs as [|v vs IH]; intros i HF Hi Hb; [done|].
  apply Forall_cons in HF as [Hv HF]. simpl in *.
  assert (i * 10 + v <= fold_left (fun acc v => acc * 10 + v) vs (i * 10 + v)) as Hmono.
  { assert (0 <= i * 10 + v) as Hpos by lia.
    clear -HF Hpos. revert Hpos. generalize (i * 10 + v) as j.
    induction vs as [|w vs IH]; simpl; intros j Hj; [lia|].
    apply Forall_cons in HF as [Hw HF]. specialize (IH HF (j * 10 + w)). lia. }
  rewrite dig_at_decimal by done. unfold is_digit.
  replace ((48 <=? 48 + v) && (48 + v <=? 57)) with true by (bcase; simpl; lia).
  unwrap. replace (i * 10 + (48 + v) - 48) with (i * 10 + v) by lia. apply IH; try done. lia.
Qed.

Lemma skip_atoi_stop s i :
  match s with c :: _ => is_digit c = false | [] => True end -> skip_atoi_loop s i = (i, s).
Proof. destruct s as [|c s]; simpl; [done|]. by intros ->. Qed.

(** [skip_atoi] reads decimal numerals back. *)
Lemma skip_atoi_printed n rest out :
  0 <= n < 2147483600 -> match rest with c :: _ => is_digit c = false | [] => True end ->
  number n 10 (-1) (-1) 0 = Some out ->
  skip_atoi (out ++ rest) = (n, rest).
Proof.
  intros Hn Hrest Hout.
  destruct (digits_numeral digits 10 n) as (vs & Ets & (Hne & HF & Hv & Hh) & Hlen);
    [lia|unfold is_i32; lia|done|].
  destruct (number_emit n 10 (-1) (-1) 0) as (sign & num' & Esg & Hn' & Hmag & Ht & E);
    [lia|unfold is_i32; lia|lia|lia|].
  assert (num' = n) as ->.
  { unfold magnitude in Hmag. change (has 0 SIGN) with false in Hmag. simpl in Hmag.
    unfold is_i32 in *. word_lia. }
  rewrite E in Hout. apply (inj Some) in Hout as <-.
  change (has 0 LEFT) with false. change (has 0 UPPERCASE) with false in *. cbv iota in *.
  set (tmp := if n =? 0 then _ else _) in *. pose proof (zlen_nonneg tmp).
  change (sign_text n 0) with (@nil Z) in *. change (prefix_text 10 0) with (@nil Z).
  change (zlen []) with 0.
  erewrite (emit_number_spec 0 false); [|done|done|lia|lia].
  rewrite !replicate_neg by lia. simpl. rewrite Ets.
  unfold skip_atoi. fold (value 10 vs) in *. rewrite u32_id in Hv by (unfold is_u32; lia).
  rewrite skip_atoi_loop_digits; [|done|done|unfold value in Hv; lia].
  unfold value in Hv. rewrite Hv. by apply skip_atoi_stop.
Qed.

(** C24 (functional).  For every base from 2 to 36 and every 32-bit value, [number] prints
    sign, base prefix and the numeral of the magnitude in that base (zero-extended to the
    precision), laid out in the field as [LEFT] and [ZEROPAD] say; the most negative value
    included.  And [skip_atoi], which parses the widths and precisions of a format, reads back
    every non-negative number below 2147483600 that [number] prints in decimal, and stops at the
    first character that is not a digit. *)
Theorem number_prints :
  (forall num base size precision type,
     2 <= base <= 36 -> is_i32 num ->
     -1000000000 <= size <= 1000000000 -> -1000000000 <= precision <= 1000000000 ->
     exists vs, numeral base (magnitude num type) vs /\
       number num base size precision type =
         Some (layout type size (sign_text num type) (prefix_text base type)
           (number_body precision
              (map (dig_at (if has type UPPERCASE then upper_digits else digits)) vs)))) /\
  (forall n rest out,
     0 <= n < 2147483600 -> match rest with c :: _ => is_digit c = false | [] => True end ->
     number n 10 (-1) (-1) 0 = Some out -> skip_atoi (out ++ rest) = (n, rest)).
Proof. split; [apply number_layout|apply skip_atoi_printed]. Qed.

Lemma number_prints_witness :
  (exists vs, numeral 16 (magnitude (-1) 96) vs /\
    number (-1) 16 12 10 96 =
      Some (layout 96 12 (sign_text (-1) 96) (prefix_text 16 96)
        (number_body 10 (map (dig_at upper_digits) vs)))) /\
  number 1234567890 10 (-1) (-1) 0 = Some (chars "1234567890") /\
  skip_atoi (chars "1234567890" ++ chars ".5f") = (1234567890, chars ".5f").
Proof.
  split_and!.
  - apply (proj1 number_prints (-1) 16 12 10 96); unfold is_i32; lia.
  - reflexivity.
  - apply (proj2 number_prints 1234567890); [lia|reflexivity|reflexivity].
Defined.

(** ** Network addresses *)

(** A text in a field of [size] blanks, on the side [LEFT] says. *)
Definition blank_field (type size : Z) (text : list Z) : list Z :=
  let fill := replicate (Z.to_nat (size - zlen text)) 32 in
  if has type LEFT then text ++ fill else fill ++ text.

Lemma addr_layout_spec tmp size type :
  -2147483640 < size < 2147483648 -> zlen tmp < 2147483648 ->
  addr_layout tmp size type = blank_field type size tmp.
Proof.
  intros Hs Ht. unfold addr_layout, blank_field. fold (zlen tmp).
  pose proof (zlen_nonneg tmp).
  destruct (has type LEFT); simpl; rewrite !fill_while_spec by lia; [done|].
  rewrite (replicate_neg (Z.min size (zlen tmp) - 1 - zlen tmp)) by lia. by rewrite app_nil_r.
Qed.

(** The decimal numeral of an octet. *)
Definition octet_digits (n : Z) : list Z :=
  if n >=? 100 then [n / 100; n / 10 mod 10; n mod 10]
  else if n >=? 10 then [n / 10; n mod 10] else [n].

Lemma octet_text_numeral n :
  0 <= n < 256 ->
  octet_text n = map (dig_at digits) (octet_digits n) /\ numeral 10 n (octet_digits n) /\
  (length (octet_digits n) <= 3)%nat.
Proof.
  intros Hn. split; [|split].
  - assert ((n mod 100) / 10 = n / 10 mod 10) as E1
      by (Z.to_euclidean_division_equations; lia).
    assert ((n mod 100) mod 10 = n mod 10) as E2 by (Z.to_euclidean_division_equations; lia).
    unfold octet_text, octet_digits. bcase; try lia; subst; simpl; by rewrite ?E1, ?E2.
  - unfold octet_digits, numeral, value. bcase; simpl; (split; [done|]);
      rewrite ?Forall_cons, ?Forall_nil; split_and!; try done;
      try (Z.to_euclidean_division_equations; lia);
      (intros [=]; try (by f_equal); exfalso; Z.to_euclidean_division_equations; lia).
  - unfold octet_digits. bcase; simpl; lia.
Qed.

Definition dotted (a b c d : Z) : list Z :=
  octet_text a ++ [46] ++ octet_text b ++ [46] ++ octet_text c ++ [46] ++ octet_text d.

(** [iaddr] prints the four octets in canonical decimal (no leading zeros)
    separated by dots, in a field of blanks; the text is at most 15 characters and so fits the
    24-character [tmp]. *)
Lemma iaddr_prints a b c d size precision type :
  Forall (fun o => 0 <= o < 256) [a; b; c; d] -> -2147483640 < size < 2147483648 ->
  Forall (fun o => octet_text o = map (dig_at digits) (octet_digits o) /\
                   numeral 10 o (octet_digits o)) [a; b; c; d] /\
  zlen (dotted a b c d) <= 15 /\
  iaddr [a; b; c; d] size precision type = blank_field type size (dotted a b c d).
Proof.
  intros HF Hs. rewrite !Forall_cons in HF. destruct HF as (Ha & Hb & Hc & Hd & _).
  destruct (octet_text_numeral a Ha) as (? & ? & ?), (octet_text_numeral b Hb) as (? & ? & ?),
    (octet_text_numeral c Hc) as (? & ? & ?), (octet_text_numeral d Hd) as (? & ? & ?).
  split; [rewrite !Forall_cons, Forall_nil; tauto|].
  assert (zlen (dotted a b c d) <= 15) as Hlen.
  { unfold dotted, zlen. repeat match goal with H : octet_text _ = _ |- _ => rewrite H end.
    rewrite !length_app, !length_map. simpl. lia. }
  split; [done|]. unfold iaddr. rewrite addr_layout_spec; [|done|].
  - unfold dotted. simpl. by rewrite app_nil_r.
  - unfold dotted in Hlen. simpl in *. rewrite app_nil_r. lia.
Qed.

Lemma iaddr_prints_witness :
  iaddr [10; 0; 200; 99] 16 0 0 = blank_field 0 16 (dotted 10 0 200 99).
Proof. apply (iaddr_prints 10 0 200 99 16 0 0); [repeat (constructor; [lia|]); constructor|lia]. Defined.
