(* ===== verification/Vsprintf.v ===== *)
(** * Format strings: [ee_vsprintf] of [bsg_printf.c]

    The format interpreter over the formatting routines of [Printf].  [parse_flags],
    [parse_width], [parse_precision] and [parse_qualifier] are the four scanning phases of the
    loop body, [convert] its final [switch], [ee_vsprintf_loop] the loop.  The build leaves
    [HAS_FLOAT] at 0, so ['f'] is not a conversion.

    The [va_list] is the list of the arguments the caller passed.  [va_arg] at a wrong type or
    past the end is undefined behaviour, as is an address shorter than the conversion reads:
    the outcome is then [Undefined].  [Unfinished] is the model running out of fuel, which
    [ee_vsprintf_ends] excludes. *)

From Stdlib Require Import Ascii String.
From S2P Require Import Prelude Printf.
#[local] Abbreviation length := Datatypes.length.
#[local] Abbreviation concat := List.concat.
Local Open Scope Z_scope.

Inductive outcome (A : Type) : Type :=
| Ok (a : A)
| Undefined
| Unfinished.
Arguments Ok {A} a.
Arguments Undefined {A}.
Arguments Unfinished {A}.

(** An argument: a 32-bit integer of either signedness, a [char *] (possibly null), a [void *],
    an [unsigned char *] with the bytes it points to. *)
Inductive arg : Type :=
| AInt (z : Z)
| AStr (s : option (list Z))
| APtr (p : Z)
| ABytes (b : list Z).

Definition va_arg_int (args : list arg) : option (Z * list arg) :=
  match args with AInt z :: args => Some (z, args) | _ => None end.

Definition va_arg_str (args : list arg) : option (option (list Z) * list arg) :=
  match args with AStr s :: args => Some (s, args) | _ => None end.

Definition va_arg_ptr (args : list arg) : option (Z * list arg) :=
  match args with APtr p :: args => Some (p, args) | _ => None end.

Definition va_arg_bytes (n : nat) (args : list arg) : option (list Z * list arg) :=
  match args with
  | ABytes b :: args => if (n <=? length b)%nat then Some (b, args) else None
  | _ => None
  end.

(** ** The phases of the loop body *)

(** [repeat: fmt++; switch ( *fmt) ...], with [fmt] already advanced. *)
Fixpoint parse_flags (fmt : list Z) (flags : Z) : Z * list Z :=
  match fmt with
  | c :: fmt' =>
      if c =? 45 then parse_flags fmt' (Z.lor flags LEFT)
      else if c =? 43 then parse_flags fmt' (Z.lor flags PLUS)
      else if c =? 32 then parse_flags fmt' (Z.lor flags SPACE)
      else if c =? 35 then parse_flags fmt' (Z.lor flags HEX_PREP)
      else if c =? 48 then parse_flags fmt' (Z.lor flags ZEROPAD)
      else (flags, fmt)
  | [] => (flags, [])
  end.

(** The field width, the flags, and what is left of the format and of the arguments. *)
Definition parse_width (fmt : list Z) (flags : Z) (args : list arg)
  : option (Z * Z * list Z * list arg) :=
  match fmt with
  | c :: fmt' =>
      if is_digit c then let '(w, rest) := skip_atoi fmt in Some (w, flags, rest, args)
      else if c =? 42 then
        '(w, args) ← va_arg_int args;
        Some (if w <? 0 then (i32 (- w), Z.lor flags LEFT, fmt', args) else (w, flags, fmt', args))
      else Some (-1, flags, fmt, args)
  | [] => Some (-1, flags, fmt, args)
  end.

Definition parse_precision (fmt : list Z) (args : list arg) : option (Z * list Z * list arg) :=
  match fmt with
  | 46 :: fmt =>
      '(p, fmt, args) ←
        match fmt with
        | c :: fmt' =>
            if is_digit c then let '(p, rest) := skip_atoi fmt in Some (p, rest, args)
            else if c =? 42 then '(p, args) ← va_arg_int args; Some (p, fmt', args)
            else Some (-1, fmt, args)
        | [] => Some (-1, fmt, args)
        end;
      Some (if p <? 0 then 0 else p, fmt, args)
  | _ => Some (-1, fmt, args)
  end.

Definition parse_qualifier (fmt : list Z) : Z * list Z :=
  match fmt with
  | c :: fmt' => if (c =? 108) || (c =? 76) then (c, fmt') else (-1, fmt)
  | [] => (-1, fmt)
  end.

(** [while (--field_width > 0) *str++ = ' ';] *)
Fixpoint pre_pad_loop (fuel : nat) (size : Z) (out : list Z) : Z * list Z :=
  match fuel with
  | O => (size, out)
  | S fuel =>
      let size := i32 (size - 1) in
      if size >? 0 then pre_pad_loop fuel size (out ++ [32]) else (size, out)
  end.

Definition pre_pad_while (size : Z) (out : list Z) : Z * list Z :=
  pre_pad_loop (S (Z.to_nat (i32 (size - 1)))) size out.

Definition format_char (c field_width flags : Z) : list Z :=
  let '(field_width, out) :=
    if negb (has flags LEFT) then pre_pad_while field_width [] else (field_width, []) in
  let out := out ++ [u8 c] in
  let '(_, out) := pre_pad_while field_width out in
  out.

Definition format_string (s : option (list Z)) (field_width precision flags : Z) : list Z :=
  let s := match s with Some s => s | None => chars "<NULL>" end in
  let len := strnlen s precision in
  let '(field_width, out) :=
    if negb (has flags LEFT) then fill_while len field_width 32 [] else (field_width, []) in
  let out := out ++ take (Z.to_nat len) s in
  let '(_, out) := fill_while len field_width 32 out in
  out.

(** An integer conversion: the part after the [switch].  [int], [unsigned] and
    [unsigned long] arguments are all one 32-bit word, and [number] takes a [long]. *)
Definition format_integer (base field_width precision flags : Z) (args : list arg)
  : option (list Z * list arg) :=
  '(num, args) ← va_arg_int args;
  text ← number (i32 num) base field_width precision flags;
  Some (text, args).

(** [switch ( *fmt)]: the characters appended and the arguments left.  [c] is 0 at the end. *)
Definition convert (c field_width precision qualifier flags : Z) (args : list arg)
  : option (list Z * list arg) :=
  if c =? 99 then
    '(ch, args) ← va_arg_int args; Some (format_char ch field_width flags, args)
  else if c =? 115 then
    '(s, args) ← va_arg_str args; Some (format_string s field_width precision flags, args)
  else if c =? 112 then
    let '(field_width, flags) :=
      if field_width =? -1 then (8, Z.lor flags ZEROPAD) else (field_width, flags) in
    '(p, args) ← va_arg_ptr args;
    text ← number (i32 p) 16 field_width precision flags;
    Some (text, args)
  else if (c =? 65) || (c =? 97) then
    let flags := if c =? 65 then Z.lor flags UPPERCASE else flags in
    if qualifier =? 108 then
      '(b, args) ← va_arg_bytes 6 args; Some (eaddr b field_width precision flags, args)
    else
      '(b, args) ← va_arg_bytes 4 args; Some (iaddr b field_width precision flags, args)
  else if c =? 111 then format_integer 8 field_width precision flags args
  else if c =? 88 then format_integer 16 field_width precision (Z.lor flags UPPERCASE) args
  else if c =? 120 then format_integer 16 field_width precision flags args
  else if (c =? 100) || (c =? 105) then
    format_integer 10 field_width precision (Z.lor flags SIGN) args
  else if c =? 117 then format_integer 10 field_width precision flags args
  else Some ((if c =? 37 then [] else [37]) ++ (if c =? 0 then [] else [c]), args).

(** One conversion, from after its ['%']. *)
Definition directive (fmt : list Z) (args : list arg) : option (list Z * list Z * list arg) :=
  let '(flags, fmt) := parse_flags fmt 0 in
  '(field_width, flags, fmt, args) ← parse_width fmt flags args;
  '(precision, fmt, args) ← parse_precision fmt args;
  let '(qualifier, fmt) := parse_qualifier fmt in
  '(text, args) ← convert (hd 0 fmt) field_width precision qualifier flags args;
  Some (text, tail fmt, args).

Fixpoint ee_vsprintf_loop (fuel : nat) (fmt : list Z) (args : list arg) (str : list Z)
  : outcome (list Z) :=
  match fuel with
  | O => Unfinished
  | S fuel =>
      match fmt with
      | [] => Ok str
      | c :: fmt =>
          if negb (c =? 37) then ee_vsprintf_loop fuel fmt args (str ++ [c])
          else
            match directive fmt args with
            | Some (text, fmt, args) => ee_vsprintf_loop fuel fmt args (str ++ text)
            | None => Undefined
            end
      end
  end.

(** The characters written to [buf] before the final NUL. *)
Definition ee_vsprintf (fmt : list Z) (args : list arg) : outcome (list Z) :=
  ee_vsprintf_loop (S (length fmt)) fmt args [].

Example ee_vsprintf_ex1 :
  ee_vsprintf (chars "x=%-5d|%#06x|%s|%c%%") [AInt (-3); AInt 255; AStr None; AInt 65]
    = Ok (chars "x=-3   |0x00ff|<NULL>|A%").
Proof. reflexivity. Qed.
Example ee_vsprintf_ex2 :
  ee_vsprintf (chars "%*.*s|%p|%f %q%") [AInt (-6); AInt 2; AStr (Some (chars "abcdef")); APtr 4096]
    = Ok (chars "ab    |00001000|%f %q%").
Proof. reflexivity. Qed.
Example ee_vsprintf_ex3 : ee_vsprintf (chars "%d") [] = Undefined.
Proof. reflexivity. Qed.

(** ** Specification: a format is a list of items *)

Inductive flag : Type := FMinus | FPlus | FSpace | FHash | FZero.

Definition flag_char (f : flag) : Z :=
  match f with FMinus => 45 | FPlus => 43 | FSpace => 32 | FHash => 35 | FZero => 48 end.

Definition flag_bit (f : flag) : Z :=
  match f with
  | FMinus => LEFT | FPlus => PLUS | FSpace => SPACE | FHash => HEX_PREP | FZero => ZEROPAD
  end.

Inductive width : Type := WNone | WNum (n : Z) | WStar (z : Z).

Inductive prec : Type := PNone | PDot | PNum (n : Z) | PStar (z : Z).

Inductive conversion : Type :=
| CChar (c : Z)
| CStr (s : option (list Z))
| CPtr (p : Z)
| COct (z : Z)
| CHex (upper : bool) (z : Z)
| CDec (i : bool) (z : Z)
| CUns (z : Z)
| CInet (upper : bool) (b : list Z)
| CEther (upper : bool) (b : list Z).

Inductive item : Type :=
| Lit (c : Z)
| Percent
| Conv (fs : list flag) (w : width) (p : prec) (long : bool) (cv : conversion).

(** The decimal text of a number. *)
Definition decimal (n : Z) : list Z :=
  match number n 10 (-1) (-1) 0 with Some t => t | None => [] end.

(** The characters of an item in a format, and the arguments it takes. *)
Definition show_width (w : width) : list Z :=
  match w with WNone => [] | WNum n => decimal n | WStar _ => [42] end.

Definition show_prec (p : prec) : list Z :=
  match p with PNone => [] | PDot => [46] | PNum n => 46 :: decimal n | PStar _ => [46; 42] end.

Definition conversion_char (cv : conversion) : Z :=
  match cv with
  | CChar _ => 99 | CStr _ => 115 | CPtr _ => 112 | COct _ => 111
  | CHex upper _ => if upper then 88 else 120
  | CDec i _ => if i then 105 else 100
  | CUns _ => 117
  | CInet upper _ | CEther upper _ => if upper then 65 else 97
  end.

Definition is_ether (cv : conversion) : bool :=
  match cv with CEther _ _ => true | _ => false end.

Definition show_item (it : item) : list Z :=
  match it with
  | Lit c => [c]
  | Percent => [37; 37]
  | Conv fs w p long cv =>
      [37] ++ map flag_char fs ++ show_width w ++ show_prec p ++
      (if long then [108] else []) ++ [conversion_char cv]
  end.

Definition conversion_arg (cv : conversion) : arg :=
  match cv with
  | CChar z | COct z | CHex _ z | CDec _ z | CUns z => AInt z
  | CStr s => AStr s
  | CPtr p => APtr p
  | CInet _ b | CEther _ b => ABytes b
  end.

Definition item_args (it : item) : list arg :=
  match it with
  | Conv _ w p _ cv =>
      match w with WStar z => [AInt z] | _ => [] end ++
      match p with PStar z => [AInt z] | _ => [] end ++ [conversion_arg cv]
  | _ => []
  end.

(** The values the four phases extract. *)
Definition flag_word (fs : list flag) : Z :=
  fold_left (fun acc f => Z.lor acc (flag_bit f)) fs 0.

Definition width_flags (w : width) (flags : Z) : Z :=
  match w with WStar z => if z <? 0 then Z.lor flags LEFT else flags | _ => flags end.

Definition width_value (w : width) : Z :=
  match w with WNone => -1 | WNum n => n | WStar z => Z.abs z end.

Definition prec_value (p : prec) : Z :=
  match p with PNone => -1 | PDot => 0 | PNum n => n | PStar z => Z.max 0 z end.

(** [text] is the integer [num] as [%]-conversions print it. *)
Definition prints_integer (base num size precision flags : Z) (text : list Z) : Prop :=
  exists vs, numeral base (magnitude num flags) vs /\
    text = layout flags size (sign_text num flags) (prefix_text base flags)
      (number_body precision
         (map (dig_at (if has flags UPPERCASE then upper_digits else digits)) vs)).

Definition ether_text (dig b : list Z) : list Z := eaddr_text dig b 0 6.

(** [text] is what one conversion prints. *)
Definition prints (cv : conversion) (size precision flags : Z) (text : list Z) : Prop :=
  match cv with
  | CChar c => text = blank_field flags size [u8 c]
  | CStr s =>
      let s := match s with Some s => s | None => chars "<NULL>" end in
      text = blank_field flags size (if precision <? 0 then s else take (Z.to_nat precision) s)
  | CPtr p =>
      if size =? -1 then prints_integer 16 (i32 p) 8 precision (Z.lor flags ZEROPAD) text
      else prints_integer 16 (i32 p) size precision flags text
  | COct z => prints_integer 8 (i32 z) size precision flags text
  | CHex upper z =>
      prints_integer 16 (i32 z) size precision (if upper then Z.lor flags UPPERCASE else flags) text
  | CDec _ z => prints_integer 10 (i32 z) size precision (Z.lor flags SIGN) text
  | CUns z => prints_integer 10 (i32 z) size precision flags text
  | CInet _ b => text = blank_field flags size (iaddr_text b 0 4)
  | CEther upper b =>
      let flags := if upper then Z.lor flags UPPERCASE else flags in
      text = blank_field flags size
        (ether_text (if has flags UPPERCASE then upper_digits else digits) b)
  end.

Definition item_prints (it : item) (text : list Z) : Prop :=
  match it with
  | Lit c => text = [c]
  | Percent => text = [37]
  | Conv fs w p _ cv =>
      prints cv (width_value w) (prec_value p) (width_flags w (flag_word fs)) text
  end.

(** Well-formed items: literals other than ['%'] and NUL, fields below 10^9, strings without
    NUL, addresses with their bytes, and [l] exactly for the Ethernet form of [%a]. *)
Definition wf_width (w : width) : Prop :=
  match w with WNone => True | WNum n => 1 <= n <= 1000000000 | WStar z => Z.abs z <= 1000000000 end.

Definition wf_prec (p : prec) : Prop :=
  match p with
  | PNone | PDot => True | PNum n => 0 <= n <= 1000000000 | PStar z => Z.abs z <= 1000000000
  end.

Definition wf_conversion (long : bool) (cv : conversion) : Prop :=
  match cv with
  | CStr (Some s) => Forall (fun c => c <> 0) s /\ zlen s < 2147483648
  | CInet _ b => (4 <= length b)%nat /\ Forall (fun o => 0 <= o < 256) b /\ long = false
  | CEther _ b => (6 <= length b)%nat /\ Forall (fun o => 0 <= o < 256) b /\ long = true
  | _ => True
  end.

Definition wf_item (it : item) : Prop :=
  match it with
  | Lit c => c <> 37 /\ c <> 0
  | Percent => True
  | Conv _ w p long cv => wf_width w /\ wf_prec p /\ wf_conversion long cv
  end.

(** ** The phases read back the parts of an item *)

Lemma decimal_digits n :
  0 <= n <= 1000000000 ->
  number n 10 (-1) (-1) 0 = Some (decimal n) /\
  exists vs, numeral 10 n vs /\ decimal n = map (dig_at digits) vs.
Proof.
  intros Hn. destruct (number_layout n 10 (-1) (-1) 0) as (vs & Hvs & E);
    [lia|unfold is_i32; lia|lia|lia|].
  unfold decimal. rewrite E. split; [done|]. exists vs. split.
  - unfold magnitude in Hvs. change (has 0 SIGN) with false in Hvs. simpl in Hvs.
    by rewrite u32_id in Hvs by (unfold is_u32; lia).
  - change (sign_text n 0) with (@nil Z). change (prefix_text 10 0) with (@nil Z).
    unfold layout. change (has 0 LEFT) with false. change (has 0 ZEROPAD) with false.
    change (has 0 UPPERCASE) with false. cbv iota. unfold number_body.
    change (zlen []) with 0. rewrite !zlen_app, zlen_replicate.
    pose proof (zlen_nonneg (map (dig_at digits) vs)).
    by rewrite !replicate_neg by lia.
Qed.

(** The decimal text of a width or precision starts with a digit (a non-zero one for a
    non-zero number) and is read back by [skip_atoi]. *)
Lemma decimal_spec n :
  0 <= n <= 1000000000 ->
  exists c t, decimal n = c :: t /\ is_digit c = true /\ (1 <= n -> c <> 48) /\
    forall rest, match rest with c :: _ => is_digit c = false | [] => True end ->
      skip_atoi (decimal n ++ rest) = (n, rest).
Proof.
  intros Hn. destruct (decimal_digits n Hn) as (E & [|v vs] & (Hne & HF & Hv & Hh) & Ed); [done|].
  pose proof HF as Hds. apply Forall_cons in HF as [Hv0 HF].
  exists (dig_at digits v), (map (dig_at digits) vs). split; [done|].
  rewrite dig_at_decimal by done. split; [unfold is_digit; bcase; simpl; lia|].
  split.
  - intros Hn1 Hz. assert (v = 0) as -> by lia. injection (Hh eq_refl) as ->.
    unfold value in Hv. simpl in Hv. lia.
  - intros rest Hrest. apply skip_atoi_printed; [lia|done|done].
Qed.

(** The characters that can follow a phase: none of those it consumes. *)
Definition after_flags (fmt : list Z) : Prop :=
  match fmt with c :: _ => c ∉ map flag_char [FMinus; FPlus; FSpace; FHash; FZero] | [] => True end.

Definition after_number (fmt : list Z) : Prop :=
  match fmt with c :: _ => is_digit c = false /\ c <> 42 | [] => True end.

Lemma parse_flags_show fs rest flags :
  after_flags rest ->
  parse_flags (map flag_char fs ++ rest) flags =
    (fold_left (fun acc f => Z.lor acc (flag_bit f)) fs flags, rest).
Proof.
  intros Hr. revert flags; induction fs as [|f fs IH]; intros flags; simpl.
  - destruct rest as [|c rest]; [done|]. simpl in *.
    rewrite !not_elem_of_cons in Hr. destruct Hr as (? & ? & ? & ? & ? & _). by bcase.
  - by destruct f; simpl.
Qed.

Lemma parse_width_show w rest flags args :
  wf_width w -> after_number rest ->
  parse_width (show_width w ++ rest) flags
    (match w with WStar z => [AInt z] | _ => [] end ++ args) =
    Some (width_value w, width_flags w flags, rest, args).
Proof.
  intros Hw Hr. destruct w as [|n|z]; simpl in *.
  - destruct rest as [|c rest]; [done|]. destruct Hr as [Hd Hs]. simpl. rewrite Hd. by bcase.
  - destruct (decimal_spec n) as (c & t & E & Hd & _ & Hs); [lia|].
    rewrite E. simpl. rewrite Hd. rewrite (app_comm_cons t rest c), <-E, Hs; [done|].
    by destruct rest; [|destruct Hr].
  - bcase; [rewrite i32_id by (unfold is_i32; lia)|]; do 4 f_equal; lia.
Qed.

Lemma parse_precision_show p rest args :
  wf_prec p -> after_number rest -> hd 0 rest <> 46 ->
  parse_precision (show_prec p ++ rest) (match p with PStar z => [AInt z] | _ => [] end ++ args) =
    Some (prec_value p, rest, args).
Proof.
  intros Hp Hr H46. destruct p as [| |n|z]; simpl in *.
  - unfold parse_precision. repeat case_match; try done; by simplify_eq/=.
  - destruct rest as [|c rest]; [done|]. destruct Hr as [Hd Hs]. simpl. rewrite Hd. by bcase.
  - destruct (decimal_spec n) as (c & t & E & Hd & _ & Hs); [lia|].
    rewrite E. simpl. rewrite Hd. rewrite (app_comm_cons t rest c), <-E, Hs; simpl; [bcase; lia || done|].
    by destruct rest; [|destruct Hr].
  - bcase; do 3 f_equal; lia.
Qed.

(** ** Each conversion prints what the specification says *)

Lemma pre_pad_loop_spec fuel size out :
  (Z.to_nat (size - 1) < fuel)%nat -> -2147483647 <= size < 2147483648 ->
  pre_pad_loop fuel size out = (Z.min (size - 1) 0, out ++ replicate (Z.to_nat (size - 1)) 32).
Proof.
  revert size out; induction fuel as [|fuel IH]; intros size out Hf Hs; [lia|].
  simpl. rewrite i32_id by (unfold is_i32; lia). rewrite Z.gtb_ltb.
  destruct (Z.ltb_spec 0 (size - 1)).
  - rewrite IH by lia. rewrite <-app_assoc.
    replace (Z.to_nat (size - 1)) with (S (Z.to_nat (size - 1 - 1))) by lia. f_equal. lia.
  - rewrite replicate_neg, app_nil_r by lia. f_equal. lia.
Qed.

Lemma pre_pad_while_spec size out :
  -2147483647 <= size < 2147483648 ->
  pre_pad_while size out = (Z.min (size - 1) 0, out ++ replicate (Z.to_nat (size - 1)) 32).
Proof.
  intros. unfold pre_pad_while. rewrite i32_id by (unfold is_i32; lia).
  apply pre_pad_loop_spec; lia.
Qed.

Lemma format_char_spec c size flags :
  -1 <= size <= 1000000000 -> format_char c size flags = blank_field flags size [u8 c].
Proof.
  intros Hs. unfold format_char, blank_field. change (zlen [u8 c]) with 1.
  destruct (has flags LEFT); simpl; rewrite !pre_pad_while_spec by lia; [done|].
  simpl. rewrite (replicate_neg (Z.min _ _ - 1)) by lia. by rewrite app_nil_r.
Qed.

(** [strnlen] of a NUL-free string: everything for a negative count, at most the count
    otherwise. *)
Lemma strnlen_loop_spec s count n :
  Forall (fun c => c <> 0) s -> zlen s < 2147483648 -> -1 <= count < 2147483648 ->
  strnlen_loop s count n = n + (if count <? 0 then zlen s else Z.min count (zlen s)).
Proof.
  assert (forall s count n, Forall (fun c => c <> 0) s ->
    -2147483648 + zlen s <= count < 0 -> strnlen_loop s count n = n + zlen s) as Hneg.
  { clear. intros s; induction s as [|c s IH]; intros count n HF Hc; simpl.
    - unfold zlen. simpl. lia.
    - apply Forall_cons in HF as [Hc0 HF]. unfold zlen in *. simpl in *.
      destruct (Z.eqb_spec c 0), (Z.eqb_spec count 0); simpl; try lia.
      rewrite i32_id by (unfold is_i32; lia). rewrite IH; [lia|done|lia]. }
  intros HF Hl Hc. destruct (Z.ltb_spec count 0).
  { apply Hneg; [done|lia]. }
  revert count n Hc H. induction s as [|c s IH]; intros count n Hc H; simpl.
  { unfold zlen. simpl. lia. }
  apply Forall_cons in HF as [Hc0 HF]. unfold zlen in *. simpl in *.
  destruct (Z.eqb_spec c 0), (Z.eqb_spec count 0); simpl; try lia.
  rewrite i32_id by (unfold is_i32; lia). rewrite IH; [lia|done|lia|lia|lia].
Qed.

Lemma format_string_spec os size precision flags :
  (let s := match os with Some s => s | None => chars "<NULL>" end in
   Forall (fun c => c <> 0) s /\ zlen s < 2147483648) ->
  -1 <= size <= 1000000000 -> -1 <= precision <= 1000000000 ->
  format_string os size precision flags = blank_field flags size
    (let s := match os with Some s => s | None => chars "<NULL>" end in
     if precision <? 0 then s else take (Z.to_nat precision) s).
Proof.
  unfold format_string. set (s := match os with Some s => s | None => _ end). simpl.
  intros [HF Hl] Hs Hp. unfold strnlen. rewrite strnlen_loop_spec by (done || lia).
  set (t := if precision <? 0 then s else take (Z.to_nat precision) s).
  set (len := 0 + _). pose proof (zlen_nonneg s).
  assert (zlen t = len /\ take (Z.to_nat len) s = t) as [Et ->].
  { subst t len. unfold zlen in *. destruct (Z.ltb_spec precision 0).
    - rewrite Z.add_0_l, Nat2Z.id. by rewrite firstn_all.
    - rewrite Z.add_0_l, length_take. split; [lia|].
      destruct (Z.le_ge_cases precision (Z.of_nat (length s))).
      + by rewrite Z.min_l by lia.
      + rewrite Z.min_r by lia. rewrite !take_ge by lia. done. }
  assert (0 <= len < 2147483648) by (subst len; destruct (Z.ltb_spec precision 0); lia).
  unfold blank_field. rewrite Et.
  destruct (has flags LEFT); simpl; rewrite !fill_while_spec by lia; [done|].
  rewrite (replicate_neg (Z.min size len - 1 - len)) by lia. by rewrite app_nil_r.
Qed.

Lemma number_prints_integer base num size precision flags :
  2 <= base <= 36 -> is_i32 num -> -1 <= size <= 1000000000 -> -1 <= precision <= 1000000000 ->
  exists text, number num base size precision flags = Some text /\
    prints_integer base num size precision flags text.
Proof.
  intros. destruct (number_layout num base size precision flags) as (vs & Hvs & E); [lia|done|lia..|].
  eexists. split; [exact E|]. by exists vs.
Qed.

Lemma format_integer_spec base z size precision flags args :
  2 <= base <= 36 -> -1 <= size <= 1000000000 -> -1 <= precision <= 1000000000 ->
  exists text, format_integer base size precision flags (AInt z :: args) = Some (text, args) /\
    prints_integer base (i32 z) size precision flags text.
Proof.
  intros Hb Hs Hp. unfold format_integer. simpl.
  destruct (number_prints_integer base (i32 z) size precision flags) as (text & E & H);
    [lia|apply i32_range|lia..|].
  rewrite E. simpl. eauto.
Qed.

Lemma va_arg_bytes_ok n b args :
  (n <= length b)%nat -> va_arg_bytes n (ABytes b :: args) = Some (b, args).
Proof. intros H. simpl. by apply Nat.leb_le in H as ->. Qed.

Lemma has_lor_uppercase flags : has (Z.lor flags UPPERCASE) LEFT = has flags LEFT.
Proof.
  change LEFT with (2 ^ 4). rewrite !has_pow2 by lia. rewrite Z.lor_spec.
  change UPPERCASE with (2 ^ 6). rewrite Z.pow2_bits_eqb by lia. by rewrite orb_false_r.
Qed.

Lemma blank_field_uppercase flags size text (upper : bool) :
  blank_field (if upper then Z.lor flags UPPERCASE else flags) size text =
    blank_field flags size text.
Proof. unfold blank_field. destruct upper; by rewrite ?has_lor_uppercase. Qed.

Lemma octet_text_len n : 0 <= n < 256 -> (length (octet_text n) <= 3)%nat.
Proof.
  intros Hn. destruct (octet_text_numeral n Hn) as (-> & _ & H). by rewrite length_map.
Qed.

Lemma iaddr_text_len b :
  Forall (fun o => 0 <= o < 256) b -> (length (iaddr_text b 0 4) <= 15)%nat.
Proof.
  intros HF. assert (forall i, (length (octet_text (nth i b 0%Z)) <= 3)%nat) as Hoct.
  { intros i. apply octet_text_len. destruct (nth_lookup_or_length b i 0) as [E|E].
    - exact (Forall_lookup_1 _ _ _ _ HF E).
    - rewrite nth_overflow; lia. }
  pose proof (Hoct 0%nat); pose proof (Hoct 1%nat); pose proof (Hoct 2%nat);
    pose proof (Hoct 3%nat).
  cbn [iaddr_text Nat.eqb app]. rewrite !length_app. cbn [length app].
  rewrite !length_app. cbn [length app]. rewrite !length_app. cbn [length app].
  rewrite !length_app. simpl. lia.
Qed.

Lemma convert_spec cv long size precision flags args :
  wf_conversion long cv -> -1 <= size <= 1000000000 -> -1 <= precision <= 1000000000 ->
  exists text,
    convert (conversion_char cv) size precision (if long then 108 else -1) flags
      (conversion_arg cv :: args) = Some (text, args) /\
    prints cv size precision flags text.
Proof.
  intros Hwf Hs Hp. destruct cv as [c|s|p|z|[] z|[] z|z|upper b|upper b];
    try (apply format_integer_spec; lia).
  - eexists. split; [done|]. by apply format_char_spec.
  - eexists. split; [done|]. apply format_string_spec; [|done|done].
    destruct s as [s|]; [done|]. split; [repeat (constructor; [done|]); constructor|done].
  - unfold convert. simpl. destruct (Z.eqb_spec size (-1)).
    + destruct (number_prints_integer 16 (i32 p) 8 precision (Z.lor flags ZEROPAD)) as (text & E & H);
        [lia|apply i32_range|lia..|]. rewrite E. simpl. eauto.
    + destruct (number_prints_integer 16 (i32 p) size precision flags) as (text & E & H);
        [lia|apply i32_range|lia..|]. rewrite E. simpl. eauto.
  - destruct Hwf as (Hlen & HF & ->). eexists.
    pose proof (iaddr_text_len b HF).
    change (conversion_arg (CInet upper b)) with (ABytes b).
    split; [unfold convert; rewrite (va_arg_bytes_ok 4 b) by lia; destruct upper; reflexivity|].
    unfold iaddr. rewrite addr_layout_spec by (unfold zlen; lia).
    destruct upper; [apply (blank_field_uppercase flags size _ true)|done].
  - destruct Hwf as (Hlen & HF & ->). eexists.
    change (conversion_arg (CEther upper b)) with (ABytes b).
    split; [unfold convert; rewrite (va_arg_bytes_ok 6 b) by lia; destruct upper; reflexivity|].
    unfold eaddr. rewrite addr_layout_spec by (unfold zlen; simpl; lia). by destruct upper.
Qed.

(** ** The loop ends *)

Lemma skip_atoi_suffix s i : (length (skip_atoi_loop s i).2 <= length s)%nat.
Proof.
  revert i; induction s as [|c s IH]; intros i; simpl; [lia|].
  destruct (is_digit c); simpl; [|lia]. specialize (IH (i32 (i32 (i32 (i * 10) + c) - 48))). lia.
Qed.

Lemma parse_flags_suffix fmt flags : (length (parse_flags fmt flags).2 <= length fmt)%nat.
Proof.
  revert flags; induction fmt as [|c fmt IH]; intros flags; simpl; [lia|].
  repeat case_match; simpl; try lia; etransitivity; [apply IH|lia | apply IH|lia|apply IH|lia|apply IH|lia|apply IH|lia].
Qed.

Lemma parse_width_suffix fmt flags args w flags' fmt' args' :
  parse_width fmt flags args = Some (w, flags', fmt', args') -> (length fmt' <= length fmt)%nat.
Proof.
  unfold parse_width. destruct fmt as [|c fmt]; [intros [=]; by subst|].
  destruct (is_digit c).
  - pose proof (skip_atoi_suffix (c :: fmt) 0). unfold skip_atoi.
    destruct (skip_atoi_loop _ _). intros [=]; by subst.
  - destruct (c =? 42); [|intros [=]; by subst].
    destruct (va_arg_int args) as [[z args1]|]; [|done]. simpl.
    destruct (z <? 0); intros [=]; subst; simpl; lia.
Qed.

Lemma parse_precision_suffix fmt args p fmt' args' :
  parse_precision fmt args = Some (p, fmt', args') -> (length fmt' <= length fmt)%nat.
Proof.
  intros H. destruct fmt as [|c fmt]; [by injection H as <- <- <-|].
  destruct (decide (c = 46)) as [->|Hc].
  - simpl in H. destruct fmt as [|c fmt]; [by injection H as <- <- <-; simpl; lia|].
    destruct (is_digit c) eqn:Hd.
    + pose proof (skip_atoi_suffix (c :: fmt) 0). unfold skip_atoi in H.
      destruct (skip_atoi_loop _ _). simpl in *. injection H as <- <- <-. simpl in *. lia.
    + destruct (c =? 42).
      * destruct (va_arg_int args) as [[z args1]|]; [|done]. simpl in *. injection H as <- <- <-. lia.
      * injection H as <- <- <-. simpl. lia.
  - assert (parse_precision (c :: fmt) args = Some (-1, c :: fmt, args)) as E.
    { unfold parse_precision. repeat case_match; try done; by simplify_eq/=. }
    rewrite E in H. by injection H as <- <- <-.
Qed.

Lemma parse_qualifier_suffix fmt : (length (parse_qualifier fmt).2 <= length fmt)%nat.
Proof. destruct fmt as [|c fmt]; simpl; [lia|]. destruct (_ || _); simpl; lia. Qed.

(** A conversion never moves back in the format. *)
Lemma directive_suffix fmt args text fmt' args' :
  directive fmt args = Some (text, fmt', args') -> (length fmt' <= length fmt)%nat.
Proof.
  unfold directive. pose proof (parse_flags_suffix fmt 0).
  destruct (parse_flags fmt 0) as [flags fmt1].
  destruct (parse_width fmt1 flags args) as [[[[w flags1] fmt2] args1]|] eqn:E1; [|done].
  apply parse_width_suffix in E1. simpl.
  destruct (parse_precision fmt2 args1) as [[[p fmt3] args2]|] eqn:E2; [|done].
  apply parse_precision_suffix in E2. simpl.
  pose proof (parse_qualifier_suffix fmt3). destruct (parse_qualifier fmt3) as [q fmt4].
  destruct (convert _ _ _ _ _ _) as [[t args3]|]; [|done]. simpl in *.
  intros [=]; subst. destruct fmt4; simpl in *; lia.
Qed.

(** The scan of a format string of any shape, well formed or not, with any
    arguments, ends: one round per character of the format is enough fuel. *)
Lemma ee_vsprintf_ends fmt args : ee_vsprintf fmt args <> Unfinished.
Proof.
  unfold ee_vsprintf. assert (length fmt < S (length fmt))%nat as Hf by lia. revert Hf.
  generalize (S (length fmt)) as fuel. intros fuel. generalize (@nil Z) as str. revert fmt args.
  induction fuel as [|fuel IH]; intros fmt args str Hf; [lia|].
  simpl. destruct fmt as [|c fmt]; [done|]. simpl in Hf.
  destruct (negb (c =? 37)); [apply IH; lia|].
  destruct (directive fmt args) as [[[text fmt'] args']|] eqn:E; [|done].
  apply directive_suffix in E. apply IH. lia.
Qed.

(** ** Refinement *)

Lemma conversion_char_cases cv :
  after_flags [conversion_char cv] /\ is_digit (conversion_char cv) = false /\
  conversion_char cv <> 42 /\ conversion_char cv <> 46 /\
  (conversion_char cv =? 108) || (conversion_char cv =? 76) = false.
Proof.
  unfold after_flags. simpl. rewrite !not_elem_of_cons.
  destruct cv as [c|s|p|z|[] z|[] z|z|[] b|[] b]; simpl; repeat split; try lia; apply not_elem_of_nil.
Qed.

Lemma directive_show fs w p long cv rest args :
  wf_item (Conv fs w p long cv) ->
  exists text, item_prints (Conv fs w p long cv) text /\
    directive (tail (show_item (Conv fs w p long cv)) ++ rest)
      (item_args (Conv fs w p long cv) ++ args) = Some (text, rest, args).
Proof.
  intros (Hw & Hp & Hcv).
  destruct (conversion_char_cases cv) as (Hf & Hd & H42 & H46 & Hq).
  set (fmt3 := (if long then [108] else []) ++ [conversion_char cv] ++ rest).
  assert (after_number fmt3 /\ hd 0 fmt3 <> 46 /\ after_flags fmt3) as (Hn3 & H346 & Hf3).
  { subst fmt3. destruct long; simpl; [|done].
    repeat split; try lia. rewrite !not_elem_of_cons. repeat split; try lia. apply not_elem_of_nil. }
  assert (after_number (show_prec p ++ fmt3)) as Hn2.
  { destruct p; simpl; try done; repeat split; done. }
  assert (after_flags (show_width w ++ show_prec p ++ fmt3)) as Hf1.
  { destruct w as [|n|z]; simpl.
    - destruct p; simpl; try done; rewrite !not_elem_of_cons; repeat split; try lia;
        apply not_elem_of_nil.
    - simpl in Hw. destruct (decimal_spec n) as (c & t & -> & Hdc & Hc & _); [lia|].
      simpl. unfold is_digit in Hdc. bprop. specialize (Hc ltac:(lia)).
      rewrite !not_elem_of_cons; repeat split; try lia; apply not_elem_of_nil.
    - rewrite !not_elem_of_cons; repeat split; try lia; apply not_elem_of_nil. }
  destruct (convert_spec cv long (width_value w) (prec_value p) (width_flags w (flag_word fs)) args)
    as (text & Ec & Ht); [done|destruct w; simpl in *; lia|destruct p; simpl in *; lia|].
  exists text. split; [done|]. unfold directive. simpl.
  rewrite <-!app_assoc. fold fmt3. rewrite parse_flags_show by done. fold (flag_word fs).
  rewrite parse_width_show by done. simpl. rewrite parse_precision_show by done. simpl.
  assert (parse_qualifier fmt3 = (if long then 108 else -1, conversion_char cv :: rest)) as ->.
  { subst fmt3. destruct long; simpl; [done|]. by rewrite Hq. }
  simpl. rewrite Ec. done.
Qed.

(** What a format made of well-formed items prints. *)
Lemma ee_vsprintf_items items :
  Forall wf_item items ->
  exists texts, Forall2 item_prints items texts /\
    ee_vsprintf (concat (map show_item items)) (concat (map item_args items)) =
      Ok (concat texts).
Proof.
  intros HF. unfold ee_vsprintf.
  assert (forall fuel fmt str, fmt = concat (map show_item items) -> (length fmt < fuel)%nat ->
    exists texts, Forall2 item_prints items texts /\
      ee_vsprintf_loop fuel fmt (concat (map item_args items)) str = Ok (str ++ concat texts)) as H.
  { induction HF as [|it items Hit HF IH]; intros fuel fmt str -> Hf.
    { exists []. split; [constructor|]. destruct fuel; [simpl in Hf; lia|]. simpl.
      by rewrite app_nil_r. }
    destruct fuel as [|fuel]; [lia|]. simpl in Hf. rewrite length_app in Hf.
    assert (forall text, item_prints it text ->
      ee_vsprintf_loop (S fuel) (concat (map show_item (it :: items)))
        (concat (map item_args (it :: items))) str =
      ee_vsprintf_loop fuel (concat (map show_item items)) (concat (map item_args items))
        (str ++ text) ->
      (length (concat (map show_item items)) < fuel)%nat ->
      exists texts, Forall2 item_prints (it :: items) texts /\
        ee_vsprintf_loop (S fuel) (concat (map show_item (it :: items)))
        (concat (map item_args (it :: items))) str = Ok (str ++ concat texts)) as Hstep.
    { intros text Ht E Hlen. destruct (IH fuel _ (str ++ text) eq_refl Hlen) as (texts & HF2 & E').
      exists (text :: texts). split; [by constructor|]. rewrite E, E'. simpl. by rewrite app_assoc. }
    destruct it as [c| |fs w p long cv].
    - destruct Hit as [Hc _]. apply (Hstep [c]); [done| |simpl in Hf; lia].
      simpl. by bcase.
    - apply (Hstep [37]); [done|done|simpl in Hf; lia].
    - destruct (directive_show fs w p long cv (concat (map show_item items))
        (concat (map item_args items)) Hit) as (text & Ht & E).
      apply (Hstep text); [done| |simpl in Hf; lia].
      cbn [map concat]. cbn [show_item app ee_vsprintf_loop]. cbn [show_item tail app] in E.
      change (37 =? 37) with true. cbn [negb]. by rewrite E. }
  destruct (H _ _ [] eq_refl (Nat.lt_succ_diag_r _)) as (texts & HF2 & E). eauto.
Qed.

(** Integers in fields of at most 35 characters: how much of a buffer a format can fill. *)
Lemma numeral_length base n vs :
  2 <= base -> 0 <= n < 2 ^ 32 -> numeral base n vs -> zlen vs <= 32.
Proof.
  intros Hb Hn (Hne & HF & Hv & Hz). destruct vs as [|v vs]; [done|].
  apply Forall_cons in HF as [Hv0 HF]. destruct (decide (v = 0)) as [->|Hv1].
  - by injection (Hz eq_refl) as ->.
  - rewrite (value_app base [v] vs : value base (v :: vs) = _) in Hv.
    change (value base [v]) with v in Hv. pose proof (value_bounds base vs Hb HF) as [Hlo _].
    assert (2 ^ zlen vs <= base ^ zlen vs) as Hp by (apply Z.pow_le_mono_l; lia).
    assert (zlen vs < 32); [|unfold zlen in *; simpl length; lia].
    apply (Z.pow_lt_mono_r_iff 2); [lia|lia|]. nia.
Qed.

Definition item_room (it : item) : Z := match it with Conv _ _ _ _ _ => 35 | _ => 1 end.

Definition plain_item (it : item) : Prop :=
  match it with
  | Conv _ w p _ (CDec _ _ | CUns _ | COct _ | CHex _ _) => width_value w <= 35 /\ prec_value p <= 32
  | Conv _ _ _ _ _ => False
  | _ => True
  end.

Lemma prints_integer_length base num size precision flags text :
  2 <= base -> is_i32 num -> precision <= 32 -> prints_integer base num size precision flags text ->
  zlen text <= Z.max size 35.
Proof.
  intros Hb Hn Hp (vs & Hvs & ->). rewrite layout_length, number_body_length.
  assert (zlen (sign_text num flags) <= 1) by (unfold sign_text; repeat case_match; done).
  assert (zlen (prefix_text base flags) <= 2) by (unfold prefix_text; repeat case_match; done).
  assert (zlen vs <= 32).
  { apply (numeral_length base (magnitude num flags)); [done| |done]. unfold magnitude, u32, is_i32 in *.
    destruct (has flags SIGN); simpl; [destruct (Z.ltb_spec num 0)|];
      Z.to_euclidean_division_equations; lia. }
  unfold zlen in *. rewrite length_map. lia.
Qed.

Lemma item_prints_length it text : plain_item it -> item_prints it text -> zlen text <= item_room it.
Proof.
  destruct it as [c| |fs w p long cv]; simpl; [intros _ ->; done..|].
  intros Hp Ht. destruct cv; try done; destruct Hp as [Hw Hp];
    apply prints_integer_length in Ht; try apply i32_range; lia.
Qed.

Lemma ee_vsprintf_fits items :
  Forall wf_item items -> Forall plain_item items ->
  exists s, ee_vsprintf (concat (map show_item items)) (concat (map item_args items)) = Ok s /\
    zlen s <= fold_right Z.add 0 (map item_room items).
Proof.
  intros Hwf Hpl. destruct (ee_vsprintf_items items Hwf) as (texts & HF & E).
  exists (concat texts). split; [done|]. clear E Hwf. induction HF as [|it text items texts Ht HF IH]; [done|].
  apply Forall_cons in Hpl as [Hit Hpl]. simpl. rewrite zlen_app.
  pose proof (item_prints_length _ _ Hit Ht). specialize (IH Hpl). lia.
Qed.

(** C23 (refinement).  The interpreter ends on every format string, well formed or not, with any
    arguments.  On a format made of well-formed items (literals, [%%], and conversions
    with any flags, literal or starred width and precision, and any of the conversions [c], [s],
    [p], [o], [x], [X], [d], [i], [u], [a], [A]), [ee_vsprintf] prints the items' texts one
    after the other, each as the item's specification says, and takes from the argument list
    exactly the arguments the items ask for. *)
Theorem ee_vsprintf_refines :
  (forall fmt args, ee_vsprintf fmt args <> Unfinished) /\
  forall items, Forall wf_item items ->
  exists texts, Forall2 item_prints items texts /\
    ee_vsprintf (concat (map show_item items)) (concat (map item_args items)) =
      Ok (concat texts).
Proof. split; [apply ee_vsprintf_ends|apply ee_vsprintf_items]. Qed.

Lemma ee_vsprintf_refines_witness :
  exists texts, Forall2 item_prints
      [Lit 120; Conv [FMinus; FHash] (WStar (-9)) PNone false (CHex true 48879); Percent;
       Conv [] (WNum 12) (PNum 3) true (CStr (Some (chars "tile")))] texts /\
    ee_vsprintf (chars "x%-#*X%%%12.3ls") [AInt (-9); AInt 48879; AStr (Some (chars "tile"))] =
      Ok (concat texts).
Proof.
  apply (proj2 ee_vsprintf_refines
    [Lit 120; Conv [FMinus; FHash] (WStar (-9)) PNone false (CHex true 48879); Percent;
     Conv [] (WNum 12) (PNum 3) true (CStr (Some (chars "tile")))]).
  repeat (constructor; [simpl; repeat split; try lia; try (repeat constructor; discriminate)|]).
  constructor.
Defined.
