(* ===== verification/Atomics.v ===== *)
(** * Atomics and locks in DRAM

    [vcache_atomic_histogram] and [vcache_atomic_histogram2] build a histogram together, under a
    lock; [vcache_atomic_inc_multi] and [amoadd_test] add to counters under locks and with
    [amoadd]; [vcache_atomics] runs every atomic once; [bsg_barrier_amoadd_test] increments words
    between barriers.  The sums of each test come out exactly, in every interleaving. *)

From Stdlib Require Import Ascii String.
From S2P Require Import Prelude Lts Arch Eva Console Spmd SpmdLogic Vsprintf.
#[local] Abbreviation length := Datatypes.length.
Local Open Scope Z_scope.

(** [while (bsg_amoswap_aq(&lock, 1) != 0);] and [bsg_amoswap_rl(&lock, 0);]. *)
Definition unlock (l : loc) (k : prog) : prog := bsg_amoswap_rl l 0 (fun _ => k).

(** ** The histograms *)

Definition histogram_data : list Z :=
  [27; 24; 13; 8; 16; 12; 25; 9; 15; 18; 29; 16; 9; 24; 19; 8; 29; 31; 25; 28; 9; 23; 28; 21; 15; 3; 13; 19; 29; 30; 15; 27;
   8; 25; 17; 0; 23; 12; 26; 21; 0; 15; 27; 7; 10; 27; 6; 18; 7; 30; 25; 14; 2; 10; 16; 29; 3; 17; 22; 17; 26; 17; 30; 19;
   18; 14; 19; 12; 18; 9; 6; 5; 19; 21; 15; 2; 24; 28; 29; 26; 28; 29; 17; 12; 22; 8; 25; 27; 28; 18; 30; 18; 14; 21; 31; 29;
   25; 2; 19; 15; 20; 27; 7; 23; 3; 7; 25; 10; 26; 3; 4; 22; 1; 18; 29; 17; 21; 0; 20; 19; 18; 12; 11; 31; 1; 0; 30; 5;
   3; 6; 25; 29; 0; 13; 3; 8; 7; 20; 11; 5; 16; 1; 3; 31; 6; 11; 23; 26; 29; 5; 21; 30; 1; 21; 27; 10; 8; 19; 14; 5;
   15; 13; 18; 16; 9; 11; 26; 8; 17; 0; 23; 10; 1; 8; 7; 30; 11; 9; 11; 30; 20; 19; 22; 12; 13; 20; 0; 6; 10; 7; 20; 12;
   28; 18; 13; 12; 22; 13; 21; 1; 14; 8; 5; 16; 15; 17; 24; 28; 15; 9; 14; 25; 28; 25; 6; 31; 20; 2; 23; 31; 12; 21; 10; 6;
   22; 0; 26; 16; 3; 3; 20; 27; 8; 31; 3; 27; 12; 2; 8; 14; 25; 27; 4; 16; 20; 11; 27; 8; 0; 1; 21; 17; 30; 30; 29; 1;
   23; 22; 20; 22; 28; 20; 11; 17; 6; 18; 0; 4; 10; 25; 22; 10; 19; 1; 5; 31; 9; 12; 17; 9; 15; 7; 1; 5; 16; 2; 12; 10;
   13; 3; 29; 15; 26; 31; 10; 15; 22; 13; 9; 23; 28; 29; 20; 12; 31; 20; 2; 2; 23; 1; 0; 12; 16; 14; 15; 18; 21; 13; 11; 31;
   8; 24; 13; 11; 2; 27; 22; 28; 14; 21; 3; 12; 6; 1; 30; 6; 4; 6; 12; 17; 4; 31; 31; 4; 12; 21; 28; 15; 29; 10; 15; 15;
   21; 6; 19; 7; 10; 30; 28; 26; 1; 4; 8; 25; 26; 18; 22; 25; 2; 2; 27; 1; 7; 1; 0; 27; 10; 5; 4; 20; 30; 16; 28; 16;
   18; 21; 25; 24; 31; 23; 28; 6; 17; 19; 26; 15; 25; 12; 18; 27; 25; 21; 0; 5; 16; 8; 2; 27; 30; 9; 13; 25; 1; 20; 4; 9;
   26; 1; 1; 13; 15; 27; 22; 21; 4; 31; 13; 19; 12; 1; 15; 4; 1; 19; 20; 3; 17; 11; 12; 24; 15; 28; 19; 14; 20; 10; 3; 21;
   19; 25; 4; 29; 25; 29; 27; 21; 25; 16; 25; 6; 25; 14; 24; 14; 25; 2; 1; 29; 15; 28; 30; 21; 18; 6; 2; 26; 28; 24; 22; 13;
   9; 3; 13; 18; 29; 29; 13; 3; 24; 23; 0; 14; 21; 0; 29; 30; 23; 2; 2; 11; 0; 11; 0; 31; 26; 2; 28; 6; 6; 21; 30; 3;
   0; 11; 0; 19; 27; 5; 3; 11; 30; 4; 30; 11; 15; 9; 29; 30; 20; 5; 31; 3; 18; 5; 28; 30; 25; 10; 7; 24; 9; 13; 1; 4;
   0; 2; 2; 13; 17; 23; 4; 13; 20; 2; 14; 11; 30; 1; 13; 13; 23; 10; 6; 9; 15; 30; 25; 8; 17; 22; 25; 14; 12; 24; 13; 7;
   14; 29; 4; 14; 20; 15; 6; 0; 22; 19; 0; 9; 24; 20; 17; 4; 22; 15; 21; 24; 7; 24; 8; 31; 3; 28; 1; 8; 16; 18; 12; 3;
   8; 9; 24; 29; 19; 1; 25; 9; 10; 16; 7; 29; 5; 13; 9; 16; 18; 20; 17; 13; 20; 12; 24; 25; 9; 11; 20; 5; 22; 12; 18; 4;
   21; 11; 15; 13; 15; 22; 10; 20; 1; 9; 23; 1; 19; 0; 15; 28; 0; 16; 2; 27; 21; 23; 21; 0; 1; 19; 31; 27; 22; 23; 7; 24;
   9; 3; 14; 10; 5; 13; 28; 13; 14; 22; 16; 4; 29; 14; 25; 12; 25; 12; 7; 6; 30; 18; 1; 12; 7; 2; 5; 1; 20; 5; 19; 19;
   22; 16; 9; 28; 11; 14; 20; 16; 30; 30; 29; 29; 18; 15; 22; 6; 8; 1; 5; 0; 20; 4; 25; 21; 31; 12; 29; 14; 10; 3; 28; 25;
   10; 14; 10; 0; 1; 11; 6; 16; 6; 6; 21; 23; 9; 27; 8; 11; 22; 1; 29; 2; 14; 23; 1; 25; 31; 14; 3; 2; 3; 24; 13; 29;
   14; 2; 13; 24; 26; 1; 5; 15; 4; 27; 29; 10; 13; 17; 9; 17; 6; 9; 14; 19; 17; 8; 7; 3; 25; 3; 23; 7; 9; 23; 21; 23;
   16; 27; 3; 20; 3; 23; 11; 21; 22; 21; 7; 26; 7; 16; 21; 7; 20; 9; 5; 25; 17; 10; 18; 0; 4; 12; 31; 16; 2; 24; 25; 24;
   18; 22; 6; 23; 26; 24; 11; 18; 20; 28; 3; 26; 16; 11; 14; 0; 7; 20; 21; 15; 30; 15; 10; 27; 8; 19; 22; 26; 25; 12; 1; 1;
   23; 30; 10; 14; 23; 21; 8; 21; 9; 11; 17; 23; 4; 0; 20; 0; 1; 7; 20; 2; 1; 31; 13; 28; 6; 13; 11; 5; 10; 31; 23; 12;
   13; 8; 17; 23; 21; 14; 1; 29; 13; 12; 0; 4; 27; 16; 23; 4; 10; 26; 26; 7; 0; 25; 5; 25; 21; 5; 2; 29; 19; 19; 14; 4;
   19; 8; 25; 23; 0; 29; 1; 2; 9; 4; 7; 11; 23; 12; 8; 15; 12; 9; 28; 17; 31; 24; 18; 8; 21; 14; 23; 12; 15; 0; 23; 1;
   21; 18; 24; 9; 21; 6; 16; 10; 31; 31; 6; 18; 10; 30; 29; 18; 23; 21; 11; 29; 28; 10; 23; 0; 26; 18; 30; 11; 20; 10; 25; 19;
   31; 0; 4; 1; 4; 29; 30; 15; 30; 26; 24; 23; 6; 17; 13; 30; 5; 5; 21; 5; 3; 16; 25; 19; 24; 8; 9; 13; 31; 22; 30; 17].

Definition histogram_N : Z := 1024.

(** [validate]: what each bin must hold. *)
Definition histogram_answers : list Z :=
  [ 37; 43; 29; 31; 29; 27; 30; 26; 29; 34; 33; 30; 35; 37; 32; 35;
   29; 27; 31; 30; 35; 42; 28; 37; 27; 43; 23; 26; 29; 37; 34; 29].

Section histogram.
Variable c : config.
Variables lock histogram data : Z.       (* the addresses of the variables *)

Definition histogram_work : Z := Z.quot histogram_N (bsg_tiles_X c *i bsg_tiles_Y c)%c.
Definition start_idx (id : Z) : Z := (id *i histogram_work)%c.

(** The thirty-two tests, in order. *)
Definition histogram_validate : prog :=
  for_ (zip (range 0 32) histogram_answers) (fun ia k => check (elem histogram ia.1) ia.2 k) finish.

(** [do_histogram_work] of [vcache_atomic_histogram]: count locally, then add to the global bins
    under the lock (the delay loop before each attempt is left out). *)
Definition do_histogram_work (id : Z) (k : prog) : prog :=
  Send (PrintInt (start_idx id))
  (fold_ (range 0 histogram_work) (fun i local_histogram k =>
     Load (elem data (start_idx id +i i)%c) (fun local_data =>
     k (<[local_data := (local_histogram local_data +i 1)%c]> local_histogram))) (fun _ => 0)
   (fun local_histogram =>
  Acquire (elem lock 0)
  (for_ (range 0 32) (fun i k =>
     if negb (local_histogram i =? 0) then
       Load (elem histogram i) (fun local_hist =>
       Store (elem histogram i) (local_hist +i local_histogram i)%c k)
     else k)
  (unlock (elem lock 0) k)))).

Definition histogram_main (t : Z * Z) : prog :=
  do_histogram_work (tile_id c t)
  (Sync (if tile_id c t =? 0 then histogram_validate else Done)).

(** [do_histogram_work] of [vcache_atomic_histogram2]: the lock is taken for every element. *)
Definition do_histogram_work2 (id : Z) (k : prog) : prog :=
  for_ (range 0 histogram_work) (fun i k =>
    Load (elem data (start_idx id +i i)%c) (fun local_data =>
    Acquire (elem lock 0)
    (Load (elem histogram local_data) (fun h => Store (elem histogram local_data) (h +i 1)%c
    (unlock (elem lock 0) k))))) k.

Definition histogram2_main (t : Z * Z) : prog :=
  do_histogram_work2 (tile_id c t)
  (Sync (if tile_id c t =? 0 then histogram_validate else Done)).
End histogram.

(** ** [amoadd_test] and [vcache_atomic_inc_multi] *)

Section counters.
Variable c : config.
Variables lock data : Z.

(** [for (i = 0; i < n; i++) expected += i;] *)
Definition sum_below (n : Z) : Z := fold_left (fun e i => (e +i i)%c) (range 0 n) 0.

Definition amoadd_main (t : Z * Z) : prog :=
  bsg_amoadd_aq (elem data 0) (t.1 *i t.2)%c (fun _ =>
  Acquire (elem lock 0)
  (Load (elem data 1) (fun v => Store (elem data 1) (v +i (t.1 *i t.2))%c
  (unlock (elem lock 0)
  (Sync
  (if tile_id c t =? 0 then
     Load (elem data 0) (fun d0 => Send (PrintInt d0)
     (Load (elem data 1) (fun d1 => Send (PrintInt d1)
     (Load (elem data 0) (fun d0 => Load (elem data 1) (fun d1 =>
      if d0 =? d1 then
        Load (elem data 0) (fun d0 =>
        if d0 =? (sum_below (bsg_tiles_X c) *i sum_below (bsg_tiles_Y c))%c then finish else fail)
      else fail))))))
   else Done)))))).

Definition inc_multi_N : Z := 16.

Definition inc_multi_main (t : Z * Z) : prog :=
  for_ (range 0 inc_multi_N) (fun i k =>
    Acquire (elem lock i)
    (Load (elem data i) (fun local_data => Store (elem data i) (local_data +i 1)%c
    (unlock (elem lock i) k))))
  (Sync
  (if tile_id c t =? 0 then
     fold_ (range 0 inc_multi_N) (fun i failed k =>
       Load (elem data i) (fun v =>
       k (if negb (v =? (bsg_tiles_X c *i bsg_tiles_Y c)%c) then 1 else failed))) 0
     (fun failed => if failed =? 0 then finish else fail)
   else Done)).
End counters.

(** ** [vcache_atomics] *)

Section vcache_atomics.
Variable c : config.
Variable u : eva_unit.
Variables lock lock2 lock3 : Z.

Definition io_mutex : loc := deref u (bsg_io_mutex_ptr c 0).

(** [bsg_printf]: the text is sent under the mutex of the I/O node.  A text that overruns the
    buffer of 256 bytes, or a call with the wrong arguments, ends in a program that [safe] never
    accepts. *)
Definition bsg_printf (fmt : list Z) (args : list arg) (k : prog) : prog :=
  match ee_vsprintf fmt args with
  | Ok s =>
      if (length s <? 256)%nat then
        Acquire io_mutex (for_ s (fun ch k => Send (Putchar ch) k) (unlock io_mutex k))
      else Wait Done
  | _ => Wait Done
  end.

(** [if (result != expected) bsg_fail(); bsg_printf("%d\n", result);] *)
Definition expect (expected result : Z) (k : prog) : prog :=
  if negb (result =? expected) then fail else bsg_printf [37; 100; 10] [AInt result] k.

Definition vcache_atomics_body : prog :=
    Store (elem lock 0) 123
    (bsg_amoswap (elem lock 0) 1 (fun result => expect 123 result
    (bsg_amoswap_aq (elem lock 0) 2 (fun result => expect 1 result
    (bsg_amoswap_rl (elem lock 0) 3 (fun result => expect 2 result
    (bsg_amoswap_aqrl (elem lock 0) 4 (fun result => expect 3 result
    (Store (elem lock2 0) 1
    (bsg_amoor (elem lock2 0) 2 (fun result2 => expect 1 result2
    (bsg_amoor_aq (elem lock2 0) 4 (fun result2 => expect 3 result2
    (bsg_amoor_rl (elem lock2 0) 8 (fun result2 => expect 7 result2
    (bsg_amoor_aqrl (elem lock2 0) 16 (fun result2 => expect 15 result2
    (Store (elem lock3 0) 10
    (bsg_amoadd (elem lock3 0) 10 (fun result3 => expect 10 result3
    (bsg_amoadd_aq (elem lock3 0) 2 (fun result3 => expect 20 result3
    (bsg_amoadd_rl (elem lock3 0) 18 (fun result3 => expect 22 result3
    (bsg_amoadd_aqrl (elem lock3 0) 40 (fun result3 => expect 40 result3
    finish)))))))))))))))))))))))))).

Definition vcache_atomics_main (t : Z * Z) : prog :=
  if tile_id c t =? 0 then vcache_atomics_body else Done.
End vcache_atomics.

(** ** [bsg_barrier_amoadd_test] *)

Section barrier_amoadd.
Variable c : config.
Variable data : Z.

Definition barrier_amoadd_N : Z := 7.

Definition barrier_amoadd_main (t : Z * Z) : prog :=
  let id := tile_id c t in
  for_ (range 0 barrier_amoadd_N) (fun i k =>
    bsg_amoadd (elem data id) 1 (fun _ =>
    Sync
    (check (elem data (Z.rem (id +i i)%c (bsg_tiles_X c *i bsg_tiles_Y c)%c)) (i +i 1)%c
    (Sync k))))
  (if id =? 0 then finish else Done).
End barrier_amoadd.

(** ** The histograms come out right *)

Section histogram_proof.
Variable c : config.
Variables lock histogram data : Z.
Variable m0 : loc -> Z.
Hypothesis wf : wf_config c.

(** Entry [j] of the data. *)
Definition datum (j : Z) : Z := default 0 (histogram_data !! Z.to_nat j).

Lemma datum_range j : 0 <= j < histogram_N -> 0 <= datum j < 32.
Proof.
  intros Hj. assert (forallb (fun v => (0 <=? v) && (v <? 32)) histogram_data = true) as H
    by (vm_compute; reflexivity).
  unfold datum. destruct (histogram_data !! Z.to_nat j) as [v|] eqn:E; [|simpl; lia].
  rewrite forallb_elem in H. apply list_elem_of_lookup_2, H in E. bprop. simpl. lia.
Qed.

(** The variables do not overlap, and hold what the program initialises them with. *)
Record histogram_memory : Prop := {
  hm_lock_histogram : forall i, 0 <= i < 32 -> elem lock 0 <> elem histogram i;
  hm_lock_data : forall j, 0 <= j < histogram_N -> elem lock 0 <> elem data j;
  hm_histogram_data : forall i j, 0 <= i < 32 -> 0 <= j < histogram_N ->
    elem histogram i <> elem data j;
  hm_lock : m0 (elem lock 0) = 0;
  hm_histogram : forall i, 0 <= i < 32 -> m0 (elem histogram i) = 0;
  hm_data : forall j, 0 <= j < histogram_N -> m0 (elem data j) = datum j;
}.
Hypothesis Hmem : histogram_memory.

(** The number of tiles divides 1024, so that every element is counted. *)
Hypothesis Hdiv : bsg_num_tiles c * histogram_work c = histogram_N.

Definition histogram_kind (a : loc) : role (Z * Z) :=
  if decide (a = elem lock 0) then Lock
  else if decide (a ∈ elem histogram <$> range 0 32) then Sum (Some (elem lock 0)) else Fixed.

(** What the elements of [l] of the chunk of tile [t] add to location [a]. *)
Definition adds (t : Z * Z) (l : list Z) (a : loc) : Z :=
  sum_over (fun i => ind (bool_decide (elem histogram (datum (tile_id c t * histogram_work c + i)) = a))) l.

Definition histogram_plan : plan (Z * Z) :=
  sum_plan (group_tiles c) histogram_kind (fun t => adds t (range 0 (histogram_work c))) m0
    (.= (0, 0)).

Lemma kind_bin i : 0 <= i < 32 -> histogram_kind (elem histogram i) = Sum (Some (elem lock 0)).
Proof using Hmem.
  intros Hi. unfold histogram_kind. rewrite decide_False, decide_True; [done| |].
  - apply list_elem_of_fmap_2. by apply elem_of_range.
  - intros E. by apply (hm_lock_histogram Hmem i).
Qed.

Lemma kind_sum_inv a l : histogram_kind a = Sum l -> exists i, 0 <= i < 32 /\ a = elem histogram i.
Proof.
  unfold histogram_kind. case_decide; [done|]. case_decide as Hin; [|done]. intros _.
  apply list_elem_of_fmap in Hin as (i & -> & Hi%elem_of_range). eauto.
Qed.

Lemma kind_lock : histogram_kind (elem lock 0) = Lock.
Proof. unfold histogram_kind. by rewrite decide_True. Qed.

Lemma kind_data j : 0 <= j < histogram_N -> histogram_kind (elem data j) = Fixed.
Proof using Hmem.
  intros Hj. unfold histogram_kind. rewrite !decide_False; [done| |].
  - intros (i & E & Hi%elem_of_range)%list_elem_of_fmap. by apply (hm_histogram_data Hmem i j).
  - intros E. by apply (hm_lock_data Hmem j).
Qed.

Lemma bin_inj i j : 0 <= i < 32 -> 0 <= j < 32 -> elem histogram i = elem histogram j -> i = j.
Proof. intros Hi Hj. apply elem_inj. norm_pow2. lia. Qed.

Lemma histogram_plan_ok : plan_ok (group_tiles c) histogram_plan.
Proof using Hmem.
  apply sum_plan_ok; [apply NoDup_grid|]. intros a. destruct (histogram_kind a) as [t| |g|] eqn:E.
  - unfold histogram_kind in E. by repeat case_decide.
  - done.
  - destruct (kind_sum_inv _ _ E) as (i & Hi & ->). rewrite (hm_histogram Hmem) by done.
    split; [|unfold is_i32; lia]. rewrite kind_bin in E by done. intros l ->.
    assert (l = elem lock 0) as -> by congruence. apply kind_lock.
  - unfold histogram_kind in E. case_decide as Hd; [|by case_decide].
    rewrite Hd. apply (hm_lock Hmem).
Qed.

(** The element iteration [i] of a tile looks at. *)
Lemma chunk_element t i : t ∈ group_tiles c -> 0 <= i < histogram_work c ->
  elem data (i32 (start_idx c (tile_id c t) + i)) = elem data (tile_id c t * histogram_work c + i) /\
  0 <= tile_id c t * histogram_work c + i < histogram_N.
Proof using wf Hdiv.
  intros Ht Hi. pose proof (tile_id_range c wf t Ht) as Hid. unfold start_idx.
  assert (0 <= tile_id c t * histogram_work c + i < histogram_N) as H.
  { rewrite <-Hdiv. nia. }
  split; [|done]. unfold histogram_N in H. f_equal. rewrite (i32_id (_ * _)) by (unfold is_i32; nia).
  rewrite i32_id by (unfold is_i32; lia). done.
Qed.

Lemma chunk_load n t i m d h o k : n = 0%nat -> t ∈ group_tiles c -> 0 <= i < histogram_work c ->
  (forall a, histogram_kind a = Fixed -> m a = m0 a) ->
  safe histogram_plan n t (k (datum (tile_id c t * histogram_work c + i))) m d h o ->
  safe histogram_plan n t (Load (elem data (i32 (start_idx c (tile_id c t) + i))) k) m d h o.
Proof using wf Hmem Hdiv.
  intros -> Ht Hi Hm Hk. destruct (chunk_element t i Ht Hi) as [E Hj]. rewrite E.
  apply safe_load; [left; by apply kind_data|].
  rewrite Hm, (hm_data Hmem) by (done || by apply kind_data). done.
Qed.
(** Bin [b] at the end. *)
Lemma bin_total b : 0 <= b < 32 ->
  contents (histogram_plan) 1 (elem histogram b) =
    sum_over (fun j => ind (datum j =? b)) (range 0 histogram_N).
Proof using wf Hmem Hdiv.
  intros Hb. cbn [histogram_plan sum_plan contents]. rewrite kind_bin, (hm_histogram Hmem), Z.add_0_l by done.
  assert (0 <= histogram_work c) as Hw.
  { pose proof (tile_id_range c wf (0, 0) (origin_in_group c wf)). unfold histogram_N in Hdiv. nia. }
  pose proof (sum_chunks c wf (fun j => ind (bool_decide (elem histogram (datum j) =
    elem histogram b))) (histogram_work c) Hw) as E.
  rewrite Hdiv in E. unfold adds. rewrite E. clear E.
  rewrite (sum_over_ext _ (fun j => ind (datum j =? b))).
  - apply i32_id. unfold is_i32.
    assert (0 <= sum_over (fun j => ind (datum j =? b)) (range 0 histogram_N))
      by (apply sum_over_nonneg; intros j _; unfold ind; destruct (_ =? _); lia).
    assert (sum_over (fun j => ind (datum j =? b)) (range 0 histogram_N) <=
      sum_over (fun _ => 1) (range 0 histogram_N))
      by (apply sum_over_le; intros j _; unfold ind; destruct (_ =? _); lia).
    rewrite sum_over_const, length_range in *. unfold histogram_N in *. lia.
  - intros j Hj%elem_of_range. f_equal. pose proof (datum_range j Hj).
    destruct (Z.eqb_spec (datum j) b) as [->|Hne]; [by rewrite bool_decide_true|].
    apply bool_decide_false. intros E. by apply Hne, bin_inj.
Qed.

Lemma validate_safe o : Failed ∉ o ->
  safely histogram_plan 1 (0, 0) (histogram_validate histogram)
    (contents histogram_plan 1) o.
Proof using wf Hmem Hdiv.
  intros Ho. unfold histogram_validate.
  apply (safely_for_check _ _ _ _ (fun ia => elem histogram ia.1) snd);
    [|by apply safely_finish with (.= (0, 0))].
  intros [b a] Hin. split; [by left|]. cbn [fst snd].
  assert (forallb (fun ba => (0 <=? ba.1) && (ba.1 <? 32) &&
    (sum_over (fun d => ind (d =? ba.1)) histogram_data =? ba.2))
    (zip (range 0 32) histogram_answers) = true) as H by (vm_compute; reflexivity).
  rewrite forallb_elem in H. apply H in Hin. cbn [fst snd] in Hin. bprop.
  rewrite bin_total by lia. etransitivity; [|eassumption].
  rewrite <-(sum_over_lookup (fun d => ind (d =? b)) 0 histogram_data).
  assert (Z.of_nat (length histogram_data) = histogram_N) as -> by done. done.
Qed.

(** The end of both programs. *)
Lemma histogram_end_safe t m d o : t ∈ group_tiles c -> Failed ∉ o ->
  (forall i, 0 <= i < 32 -> d (elem histogram i) =
     adds t (range 0 (histogram_work c)) (elem histogram i)) ->
  safe histogram_plan 0 t
    (Sync (if tile_id c t =? 0 then histogram_validate histogram else Done)) m d None o.
Proof using wf Hmem Hdiv.
  intros Ht Ho Hd. apply safe_sync.
  - intros a Ha. simpl in Ha. unfold histogram_kind in Ha. by repeat case_decide.
  - intros a l (i & Hi & ->)%kind_sum_inv. by apply Hd.
  - destruct (Z.eqb_spec (tile_id c t) 0) as [E|E].
    + assert (t = (0, 0)) as ->; [|by apply validate_safe].
      apply (tile_id_inj c wf); [done|by apply origin_in_group|].
      rewrite E. unfold tile_id, bsg_x_y_to_id. simpl. lia.
    + apply (safely_spin _ (.= (0, 0))); [done|done|done|]. intros ->. apply E.
      unfold tile_id, bsg_x_y_to_id. simpl. lia.
Qed.

(** [vcache_atomic_histogram2]: one element at a time. *)
Lemma histogram2_safe t : t ∈ group_tiles c ->
  safely histogram_plan 0 t (histogram2_main c lock histogram data t) m0 [].
Proof using wf Hmem Hdiv.
  intros Ht. unfold histogram2_main, do_histogram_work2.
  apply (safe_for _ _ _ _ _ _ _ _ _ _ (fun done m d h o => h = None /\ o = [] /\
    (forall a, histogram_kind a = Fixed -> m a = m0 a) /\ forall a, d a = adds t done a)).
  - done.
  - intros done i rest m d h o kk E (-> & -> & Hm & Hd) Hkk.
    assert (0 <= i < histogram_work c) as Hi
      by (apply elem_of_range; rewrite E; apply elem_of_app; right; by left).
    apply chunk_load; [done|done|done|done|].
    destruct (chunk_element t i Ht Hi) as [_ Hj]. pose proof (datum_range _ Hj) as Hv.
    apply safe_locked_add; [by apply kind_bin|by apply kind_lock|].
    intros m' Hm'. apply Hkk. split; [done|]. split; [done|]. split.
    + intros a Ha. rewrite Hm' by (simpl; congruence). by apply Hm.
    + intros a. unfold adds. rewrite sum_over_app. simpl. fold (adds t done a). rewrite Z.add_0_r.
      destruct (decide (elem histogram (datum (tile_id c t * histogram_work c + i)) = a)) as [<-|Hne].
      * rewrite fn_lookup_insert, Hd, bool_decide_true by done. done.
      * rewrite fn_lookup_insert_ne, Hd, bool_decide_false by done. simpl. lia.
  - intros m d h o (-> & -> & _ & Hd). apply histogram_end_safe; [done|apply not_elem_of_nil|].
    intros i _. apply Hd.
Qed.

(** What [vcache_atomic_histogram] counts locally. *)
Definition counted (t : Z * Z) (l : list Z) (b : Z) : Z :=
  sum_over (fun i => ind (datum (tile_id c t * histogram_work c + i) =? b)) l.

Lemma counted_bound t l b : 0 <= counted t l b <= Z.of_nat (length l).
Proof.
  unfold counted. split.
  - apply sum_over_nonneg. intros i _. unfold ind. destruct (_ =? _); lia.
  - rewrite <-(Z.mul_1_l (Z.of_nat _)), <-(sum_over_const 1 l). apply sum_over_le.
    intros i _. unfold ind. destruct (_ =? _); lia.
Qed.

Lemma counted_adds t b : t ∈ group_tiles c -> 0 <= b < 32 ->
  counted t (range 0 (histogram_work c)) b = adds t (range 0 (histogram_work c)) (elem histogram b).
Proof using wf data Hdiv.
  intros Ht Hb. apply sum_over_ext. intros i Hi%elem_of_range. f_equal.
  destruct (chunk_element t i Ht Hi) as [_ Hj]. pose proof (datum_range _ Hj) as Hv.
  destruct (Z.eqb_spec (datum (tile_id c t * histogram_work c + i)) b) as [->|Hne];
    [by rewrite bool_decide_true|].
  symmetry. apply bool_decide_false. intros E. by apply Hne, bin_inj.
Qed.

(** Adding the local counts to the bins, holding the lock. *)
Lemma merge_safe t (lh : Z -> Z) k m o : 
  (forall m' d', (forall i, 0 <= i < 32 -> d' (elem histogram i) = lh i) ->
     safe histogram_plan 0 t k m' d' (Some (elem lock 0)) o) ->
  safe histogram_plan 0 t (for_ (range 0 32) (fun i k =>
     if negb (lh i =? 0) then
       Load (elem histogram i) (fun local_hist =>
       Store (elem histogram i) (i32 (local_hist + lh i)) k)
     else k) k) m no_adds (Some (elem lock 0)) o.
Proof using Hmem.
  intros Hk.
  apply (safe_for _ _ _ _ _ _ _ _ _ _ (fun done m d h o' => h = Some (elem lock 0) /\ o' = o /\
    forall i, 0 <= i < 32 -> d (elem histogram i) = if decide (i ∈ done) then lh i else 0)).
  - split; [done|]. split; [done|]. intros i _. rewrite decide_False; [done|apply not_elem_of_nil].
  - intros done i rest m' d h o' kk E (-> & -> & Hd) Hkk.
    assert (0 <= i < 32) as Hi
      by (apply elem_of_range; rewrite E; apply elem_of_app; right; by left).
    assert (i ∉ done) as Hnew.
    { pose proof (NoDup_seqZ 0 (32 - 0)) as Hnd. fold (range 0 32) in Hnd. rewrite E in Hnd.
      apply NoDup_app in Hnd as (_ & Hnd & _). intros Hin. apply (Hnd i Hin). by left. }
    assert (forall j v, j <> i -> (if decide (j ∈ done) then v else 0) =
      (if decide (j ∈ done ++ [i]) then v else 0)) as Hsame.
    { intros j v Hne. apply decide_ext. rewrite elem_of_app, list_elem_of_singleton. tauto. }
    assert (i ∈ done ++ [i]) as Hin by (apply elem_of_app; right; by left).
    destruct (Z.eqb_spec (lh i) 0) as [E0|_]; simpl.
    + apply Hkk. split; [done|]. split; [done|]. intros j Hj. rewrite Hd by done.
      destruct (decide (j = i)) as [->|Hne]; [|by apply Hsame].
      by rewrite decide_False, decide_True.
    + apply safe_load; [right; right; exists (elem lock 0); split; [done|by apply kind_bin]|].
      apply (safe_store_sum _ _ _ _ (elem lock 0) (lh i)); [by apply kind_bin|done|].
      apply Hkk. split; [done|]. split; [done|]. intros j Hj.
      destruct (decide (j = i)) as [->|Hne].
      * rewrite fn_lookup_insert, Hd, decide_False, decide_True by done. lia.
      * rewrite fn_lookup_insert_ne by (intros Ea; by apply Hne, bin_inj).
        rewrite Hd by done. by apply Hsame.
  - intros m' d h o' (-> & -> & Hd). apply Hk. intros i Hi. rewrite Hd by done.
    rewrite decide_True; [done|]. by apply elem_of_range.
Qed.

Lemma histogram_safe t : t ∈ group_tiles c ->
  safely histogram_plan 0 t (histogram_main c lock histogram data t) m0 [].
Proof using wf Hmem Hdiv.
  intros Ht. unfold histogram_main, do_histogram_work. apply safe_send.
  apply (safe_fold _ _ _ _ _ _ _ _ _ _ _ (fun done lh m d h o => h = None /\ (Failed ∉ o) /\
    m = m0 /\ d = no_adds /\ (Z.of_nat (length done) <= histogram_N) /\
    forall b, lh b = counted t done b)).
  - split; [done|]. split; [by intros [=]%list_elem_of_singleton|]. done.
  - intros done i rest lh m d h o kk E (-> & Ho & -> & -> & Hlen & Hlh) Hkk.
    assert (0 <= i < histogram_work c) as Hi
      by (apply elem_of_range; rewrite E; apply elem_of_app; right; by left).
    destruct (chunk_element t i Ht Hi) as [_ Hj].
    assert (i = Z.of_nat (length done)) as Ei by (apply range_at in E; lia).
    pose proof (tile_id_range c wf t Ht).
    apply chunk_load; [done|done|done|done|]. apply Hkk.
    split; [done|]. split; [done|]. split; [done|]. split; [done|].
    split; [rewrite length_app; simpl; unfold histogram_N in *; nia|].
    intros b. unfold counted. rewrite sum_over_app. fold (counted t done b). simpl. rewrite Z.add_0_r.
    destruct (Z.eqb_spec (datum (tile_id c t * histogram_work c + i)) b) as [->|Hne].
    + rewrite fn_lookup_insert, Hlh. apply i32_id. unfold is_i32, histogram_N in *.
      pose proof (counted_bound t done b). simpl. lia.
    + rewrite fn_lookup_insert_ne, Hlh by done. simpl. lia.
  - intros lh m d h o (-> & Ho & -> & -> & _ & Hlh).
    apply safe_acquire; [by apply kind_lock|]. intros m' Hm'. apply merge_safe. intros m'' d' Hd'.
    apply safe_release; [by apply kind_lock|done|]. intros _.
    apply histogram_end_safe; [done|done|]. intros i Hi. by rewrite Hd', Hlh, counted_adds by done.
Qed.
End histogram_proof.

(** ** The counters *)

(** The last part of a test: the tile with id 0 checks, the others spin. *)
Lemma origin_checks c pl n t check_prog m o : wf_config c ->
  post pl = reports (.= (0, 0)) -> n = last_phase pl -> t ∈ group_tiles c -> Failed ∉ o ->
  safely pl n (0, 0) check_prog m o ->
  safely pl n t (if tile_id c t =? 0 then check_prog else Done) m o.
Proof.
  intros wf Hpost Hn Ht Ho Hk. destruct (Z.eqb_spec (tile_id c t) 0) as [E|E].
  - assert (t = (0, 0)) as ->; [|done].
    apply (tile_id_inj c wf); [done|by apply origin_in_group|].
    rewrite E. unfold tile_id, bsg_x_y_to_id. simpl. lia.
  - apply (safely_spin _ (.= (0, 0))); [done|done|done|]. intros ->. apply E.
    unfold tile_id, bsg_x_y_to_id. simpl. lia.
Qed.

(** The sums of the loops, without overflow. *)
Lemma sum_below_eq n : 0 <= n < 1024 -> sum_below n = sum_over (fun i => i) (range 0 n).
Proof.
  intros Hn. unfold sum_below. assert (forall l e, 0 <= e -> (forall i, i ∈ l -> 0 <= i < 1024) ->
    e + 1024 * Z.of_nat (length l) < 2 ^ 31 ->
    fold_left (fun e i => i32 (e + i)) l e = e + sum_over (fun i => i) l) as H.
  { intros l. induction l as [|i l IH]; intros e He Hl Hb; [simpl; lia|]. simpl length in Hb.
    assert (0 <= i < 1024) by (apply Hl; by left). norm_pow2. revert Hb. norm_pow2. intros Hb. simpl.
    rewrite i32_id by (unfold is_i32; lia). rewrite IH; [lia|lia| |norm_pow2; lia].
    intros j Hj. apply Hl. by right. }
  rewrite H; [lia|lia| |].
  - intros i Hi%elem_of_range. lia.
  - rewrite length_range. norm_pow2. lia.
Qed.

Lemma sum_grid (f g : Z -> Z) X Y : 
  sum_over (fun t => f t.1 * g t.2) (grid 0 X 0 Y) =
  sum_over f (seqZ 0 X) * sum_over g (seqZ 0 Y).
Proof.
  unfold grid. rewrite sum_over_bind, <-sum_over_mul. apply sum_over_ext. intros i _.
  rewrite sum_over_bind, (Z.mul_comm (f i)), <-sum_over_mul. apply sum_over_ext. intros j _. simpl. lia.
Qed.

Section counters_proof.
Variable c : config.
Variables lock data : Z.
Variable m0 : loc -> Z.
Hypothesis wf : wf_config c.

Definition amoadd_kind (a : loc) : role (Z * Z) :=
  if decide (a = elem lock 0) then Lock
  else if decide (a = elem data 0) then Sum None
  else if decide (a = elem data 1) then Sum (Some (elem lock 0)) else Fixed.

Definition amoadd_plan : plan (Z * Z) :=
  sum_plan (group_tiles c) amoadd_kind (fun t _ => t.1 * t.2) m0 (.= (0, 0)).

Record counter_memory (n : Z) : Prop := {
  cm_disjoint : forall i j, 0 <= i < n -> 0 <= j < 16 -> elem lock i <> elem data j;
  cm_lock : forall i, 0 <= i < n -> m0 (elem lock i) = 0;
  cm_data : forall j, 0 <= j < 16 -> m0 (elem data j) = 0;
}.

Lemma data_inj i j : 0 <= i < 16 -> 0 <= j < 16 -> elem data i = elem data j -> i = j.
Proof. intros Hi Hj. apply elem_inj. norm_pow2. lia. Qed.

Lemma amoadd_kinds : counter_memory 1 -> amoadd_kind (elem lock 0) = Lock /\
  amoadd_kind (elem data 0) = Sum None /\ amoadd_kind (elem data 1) = Sum (Some (elem lock 0)).
Proof.
  intros Hm. unfold amoadd_kind. split; [by rewrite decide_True|]. split.
  - rewrite decide_False, decide_True; [done|done|]. intros E.
    by apply (cm_disjoint _ Hm 0 0); [lia|lia|].
  - rewrite decide_False, decide_False, decide_True; [done|done| |].
    + intros E. apply data_inj in E; lia.
    + intros E. by apply (cm_disjoint _ Hm 0 1); [lia|lia|].
Qed.

Lemma amoadd_total a : counter_memory 1 -> a = elem data 0 \/ a = elem data 1 ->
  contents amoadd_plan 1 a = i32 (sum_below (bsg_tiles_X c) * sum_below (bsg_tiles_Y c)).
Proof using wf.
  intros Hm Ha. destruct (amoadd_kinds Hm) as (_ & K0 & K1). destruct wf as (HX & HY & _).
  assert (m0 a = 0) as Ea by (destruct Ha as [->| ->]; apply (cm_data _ Hm); lia).
  assert (exists l, amoadd_kind a = Sum l) as [l Hl] by (destruct Ha as [->| ->]; eauto).
  cbn [amoadd_plan sum_plan contents]. rewrite Hl, Ea, Z.add_0_l, !sum_below_eq by lia.
  unfold range. rewrite !Z.sub_0_r, <-sum_grid. done.
Qed.

Lemma amoadd_plan_ok : counter_memory 1 -> plan_ok (group_tiles c) amoadd_plan.
Proof.
  intros Hm. apply sum_plan_ok; [apply NoDup_grid|]. intros a.
  destruct (amoadd_kinds Hm) as (Kl & _). unfold amoadd_kind.
  case_decide as E1; [rewrite E1; apply (cm_lock _ Hm); lia|].
  case_decide as E2; [|case_decide as E3; [|done]].
  - split; [done|]. rewrite E2, (cm_data _ Hm) by lia. unfold is_i32. lia.
  - split; [by intros l [= <-]|]. rewrite E3, (cm_data _ Hm) by lia. unfold is_i32. lia.
Qed.

Lemma amoadd_safe t : counter_memory 1 -> t ∈ group_tiles c ->
  safely amoadd_plan 0 t (amoadd_main c lock data t) m0 [].
Proof using wf.
  intros Hm Ht. destruct (amoadd_kinds Hm) as (Kl & K0 & K1). unfold amoadd_main.
  assert (i32 (t.1 * t.2) = t.1 * t.2) as Et.
  { destruct t as [x y]. apply elem_of_group in Ht. destruct wf as (? & ? & _). simpl.
    apply i32_id. unfold is_i32. nia. }
  rewrite Et. apply safe_amo_sum with (c := t.1 * t.2); [done|done|]. intros _.
  apply safe_locked_add; [done|done|]. intros m' Hm'. apply safe_sync.
  - intros a Ha. simpl in Ha. unfold amoadd_kind in Ha. by repeat case_decide.
  - intros a l Hk. simpl in Hk. unfold no_adds.
    assert (a = elem data 0 \/ a = elem data 1) as Ha
      by (unfold amoadd_kind in Hk; repeat case_decide; auto; done).
    assert (elem data 0 <> elem data 1) by (intros E; apply data_inj in E; lia).
    destruct Ha as [->| ->]; repeat first [rewrite fn_lookup_insert|rewrite fn_lookup_insert_ne by done]; done.
  - apply origin_checks; [done|done|done|done|apply not_elem_of_nil|].
    assert (forall n, n = 1%nat -> forall a, legible amoadd_plan n (0, 0) a) as Hleg by (intros n ->; by left).
    pose proof (amoadd_total _ Hm (or_introl eq_refl)) as E0.
    pose proof (amoadd_total _ Hm (or_intror eq_refl)) as E1.
    do 2 (apply safely_load; [by apply Hleg|]; apply safely_send).
    apply safely_load; [by apply Hleg|]. apply safely_load; [by apply Hleg|].
    rewrite E0, E1, Z.eqb_refl. apply safely_load; [by apply Hleg|]. rewrite E0, Z.eqb_refl.
    apply safely_finish with (.= (0, 0)); [done|done|]. cbn [app]. rewrite !not_elem_of_cons.
    split_and!; [done|done|apply not_elem_of_nil].
Qed.
(** *** [vcache_atomic_inc_multi] *)

Definition inc_multi_kind (a : loc) : role (Z * Z) :=
  match list_find (fun i => a = elem data i) (range 0 inc_multi_N) with
  | Some (_, i) => Sum (Some (elem lock i))
  | None => if decide (a ∈ elem lock <$> range 0 inc_multi_N) then Lock else Fixed
  end.

Definition inc_multi_plan : plan (Z * Z) :=
  sum_plan (group_tiles c) inc_multi_kind (fun _ _ => 1) m0 (.= (0, 0)).

Lemma inc_multi_data i : 0 <= i < inc_multi_N ->
  inc_multi_kind (elem data i) = Sum (Some (elem lock i)).
Proof.
  intros Hi. unfold inc_multi_kind. destruct (list_find _ _) as [ [k j] | ] eqn:E.
  - apply list_find_Some in E as (Hk & Ej & _). apply list_elem_of_lookup_2, elem_of_range in Hk.
    unfold inc_multi_N in *. apply data_inj in Ej; [by subst|lia|lia].
  - eapply list_find_None in E. rewrite Forall_forall in E. destruct (E i); [|done].
    by apply elem_of_range.
Qed.

Lemma inc_multi_lock i : counter_memory inc_multi_N -> 0 <= i < inc_multi_N ->
  inc_multi_kind (elem lock i) = Lock.
Proof.
  intros Hm Hi. unfold inc_multi_kind. destruct (list_find _ _) as [ [k j] | ] eqn:E.
  - apply list_find_Some in E as (Hk & Ej & _). apply list_elem_of_lookup_2, elem_of_range in Hk.
    destruct (cm_disjoint _ Hm i j); [done|done|done].
  - rewrite decide_True; [done|]. by apply list_elem_of_fmap_2, elem_of_range.
Qed.

Lemma inc_multi_sum_inv a l : inc_multi_kind a = Sum l ->
  exists i, 0 <= i < inc_multi_N /\ a = elem data i /\ l = Some (elem lock i).
Proof.
  unfold inc_multi_kind. destruct (list_find _ _) as [ [k j] | ] eqn:E.
  - apply list_find_Some in E as (Hk & Ej & _). apply list_elem_of_lookup_2, elem_of_range in Hk.
    intros El. exists j. split; [done|]. split; [done|congruence].
  - by case_decide.
Qed.

Lemma inc_multi_plan_ok : counter_memory inc_multi_N -> plan_ok (group_tiles c) inc_multi_plan.
Proof.
  intros Hm. apply sum_plan_ok; [apply NoDup_grid|]. intros a.
  destruct (inc_multi_kind a) as [t| |l|] eqn:E.
  - unfold inc_multi_kind in E. destruct (list_find _ _) as [ [k j] | ]; [done|]. by case_decide.
  - done.
  - apply inc_multi_sum_inv in E as (i & Hi & -> & ->). split.
    + intros l' [= <-]. by apply inc_multi_lock.
    + rewrite (cm_data _ Hm) by done. unfold is_i32. lia.
  - unfold inc_multi_kind in E. destruct (list_find _ _) as [ [k j] | ]; [done|].
    case_decide as Hin; [|done]. apply list_elem_of_fmap in Hin as (i & -> & Hi%elem_of_range).
    by apply (cm_lock _ Hm).
Qed.

Lemma inc_multi_total i : counter_memory inc_multi_N -> 0 <= i < inc_multi_N ->
  contents inc_multi_plan 1 (elem data i) = i32 (bsg_tiles_X c * bsg_tiles_Y c).
Proof using wf.
  intros Hm Hi. cbn [inc_multi_plan sum_plan contents]. rewrite inc_multi_data, (cm_data _ Hm) by done.
  destruct wf as (? & ? & _). rewrite sum_over_const. unfold group_tiles. rewrite length_grid by lia.
  f_equal. lia.
Qed.

Lemma inc_multi_safe t : counter_memory inc_multi_N -> t ∈ group_tiles c ->
  safely inc_multi_plan 0 t (inc_multi_main c lock data t) m0 [].
Proof using wf.
  intros Hm Ht. unfold inc_multi_main.
  apply (safe_for _ _ _ _ _ _ _ _ _ _ (fun done m d h o => h = None /\ o = [] /\
    forall i, 0 <= i < inc_multi_N -> d (elem data i) = if decide (i ∈ done) then 1 else 0)).
  - split; [done|]. split; [done|]. intros i _. rewrite decide_False; [done|apply not_elem_of_nil].
  - intros done i rest m d h o kk E (-> & -> & Hd) Hkk.
    assert (0 <= i < inc_multi_N) as Hi
      by (apply elem_of_range; rewrite E; apply elem_of_app; right; by left).
    assert (i ∉ done) as Hnew.
    { pose proof (NoDup_seqZ 0 (inc_multi_N - 0)) as Hnd. fold (range 0 inc_multi_N) in Hnd.
      rewrite E in Hnd. apply NoDup_app in Hnd as (_ & Hnd & _). intros Hin. apply (Hnd i Hin).
      by left. }
    apply safe_locked_add; [by apply inc_multi_data|by apply inc_multi_lock|].
    intros m' Hm'. apply Hkk. split; [done|]. split; [done|]. intros j Hj.
    destruct (decide (j = i)) as [->|Hne].
    + rewrite fn_lookup_insert, Hd, decide_False, decide_True;
        [done|apply elem_of_app; right; by left|done|done].
    + rewrite fn_lookup_insert_ne, Hd by (done || (intros Ea; apply Hne; symmetry; by apply data_inj)).
      apply decide_ext. rewrite elem_of_app, list_elem_of_singleton. tauto.
  - intros m d h o (-> & -> & Hd). apply safe_sync.
    + intros a Ha. simpl in Ha. unfold inc_multi_kind in Ha.
      destruct (list_find _ _) as [ [k j] | ]; [done|]. by case_decide.
    + intros a l (i & Hi & -> & _)%inc_multi_sum_inv. rewrite Hd, decide_True; [done| |done].
      by apply elem_of_range.
    + apply origin_checks; [done|done|done|done|apply not_elem_of_nil|].
      apply (safely_fold _ _ _ _ _ _ _ _ _ (fun _ failed m o => failed = 0 /\ o = [] /\
        m = contents inc_multi_plan 1)).
      * done.
      * intros done i rest failed m' o kk E (-> & -> & ->) Hkk.
        assert (0 <= i < inc_multi_N) as Hi
          by (apply elem_of_range; rewrite E; apply elem_of_app; right; by left).
        apply safely_load; [by left|]. rewrite inc_multi_total, Z.eqb_refl by done. by apply Hkk.
      * intros failed m' o (-> & -> & ->). apply safely_finish with (.= (0, 0));
          [done|done|apply not_elem_of_nil].
Qed.

(** ** [bsg_barrier_amoadd_test]: a word per tile, private between even and odd barriers *)

(** The value of every word when phase [n] begins. *)
Definition rounds_done (n : nat) : Z := Z.min barrier_amoadd_N ((Z.of_nat n + 1) / 2).

Definition barrier_amoadd_plan : plan (Z * Z) :=
  {| roles := fun n a => match chunk_owner c data 1 a with
       | Some t => if Nat.even n && (Z.of_nat n <? 2 * barrier_amoadd_N) then Private t else Fixed
       | None => Fixed end;
     contents := fun n a => match n, chunk_owner c data 1 a with
       | S _, Some _ => rounds_done n
       | _, _ => m0 a end;
     share := fun _ _ => no_adds; last_phase := 14; post := reports (.= (0, 0)) |}.

Lemma even_rounds n : Nat.even n = false -> rounds_done (S n) = rounds_done n.
Proof.
  intros Hn. unfold rounds_done, barrier_amoadd_N. assert (Nat.odd n = true) as Ho
    by (by rewrite <-Nat.negb_even, Hn). apply Nat.odd_spec in Ho as [k ->].
  Z.to_euclidean_division_equations. lia.
Qed.

Hypothesis data_ok : 0 <= data /\ data + 4 * bsg_num_tiles c <= 2 ^ 32.
Hypothesis data_zero : forall t, t ∈ group_tiles c -> m0 (chunk_word c data 1 t 0) = 0.

Lemma barrier_amoadd_plan_ok : plan_ok (group_tiles c) barrier_amoadd_plan.
Proof using wf.
  intros n a. cbn [barrier_amoadd_plan roles contents]. destruct (chunk_owner c data 1 a) as [t|] eqn:E.
  - destruct (Nat.even n && _) eqn:En.
    + apply chunk_owner_inv in E as [? _]; [done|done|lia].
    + destruct n as [|n]; [done|]. apply andb_false_iff in En as [En|En].
      * by apply even_rounds.
      * bprop. unfold rounds_done, barrier_amoadd_N in *. Z.to_euclidean_division_equations. lia.
  - by destruct n.
Qed.

(** The word of the tile with id [id]. *)
Lemma id_word id : 0 <= id < bsg_num_tiles c ->
  elem data id = chunk_word c data 1 (id_tile c id) 0.
Proof using wf data_ok.
  intros Hid. destruct data_ok as [? Hd]. revert Hd. norm_pow2. intros Hd. unfold elem, chunk_word.
  rewrite tile_id_tile by (done || lia). rewrite u32_id by (unfold is_u32; lia). f_equal. lia.
Qed.

Lemma barrier_amoadd_word n id : 0 <= id < bsg_num_tiles c ->
  contents barrier_amoadd_plan n (elem data id) = rounds_done n /\
  roles barrier_amoadd_plan n (elem data id) =
    if Nat.even n && (Z.of_nat n <? 2 * barrier_amoadd_N) then Private (id_tile c id) else Fixed.
Proof using wf data_ok data_zero.
  intros Hid. rewrite id_word by done. pose proof (id_tile_in c wf id Hid) as Hin.
  cbn [barrier_amoadd_plan roles contents].
  rewrite chunk_owner_word by (done || lia). split; [|done].
  destruct n as [|n]; [|done]. by apply data_zero.
Qed.
Lemma barrier_amoadd_owned n a t :
  roles barrier_amoadd_plan n a = Private t ->
  t ∈ group_tiles c /\ a = elem data (tile_id c t) /\ Nat.even n = true.
Proof using wf data_ok.
  cbn [barrier_amoadd_plan roles]. destruct (chunk_owner c data 1 a) as [t'|] eqn:E; [|done].
  destruct (Nat.even n && _) eqn:En; [|done]. intros [= ->]. apply andb_true_iff in En as [En _].
  apply chunk_owner_inv in E as (Ht & q & Hq & ->); [|done|lia].
  split; [done|]. split; [|done]. rewrite id_word, id_tile_id by (done || by apply tile_id_range).
  f_equal. lia.
Qed.

Lemma barrier_amoadd_safe t : t ∈ group_tiles c ->
  safely barrier_amoadd_plan 0 t (barrier_amoadd_main c data t) m0 [].
Proof using wf data_ok data_zero.
  intros Ht. pose proof (tile_id_range c wf t Ht) as Hid. unfold barrier_amoadd_main. cbv zeta.
  assert (0 < bsg_num_tiles c <= 2048) as Hn by (destruct wf as (? & ? & _); unfold bsg_num_tiles; nia).
  apply (safely_for_phases _ _ _ _ _ _ _ _ (fun done n m o => n = (2 * length done)%nat /\
    m = contents barrier_amoadd_plan n /\ o = [])).
  - done.
  - intros done i rest n m o kk E (-> & -> & ->) Hkk. pose proof (range_at _ _ _ _ _ E) as Hi.
    assert (0 <= i < barrier_amoadd_N) as Hir
      by (apply elem_of_range; rewrite E; apply elem_of_app; right; by left).
    rewrite Z.add_0_l in Hi. unfold barrier_amoadd_N in Hir. set (n := length done) in *.
    assert (Nat.even (2 * n) = true) as He by (apply Nat.even_spec; by exists n).
    assert (Nat.even (S (2 * n)) = false) as Ho by (by rewrite Nat.even_succ, <-Nat.negb_even, He).
    assert (rounds_done (2 * n) = i /\ rounds_done (S (2 * n)) = i + 1 /\
      rounds_done (S (S (2 * n))) = i + 1) as (R0 & R1 & R2)
      by (unfold rounds_done, barrier_amoadd_N; Z.to_euclidean_division_equations; lia).
    destruct (barrier_amoadd_word (2 * n) _ Hid) as [Ec Er].
    apply safely_amo.
    { rewrite Er, He, id_tile_id by done. unfold barrier_amoadd_N.
      replace (_ <? _) with true by (symmetry; apply Z.ltb_lt; lia). done. }
    rewrite Ec, R0. apply safely_sync.
    { intros a (_ & -> & _)%barrier_amoadd_owned. rewrite fn_lookup_insert.
      destruct (barrier_amoadd_word (S (2 * n)) _ Hid) as [-> _]. rewrite R1. apply i32_id.
      unfold is_i32. lia. }
    { intros a l Ha. cbn [barrier_amoadd_plan roles] in Ha. by repeat case_match. }
    assert (0 <= Z.rem (i32 (tile_id c t + i)) (i32 (bsg_tiles_X c * bsg_tiles_Y c)) <
      bsg_num_tiles c) as Hnb.
    { unfold bsg_num_tiles in *. rewrite !i32_id by (unfold is_i32; lia). apply Z.rem_bound_pos; lia. }
    destruct (barrier_amoadd_word (S (2 * n)) _ Hnb) as [Ec' Er'].
    apply safely_check; [left; by rewrite Er', Ho|by rewrite Ec', R1, i32_id by (unfold is_i32; lia)|].
    apply safely_sync.
    { intros a (_ & _ & Ha)%barrier_amoadd_owned. congruence. }
    { intros a l Ha. cbn [barrier_amoadd_plan roles] in Ha. by repeat case_match. }
    apply Hkk. rewrite length_app. fold n. simpl. split; [lia|]. split; [f_equal; lia|done].
  - intros n m o (-> & -> & ->).
    assert (2 * length (range 0 barrier_amoadd_N) = 14)%nat as -> by done.
    apply origin_checks; [done|done|done|done|apply not_elem_of_nil|].
    apply safely_finish with (.= (0, 0)); [done|done|apply not_elem_of_nil].
Qed.
End counters_proof.

(** ** [vcache_atomics] *)

Section vcache_atomics_proof.
Variable c : config.
Variable u : eva_unit.
Variable m0 : loc -> Z.
#[local] Abbreviation pl := (solo_plan (0, 0) m0 (.= (0, 0))).

Lemma expect_safe v k m o :
  (exists s, ee_vsprintf [37; 100; 10] [AInt v] = Ok s /\ (length s < 256)%nat) ->
  m (io_mutex c u) = 0 -> Failed ∉ o ->
  (forall m' o', (forall a, a <> io_mutex c u -> m' a = m a) -> m' (io_mutex c u) = 0 ->
     Failed ∉ o' -> safely pl 0 (0, 0) k m' o') ->
  safely pl 0 (0, 0) (expect c u v v k) m o.
Proof.
  intros (s & Es & Hlen) Hm Ho Hk. unfold expect, bsg_printf. rewrite Z.eqb_refl, Es. simpl negb.
  rewrite (proj2 (Nat.ltb_lt _ _) Hlen). apply safely_acquire; [done|done|].
  apply (safely_for _ _ _ _ _ _ _ _ (fun _ m' o' => m' = <[io_mutex c u := 1]> m /\ (Failed ∉ o'))).
  - done.
  - intros done ch rest m' o' kk _ (-> & Ho') Hkk. apply safely_send, Hkk. split; [done|].
    rewrite elem_of_app, list_elem_of_singleton. by intros [|].
  - intros m' o' (-> & Ho'). apply safely_amo; [done|]. apply Hk; [|by rewrite fn_lookup_insert|done].
    intros a Ha. by rewrite !fn_lookup_insert_ne.
Qed.

(** An atomic whose old value is expected and printed. *)
Lemma amo_expect_safe a f v k m o :
  (exists s, ee_vsprintf [37; 100; 10] [AInt v] = Ok s /\ (length s < 256)%nat) ->
  a <> io_mutex c u -> m a = v -> m (io_mutex c u) = 0 -> Failed ∉ o ->
  (forall m' o', m' a = f v -> m' (io_mutex c u) = 0 -> Failed ∉ o' ->
     safely pl 0 (0, 0) k m' o') ->
  safely pl 0 (0, 0) (Amo a f (fun r => expect c u v r k)) m o.
Proof.
  intros Hs Ha Hv Hm Ho Hk. apply safely_amo; [done|]. rewrite Hv. apply expect_safe; [done| |done|].
  - by rewrite fn_lookup_insert_ne.
  - intros m' o' Hm' Hio Ho'. apply Hk; [|done|done]. rewrite Hm' by done. by rewrite fn_lookup_insert.
Qed.

Lemma store_fresh a v k m o : a <> io_mutex c u -> m (io_mutex c u) = 0 ->
  (forall m', m' a = v -> m' (io_mutex c u) = 0 -> safely pl 0 (0, 0) k m' o) ->
  safely pl 0 (0, 0) (Store a v k) m o.
Proof.
  intros Ha Hm Hk. apply safely_store; [done|]. apply Hk; [by rewrite fn_lookup_insert|].
  by rewrite fn_lookup_insert_ne.
Qed.

Lemma elem_not_mutex p i : elem p i <> io_mutex c u.
Proof. unfold io_mutex, deref. by destruct (eva_to_npa u _). Qed.

Lemma vcache_atomics_safe lock lock2 lock3 : m0 (io_mutex c u) = 0 ->
  safely pl 0 (0, 0) (vcache_atomics_body c u lock lock2 lock3) m0 [].
Proof.
  intros Hm0. unfold vcache_atomics_body.
  assert (Failed ∉ @nil packet) as Ho by apply not_elem_of_nil.
  repeat first
    [ apply store_fresh; [apply elem_not_mutex|assumption|]; intros ? ? ?
    | apply amo_expect_safe;
        [eexists; split; [vm_compute; reflexivity|simpl; lia]|apply elem_not_mutex|assumption..|];
      intros ? ? ? ? ? ].
  by apply safely_finish with (.= (0, 0)).
Qed.
End vcache_atomics_proof.

(** ** The tests pass *)

(** C30 (functional).  The tests that add to shared words: the two histograms, the counters under
    locks, and the sum by [amoadd].  No update is lost, whichever tile gets the lock when: the
    tile that checks finds every bin and every counter at its exact value, reports success, and
    no tile reports a failure or waits for ever. *)
Theorem shared_sums_pass c lock histogram data m0 :
  wf_config c ->
  (histogram_memory lock histogram data m0 ->
   bsg_num_tiles c * histogram_work c = histogram_N ->
     test_passes (group_tiles c) (histogram_main c lock histogram data) m0 (.= (0, 0)) /\
     test_passes (group_tiles c) (histogram2_main c lock histogram data) m0 (.= (0, 0))) /\
  (counter_memory lock data m0 1 ->
     test_passes (group_tiles c) (amoadd_main c lock data) m0 (.= (0, 0))) /\
  (counter_memory lock data m0 inc_multi_N ->
     test_passes (group_tiles c) (inc_multi_main c lock data) m0 (.= (0, 0))).
Proof.
  intros wf. split_and!.
  - intros Hm Hd. split.
    + apply (safe_test_passes _ _ (histogram_plan c lock histogram m0));
        [by eapply histogram_plan_ok|done|]. intros t Ht. by apply histogram_safe.
    + apply (safe_test_passes _ _ (histogram_plan c lock histogram m0));
        [by eapply histogram_plan_ok|done|]. intros t Ht. by apply histogram2_safe.
  - intros Hm. apply (safe_test_passes _ _ (amoadd_plan c lock data m0));
      [by apply amoadd_plan_ok|done|]. intros t Ht. by apply amoadd_safe.
  - intros Hm. apply (safe_test_passes _ _ (inc_multi_plan c lock data m0));
      [by apply inc_multi_plan_ok|done|]. intros t Ht. by apply inc_multi_safe.
Qed.

(** The variables one after the other in DRAM. *)
Definition example_memory (a : loc) : Z :=
  match a with
  | Dram a => if (0x80000400 <=? a) && (a <? 0x80001400)
              then datum ((a - 0x80000400) / 4) else 0
  | Dmem _ _ _ => 0
  end.

Definition config_8x8 : config :=
  {| bsg_tiles_X := 8; bsg_tiles_Y := 8; bsg_global_X := 16; bsg_global_Y := 8;
     IO_X_INDEX := 16; IO_Y_INDEX := 0 |}.

Lemma example_dram b d i j : 0 <= i < 1024 -> 0 <= j < 1024 ->
  0 <= b -> b + 4096 <= d -> d + 4096 < 2 ^ 32 -> elem b i <> elem d j.
Proof. norm_pow2. unfold elem. intros ????? [= E]. rewrite !u32_id in E by (unfold is_u32; lia). lia. Qed.

Lemma example_memory_word i : 0 <= i < 2048 -> u32 (0x80000400 + 4 * i) = 0x80000400 + 4 * i.
Proof. intros. apply u32_id. unfold is_u32. lia. Qed.

Lemma shared_sums_pass_witness :
  test_passes (group_tiles config_8x8) (histogram_main config_8x8 0x7fff0000 0x80000000 0x80000400)
    example_memory (.= (0, 0)) /\
  test_passes (group_tiles config_8x8) (amoadd_main config_8x8 0x7fff0000 0x80000000)
    example_memory (.= (0, 0)) /\
  test_passes (group_tiles config_8x8) (inc_multi_main config_8x8 0x7fff0000 0x80000000)
    example_memory (.= (0, 0)).
Proof.
  assert (wf_config config_8x8) as wf by (unfold wf_config; simpl; lia).
  assert (forall n, 0 <= n <= 16 -> counter_memory 0x7fff0000 0x80000000 example_memory n) as Hc.
  { intros n Hn. split.
    - intros i j Hi Hj. apply example_dram; [lia|lia|lia|lia|]. norm_pow2. lia.
    - intros i Hi. unfold elem, example_memory. rewrite u32_id by (unfold is_u32; lia).
      by replace (0x80000400 <=? _) with false by (symmetry; apply Z.leb_gt; lia).
    - intros i Hi. unfold elem, example_memory. rewrite u32_id by (unfold is_u32; lia).
      by replace (0x80000400 <=? _) with false by (symmetry; apply Z.leb_gt; lia). }
  split_and!.
  - apply (shared_sums_pass config_8x8 0x7fff0000 0x80000000 0x80000400 example_memory);
      [done| |reflexivity]. unfold histogram_N. split.
    + intros i Hi. apply example_dram; [lia|lia|lia|lia|]. norm_pow2. lia.
    + intros i Hi. apply example_dram; [lia|unfold histogram_N in *; lia|lia|lia|]. norm_pow2. lia.
    + intros i j Hi Hj. unfold histogram_N in *. unfold elem. intros [= E].
      rewrite !u32_id in E by (unfold is_u32; lia). lia.
    + done.
    + intros i Hi. unfold elem, example_memory. rewrite u32_id by (unfold is_u32; lia).
      by replace (0x80000400 <=? _) with false by (symmetry; apply Z.leb_gt; lia).
    + intros j Hj. unfold histogram_N, elem, example_memory in *. rewrite example_memory_word by lia.
      replace (0x80000400 <=? _) with true by (symmetry; apply Z.leb_le; lia).
      replace (_ <? 0x80001400) with true by (symmetry; apply Z.ltb_lt; lia). simpl andb.
      f_equal. Z.to_euclidean_division_equations. lia.
  - apply (shared_sums_pass config_8x8 0x7fff0000 0x80000000 0x80000000 example_memory); [done|].
    apply Hc. lia.
  - apply (shared_sums_pass config_8x8 0x7fff0000 0x80000000 0x80000000 example_memory); [done|].
    apply Hc. unfold inc_multi_N. lia.
Defined.

(** C31 (functional).  [bsg_barrier_amoadd_test]: after each barrier every tile finds the counter
    of the tile [i] places on at [i + 1], which no tile touches until the next barrier; and
    [vcache_atomics]: each of the twelve atomics returns the old value it should, while its text
    is printed under the I/O mutex. *)
Theorem atomics_pass c u data lock lock2 lock3 m0 :
  wf_config c ->
  (0 <= data -> data + 4 * bsg_num_tiles c <= 2 ^ 32 ->
   (forall t, t ∈ group_tiles c -> m0 (chunk_word c data 1 t 0) = 0) ->
     test_passes (group_tiles c) (barrier_amoadd_main c data) m0 (.= (0, 0))) /\
  (m0 (io_mutex c u) = 0 ->
     test_passes (group_tiles c) (vcache_atomics_main c u lock lock2 lock3) m0 (.= (0, 0))).
Proof.
  intros wf. split.
  - intros H0 H1 Hz. apply (safe_test_passes _ _ (barrier_amoadd_plan c data m0));
      [by apply barrier_amoadd_plan_ok|done|]. intros t Ht. by apply barrier_amoadd_safe.
  - intros Hm. apply (safe_test_passes _ _ (solo_plan (0, 0) m0 (.= (0, 0))));
      [by apply solo_plan_ok, origin_in_group|done|]. intros t Ht.
    unfold vcache_atomics_main. apply origin_checks; [done|done|done|done|apply not_elem_of_nil|].
    by apply vcache_atomics_safe.
Qed.

Lemma atomics_pass_witness :
  test_passes (group_tiles config_8x8) (barrier_amoadd_main config_8x8 0x80000000) (fun _ => 0)
    (.= (0, 0)) /\
  test_passes (group_tiles config_8x8)
    (vcache_atomics_main config_8x8 unit_16x8 0x80000000 0x80000004 0x80000008) (fun _ => 0)
    (.= (0, 0)).
Proof.
  assert (wf_config config_8x8) as wf by (unfold wf_config; simpl; lia). split.
  - apply (atomics_pass config_8x8 unit_16x8 0x80000000 0 0 0); [done|lia|by vm_compute|done].
  - by apply (atomics_pass config_8x8 unit_16x8 0x80000000 0x80000000 0x80000004 0x80000008).
Defined.
