(* ===== verification/Mutex.v ===== *)
(** * The spin lock of [bsg_mutex.h] and its counter

    [bsg_mutex_lock] spins on [amoswap.w.aq] of 1, [bsg_mutex_unlock] swaps 0 back.
    [bsg_atomic_inc] increments a word under the lock with a load, an addition and a store.
    [inc_step] is [bsg_atomic_inc] one memory access at a time; the system of this file is
    any number of tiles, each calling [bsg_atomic_inc] on one mutex and one counter as many
    times as it likes.  Mutual exclusion, absence of lost updates and absence of deadlock hold
    for every interleaving. *)

From S2P Require Import Prelude Lts.
Local Open Scope Z_scope.

Definition bsg_mutex_lock_fail : Z := 1.
Definition bsg_mutex_lock_success : Z := 0.

(** [amoswap.w.aq result, 1, ( *p_mutex)]: the new word and the result. *)
Definition bsg_mutex_try_lock (mutex : Z) : Z * Z := (1, mutex).

(** [amoswap.w.rl x0, x0, ( *p_mutex)]. *)
Definition bsg_mutex_unlock (mutex : Z) : Z := 0.

(** Where a call of [bsg_atomic_inc] is: the next access it makes. *)
Inductive inc_pc : Type :=
| ILock
| ILoad
| IStore (value : Z)
| IUnlock
| IDone.

Global Instance inc_pc_eq_dec : EqDecision inc_pc.
Proof. solve_decision. Defined.

(** One round of the loop of [bsg_mutex_lock]. *)
Definition bsg_mutex_lock_step (mutex : Z) : Z * bool :=
  let '(mutex, result) := bsg_mutex_try_lock mutex in
  (mutex, negb (result =? bsg_mutex_lock_fail)).

(** The next memory access of [bsg_atomic_inc] on the mutex and the value. *)
Definition inc_step (pc : inc_pc) (mutex value : Z) : option (inc_pc * Z * Z) :=
  match pc with
  | ILock =>
      let '(mutex, taken) := bsg_mutex_lock_step mutex in
      Some (if taken then ILoad else ILock, mutex, value)
  | ILoad => Some (IStore (i32 (value + 1)), mutex, value)
  | IStore v => Some (IUnlock, mutex, v)
  | IUnlock => Some (IDone, bsg_mutex_unlock mutex, value)
  | IDone => None
  end.

(** The call holds the lock. *)
Definition inc_holds (pc : inc_pc) : bool :=
  match pc with ILoad | IStore _ | IUnlock => true | _ => false end.

(** The call has stored the new value. *)
Definition inc_stored (pc : inc_pc) : bool :=
  match pc with IUnlock | IDone => true | _ => false end.

(** Accesses left, the lock being free. *)
Definition inc_rank (pc : inc_pc) : Z :=
  match pc with ILock => 4 | ILoad => 3 | IStore _ => 2 | IUnlock => 1 | IDone => 0 end.

Record mutex_state (Tid : Type) := {
  m_mutex : Z;
  m_value : Z;
  m_pc : Tid -> inc_pc;
  m_todo : Tid -> Z;    (* calls still to make *)
}.
Arguments m_mutex {Tid}.
Arguments m_value {Tid}.
Arguments m_pc {Tid}.
Arguments m_todo {Tid}.
Arguments Build_mutex_state {Tid}.

Section mutex.
Context {Tid : Type} `{EqDecision Tid}.
Variable tiles : list Tid.
Variable total : Tid -> Z.    (* the calls each tile makes *)
Variable value0 : Z.          (* the initial counter *)
Implicit Types (s : mutex_state Tid) (t : Tid).

Definition mutex_init s : Prop :=
  m_mutex s = 0 /\ m_value s = value0 /\
  (forall t, t ∈ tiles -> m_pc s t = IDone /\ m_todo s t = total t /\ 0 <= total t).

(** A tile between calls starts the next one; inside a call it makes the next access. *)
Definition mutex_step t s : option (mutex_state Tid) :=
  if decide (t ∈ tiles) then
    match m_pc s t with
    | IDone =>
        if 0 <? m_todo s t then
          Some (Build_mutex_state (m_mutex s) (m_value s) (<[t := ILock]> (m_pc s))
                  (<[t := m_todo s t - 1]> (m_todo s)))
        else None
    | pc =>
        '(pc, mutex, value) ← inc_step pc (m_mutex s) (m_value s);
        Some (Build_mutex_state mutex value (<[t := pc]> (m_pc s)) (m_todo s))
    end
  else None.

#[local] Instance mutex_lts : Lts (mutex_state Tid) Tid :=
  { lts_init := mutex_init; lts_step := mutex_step }.

Definition holds s t : Prop := t ∈ tiles /\ inc_holds (m_pc s t) = true.

(** The increments tile [t] has stored. *)
Definition stored s t : Z := total t - m_todo s t - ind (negb (inc_stored (m_pc s t))).

Definition all_done s : Prop := forall t, t ∈ tiles -> m_pc s t = IDone /\ m_todo s t = 0.

(** The mutex word counts the tiles that hold the lock. *)
Record mutex_inv s : Prop := {
  mi_lock : m_mutex s = sum_over (fun t => ind (inc_holds (m_pc s t))) tiles;
  mi_word : m_mutex s <= 1;
  mi_store : forall t v, t ∈ tiles -> m_pc s t = IStore v -> v = i32 (m_value s + 1);
  mi_value : i32 (m_value s) = i32 (value0 + sum_over (stored s) tiles);
  mi_todo : forall t, t ∈ tiles -> 0 <= m_todo s t;
}.

Section invariant.
Hypothesis tiles_nodup : NoDup tiles.

Lemma mutex_inv_init s : mutex_init s -> mutex_inv s.
Proof.
  intros (Hm & Hv & Ht). split.
  - rewrite Hm. symmetry. apply sum_over_zero. intros t Hin. by destruct (Ht t Hin) as [-> _].
  - lia.
  - intros t v Hin E. destruct (Ht t Hin) as [E' _]. by rewrite E' in E.
  - rewrite Hv, sum_over_zero; [f_equal; lia|].
    intros t Hin. unfold stored. destruct (Ht t Hin) as (-> & -> & _). simpl. lia.
  - intros t Hin. destruct (Ht t Hin) as (_ & -> & ?). done.
Qed.

Lemma mutex_inv_excl s t t' : mutex_inv s -> holds s t -> holds s t' -> t = t'.
Proof.
  intros I [Hin Hh] [Hin' Hh']. destruct (decide (t = t')) as [|Hne]; [done|exfalso].
  pose proof (mi_word s I). rewrite (mi_lock s I) in *.
  pose proof (sum_over_two (fun t => ind (inc_holds (m_pc s t))) tiles t t'
    (fun _ _ => ind_nonneg _) Hin Hin' Hne) as H2.
  simpl in H2. rewrite Hh, Hh' in H2. simpl in H2. lia.
Qed.

(** Moving one tile to [pc] changes the counts by its own terms. *)
Lemma mutex_holds_update s t pc :
  t ∈ tiles ->
  sum_over (fun t' => ind (inc_holds (<[t := pc]> (m_pc s) t'))) tiles =
    sum_over (fun t' => ind (inc_holds (m_pc s t'))) tiles +
    (ind (inc_holds pc) - ind (inc_holds (m_pc s t))).
Proof.
  intros Hin. rewrite (sum_over_update (fun t' => ind (inc_holds (m_pc s t'))) _ tiles t); [|done..|].
  - by rewrite fn_lookup_insert.
  - intros t' _ Hne. by rewrite fn_lookup_insert_ne.
Qed.

Lemma stored_update s mu v todo' t pc :
  t ∈ tiles -> (forall t', t' <> t -> todo' t' = m_todo s t') ->
  sum_over (stored (Build_mutex_state mu v (<[t := pc]> (m_pc s)) todo')) tiles =
    sum_over (stored s) tiles +
    (m_todo s t - todo' t + ind (inc_stored pc) - ind (inc_stored (m_pc s t))).
Proof.
  intros Hin Htodo.
  rewrite (sum_over_update (stored s) _ tiles t); [|done..|].
  - unfold stored. simpl. rewrite fn_lookup_insert.
    destruct (inc_stored pc), (inc_stored (m_pc s t)); simpl; lia.
  - intros t' _ Hne. unfold stored. simpl. rewrite fn_lookup_insert_ne by done.
    by rewrite Htodo.
Qed.

(** One tile moves to [pc], with the matching change of the mutex and of the counter. *)
Lemma mutex_inv_move s t pc mu v :
  mutex_inv s -> t ∈ tiles ->
  mu = m_mutex s + ind (inc_holds pc) - ind (inc_holds (m_pc s t)) -> mu <= 1 ->
  i32 v = i32 (m_value s + ind (inc_stored pc) - ind (inc_stored (m_pc s t))) ->
  (forall x, pc = IStore x -> x = i32 (v + 1)) ->
  v = m_value s \/ inc_holds (m_pc s t) = true ->
  mutex_inv (Build_mutex_state mu v (<[t := pc]> (m_pc s)) (m_todo s)).
Proof.
  intros I Hin Hmu Hmu1 Hv Hpc Hother. pose proof (mi_value s I) as HV. split; simpl.
  - rewrite mutex_holds_update, <-(mi_lock s I) by done. lia.
  - done.
  - intros t' x Hin' E. destruct (decide (t' = t)) as [->|Hne].
    + rewrite fn_lookup_insert in E. by apply Hpc.
    + rewrite fn_lookup_insert_ne in E by done.
      destruct Hother as [->|Hh]; [by eapply mi_store|].
      assert (t' = t) by (apply (mutex_inv_excl s); [done|split; [done|by rewrite E]|done]). done.
  - rewrite stored_update, Hv by done. clear -HV. word_lia.
  - apply (mi_todo s I).
Qed.

(** The side conditions of [mutex_inv_move] at a given program counter. *)
Ltac move_goals Epc :=
  apply mutex_inv_move; rewrite ?Epc; simpl; try done; try lia; try (f_equal; lia);
  try (by intros x [= <-]); try (by left); try (by right).

Lemma mutex_inv_step s t s' : mutex_inv s -> mutex_step t s = Some s' -> mutex_inv s'.
Proof.
  intros I E. unfold mutex_step in E. destruct (decide (t ∈ tiles)) as [Hin|]; [|done].
  pose proof (mi_word s I) as HW.
  destruct (m_pc s t) eqn:Epc; unfold inc_step in E; simpl in E.
  - assert (0 <= m_mutex s)
      by (rewrite (mi_lock s I); apply sum_over_nonneg; intros; apply ind_nonneg).
    injection E as <-. unfold bsg_mutex_lock_fail.
    destruct (Z.eqb_spec (m_mutex s) 1); move_goals Epc.
  - injection E as <-. move_goals Epc.
  - injection E as <-. move_goals Epc.
    rewrite (mi_store s I t value) by done. clear. word_lia.
  - injection E as <-.
    assert (m_mutex s = 1) as Hm.
    { pose proof (sum_over_one (fun t => ind (inc_holds (m_pc s t))) tiles t
        (fun _ _ => ind_nonneg _) Hin) as H1.
      rewrite <-(mi_lock s I) in H1. simpl in H1. rewrite Epc in H1. simpl in H1. lia. }
    unfold bsg_mutex_unlock. move_goals Epc.
  - destruct (Z.ltb_spec 0 (m_todo s t)); [|done]. injection E as <-. split; simpl.
    + rewrite mutex_holds_update, <-(mi_lock s I), Epc by done. simpl. lia.
    + done.
    + intros t' x Hin' E. destruct (decide (t' = t)) as [->|Hne];
        [by rewrite fn_lookup_insert in E|rewrite fn_lookup_insert_ne in E by done].
      by eapply mi_store.
    + rewrite stored_update by (done || intros; by rewrite fn_lookup_insert_ne).
      rewrite fn_lookup_insert, Epc, (mi_value s I). f_equal. simpl. lia.
    + intros t' Hin'. destruct (decide (t' = t)) as [->|Hne];
        [rewrite fn_lookup_insert; lia|rewrite fn_lookup_insert_ne by done; by apply (mi_todo s I)].
Qed.

Lemma mutex_reachable_inv s : reachable s -> mutex_inv s.
Proof. apply invariant_reachable; [apply mutex_inv_init|intros; by eapply mutex_inv_step]. Qed.

(** ** Progress: the holder, or else any waiting tile, can move *)

Definition mutex_measure s : Z :=
  sum_over (fun t => 5 * m_todo s t + inc_rank (m_pc s t)) tiles.

Lemma inc_rank_nonneg pc : 0 <= inc_rank pc.
Proof. by destruct pc. Qed.

Lemma measure_update s mu v todo' t pc :
  t ∈ tiles -> (forall t', t' <> t -> todo' t' = m_todo s t') ->
  mutex_measure (Build_mutex_state mu v (<[t := pc]> (m_pc s)) todo') =
    mutex_measure s + (5 * todo' t + inc_rank pc - 5 * m_todo s t - inc_rank (m_pc s t)).
Proof.
  intros Hin Htodo. unfold mutex_measure.
  rewrite (sum_over_update (fun t => 5 * m_todo s t + inc_rank (m_pc s t)) _ tiles t); [|done..|].
  - simpl. rewrite fn_lookup_insert. lia.
  - intros t' _ Hne. simpl. rewrite fn_lookup_insert_ne, Htodo by done. done.
Qed.

(** A tile inside a call moves on when the mutex is free or its own. *)
Lemma inc_moves s t :
  mutex_inv s -> t ∈ tiles -> m_pc s t <> IDone -> m_mutex s = 0 \/ inc_holds (m_pc s t) = true ->
  exists s', mutex_step t s = Some s' /\ mutex_measure s' < mutex_measure s.
Proof.
  intros I Hin Hpc Hm. unfold mutex_step. rewrite decide_True by done.
  destruct (m_pc s t) eqn:E; simpl; try done; eexists; (split; [done|]);
    rewrite measure_update by done; rewrite E; simpl; try lia.
  destruct Hm as [->|]; [simpl; lia|done].
Qed.

Lemma mutex_progress s :
  mutex_inv s -> all_done s \/
  exists t s', t ∈ tiles /\ mutex_step t s = Some s' /\ mutex_inv s' /\
    mutex_measure s' < mutex_measure s.
Proof.
  intros I.
  assert (all_done s \/ exists t, t ∈ tiles /\ (m_pc s t <> IDone \/ 0 < m_todo s t)) as Hd.
  { destruct (decide (Forall (fun t => m_pc s t = IDone /\ m_todo s t = 0) tiles)) as [HF|HF].
    - left. rewrite Forall_forall in HF. exact HF.
    - right. apply not_Forall_Exists in HF; [|apply _].
      apply Exists_exists in HF as (t & Hin & Ht). exists t. split; [done|].
      pose proof (mi_todo s I t Hin).
      destruct (decide (m_pc s t = IDone)); [right|by left].
      destruct (decide (m_todo s t = 0)); [by destruct Ht|lia]. }
  destruct Hd as [Hd|(t & Hin & Ht)]; [by left|right].
  assert (exists t s', t ∈ tiles /\ mutex_step t s = Some s' /\ mutex_measure s' < mutex_measure s)
    as (t' & s' & Hin' & E & Hlt); [|exists t', s'; eauto using mutex_inv_step].
  destruct (decide (m_mutex s = 0)) as [Hm|Hm].
  - destruct (decide (m_pc s t = IDone)) as [Hpc|Hpc].
    + destruct Ht as [|Ht]; [done|]. exists t. unfold mutex_step. rewrite decide_True, Hpc by done.
      apply Z.ltb_lt in Ht as Ht'. rewrite Ht'. eexists. split; [done|]. split; [done|].
      rewrite measure_update by (done || intros; by rewrite fn_lookup_insert_ne).
      rewrite fn_lookup_insert, Hpc. simpl. lia.
    + destruct (inc_moves s t I Hin Hpc) as (s' & ? & ?); [by left|]. eauto.
  - assert (0 < m_mutex s) as Hpos.
    { assert (0 <= m_mutex s); [|lia].
      rewrite (mi_lock s I); apply sum_over_nonneg; intros; apply ind_nonneg. }
    rewrite (mi_lock s I) in Hpos. apply sum_over_pos in Hpos as (h & Hh & Hp).
    destruct (inc_holds (m_pc s h)) eqn:Eh; [|simpl in Hp; lia].
    destruct (inc_moves s h I Hh) as (s' & ? & ?); [by intros E; rewrite E in Eh|by right|]. eauto.
Qed.

End invariant.

(** No deadlock: from every reachable state some continuation of the
    interleaving lets every tile return from all its calls. *)
Lemma mutex_can_finish s :
  NoDup tiles -> reachable s -> can_reach (fun t => t ∈ tiles) s all_done.
Proof.
  intros Hnd Hs.
  apply (can_reach_measure _ mutex_inv _ mutex_measure); [| |by apply mutex_reachable_inv].
  - intros s' I. apply sum_over_nonneg. intros t Hin.
    pose proof (mi_todo s' I t Hin). pose proof (inc_rank_nonneg (m_pc s' t)). lia.
  - intros s' I. by apply mutex_progress.
Qed.

(** C9 (safety).  At most one tile is between the [amoswap] that returned 0 and the unlock, and no
    increment is lost: whatever the interleaving, once every tile has returned from all its calls
    of [bsg_atomic_inc] the counter has grown by their number (modulo 2^32).  And every tile can
    always return from all its calls. *)
Theorem mutex_correct s :
  NoDup tiles -> reachable s ->
  (forall t t', holds s t -> holds s t' -> t = t') /\
  (all_done s -> i32 (m_value s) = i32 (value0 + sum_over total tiles)) /\
  can_reach (fun t => t ∈ tiles) s all_done.
Proof.
  intros Hnd Hs. assert (mutex_inv s) as I by (by apply mutex_reachable_inv). split; [|split].
  - intros t t'. by apply mutex_inv_excl.
  - intros Hd. rewrite (mi_value s) by done. do 2 f_equal. apply sum_over_ext. intros t Hin. unfold stored.
    destruct (Hd t Hin) as [-> ->]. simpl. lia.
  - by apply mutex_can_finish.
Qed.
End mutex.

(** Three tiles, two calls each. *)
Definition mutex_example : mutex_state Z :=
  Build_mutex_state 0 5 (fun _ => IDone) (fun _ => 2).

#[local] Instance example_lts : Lts (mutex_state Z) Z := mutex_lts [0; 1; 2] (fun _ => 2) 5.

Lemma mutex_example_init : mutex_init [0; 1; 2] (fun _ => 2) 5 mutex_example.
Proof. repeat split. lia. Qed.

Definition full_schedule : list Z :=
  [0; 1; 1; 0; 1; 1; 1; 0; 1; 0; 0; 0; 1; 1; 1; 1; 0; 0; 0; 0; 0; 2; 2; 2; 2; 2; 2; 2; 2; 2; 2].

(** Tile 1 takes the lock between two attempts of tile 0; later all are done. *)
Lemma mutex_correct_witness :
  let s := run_skip [0; 1; 1; 0; 1; 0] mutex_example in
  (holds [0; 1; 2] s 1 /\ forall t, holds [0; 1; 2] s t -> t = 1) /\
  i32 (m_value (run_skip full_schedule mutex_example)) = 11 /\
  can_reach (fun t => t ∈ [0; 1; 2]) s (all_done [0; 1; 2]).
Proof.
  assert (forall l, reachable (run_skip l mutex_example)) as Hs
    by (intros l; apply run_skip_reachable; constructor; apply mutex_example_init).
  assert (NoDup [0; 1; 2]) as Hnd by (apply NoDup_ListNoDup; repeat constructor; simpl; lia).
  assert (holds [0; 1; 2] (run_skip [0; 1; 1; 0; 1; 0] mutex_example) 1) as H1
    by (split; [right; left|reflexivity]).
  split; [split; [exact H1|intros t Ht]|split].
  - exact (proj1 (mutex_correct [0; 1; 2] (fun _ => 2) 5 _ Hnd (Hs _)) t 1 Ht H1).
  - rewrite (proj1 (proj2 (mutex_correct [0; 1; 2] (fun _ => 2) 5 _ Hnd (Hs full_schedule)))); [reflexivity|].
    intros t Ht. rewrite !elem_of_cons in Ht.
    destruct Ht as [->|[->|[->|Ht]]]; [split; reflexivity..|by apply not_elem_of_nil in Ht].
  - exact (proj2 (proj2 (mutex_correct [0; 1; 2] (fun _ => 2) 5 _ Hnd (Hs _)))).
Defined.
