(* ===== verification/Barrier.v ===== *)
(** * The software barrier of [bsg_barrier.h]

    [bsg_barrier_wait] joins under the mutex of the chief tile (the tile that owns the
    barrier); the chief waits for the count to reach the number of tiles, raises the alert of
    every tile, resets the count and unlocks; the other tiles wait for their alert and clear
    it.  [barrier_step] makes the next memory access of one tile, the loads and stores of
    [bsg_atomic_inc] and the [lr]/[lr.aq] pair of [bsg_wait_local_int] included: [lr] reserves
    the word, a store to the word clears the reservation, and [lr.aq] stalls while the
    reservation stands (that is what the comments of [bsg_mutex.h] say of the two
    instructions; the core that implements them is not in the repository).

    Every tile of the rectangle calls [bsg_barrier_wait] [total] times.  [b_entered] and
    [b_returned] count a tile's calls and returns, [b_round] the resets of the count: they are
    history, which no access reads. *)

From S2P Require Import Prelude Lts Mutex.
Local Open Scope Z_scope.

Definition alert_init : Z := 0.
Definition alert_signaled : Z := 1.

(** The coordinates of [bsg_barrier], as [BSG_BARRIER_INIT] sets them. *)
Record barrier_range := {
  x_cord_start : Z;
  x_cord_end : Z;
  y_cord_start : Z;
  y_cord_end : Z;
}.

Definition wf_range (r : barrier_range) : Prop :=
  0 <= x_cord_start r <= x_cord_end r /\ x_cord_end r < 256 /\
  0 <= y_cord_start r <= y_cord_end r /\ y_cord_end r < 256.

(** The tiles in the order of the two loops of the chief. *)
Definition range_tiles (r : barrier_range) : list (Z * Z) :=
  grid (x_cord_start r) (x_cord_end r - x_cord_start r + 1)
    (y_cord_start r) (y_cord_end r - y_cord_start r + 1).

Definition num_threads (r : barrier_range) : Z :=
  u32 ((x_cord_end r - x_cord_start r + 1) * (y_cord_end r - y_cord_start r + 1)).

(** Where a call of [bsg_barrier_wait] is: the next access it makes. *)
Inductive barrier_pc : Type :=
| BIdle                            (* outside, or returned *)
| BInc (pc : inc_pc)               (* bsg_atomic_inc *)
| BCountLr | BCountLrAq            (* the chief waits on the count *)
| BLock                            (* bsg_mutex_lock of the chief *)
| BAlert (rest : list (Z * Z))     (* alerts still to store *)
| BReset
| BUnlock
| BAlertLr | BAlertLrAq            (* the other tiles wait on their alert *)
| BClear.                          (* alert := _alert_init *)

Record barrier_state := {
  b_mutex : Z;
  b_count : Z;
  b_alert : Z * Z -> Z;
  b_resv : Z * Z -> bool;    (* the tile's reservation on the word it waits for *)
  b_pc : Z * Z -> barrier_pc;
  b_entered : Z * Z -> Z;
  b_returned : Z * Z -> Z;
  b_round : Z;
}.

(** [bsg_wait_local_int]: [lr] ... *)
Definition wait_lr (cond tmp : Z) (again ready : barrier_pc) : barrier_pc :=
  if tmp =? cond then ready else again.

Section barrier.
Variable r : barrier_range.
Variable chief : Z * Z.
Variable total : Z.
#[local] Abbreviation tiles := (range_tiles r).
Implicit Types (s : barrier_state) (t : Z * Z).

Definition set_pc t (pc : barrier_pc) s : barrier_state :=
  Build_barrier_state (b_mutex s) (b_count s) (b_alert s) (b_resv s) (<[t := pc]> (b_pc s))
    (b_entered s) (b_returned s) (b_round s).

Definition set_mutex (m : Z) s : barrier_state :=
  Build_barrier_state m (b_count s) (b_alert s) (b_resv s) (b_pc s)
    (b_entered s) (b_returned s) (b_round s).

(** A store to the count clears the chief's reservation, ... *)
Definition store_count (v : Z) s : barrier_state :=
  Build_barrier_state (b_mutex s) v (b_alert s) (<[chief := false]> (b_resv s)) (b_pc s)
    (b_entered s) (b_returned s) (b_round s).

(** ... a store to the alert of another tile the reservation of that tile. *)
Definition store_alert t (v : Z) s : barrier_state :=
  Build_barrier_state (b_mutex s) (b_count s) (<[t := v]> (b_alert s))
    (if decide (t = chief) then b_resv s else <[t := false]> (b_resv s)) (b_pc s)
    (b_entered s) (b_returned s) (b_round s).

Definition set_resv t (v : bool) s : barrier_state :=
  Build_barrier_state (b_mutex s) (b_count s) (b_alert s) (<[t := v]> (b_resv s)) (b_pc s)
    (b_entered s) (b_returned s) (b_round s).

Definition enter t s : barrier_state :=
  Build_barrier_state (b_mutex s) (b_count s) (b_alert s) (b_resv s) (b_pc s)
    (<[t := b_entered s t + 1]> (b_entered s)) (b_returned s) (b_round s).

Definition return_ t s : barrier_state :=
  Build_barrier_state (b_mutex s) (b_count s) (b_alert s) (b_resv s) (b_pc s)
    (b_entered s) (<[t := b_returned s t + 1]> (b_returned s)) (b_round s).

Definition next_round s : barrier_state :=
  Build_barrier_state (b_mutex s) (b_count s) (b_alert s) (b_resv s) (b_pc s)
    (b_entered s) (b_returned s) (b_round s + 1).

(** What follows [bsg_atomic_inc]: the chief and the others part. *)
Definition after_inc t : barrier_pc := if decide (t = chief) then BCountLr else BAlertLr.

(** [bsg_atomic_inc] on the barrier's mutex and count, one access of it. *)
Definition inc_access t (pc : inc_pc) s : option barrier_state :=
  '(pc', mutex, count) ← inc_step pc (b_mutex s) (b_count s);
  let next := match pc' with IDone => after_inc t | _ => BInc pc' end in
  let s := set_mutex mutex s in
  let s := match pc with IStore _ => store_count count s | _ => s end in
  Some (set_pc t next s).

Definition barrier_step t s : option barrier_state :=
  if decide (t ∈ tiles) then
    match b_pc s t with
    | BIdle => if b_entered s t <? total then Some (set_pc t (BInc ILock) (enter t s)) else None
    | BInc pc => inc_access t pc s
    | BCountLr =>
        Some (set_pc t (wait_lr (num_threads r) (b_count s) BCountLrAq BLock) (set_resv t true s))
    | BCountLrAq =>
        if b_resv s t then None
        else Some (set_pc t (wait_lr (num_threads r) (b_count s) BCountLr BLock)
                (set_resv t false s))
    | BLock =>
        let '(mutex, taken) := bsg_mutex_lock_step (b_mutex s) in
        Some (set_pc t (if taken then BAlert tiles else BLock) (set_mutex mutex s))
    | BAlert (i :: rest) => Some (set_pc t (BAlert rest) (store_alert i alert_signaled s))
    | BAlert [] => Some (set_pc t BReset s)
    | BReset => Some (set_pc t BUnlock (next_round (store_count 0 s)))
    | BUnlock => Some (set_pc t BIdle (return_ t (set_mutex (bsg_mutex_unlock (b_mutex s)) s)))
    | BAlertLr =>
        Some (set_pc t (wait_lr alert_signaled (b_alert s t) BAlertLrAq BClear)
                (set_resv t true s))
    | BAlertLrAq =>
        if b_resv s t then None
        else Some (set_pc t (wait_lr alert_signaled (b_alert s t) BAlertLr BClear)
                (set_resv t false s))
    | BClear => Some (set_pc t BIdle (return_ t (store_alert t alert_init s)))
    end
  else None.

(** [BSG_BARRIER_INIT]. *)
Definition barrier_init s : Prop :=
  b_mutex s = 0 /\ b_count s = 0 /\ b_round s = 0 /\
  (forall t, t ∈ tiles -> b_alert s t = alert_init /\ b_pc s t = BIdle /\
    b_entered s t = 0 /\ b_returned s t = 0).

#[local] Instance barrier_lts : Lts barrier_state (Z * Z) :=
  { lts_init := barrier_init; lts_step := barrier_step }.
(** ** The invariant *)

Definition holds_lock (pc : barrier_pc) : bool :=
  match pc with
  | BInc pc => inc_holds pc
  | BAlert _ | BReset | BUnlock => true
  | _ => false
  end.

(** The call has been counted. *)
Definition counted (pc : barrier_pc) : bool :=
  match pc with BInc pc => inc_stored pc | _ => true end.

(** The calls of a tile that have been counted, over all rounds. *)
Definition joined s t : Z := b_entered s t - ind (negb (counted (b_pc s t))).

(** The alerts raised for a tile, over all rounds. *)
Definition delivered s t : Z :=
  b_round s +
  match b_pc s chief with
  | BAlert rest => ind (bool_decide (t ∉ rest))
  | BReset => 1
  | _ => 0
  end.

(** The chief has seen the count reach the number of tiles, and has not reset it. *)
Definition round_full (pc : barrier_pc) : bool :=
  match pc with BLock | BAlert _ | BReset => true | _ => false end.

(** What holds of the chief at each point of its call, in round [k]. *)
Definition chief_ok (k : Z) (pc : barrier_pc) (entered returned : Z) : Prop :=
  match pc with
  | BIdle => entered = k /\ returned = k
  | BInc IDone => False
  | BInc _ | BCountLr | BCountLrAq | BLock | BAlert _ | BReset => entered = k + 1 /\ returned = k
  | BUnlock => entered = k /\ returned = k - 1
  | _ => False
  end.

(** What holds of another tile, [d] alerts having been raised for it. *)
Definition tile_ok (d : Z) (pc : barrier_pc) (entered returned alert : Z) : Prop :=
  match pc with
  | BIdle => entered = returned /\ d = returned /\ alert = 0
  | BInc IDone => False
  | BInc _ => entered = returned + 1 /\ d = returned /\ alert = 0
  | BAlertLr | BAlertLrAq =>
      entered = returned + 1 /\ alert = d - returned /\ (d = returned \/ d = returned + 1)
  | BClear => entered = returned + 1 /\ d = returned + 1 /\ alert = 1
  | _ => False
  end.

Definition member_ok s t : Prop :=
  if decide (t = chief) then chief_ok (b_round s) (b_pc s t) (b_entered s t) (b_returned s t)
  else tile_ok (delivered s t) (b_pc s t) (b_entered s t) (b_returned s t) (b_alert s t).

(** The condition [lr.aq] waits for cannot hold while the reservation stands. *)
Definition no_lost_wakeup s t : Prop :=
  b_resv s t = true ->
  (b_pc s t = BAlertLrAq -> b_alert s t <> alert_signaled) /\
  (b_pc s t = BCountLrAq -> b_count s <> num_threads r).

Record barrier_inv s : Prop := {
  bi_lock : b_mutex s = sum_over (fun t => ind (holds_lock (b_pc s t))) tiles;
  bi_word : b_mutex s <= 1;
  bi_store : forall t v, t ∈ tiles -> b_pc s t = BInc (IStore v) -> v = i32 (b_count s + 1);
  bi_joined : forall t, t ∈ tiles -> joined s t = b_round s \/ joined s t = b_round s + 1;
  bi_count : b_count s = sum_over (fun t => joined s t - b_round s) tiles;
  bi_full : round_full (b_pc s chief) = true ->
    forall t, t ∈ tiles -> joined s t = b_round s + 1;
  bi_member : forall t, t ∈ tiles -> member_ok s t;
  bi_rest : forall rest, b_pc s chief = BAlert rest -> NoDup rest /\ forall t, t ∈ rest -> t ∈ tiles;
  bi_wakeup : forall t, t ∈ tiles -> no_lost_wakeup s t;
  bi_limit : forall t, t ∈ tiles -> b_entered s t <= total;
}.

Hypothesis r_wf : wf_range r.
Hypothesis chief_in : chief ∈ tiles.
Hypothesis total_nonneg : 0 <= total.

Lemma tiles_count : num_threads r = Z.of_nat (length tiles).
Proof.
  destruct r_wf as (? & ? & ? & ?). unfold num_threads, range_tiles.
  rewrite length_grid by lia. apply u32_id. unfold is_u32. nia.
Qed.

Lemma tiles_nodup : NoDup tiles.
Proof. apply NoDup_grid. Qed.

Lemma barrier_inv_init s : barrier_init s -> barrier_inv s.
Proof.
  intros (Hm & Hc & Hr & Ht).
  assert (forall t, t ∈ tiles -> joined s t = 0) as Hj.
  { intros t Hin. destruct (Ht t Hin) as (_ & Hp & He & _). unfold joined. rewrite Hp, He. done. }
  destruct (Ht chief chief_in) as (_ & Hcp & Hce & Hcr).
  split.
  - rewrite Hm. symmetry. apply sum_over_zero. intros t Hin. by destruct (Ht t Hin) as (_ & -> & _).
  - lia.
  - intros t v Hin E. destruct (Ht t Hin) as (_ & E' & _). by rewrite E' in E.
  - intros t Hin. rewrite Hj, Hr by done. by left.
  - rewrite Hc, sum_over_zero; [done|]. intros t Hin. rewrite Hj, Hr by done. done.
  - by rewrite Hcp.
  - intros t Hin. unfold member_ok. destruct (Ht t Hin) as (-> & -> & -> & ->).
    destruct (decide _); simpl; unfold delivered; rewrite ?Hcp, ?Hr; done.
  - intros rest E. by rewrite Hcp in E.
  - intros t Hin _. destruct (Ht t Hin) as (_ & -> & _). done.
  - intros t Hin. destruct (Ht t Hin) as (_ & _ & -> & _). done.
Qed.

Lemma barrier_holds_update s t pcs :
  t ∈ tiles -> (forall t', t' <> t -> pcs t' = b_pc s t') -> barrier_inv s ->
  sum_over (fun t' => ind (holds_lock (pcs t'))) tiles =
    b_mutex s + ind (holds_lock (pcs t)) - ind (holds_lock (b_pc s t)).
Proof.
  intros Hin E I. rewrite (bi_lock s I).
  rewrite (sum_over_update (fun t' => ind (holds_lock (b_pc s t'))) _ tiles t);
    [lia|apply tiles_nodup|done|].
  intros t' _ Hne. by rewrite E.
Qed.

(** Only one tile at a time holds the lock. *)
Lemma barrier_inv_excl s t t' :
  barrier_inv s -> t ∈ tiles -> t' ∈ tiles -> holds_lock (b_pc s t) = true ->
  holds_lock (b_pc s t') = true -> t = t'.
Proof.
  intros I Hin Hin' Hh Hh'. destruct (decide (t = t')) as [|Hne]; [done|exfalso].
  pose proof (bi_word s I). rewrite (bi_lock s I) in *.
  pose proof (sum_over_two (fun t => ind (holds_lock (b_pc s t))) tiles t t'
    (fun _ _ => ind_nonneg _) Hin Hin' Hne) as H2.
  simpl in H2. rewrite Hh, Hh' in H2. simpl in H2. lia.
Qed.

(** The tile that moves changes nothing but its own counter and reservation, and the mutex. *)
Lemma inv_local s s' t :
  barrier_inv s -> t ∈ tiles ->
  (forall t', t' <> t -> b_pc s' t' = b_pc s t' /\ b_entered s' t' = b_entered s t' /\
     b_resv s' t' = b_resv s t') ->
  b_count s' = b_count s -> b_alert s' = b_alert s -> b_returned s' = b_returned s ->
  b_round s' = b_round s ->
  b_mutex s' = b_mutex s + ind (holds_lock (b_pc s' t)) - ind (holds_lock (b_pc s t)) ->
  b_mutex s' <= 1 ->
  joined s' t = joined s t ->
  (forall t', t' ∈ tiles -> delivered s' t' = delivered s t') ->
  member_ok s' t ->
  (forall v, b_pc s' t = BInc (IStore v) -> v = i32 (b_count s + 1)) ->
  (t = chief -> round_full (b_pc s' t) = true ->
     forall t', t' ∈ tiles -> joined s t' = b_round s + 1) ->
  (forall rest, b_pc s' t = BAlert rest -> rest = tiles) ->
  no_lost_wakeup s' t -> b_entered s' t <= total ->
  barrier_inv s'.
Proof.
  intros I Hin Hoth Ec Ea Er EK Hmu Hmu1 Hj Hd Hm Hst Hfull Hrest Hwk Hlim.
  assert (forall t', joined s' t' = joined s t') as Hjoin.
  { intros t'. destruct (decide (t' = t)) as [->|Hne]; [done|].
    unfold joined. destruct (Hoth t' Hne) as (-> & -> & _). done. }
  split.
  - rewrite (barrier_holds_update s t); [done|done|intros t' Hne; by destruct (Hoth t' Hne)|done].
  - done.
  - intros t' v Hin' E. rewrite Ec. destruct (decide (t' = t)) as [->|Hne]; [by apply Hst|].
    destruct (Hoth t' Hne) as (E' & _). rewrite E' in E. by eapply bi_store.
  - intros t' Hin'. rewrite Hjoin, EK. by apply bi_joined.
  - rewrite Ec, EK, (bi_count s I). apply sum_over_ext. intros t' _. by rewrite Hjoin.
  - intros Hf t' Hin'. rewrite Hjoin, EK. destruct (decide (chief = t)) as [<-|Hne].
    + by apply Hfull.
    + destruct (Hoth chief Hne) as (E & _). rewrite E in Hf. by apply bi_full.
  - intros t' Hin'. destruct (decide (t' = t)) as [->|Hne]; [done|].
    pose proof (bi_member s I t' Hin') as Hm'. unfold member_ok in *.
    destruct (Hoth t' Hne) as (-> & -> & _). rewrite Hd, Ea, Er, EK by done. done.
  - intros rest E. destruct (decide (chief = t)) as [<-|Hne].
    + rewrite (Hrest rest E). split; [apply tiles_nodup|done].
    + destruct (Hoth chief Hne) as (E' & _). rewrite E' in E. by apply (bi_rest s).
  - intros t' Hin'. destruct (decide (t' = t)) as [->|Hne]; [done|].
    pose proof (bi_wakeup s I t' Hin') as Hw. unfold no_lost_wakeup in *.
    destruct (Hoth t' Hne) as (-> & _ & ->). by rewrite Ec, Ea.
  - intros t' Hin'. destruct (decide (t' = t)) as [->|Hne]; [done|].
    destruct (Hoth t' Hne) as (_ & -> & _). by apply bi_limit.
Qed.

(** Evaluates the updated functions of a successor state. *)
Ltac upd := simpl; rewrite ?fn_lookup_insert, ?fn_lookup_insert_ne by done; simpl.

(** Discharges the framing conditions of [inv_local]. *)
Ltac frame := try done; try (intros t' Hne; simpl; rewrite ?fn_lookup_insert_ne by done; done).

(** The alert count only depends on the phase of the chief. *)
Lemma delivered_same s s' t t' :
  b_round s' = b_round s -> (chief <> t -> b_pc s' chief = b_pc s chief) ->
  (chief = t -> match b_pc s chief, b_pc s' chief with
   | (BAlert _ | BReset), _ | _, BReset => False
   | _, BAlert rest => t' ∈ rest
   | _, _ => True end) ->
  delivered s' t' = delivered s t'.
Proof.
  intros EK Ene Ech. unfold delivered. rewrite EK. destruct (decide (chief = t)) as [E|Hne].
  - specialize (Ech E). destruct (b_pc s chief), (b_pc s' chief); try done;
      by rewrite bool_decide_eq_false_2 by tauto.
  - by rewrite Ene.
Qed.

(** A tile enters its next call. *)
Lemma step_enter s t :
  barrier_inv s -> t ∈ tiles -> b_pc s t = BIdle -> b_entered s t < total ->
  barrier_inv (set_pc t (BInc ILock) (enter t s)).
Proof.
  intros I Hin E Hlt. pose proof (bi_word s I). pose proof (bi_member s I t Hin) as Hm.
  apply (inv_local s _ t); frame.
  - upd. rewrite E. simpl. lia.
  - unfold joined. upd. rewrite E. simpl. lia.
  - intros t' _. apply (delivered_same s _ t); [done|intros; by upd|].
    intros <-. upd. by rewrite E.
  - unfold member_ok in *. rewrite (delivered_same s _ t);
      [|done|intros; by upd|intros <-; upd; by rewrite E].
    upd. rewrite E in Hm. destruct (decide (t = chief)); simpl in *; lia.
  - by upd.
  - by upd.
  - by upd.
  - intros _. by upd.
  - upd. lia.
Qed.

(** A step of [bsg_atomic_inc] other than its store. *)
Lemma step_inc s t pc pc' mu :
  barrier_inv s -> t ∈ tiles -> b_pc s t = BInc pc ->
  (match pc' with BInc IDone => False | BInc _ => True
   | BCountLr => t = chief | BAlertLr => t <> chief | _ => False end) ->
  counted pc' = inc_stored pc ->
  mu = b_mutex s + ind (holds_lock pc') - ind (inc_holds pc) -> mu <= 1 ->
  (forall v, pc' = BInc (IStore v) -> v = i32 (b_count s + 1)) ->
  barrier_inv (set_pc t pc' (set_mutex mu s)).
Proof.
  intros I Hin E Hpc' Hcnt Hmu Hmu1 Hst. pose proof (bi_member s I t Hin) as Hm.
  assert (forall t', delivered (set_pc t pc' (set_mutex mu s)) t' = delivered s t') as Hd.
  { intros t'. apply (delivered_same s _ t); [done|intros; by upd|].
    intros <-. upd. rewrite E. by destruct pc' as [|[]| | | | | | | | |]. }
  apply (inv_local s _ t); frame.
  - upd. rewrite E. done.
  - unfold joined. upd. rewrite E. simpl. by rewrite Hcnt.
  - unfold member_ok in *. rewrite Hd. upd. rewrite E in Hm.
    destruct (decide (t = chief)) as [->|Hne]; simpl in *.
    + destruct pc' as [|[]| | | | | | | | |], pc; simpl in *; try done; lia.
    + destruct pc' as [|[]| | | | | | | | |], pc; simpl in *; try done; lia.
  - upd. done.
  - intros ->. upd. by destruct pc' as [|[]| | | | | | | | |].
  - upd. intros rest ->. done.
  - intros _. upd. by destruct pc' as [|[]| | | | | | | | |].
  - upd. by apply bi_limit.
Qed.

(** The steps of the two waits. *)
Lemma step_wait s t pc pc' v :
  barrier_inv s -> t ∈ tiles -> b_pc s t = pc ->
  match pc, pc' with
  | (BCountLr | BCountLrAq), (BCountLr | BCountLrAq) => True
  | (BCountLr | BCountLrAq), BLock => b_count s = num_threads r
  | (BAlertLr | BAlertLrAq), (BAlertLr | BAlertLrAq) => True
  | (BAlertLr | BAlertLrAq), BClear => b_alert s t = alert_signaled
  | _, _ => False
  end ->
  (v = true -> (pc' = BAlertLrAq -> b_alert s t <> alert_signaled) /\
    (pc' = BCountLrAq -> b_count s <> num_threads r)) ->
  barrier_inv (set_pc t pc' (set_resv t v s)).
Proof.
  intros I Hin E Hpc Hwk. pose proof (bi_member s I t Hin) as Hm. pose proof (bi_word s I).
  assert (forall t', delivered (set_pc t pc' (set_resv t v s)) t' = delivered s t') as Hd.
  { intros t'. apply (delivered_same s _ t); [done|intros; by upd|].
    intros <-. upd. rewrite E. by destruct pc, pc'. }
  assert (counted pc' = counted pc /\ holds_lock pc' = holds_lock pc) as [Hc Hh]
    by (by destruct pc, pc').
  apply (inv_local s _ t); frame.
  - upd. rewrite E, Hh. lia.
  - unfold joined. upd. by rewrite E, Hc.
  - unfold member_ok in *. rewrite Hd. upd. rewrite E in Hm.
    destruct (decide (t = chief)) as [->|Hne]; destruct pc, pc'; simpl in *; try done.
    + destruct Hm as (? & ? & ?). unfold alert_signaled in *. lia.
    + destruct Hm as (? & ? & ?). unfold alert_signaled in *. lia.
  - upd. intros v' ->. by destruct pc.
  - intros -> Hf. simpl in Hf. rewrite fn_lookup_insert in Hf.
    assert (b_count s = num_threads r) as Hcount by (by destruct pc, pc').
    rewrite (bi_count s I), tiles_count in Hcount.
    assert (forall t', t' ∈ tiles -> joined s t' - b_round s = 1) as H1.
    { apply sum_over_tight; [|lia]. intros t' Hin'. destruct (bi_joined s I t' Hin'); lia. }
    intros t' Hin'. specialize (H1 t' Hin'). lia.
  - upd. intros rest ->. by destruct pc.
  - unfold no_lost_wakeup. upd. exact Hwk.
  - upd. by apply bi_limit.
Qed.

(** The mutex word is 0 or 1, and 1 while a tile holds the lock. *)
Lemma mutex_bounds s : barrier_inv s -> 0 <= b_mutex s <= 1.
Proof.
  intros I. split; [|apply (bi_word s I)].
  rewrite (bi_lock s I). apply sum_over_nonneg. intros; apply ind_nonneg.
Qed.

Lemma mutex_held s t :
  barrier_inv s -> t ∈ tiles -> holds_lock (b_pc s t) = true -> b_mutex s = 1.
Proof.
  intros I Hin Hh. pose proof (mutex_bounds s I).
  pose proof (sum_over_one (fun t => ind (holds_lock (b_pc s t))) tiles t
    (fun _ _ => ind_nonneg _) Hin) as H1.
  rewrite <-(bi_lock s I) in H1. simpl in H1. rewrite Hh in H1. simpl in H1. lia.
Qed.

(** The count never exceeds the number of tiles. *)
Lemma count_bounds s : barrier_inv s -> 0 <= b_count s <= num_threads r.
Proof.
  intros I. rewrite (bi_count s I), tiles_count. split.
  - apply sum_over_nonneg. intros t Hin. destruct (bi_joined s I t Hin); lia.
  - rewrite <-(Z.mul_1_l (Z.of_nat _)), <-sum_over_const. apply sum_over_le.
    intros t Hin. destruct (bi_joined s I t Hin); lia.
Qed.

Lemma num_threads_bound : num_threads r <= 65536.
Proof.
  destruct r_wf as (? & ? & ? & ?). rewrite tiles_count. unfold range_tiles.
  rewrite length_grid by lia. nia.
Qed.

(** While the chief holds the lock no other tile is inside [bsg_atomic_inc]'s critical section. *)
Lemma chief_excludes s t :
  barrier_inv s -> t ∈ tiles -> holds_lock (b_pc s t) = true ->
  holds_lock (b_pc s chief) = true -> t = chief.
Proof. intros I Hin H1 H2. by apply (barrier_inv_excl s). Qed.

(** The store of [bsg_atomic_inc]: one more tile is counted. *)
Lemma step_count s t v :
  barrier_inv s -> t ∈ tiles -> b_pc s t = BInc (IStore v) ->
  barrier_inv (set_pc t (BInc IUnlock) (store_count v (set_mutex (b_mutex s) s))).
Proof.
  intros I Hin E. pose proof (bi_member s I t Hin) as Hm. pose proof (bi_word s I).
  pose proof (count_bounds s I). pose proof num_threads_bound.
  assert (joined s t = b_round s) as Hj.
  { destruct (bi_joined s I t Hin) as [|Hj]; [done|]. unfold joined in Hj. rewrite E in Hj.
    unfold member_ok in Hm. rewrite E in Hm. destruct (decide (t = chief)); simpl in *; [lia|].
    unfold delivered in Hm. destruct (b_pc s chief) eqn:Ec; simpl in *; try lia; exfalso;
      apply n, (chief_excludes s); try done; by rewrite ?E, ?Ec. }
  assert (round_full (b_pc s chief) = true -> False) as Hnf.
  { intros Hf. pose proof (bi_full s I Hf t Hin). lia. }
  set (s' := set_pc _ _ _).
  assert (forall t', joined s' t' = joined s t' + ind (bool_decide (t' = t))) as Hjoin.
  { intros t'. unfold joined, s'. simpl. case_bool_decide as Ht.
    - subst t'. rewrite fn_lookup_insert, E. simpl. lia.
    - rewrite fn_lookup_insert_ne by done. simpl. lia. }
  assert (forall t', delivered s' t' = delivered s t') as Hd.
  { intros t'. apply (delivered_same s _ t); [done|intros; unfold s'; by upd|].
    intros <-. unfold s'. upd. by rewrite E. }
  split.
  - rewrite (barrier_holds_update s t); [|done| |done].
    + unfold s'. upd. rewrite E. simpl. lia.
    + intros t' Hne. unfold s'. by upd.
  - done.
  - intros t' v' Hin' E'. unfold s' in E'. simpl in E'. destruct (decide (t' = t)) as [->|Hne].
    + by rewrite fn_lookup_insert in E'.
    + rewrite fn_lookup_insert_ne in E' by done. exfalso. apply Hne, (barrier_inv_excl s); try done.
      all: by rewrite ?E, ?E'.
  - intros t' Hin'. rewrite Hjoin. simpl. case_bool_decide as Ht; simpl.
    + subst t'. right. lia.
    + destruct (bi_joined s I t' Hin'); lia.
  - assert (sum_over (fun t' => joined s' t' - b_round s) tiles = b_count s + 1) as Hsum.
    { rewrite (bi_count s I).
      rewrite (sum_over_update (fun t' => joined s t' - b_round s) _ tiles t);
        [|apply tiles_nodup|done|].
      - cbv beta. rewrite Hjoin, bool_decide_eq_true_2 by done. simpl. lia.
      - intros t' _ Hne. cbv beta. rewrite Hjoin, bool_decide_eq_false_2 by done. simpl. lia. }
    change (v = sum_over (fun t' => joined s' t' - b_round s) tiles).
    rewrite Hsum, (bi_store s I t v Hin E). apply i32_id. unfold is_i32. lia.
  - intros Hf. exfalso. apply Hnf. unfold s' in Hf. simpl in Hf.
    destruct (decide (chief = t)) as [<-|Hne]; [by rewrite fn_lookup_insert in Hf|].
    by rewrite fn_lookup_insert_ne in Hf.
  - intros t' Hin'. unfold member_ok in *. rewrite Hd. unfold s'. simpl.
    destruct (decide (t' = t)) as [->|Hne].
    + rewrite fn_lookup_insert. rewrite E in Hm. destruct (decide (t = chief)); done.
    + rewrite fn_lookup_insert_ne by done. by apply bi_member.
  - intros rest E'. exfalso. unfold s' in E'. simpl in E'.
    destruct (decide (chief = t)) as [<-|Hne]; [by rewrite fn_lookup_insert in E'|].
    rewrite fn_lookup_insert_ne in E' by done. apply Hnf. by rewrite E'.
  - intros t' Hin'. unfold no_lost_wakeup, s'. simpl.
    destruct (decide (t' = t)) as [->|Hne]; [by rewrite fn_lookup_insert|].
    rewrite (fn_lookup_insert_ne (b_pc s)) by done.
    destruct (decide (t' = chief)) as [->|Hnc]; [by rewrite fn_lookup_insert|].
    rewrite fn_lookup_insert_ne by done. intros Hr. pose proof (bi_wakeup s I t' Hin' Hr) as [Hw _].
    split; [done|]. intros Ep. exfalso. pose proof (bi_member s I t' Hin') as Hm'.
    unfold member_ok in Hm'. rewrite decide_False, Ep in Hm' by done. done.
  - intros t' Hin'. by apply (bi_limit s I).
Qed.

Lemma step_lock s t mu pc' :
  barrier_inv s -> t ∈ tiles -> b_pc s t = BLock ->
  (pc' = BLock /\ mu = b_mutex s) \/ (pc' = BAlert tiles /\ b_mutex s = 0 /\ mu = 1) ->
  barrier_inv (set_pc t pc' (set_mutex mu s)).
Proof.
  intros I Hin E Hpc. pose proof (bi_member s I t Hin) as Hm. pose proof (bi_word s I).
  assert (t = chief) as -> by (unfold member_ok in Hm; rewrite E in Hm; by case_decide).
  assert (counted pc' = true /\ (forall p, pc' <> BInc p) /\
    mu = b_mutex s + ind (holds_lock pc') /\ mu <= 1) as (Hc & Hni & Hmu & Hmu1)
    by (destruct Hpc as [[-> ->]|(-> & ? & ->)]; simpl; (split; [done|]); split; [done|lia|done|lia]).
  apply (inv_local s _ chief); frame.
  - upd. rewrite E. simpl. lia.
  - unfold joined. upd. by rewrite E, Hc.
  - intros t' Hin'. apply (delivered_same s _ chief); [done|done|]. intros _. upd. rewrite E.
    by destruct Hpc as [[-> _]|[-> _]].
  - unfold member_ok in *. upd. rewrite decide_True, E in * by done.
    by destruct Hpc as [[-> _]|[-> _]].
  - upd. intros v Ev. by apply Hni in Ev.
  - intros _ _. apply (bi_full s I). by rewrite E.
  - upd. intros rest ->. by destruct Hpc as [[? _]|[[= ->] _]].
  - intros _. upd. by destruct Hpc as [[-> _]|[-> _]].
  - upd. by apply bi_limit.
Qed.

(** The chief raises the alert of [i], which waits for it. *)
Lemma step_alert s t i rest :
  barrier_inv s -> t ∈ tiles -> b_pc s t = BAlert (i :: rest) ->
  barrier_inv (set_pc t (BAlert rest) (store_alert i alert_signaled s)).
Proof.
  intros I Hin E. pose proof (bi_member s I t Hin) as Hm.
  assert (t = chief) as -> by (unfold member_ok in Hm; rewrite E in Hm; by case_decide).
  destruct (bi_rest s I _ E) as [Hnd Hsub]. apply NoDup_cons in Hnd as [Hi Hnd].
  set (s' := set_pc _ _ _).
  assert (forall t', joined s' t' = joined s t') as Hjoin.
  { intros t'. unfold joined, s'. simpl. destruct (decide (t' = chief)) as [->|Hne].
    - rewrite fn_lookup_insert, E. done.
    - by rewrite fn_lookup_insert_ne. }
  assert (forall t', delivered s' t' = delivered s t' + ind (bool_decide (t' = i))) as Hd.
  { intros t'. unfold delivered, s'. simpl. rewrite fn_lookup_insert, E.
    rewrite (bool_decide_ext (t' ∉ i :: rest) (t' <> i /\ t' ∉ rest))
      by (rewrite elem_of_cons; tauto).
    destruct (decide (t' = i)) as [->|Hne].
    - rewrite (bool_decide_eq_true_2 (i ∉ rest)) by done.
      rewrite (bool_decide_eq_false_2 (i <> i /\ _)) by tauto.
      rewrite bool_decide_eq_true_2 by done. simpl. lia.
    - rewrite (bool_decide_eq_false_2 (t' = i)) by done.
      rewrite (bool_decide_ext (t' <> i /\ t' ∉ rest) (t' ∉ rest)) by tauto. simpl. lia. }
  split.
  - rewrite (barrier_holds_update s chief); [|done| |done].
    + unfold s'. upd. rewrite E. simpl. lia.
    + intros t' Hne. unfold s'. by upd.
  - apply (bi_word s I).
  - intros t' v Hin' E'. unfold s' in E'. simpl in E'. destruct (decide (t' = chief)) as [->|Hne].
    + by rewrite fn_lookup_insert in E'.
    + rewrite fn_lookup_insert_ne in E' by done. by apply (bi_store s I t').
  - intros t' Hin'. rewrite Hjoin. by apply (bi_joined s I).
  - rewrite (sum_over_ext _ (fun t' => joined s t' - b_round s)) by (intros; by rewrite Hjoin).
    apply (bi_count s I).
  - intros _ t' Hin'. rewrite Hjoin. apply (bi_full s I); [by rewrite E|done].
  - intros t' Hin'. pose proof (bi_member s I t' Hin') as Hm'. unfold member_ok in *.
    rewrite Hd. unfold s'. simpl. destruct (decide (t' = chief)) as [->|Hne].
    + rewrite fn_lookup_insert. rewrite decide_True, E in Hm by done. done.
    + rewrite fn_lookup_insert_ne by done. destruct (decide (t' = i)) as [->|Hni].
      * rewrite fn_lookup_insert, bool_decide_eq_true_2 by done.
        pose proof (bi_full s I ltac:(by rewrite E) i Hin') as Hj.
        assert (delivered s i = b_round s) as Hdi.
        { unfold delivered. rewrite E, bool_decide_eq_false_2 by (rewrite elem_of_cons; tauto).
          simpl. lia. }
        rewrite Hdi in *. unfold joined in Hj. unfold alert_signaled.
        destruct (b_pc s i) as [|p| | | | | | | | |] eqn:Ei; simpl in *; try done; try lia.
        destruct p; simpl in *; try lia. exfalso. apply Hne, (chief_excludes s); try done.
        all: by rewrite ?E, ?Ei.
      * rewrite fn_lookup_insert_ne, bool_decide_eq_false_2 by done. simpl.
        by rewrite Z.add_0_r.
  - intros rest' E'. unfold s' in E'. simpl in E'. rewrite fn_lookup_insert in E'.
    injection E' as <-. split; [done|]. intros t' Ht'. apply Hsub. by right.
  - intros t' Hin'. pose proof (bi_wakeup s I t' Hin') as Hw. unfold no_lost_wakeup, s' in *. simpl.
    destruct (decide (t' = chief)) as [->|Hne]; [by rewrite fn_lookup_insert|].
    rewrite fn_lookup_insert_ne by done. destruct (decide (i = chief)) as [->|Hic].
    + by rewrite fn_lookup_insert_ne.
    + destruct (decide (t' = i)) as [->|Hni]; [by rewrite fn_lookup_insert|].
      by rewrite !fn_lookup_insert_ne.
  - intros t' Hin'. by apply (bi_limit s I).
Qed.

Lemma step_alerted s t :
  barrier_inv s -> t ∈ tiles -> b_pc s t = BAlert [] -> barrier_inv (set_pc t BReset s).
Proof.
  intros I Hin E. pose proof (bi_member s I t Hin) as Hm. pose proof (bi_word s I).
  assert (t = chief) as -> by (unfold member_ok in Hm; rewrite E in Hm; by case_decide).
  apply (inv_local s _ chief); frame.
  - upd. rewrite E. simpl. lia.
  - unfold joined. upd. by rewrite E.
  - intros t' _. unfold delivered. upd. rewrite E. done.
  - unfold member_ok in *. upd. rewrite decide_True, E in * by done. done.
  - by upd.
  - intros _ _. apply (bi_full s I). by rewrite E.
  - by upd.
  - intros _. by upd.
  - upd. by apply bi_limit.
Qed.

(** The reset of the count closes the round. *)
Lemma step_reset s t :
  barrier_inv s -> t ∈ tiles -> b_pc s t = BReset ->
  barrier_inv (set_pc t BUnlock (next_round (store_count 0 s))).
Proof.
  intros I Hin E. pose proof (bi_member s I t Hin) as Hm.
  assert (t = chief) as -> by (unfold member_ok in Hm; rewrite E in Hm; by case_decide).
  pose proof (bi_full s I ltac:(by rewrite E)) as Hfull.
  set (s' := set_pc _ _ _).
  assert (forall t', joined s' t' = joined s t') as Hjoin.
  { intros t'. unfold joined, s'. simpl. destruct (decide (t' = chief)) as [->|Hne].
    - rewrite fn_lookup_insert, E. done.
    - by rewrite fn_lookup_insert_ne. }
  assert (forall t', delivered s' t' = delivered s t') as Hd.
  { intros t'. unfold delivered, s'. simpl. rewrite fn_lookup_insert, E. lia. }
  split.
  - rewrite (barrier_holds_update s chief); [|done| |done].
    + unfold s'. upd. rewrite E. simpl. lia.
    + intros t' Hne. unfold s'. by upd.
  - apply (bi_word s I).
  - intros t' v Hin' E'. unfold s' in E'. simpl in E'. destruct (decide (t' = chief)) as [->|Hne].
    + by rewrite fn_lookup_insert in E'.
    + rewrite fn_lookup_insert_ne in E' by done. exfalso. apply Hne, (chief_excludes s); try done.
      all: by rewrite ?E, ?E'.
  - intros t' Hin'. rewrite Hjoin. left. by apply Hfull.
  - symmetry. apply sum_over_zero. intros t' Hin'. rewrite Hjoin, (Hfull t' Hin').
    change (b_round s') with (b_round s + 1). lia.
  - unfold s'. simpl. by rewrite fn_lookup_insert.
  - intros t' Hin'. pose proof (bi_member s I t' Hin') as Hm'. unfold member_ok in *.
    rewrite Hd. unfold s'. simpl. destruct (decide (t' = chief)) as [->|Hne].
    + rewrite fn_lookup_insert. rewrite decide_True, E in Hm by done. simpl in *. lia.
    + by rewrite fn_lookup_insert_ne.
  - intros rest' E'. unfold s' in E'. simpl in E'. by rewrite fn_lookup_insert in E'.
  - intros t' Hin'. pose proof (bi_wakeup s I t' Hin') as Hw. unfold no_lost_wakeup, s' in *. simpl.
    destruct (decide (t' = chief)) as [->|Hne]; [by rewrite fn_lookup_insert|].
    rewrite !fn_lookup_insert_ne by done. intros Hr. destruct (Hw Hr) as [Hw1 _].
    split; [done|]. intros Ep. exfalso. pose proof (bi_member s I t' Hin') as Hm'.
    unfold member_ok in Hm'. rewrite decide_False, Ep in Hm' by done. done.
  - intros t' Hin'. by apply (bi_limit s I).
Qed.

(** The chief unlocks and returns. *)
Lemma step_unlock s t :
  barrier_inv s -> t ∈ tiles -> b_pc s t = BUnlock ->
  barrier_inv (set_pc t BIdle (return_ t (set_mutex (bsg_mutex_unlock (b_mutex s)) s))).
Proof.
  intros I Hin E. pose proof (bi_member s I t Hin) as Hm.
  assert (t = chief) as -> by (unfold member_ok in Hm; rewrite E in Hm; by case_decide).
  pose proof (mutex_held s chief I Hin ltac:(by rewrite E)) as Hmu.
  set (s' := set_pc _ _ _).
  assert (forall t', joined s' t' = joined s t') as Hjoin.
  { intros t'. unfold joined, s'. simpl. destruct (decide (t' = chief)) as [->|Hne].
    - rewrite fn_lookup_insert, E. done.
    - by rewrite fn_lookup_insert_ne. }
  assert (forall t', delivered s' t' = delivered s t') as Hd.
  { intros t'. unfold delivered, s'. simpl. rewrite fn_lookup_insert, E. lia. }
  split.
  - rewrite (barrier_holds_update s chief); [|done| |done].
    + unfold s', bsg_mutex_unlock. upd. rewrite E. simpl. lia.
    + intros t' Hne. unfold s'. by upd.
  - unfold s', bsg_mutex_unlock. simpl. lia.
  - intros t' v Hin' E'. unfold s' in E'. simpl in E'. destruct (decide (t' = chief)) as [->|Hne].
    + by rewrite fn_lookup_insert in E'.
    + rewrite fn_lookup_insert_ne in E' by done. by apply (bi_store s I t').
  - intros t' Hin'. rewrite Hjoin. by apply (bi_joined s I).
  - rewrite (sum_over_ext _ (fun t' => joined s t' - b_round s)) by (intros; by rewrite Hjoin).
    apply (bi_count s I).
  - unfold s'. simpl. by rewrite fn_lookup_insert.
  - intros t' Hin'. pose proof (bi_member s I t' Hin') as Hm'. unfold member_ok in *.
    rewrite Hd. unfold s'. simpl. destruct (decide (t' = chief)) as [->|Hne].
    + rewrite !fn_lookup_insert. rewrite decide_True, E in Hm by done. simpl in *. lia.
    + by rewrite !fn_lookup_insert_ne.
  - intros rest' E'. unfold s' in E'. simpl in E'. by rewrite fn_lookup_insert in E'.
  - intros t' Hin'. pose proof (bi_wakeup s I t' Hin') as Hw. unfold no_lost_wakeup, s' in *. simpl.
    destruct (decide (t' = chief)) as [->|Hne]; [by rewrite fn_lookup_insert|].
    by rewrite !fn_lookup_insert_ne.
  - intros t' Hin'. by apply (bi_limit s I).
Qed.

(** A tile clears its alert and returns. *)
Lemma step_clear s t :
  barrier_inv s -> t ∈ tiles -> b_pc s t = BClear ->
  barrier_inv (set_pc t BIdle (return_ t (store_alert t alert_init s))).
Proof.
  intros I Hin E. pose proof (bi_member s I t Hin) as Hm.
  assert (t <> chief) as Htc by (unfold member_ok in Hm; rewrite E in Hm; by case_decide).
  set (s' := set_pc _ _ _).
  assert (forall t', joined s' t' = joined s t') as Hjoin.
  { intros t'. unfold joined, s'. simpl. destruct (decide (t' = t)) as [->|Hne].
    - rewrite fn_lookup_insert, E. done.
    - by rewrite fn_lookup_insert_ne. }
  assert (forall t', delivered s' t' = delivered s t') as Hd.
  { intros t'. unfold delivered, s'. simpl. by rewrite fn_lookup_insert_ne. }
  split.
  - rewrite (barrier_holds_update s t); [|done| |done].
    + unfold s'. upd. rewrite E. simpl. lia.
    + intros t' Hne. unfold s'. by upd.
  - apply (bi_word s I).
  - intros t' v Hin' E'. unfold s' in E'. simpl in E'. destruct (decide (t' = t)) as [->|Hne].
    + by rewrite fn_lookup_insert in E'.
    + rewrite fn_lookup_insert_ne in E' by done. by apply (bi_store s I t').
  - intros t' Hin'. rewrite Hjoin. by apply (bi_joined s I).
  - rewrite (sum_over_ext _ (fun t' => joined s t' - b_round s)) by (intros; by rewrite Hjoin).
    apply (bi_count s I).
  - unfold s'. simpl. rewrite fn_lookup_insert_ne by done. intros Hf t' Hin'.
    rewrite Hjoin. by apply (bi_full s I).
  - intros t' Hin'. pose proof (bi_member s I t' Hin') as Hm'. unfold member_ok in *.
    rewrite Hd. unfold s'. simpl. destruct (decide (t' = t)) as [->|Hne].
    + rewrite !fn_lookup_insert. rewrite decide_False, E in * by done. simpl in *.
      unfold alert_init. lia.
    + by rewrite !fn_lookup_insert_ne.
  - unfold s'. simpl. rewrite fn_lookup_insert_ne by done. apply (bi_rest s I).
  - intros t' Hin'. pose proof (bi_wakeup s I t' Hin') as Hw. unfold no_lost_wakeup, s' in *. simpl.
    rewrite decide_False by done.
    destruct (decide (t' = t)) as [->|Hne]; [by rewrite !fn_lookup_insert|].
    by rewrite !fn_lookup_insert_ne.
  - intros t' Hin'. by apply (bi_limit s I).
Qed.

(** [barrier_step] as the cases above. *)
Lemma barrier_inv_step s t s' : barrier_inv s -> barrier_step t s = Some s' -> barrier_inv s'.
Proof.
  intros I E. unfold barrier_step in E. destruct (decide (t ∈ tiles)) as [Hin|]; [|done].
  pose proof (mutex_bounds s I) as Hmu. pose proof (bi_member s I t Hin) as Hm.
  unfold member_ok in Hm.
  destruct (b_pc s t) as [|pc| | | |[|i rest]| | | | |] eqn:Epc.
  - destruct (Z.ltb_spec (b_entered s t) total); [|done]. injection E as <-. by apply step_enter.
  - unfold inc_access in E. destruct pc; simpl in E; [| | | |done].
    + unfold bsg_mutex_lock_fail in E. injection E as <-.
      apply (step_inc s t ILock); try done; destruct (Z.eqb_spec (b_mutex s) 1); simpl;
        try done; lia.
    + injection E as <-. apply (step_inc s t ILoad); simpl; try done; try lia.
      by intros v [= <-].
    + injection E as <-. by apply step_count.
    + injection E as <-. unfold bsg_mutex_unlock, after_inc.
      pose proof (mutex_held s t I Hin ltac:(by rewrite Epc)).
      apply (step_inc s t IUnlock); try done; destruct (decide (t = chief)); simpl; try done; lia.
  - injection E as <-. unfold wait_lr.
    apply (step_wait s t BCountLr); [done..| |]; destruct (Z.eqb_spec (b_count s) (num_threads r));
      done.
  - destruct (b_resv s t) eqn:Er; [done|]. injection E as <-. unfold wait_lr.
    apply (step_wait s t BCountLrAq); [done..| |done].
    by destruct (Z.eqb_spec (b_count s) (num_threads r)).
  - simpl in E. injection E as <-. apply step_lock; [done..|].
    unfold bsg_mutex_lock_fail. destruct (Z.eqb_spec (b_mutex s) 1); simpl; [left|right]; try done.
    split; [done|]. split; [lia|done].
  - injection E as <-. by apply step_alerted.
  - injection E as <-. by apply step_alert.
  - injection E as <-. by apply step_reset.
  - injection E as <-. by apply step_unlock.
  - injection E as <-. unfold wait_lr.
    apply (step_wait s t BAlertLr); [done..| |]; destruct (Z.eqb_spec (b_alert s t) alert_signaled);
      done.
  - destruct (b_resv s t) eqn:Er; [done|]. injection E as <-. unfold wait_lr.
    apply (step_wait s t BAlertLrAq); [done..| |done].
    by destruct (Z.eqb_spec (b_alert s t) alert_signaled).
  - injection E as <-. by apply step_clear.
Qed.

Lemma barrier_reachable_inv s : reachable s -> barrier_inv s.
Proof. apply invariant_reachable; [apply barrier_inv_init|intros; by eapply barrier_inv_step]. Qed.

(** What the invariant says of two tiles: a return is never ahead of an entry. *)
Lemma inv_synchronises s t t' :
  barrier_inv s -> t ∈ tiles -> t' ∈ tiles -> b_returned s t <= b_entered s t'.
Proof.
  intros I Hin Hin'. pose proof (bi_member s I t Hin) as Hm. unfold member_ok in Hm.
  pose proof (bi_joined s I t' Hin') as Hj'.
  assert (joined s t' <= b_entered s t') as Hje
    by (unfold joined; pose proof (ind_nonneg (negb (counted (b_pc s t')))); lia).
  destruct (decide (t = chief)) as [->|Hne].
  - destruct (b_pc s chief) as [|[]| | | | | | | | |]; simpl in Hm; try done; lia.
  - assert (delivered s t <= joined s t') as Hdj.
    { unfold delivered.
      pose proof (bi_full s I) as Hf. destruct (b_pc s chief); simpl in Hf |- *; try lia;
        rewrite (Hf eq_refl t' Hin'); [|lia]. destruct (bool_decide _); simpl; lia. }
    destruct (b_pc s t) as [|[]| | | | | | | | |]; simpl in Hm; try done; lia.
Qed.

(** ** Progress *)

(** Every tile has returned from all its calls. *)
Definition barrier_done s : Prop :=
  forall t, t ∈ tiles -> b_pc s t = BIdle /\ b_returned s t = total.

(** Accesses left in a call when nothing has to be waited for. *)
Definition barrier_rank (pc : barrier_pc) : Z :=
  let n := Z.of_nat (length tiles) in
  match pc with
  | BIdle => 0
  | BInc pc => inc_rank pc + n + 6
  | BCountLr | BCountLrAq => n + 5
  | BLock => n + 4
  | BAlert rest => Z.of_nat (length rest) + 3
  | BReset => 2
  | BUnlock => 1
  | BAlertLr | BAlertLrAq => 2
  | BClear => 1
  end.

Definition tile_measure s t : Z :=
  (total - b_entered s t) * (Z.of_nat (length tiles) + 11) + barrier_rank (b_pc s t).

Definition barrier_measure s : Z := sum_over (tile_measure s) tiles.

Lemma measure_nonneg s : barrier_inv s -> 0 <= barrier_measure s.
Proof.
  intros I. apply sum_over_nonneg. intros t Hin. unfold tile_measure.
  pose proof (bi_limit s I t Hin).
  assert (0 <= barrier_rank (b_pc s t)).
  { unfold barrier_rank. destruct (b_pc s t) as [|[]| | | | | | | | |]; simpl; lia. }
  nia.
Qed.

(** A step of [t] that lowers its own measure lowers the measure. *)
Lemma measure_decreases s s' t :
  t ∈ tiles -> (forall t', t' <> t -> b_pc s' t' = b_pc s t' /\ b_entered s' t' = b_entered s t') ->
  tile_measure s' t < tile_measure s t -> barrier_measure s' < barrier_measure s.
Proof.
  intros Hin Hoth Hlt. unfold barrier_measure.
  rewrite (sum_over_update (tile_measure s) _ tiles t); [lia|apply tiles_nodup|done|].
  intros t' _ Hne. unfold tile_measure. by destruct (Hoth t' Hne) as [-> ->].
Qed.

(** The tiles that can move at once. *)
Definition can_move s t : Prop :=
  match b_pc s t with
  | BIdle => b_entered s t < total
  | BInc ILock | BLock => b_mutex s = 0
  | BCountLr | BCountLrAq => b_count s = num_threads r
  | BAlertLr | BAlertLrAq => b_alert s t = alert_signaled
  | _ => True
  end.

(** Closes a case of the next lemma: only [t] changed, and its own measure went down. *)
Ltac lowers Hok Epc :=
  apply Hok; [intros t' Hne; by upd|]; unfold tile_measure; upd; rewrite Epc; simpl; lia.

Lemma can_move_decreases s t :
  barrier_inv s -> t ∈ tiles -> can_move s t ->
  exists s', barrier_step t s = Some s' /\ barrier_measure s' < barrier_measure s.
Proof.
  intros I Hin Hc. unfold barrier_step. rewrite decide_True by done.
  pose proof (bi_member s I t Hin) as Hm. pose proof (bi_wakeup s I t Hin) as Hw.
  unfold member_ok in Hm. unfold can_move in Hc. unfold no_lost_wakeup in Hw.
  assert (forall s', (forall t', t' <> t ->
      b_pc s' t' = b_pc s t' /\ b_entered s' t' = b_entered s t') ->
    tile_measure s' t < tile_measure s t ->
    exists s'', Some s' = Some s'' /\ barrier_measure s'' < barrier_measure s) as Hok.
  { intros s' Hoth Hlt. exists s'. split; [done|]. by apply (measure_decreases s s' t). }
  destruct (b_pc s t) as [|pc| | | |[|i rest]| | | | |] eqn:Epc.
  - apply Z.ltb_lt in Hc. rewrite Hc. lowers Hok Epc.
  - assert (pc <> IDone) by (intros ->; by case_decide).
    unfold inc_access. destruct pc; simpl; try done;
      (apply Hok; [intros t' Hne; by upd|]); unfold tile_measure; upd; rewrite Epc; simpl; try lia.
    + rewrite Hc. simpl. lia.
    + unfold after_inc. case_decide; simpl; lia.
  - unfold wait_lr. rewrite Hc, Z.eqb_refl. lowers Hok Epc.
  - destruct (b_resv s t); [by destruct (Hw eq_refl) as [_ []]|].
    unfold wait_lr. rewrite Hc, Z.eqb_refl. lowers Hok Epc.
  - simpl. rewrite Hc. lowers Hok Epc.
  - lowers Hok Epc.
  - lowers Hok Epc.
  - lowers Hok Epc.
  - lowers Hok Epc.
  - unfold wait_lr. rewrite Hc, Z.eqb_refl. lowers Hok Epc.
  - destruct (b_resv s t); [by destruct (Hw eq_refl) as [[] _]|].
    unfold wait_lr. rewrite Hc, Z.eqb_refl. lowers Hok Epc.
  - lowers Hok Epc.
Qed.

Global Instance can_move_dec s t : Decision (can_move s t).
Proof. unfold can_move. destruct (b_pc s t) as [|[]| | | | | | | | |]; apply _. Defined.

(** Where a tile is when nothing can move: the mutex is free, so it is outside with no call
    left, or it waits for a word that does not have the value. *)
Lemma stuck_pc s t :
  barrier_inv s -> (forall t', t' ∈ tiles -> ~ can_move s t') -> t ∈ tiles ->
  match b_pc s t with
  | BIdle => b_entered s t = total
  | BCountLr | BCountLrAq => b_count s <> num_threads r
  | BAlertLr | BAlertLrAq => b_alert s t <> alert_signaled
  | _ => False
  end.
Proof.
  intros I Hstuck Hin. pose proof (mutex_bounds s I). pose proof (bi_member s I t Hin) as Hm.
  pose proof (bi_limit s I t Hin) as Hl.
  assert (b_mutex s = 0) as Hfree.
  { destruct (decide (b_mutex s = 0)) as [|Hne]; [done|exfalso].
    assert (0 < sum_over (fun t => ind (holds_lock (b_pc s t))) tiles) as Hpos
      by (rewrite <-(bi_lock s I); lia).
    apply sum_over_pos in Hpos as (h & Hh & Hp). apply (Hstuck h Hh). unfold can_move.
    by destruct (b_pc s h) as [|[]| | | | | | | | |]. }
  specialize (Hstuck t Hin). unfold can_move in Hstuck. unfold member_ok in Hm.
  destruct (b_pc s t) as [|[]| | | | | | | | |]; try done; try (by apply Hstuck).
  - lia.
Qed.

Lemma stuck_done s :
  barrier_inv s -> (forall t, t ∈ tiles -> ~ can_move s t) -> barrier_done s.
Proof.
  intros I Hstuck. pose proof (fun t => stuck_pc s t I Hstuck) as Hs.
  pose proof (Hs chief chief_in) as Hsc. pose proof (bi_member s I chief chief_in) as Hmc.
  pose proof (bi_limit s I chief chief_in) as Hlc.
  unfold member_ok in Hmc. rewrite decide_True in Hmc by done.
  assert (forall t, t ∈ tiles -> t <> chief ->
    (b_pc s t = BIdle /\ b_entered s t = total /\ b_returned s t = total) \/
    (joined s t = b_round s + 1 /\ b_entered s t = b_round s + 1)) as Hoth.
  { intros t Hin Hne. specialize (Hs t Hin). pose proof (bi_member s I t Hin) as Hm.
    unfold member_ok in Hm. rewrite decide_False in Hm by done.
    assert (delivered s t = b_round s) as Hd
      by (unfold delivered; destruct (b_pc s chief); try done; lia).
    unfold joined. destruct (b_pc s t); try done; [left; simpl in *; split_and!; (done || lia)|right..];
      unfold alert_signaled in *; simpl in *; lia. }
  assert ((b_pc s chief = BIdle /\ b_round s = total) \/
    (joined s chief = b_round s + 1 /\ b_round s + 1 <= total /\ b_count s <> num_threads r))
    as [[Ec EK]|(Hjc & Hle & Hcnt)].
  { unfold joined. destruct (b_pc s chief); try done; [left; simpl in *; split_and!; (done || lia)|right..];
      simpl in *; lia. }
  - intros t Hin. destruct (decide (t = chief)) as [->|Hne].
    + rewrite Ec in Hmc. simpl in Hmc. split; [done|lia].
    + destruct (Hoth t Hin Hne) as [(? & ? & ?)|[? He]]; [done|].
      pose proof (bi_limit s I t Hin). lia.
  - exfalso. apply Hcnt. rewrite (bi_count s I), tiles_count, <-(Z.mul_1_l (Z.of_nat _)).
    rewrite <-sum_over_const. apply sum_over_ext. intros t Hin.
    destruct (decide (t = chief)) as [->|Hne]; [lia|].
    destruct (Hoth t Hin Hne) as [(Hp & He & _)|[Hj _]]; [|lia].
    destruct (bi_joined s I t Hin) as [Hj|Hj]; unfold joined in *; rewrite Hp in *; simpl in *; lia.
Qed.

Lemma barrier_progress s :
  barrier_inv s -> barrier_done s \/
  exists t s', t ∈ tiles /\ barrier_step t s = Some s' /\ barrier_inv s' /\
    barrier_measure s' < barrier_measure s.
Proof.
  intros I. destruct (decide (Exists (can_move s) tiles)) as [HE|HE].
  - right. apply Exists_exists in HE as (t & Hin & Hc).
    destruct (can_move_decreases s t I Hin Hc) as (s' & E & Hlt).
    exists t, s'. eauto using barrier_inv_step.
  - left. apply stuck_done; [done|]. intros t Hin Hc. apply HE, Exists_exists. eauto.
Qed.
End barrier.

(** No deadlock and no lost wake-up. *)
Lemma barrier_can_finish r chief total s :
  wf_range r -> chief ∈ range_tiles r -> 0 <= total -> barrier_inv r chief total s ->
  @can_reach _ _ (barrier_lts r chief total) (fun t => t ∈ range_tiles r) s
    (barrier_done r total).
Proof.
  intros Hr Hc Ht.
  apply (can_reach_measure _ (barrier_inv r chief total) _ (barrier_measure r total)).
  - intros s' I. by eapply measure_nonneg.
  - intros s' I. by apply barrier_progress.
Qed.


(** A 2x2 barrier with its chief in the middle of the loop order; two calls per tile. *)
Definition example_range : barrier_range := {|
  x_cord_start := 0; x_cord_end := 1; y_cord_start := 0; y_cord_end := 1 |}.

Definition barrier_example : barrier_state :=
  Build_barrier_state 0 0 (fun _ => 0) (fun _ => false) (fun _ => BIdle) (fun _ => 0)
    (fun _ => 0) 0.

#[local] Instance barrier_example_lts : Lts barrier_state (Z * Z) :=
  barrier_lts example_range (1, 0) 2.

Lemma barrier_example_init : barrier_init example_range barrier_example.
Proof. by repeat split. Qed.

(** Three tiles join and wait, the chief joins last and runs its round. *)
Definition barrier_schedule : list (Z * Z) :=
  replicate 8 (0, 0) ++ replicate 8 (0, 1) ++ replicate 8 (1, 1) ++ replicate 16 (1, 0) ++
  replicate 3 (0, 1).

