(* ===== verification/TileBarrier.v ===== *)
(** * The tile-group barrier of [bsg_tile_group_barrier.h]

    A two-level barrier: every tile signals the centre tile of its row, the row centres signal
    the centre of the column, which alerts the row centres, which alert their rows.
    [tb_step] makes the next memory access of one tile.  Each of the stores 1 to 5 of
    [bsg_tile_group_barrier] is one constructor of [tb_pc]; [poll_range] restarts from index 0
    at the first zero; [lr] and [lr.aq] are as in [Barrier].  The only history kept is the
    number of calls each tile has begun.

    The proof counts, for each tile and each point of the program, how many times the tile has
    passed the point ([count]): every flag is the difference of two counts, and every wait
    orders two counts. *)

From S2P Require Import Prelude Lts.
Local Open Scope Z_scope.

(** The two structs' coordinate fields, as [INIT_TILE_GROUP_BARRIER] sets them. *)
Record tb_range := {
  tx_start : Z; tx_end : Z;    (* _x_cord_start, _x_cord_end *)
  ty_start : Z; ty_end : Z;    (* _y_cord_start, _y_cord_end *)
}.

Definition wf_tb_range (r : tb_range) : Prop :=
  0 <= tx_start r <= tx_end r /\ tx_end r < 256 /\ 0 <= ty_start r <= ty_end r /\ ty_end r < 256.

Definition tb_tiles (r : tb_range) : list (Z * Z) :=
  grid (tx_start r) (tx_end r - tx_start r + 1) (ty_start r) (ty_end r - ty_start r + 1).

Definition center_x_cord (r : tb_range) : Z := Z.quot (tx_start r + tx_end r) 2.
Definition center_y_cord (r : tb_range) : Z := Z.quot (ty_start r + ty_end r) 2.
Definition x_range (r : tb_range) : Z := tx_end r - tx_start r.
Definition y_range (r : tb_range) : Z := ty_end r - ty_start r.

(** Where a call of [bsg_tile_group_barrier] is: the next access it makes. *)
Inductive tb_pc : Type :=
| TIdle
| TRowSend                  (* bsg_row_barrier_sync *)
| TPollRow (i : Z)          (* bsg_col_barrier_sync: poll_range *)
| TColSend                  (* ... and the store to the centre of the column *)
| TPollCol (i : Z)          (* bsg_col_barrier_alert: poll_range *)
| TColClear (i : Z)         (* ... re-initialise the column's done list *)
| TColAlert (i : Z)         (* ... alert_col *)
| TWaitCol (aq : bool)      (* bsg_row_barrier_alert: bsg_wait_local_int *)
| TRowClear (i : Z)         (* ... re-initialise the row's done list *)
| TCaClear                  (* ... clear the column alert *)
| TRowAlert (i : Z)         (* ... alert_row *)
| TWaitRow (aq : bool)      (* bsg_tile_wait: bsg_wait_local_int *)
| TRaClear.                 (* ... clear the row alert *)

(** The word a reservation is on. *)
Inductive reserved : Type := OnColAlert | OnRowAlert.

Global Instance reserved_eq_dec : EqDecision reserved.
Proof. solve_decision. Defined.

Record tb_memory (pc : Type) := {
  row_done : Z -> Z -> Z;          (* [_done_list] of the centre of each row *)
  col_done : Z -> Z;               (* [_done_list] of the centre of the column *)
  col_alert : Z -> Z;              (* [_local_alert] of the column barrier of each row centre *)
  row_alert : Z * Z -> Z;          (* [_local_alert] of the row barrier of each tile *)
  tb_resv : Z * Z -> option reserved;
  tb_pcs : Z * Z -> pc;            (* the next access of each tile *)
  tb_entered : Z * Z -> Z;
}.

Arguments Build_tb_memory {pc}.
Arguments row_done {pc}.
Arguments col_done {pc}.
Arguments col_alert {pc}.
Arguments row_alert {pc}.
Arguments tb_resv {pc}.
Arguments tb_pcs {pc}.
Arguments tb_entered {pc}.

Definition tb_state : Type := tb_memory tb_pc.

(** ** The accesses, whatever program makes them *)

Section accesses.
Context {pc : Type}.
Variable r : tb_range.
#[local] Abbreviation cx := (center_x_cord r).
Implicit Types (s : tb_memory pc) (t : Z * Z).

Definition go t (p : pc) s : tb_memory pc :=
  Build_tb_memory (row_done s) (col_done s) (col_alert s) (row_alert s) (tb_resv s)
    (<[t := p]> (tb_pcs s)) (tb_entered s).

Definition reserve t (w : option reserved) s : tb_memory pc :=
  Build_tb_memory (row_done s) (col_done s) (col_alert s) (row_alert s) (<[t := w]> (tb_resv s))
    (tb_pcs s) (tb_entered s).

Definition begin_call t s : tb_memory pc :=
  Build_tb_memory (row_done s) (col_done s) (col_alert s) (row_alert s) (tb_resv s) (tb_pcs s)
    (<[t := tb_entered s t + 1]> (tb_entered s)).

Definition store_row_done (y i v : Z) s : tb_memory pc :=
  Build_tb_memory (<[y := <[i := v]> (row_done s y)]> (row_done s)) (col_done s) (col_alert s)
    (row_alert s) (tb_resv s) (tb_pcs s) (tb_entered s).

Definition store_col_done (i v : Z) s : tb_memory pc :=
  Build_tb_memory (row_done s) (<[i := v]> (col_done s)) (col_alert s) (row_alert s) (tb_resv s)
    (tb_pcs s) (tb_entered s).

(** A store clears the reservation of its tile when that is on the stored word. *)
Definition clear_resv t (w : reserved) s : Z * Z -> option reserved :=
  if decide (tb_resv s t = Some w) then <[t := None]> (tb_resv s) else tb_resv s.

Definition store_col_alert (y v : Z) s : tb_memory pc :=
  Build_tb_memory (row_done s) (col_done s) (<[y := v]> (col_alert s)) (row_alert s)
    (clear_resv (cx, y) OnColAlert s) (tb_pcs s) (tb_entered s).

Definition store_row_alert t (v : Z) s : tb_memory pc :=
  Build_tb_memory (row_done s) (col_done s) (col_alert s) (<[t := v]> (row_alert s))
    (clear_resv t OnRowAlert s) (tb_pcs s) (tb_entered s).

End accesses.

(** [poll_range]: one iteration of its inner loop. *)
Definition poll {pc : Type} (range i v : Z) (at_ : Z -> pc) (exit : pc) : pc :=
  if i <=? range then if v =? 0 then at_ 0 else at_ (i + 1) else exit.

Section barrier.
Variable r : tb_range.
Variable total : Z.
#[local] Abbreviation cx := (center_x_cord r).
#[local] Abbreviation cy := (center_y_cord r).
Implicit Types (s : tb_state) (t : Z * Z).

Definition tb_step t s : option tb_state :=
  if decide (t ∈ tb_tiles r) then
    let '(x, y) := t in
    match tb_pcs s t with
    | TIdle =>
        if tb_entered s t <? total then Some (go t TRowSend (begin_call t s)) else None
    | TRowSend =>
        Some (go t (if x =? cx then TPollRow 0 else TWaitRow false)
                (store_row_done y (x - tx_start r) 1 s))
    | TPollRow i => Some (go t (poll (x_range r) i (row_done s y i) TPollRow TColSend) s)
    | TColSend =>
        Some (go t (if y =? cy then TPollCol 0 else TWaitCol false)
                (store_col_done (y - ty_start r) 1 s))
    | TPollCol i => Some (go t (poll (y_range r) i (col_done s i) TPollCol (TColClear 0)) s)
    | TColClear i =>
        if i <=? y_range r then Some (go t (TColClear (i + 1)) (store_col_done i 0 s))
        else Some (go t (TColAlert (ty_start r)) s)
    | TColAlert i =>
        if i <=? ty_end r then Some (go t (TColAlert (i + 1)) (store_col_alert r i 1 s))
        else Some (go t (TWaitCol false) s)
    | TWaitCol false =>
        Some (go t (if col_alert s y =? 1 then TRowClear 0 else TWaitCol true)
                (reserve t (Some OnColAlert) s))
    | TWaitCol true =>
        match tb_resv s t with
        | Some _ => None
        | None => Some (go t (if col_alert s y =? 1 then TRowClear 0 else TWaitCol false) s)
        end
    | TRowClear i =>
        if i <=? x_range r then Some (go t (TRowClear (i + 1)) (store_row_done y i 0 s))
        else Some (go t TCaClear s)
    | TCaClear => Some (go t (TRowAlert (tx_start r)) (store_col_alert r y 0 s))
    | TRowAlert i =>
        if i <=? tx_end r then Some (go t (TRowAlert (i + 1)) (store_row_alert (i, y) 1 s))
        else Some (go t (TWaitRow false) s)
    | TWaitRow false =>
        Some (go t (if row_alert s t =? 1 then TRaClear else TWaitRow true)
                (reserve t (Some OnRowAlert) s))
    | TWaitRow true =>
        match tb_resv s t with
        | Some _ => None
        | None => Some (go t (if row_alert s t =? 1 then TRaClear else TWaitRow false) s)
        end
    | TRaClear => Some (go t TIdle (store_row_alert t 0 s))
    end
  else None.

(** [INIT_TILE_GROUP_BARRIER]. *)
Definition tb_init s : Prop :=
  (forall y i, row_done s y i = 0) /\ (forall i, col_done s i = 0) /\
  (forall y, col_alert s y = 0) /\ (forall t, row_alert s t = 0) /\
  (forall t, t ∈ tb_tiles r -> tb_pcs s t = TIdle /\ tb_entered s t = 0).

#[local] Instance tb_lts : Lts tb_state (Z * Z) := { lts_init := tb_init; lts_step := tb_step }.

(** ** Counting how often a tile has passed a point *)

Definition stage (pc : tb_pc) : Z :=
  match pc with
  | TRowSend => 0 | TPollRow _ => 1 | TColSend => 2 | TPollCol _ => 3 | TColClear _ => 4
  | TColAlert _ => 5 | TWaitCol _ => 6 | TRowClear _ => 7 | TCaClear => 8 | TRowAlert _ => 9
  | TWaitRow _ => 10 | TRaClear => 11 | TIdle => 12
  end.

Definition index (pc : tb_pc) : Z :=
  match pc with
  | TPollRow i | TPollCol i | TColClear i | TColAlert i | TRowClear i | TRowAlert i => i
  | _ => 0
  end.

(** The call has not passed index [j] of stage [k]. *)
Definition before (k j : Z) (pc : tb_pc) : bool :=
  (stage pc <? k) || ((stage pc =? k) && (index pc <=? j)).

Definition count (k j : Z) s t : Z := tb_entered s t - ind (before k j (tb_pcs s t)).

(** The tiles a point of the program is for, and the bounds of the loops. *)
Definition role_ok t (pc : tb_pc) : Prop :=
  (0 < stage pc < 10 -> t.1 = cx) /\ (2 < stage pc < 6 -> t.2 = cy) /\
  match pc with
  | TPollRow i => 0 <= i <= x_range r + 1
  | TPollCol i => 0 <= i <= y_range r + 1
  | TColClear i => 0 <= i <= y_range r + 1
  | TColAlert i => ty_start r <= i <= ty_end r + 1
  | TRowClear i => 0 <= i <= x_range r + 1
  | TRowAlert i => tx_start r <= i <= tx_end r + 1
  | _ => True
  end.

Definition wakeup_ok s t : Prop :=
  (tb_pcs s t = TWaitCol true -> tb_resv s t <> None ->
     tb_resv s t = Some OnColAlert /\ col_alert s t.2 <> 1) /\
  (tb_pcs s t = TWaitRow true -> tb_resv s t <> None ->
     tb_resv s t = Some OnRowAlert /\ row_alert s t <> 1).

Record tb_inv s : Prop := {
  ti_row_done : forall x y, (x, y) ∈ tb_tiles r ->
    row_done s y (x - tx_start r) = count 0 0 s (x, y) - count 7 (x - tx_start r) s (cx, y);
  ti_col_done : forall y, (cx, y) ∈ tb_tiles r ->
    col_done s (y - ty_start r) = count 2 0 s (cx, y) - count 4 (y - ty_start r) s (cx, cy);
  ti_col_alert : forall y, (cx, y) ∈ tb_tiles r ->
    col_alert s y = count 5 y s (cx, cy) - count 8 0 s (cx, y);
  ti_row_alert : forall x y, (x, y) ∈ tb_tiles r ->
    row_alert s (x, y) = count 9 x s (cx, y) - count 11 0 s (x, y);
  ti_poll_row : forall x y, (x, y) ∈ tb_tiles r ->
    count 1 (x - tx_start r) s (cx, y) <= count 0 0 s (x, y);
  ti_poll_col : forall y, (cx, y) ∈ tb_tiles r ->
    count 3 (y - ty_start r) s (cx, cy) <= count 2 0 s (cx, y);
  ti_wait_col : forall y, (cx, y) ∈ tb_tiles r -> count 6 0 s (cx, y) <= count 5 y s (cx, cy);
  ti_wait_row : forall x y, (x, y) ∈ tb_tiles r -> count 10 0 s (x, y) <= count 9 x s (cx, y);
  ti_role : forall t, t ∈ tb_tiles r -> role_ok t (tb_pcs s t);
  ti_wakeup : forall t, t ∈ tb_tiles r -> wakeup_ok s t;
  ti_limit : forall t, t ∈ tb_tiles r -> tb_entered s t <= total;
}.

(** The points of a call are passed in order. *)
Lemma count_order k j k' j' s t :
  k < k' -> count k' j' s t <= count k j s t <= count k' j' s t + 1.
Proof.
  intros Hk. unfold count, before.
  destruct (Z.ltb_spec (stage (tb_pcs s t)) k), (Z.ltb_spec (stage (tb_pcs s t)) k'),
    (Z.eqb_spec (stage (tb_pcs s t)) k), (Z.eqb_spec (stage (tb_pcs s t)) k'),
    (index (tb_pcs s t) <=? j), (index (tb_pcs s t) <=? j'); simpl; lia.
Qed.

Lemma pass_count_bounds k j s t : tb_entered s t - 1 <= count k j s t <= tb_entered s t.
Proof. unfold count. destruct (before k j (tb_pcs s t)); simpl; lia. Qed.

Hypothesis wf : wf_tb_range r.

Lemma center_in_range : tx_start r <= cx <= tx_end r /\ ty_start r <= cy <= ty_end r.
Proof using wf.
  destruct wf as (? & ? & ? & ?). unfold center_x_cord, center_y_cord.
  rewrite !Z.quot_div_nonneg by lia. split; Z.to_euclidean_division_equations; lia.
Qed.

Lemma elem_of_tb_tiles x y :
  (x, y) ∈ tb_tiles r <-> tx_start r <= x <= tx_end r /\ ty_start r <= y <= ty_end r.
Proof. unfold tb_tiles. rewrite elem_of_grid. lia. Qed.

Lemma row_centre x y : (x, y) ∈ tb_tiles r -> (cx, y) ∈ tb_tiles r.
Proof using wf. rewrite !elem_of_tb_tiles. pose proof center_in_range. lia. Qed.

Lemma root_tile x y : (x, y) ∈ tb_tiles r -> (cx, cy) ∈ tb_tiles r.
Proof using wf. rewrite !elem_of_tb_tiles. pose proof center_in_range. lia. Qed.

(** The chain of waits between a tile and the centre of its row ... *)
Lemma row_chain s x y : tb_inv s -> (x, y) ∈ tb_tiles r ->
  count 11 0 s (x, y) <= count 10 0 s (x, y) <= count 9 x s (cx, y) /\
  count 9 x s (cx, y) <= count 8 0 s (cx, y) <= count 7 (x - tx_start r) s (cx, y) /\
  count 7 (x - tx_start r) s (cx, y) <= count 6 0 s (cx, y) /\
  count 6 0 s (cx, y) <= count 2 0 s (cx, y) /\
  count 2 0 s (cx, y) <= count 1 (x - tx_start r) s (cx, y) <= count 0 0 s (x, y) /\
  count 0 0 s (x, y) <= count 11 0 s (x, y) + 1.
Proof.
  intros I Ht. pose proof (ti_wait_row _ I _ _ Ht). pose proof (ti_poll_row _ I _ _ Ht).
  pose proof (count_order 10 0 11 0 s (x, y)). pose proof (count_order 0 0 11 0 s (x, y)).
  pose proof (count_order 8 0 9 x s (cx, y)).
  pose proof (count_order 7 (x - tx_start r) 8 0 s (cx, y)).
  pose proof (count_order 6 0 7 (x - tx_start r) s (cx, y)).
  pose proof (count_order 2 0 6 0 s (cx, y)).
  pose proof (count_order 1 (x - tx_start r) 2 0 s (cx, y)). lia.
Qed.

(** ... and between the centre of a row and the centre of the group. *)
Lemma col_chain s y : tb_inv s -> (cx, y) ∈ tb_tiles r ->
  count 8 0 s (cx, y) <= count 6 0 s (cx, y) <= count 5 y s (cx, cy) /\
  count 5 y s (cx, cy) <= count 4 (y - ty_start r) s (cx, cy) /\
  count 4 (y - ty_start r) s (cx, cy) <= count 3 (y - ty_start r) s (cx, cy) <= count 2 0 s (cx, y) /\
  count 2 0 s (cx, y) <= count 8 0 s (cx, y) + 1.
Proof.
  intros I Ht. pose proof (ti_wait_col _ I _ Ht). pose proof (ti_poll_col _ I _ Ht).
  pose proof (count_order 6 0 8 0 s (cx, y)). pose proof (count_order 2 0 8 0 s (cx, y)).
  pose proof (count_order 4 (y - ty_start r) 5 y s (cx, cy)).
  pose proof (count_order 3 (y - ty_start r) 4 (y - ty_start r) s (cx, cy)). lia.
Qed.

(** The cases of a step. *)
Ltac step_cases s t s' H :=
  unfold tb_step in H; destruct (decide _) as [Ht|]; [|done];
  destruct t as [x y]; destruct (tb_pcs s (x, y)) eqn:Epc;
  repeat case_match; try discriminate H; apply (inj Some) in H; try subst s'.

Lemma step_tile s t s' : tb_step t s = Some s' -> t ∈ tb_tiles r.
Proof. unfold tb_step. by destruct (decide _). Qed.

Lemma step_other s t s' t' : tb_step t s = Some s' -> t' <> t ->
  tb_pcs s' t' = tb_pcs s t' /\ tb_entered s' t' = tb_entered s t'.
Proof.
  intros H Hne. step_cases s t s' H; simpl; rewrite ?fn_lookup_insert_ne by congruence; done.
Qed.

Lemma step_count_other k j s t s' t' :
  tb_step t s = Some s' -> t' <> t -> count k j s' t' = count k j s t'.
Proof.
  intros H Hne. unfold count. by destruct (step_other _ _ _ _ H Hne) as [-> ->].
Qed.

Lemma step_role s t s' : tb_inv s -> tb_step t s = Some s' ->
  forall t', t' ∈ tb_tiles r -> role_ok t' (tb_pcs s' t').
Proof using wf.
  intros I H t' Ht'. destruct (decide (t' = t)) as [->|Hne].
  2: { destruct (step_other _ _ _ _ H Hne) as [-> _]. by apply (ti_role _ I). }
  pose proof (ti_role _ I _ Ht') as R. destruct wf as (? & ? & ? & ?).
  pose proof center_in_range. step_cases s t s' H; simpl; rewrite fn_lookup_insert;
    rewrite ?Epc in R; apply elem_of_tb_tiles in Ht; unfold poll; repeat case_match; bprop;
    unfold role_ok, x_range, y_range in *; simpl in *; lia.
Qed.

Lemma step_limit s t s' : tb_inv s -> tb_step t s = Some s' ->
  forall t', t' ∈ tb_tiles r -> tb_entered s' t' <= total.
Proof.
  intros I H t' Ht'. destruct (decide (t' = t)) as [->|Hne].
  2: { destruct (step_other _ _ _ _ H Hne) as [_ ->]. by apply (ti_limit _ I). }
  pose proof (ti_limit _ I _ Ht').
  step_cases s t s' H; simpl; rewrite ?fn_lookup_insert; bprop; lia.
Qed.

Lemma pair_ne (a b c d : Z) : (a, b) <> (c, d) -> a <> c \/ b <> d.
Proof. intros N. destruct (decide (a = c)); [right|by left]. congruence. Qed.

Lemma count_at k j s t : count k j s t = tb_entered s t - ind (before k j (tb_pcs s t)).
Proof. done. Qed.

(** The cases of a step: [HC] and [HC'] give the counts of the tile that moves before and
    after the step, [HO] those of the other tiles. *)
Ltac count_cases s t s' H HC HC' HO :=
  pose proof (fun k j t' => step_count_other k j s t s' t' H) as HO;
  pose proof (fun k j => count_at k j s t) as HC;
  pose proof (fun k j => count_at k j s' t) as HC';
  unfold tb_step, poll in H; destruct (decide _) as [Ht|]; [|done];
  destruct t as [x y]; destruct (tb_pcs s (x, y)) eqn:Epc;
  repeat case_match; try discriminate H; apply (inj Some) in H; bprop;
  rewrite <-H in HC'; cbn -[before ind] in HC'; rewrite fn_lookup_insert in HC'; rewrite H in HC';
  try rewrite fn_lookup_insert in HC'.

(** Whether the counts of tile [a] are those of the tile that moves. *)
Ltac at_tile a HO :=
  match type of HO with
  | forall k j t', t' <> ?b -> _ =>
      let E := fresh "E" in
      destruct (decide (a = b)) as [E|?N];
      [rewrite ?E in *; injection E as ??|rewrite ?(HO _ _ a) by assumption]
  end.

(** The value of a flag after the step. *)
Ltac flag H f :=
  let Ef := fresh "Ef" in
  eassert (f = _) as Ef by (rewrite <-H; cbn -[decide]; rewrite ?insert_if; reflexivity);
  rewrite Ef; clear Ef; repeat case_decide; rewrite ?insert_if; repeat case_decide.

Ltac count_lia :=
  repeat match goal with
  | N : (_, _) <> (_, _) |- _ => apply pair_ne in N
  | E : (_, _) = (_, _) |- _ => apply pair_equal_spec in E as [??]
  end; subst;
  unfold before, x_range, y_range in *; cbn [stage index] in *; simpl in *;
  repeat match goal with
  | |- context [ind ?b] => destruct b eqn:?; simpl
  | F : context [ind ?b] |- _ => destruct b eqn:?; simpl in F
  end; bprop; lia.

Ltac here HC HC' HO := rewrite ?HC in *; rewrite ?HC'; clear HC HC' HO.

Lemma step_row_done s t s' : tb_inv s -> tb_step t s = Some s' ->
  forall x y, (x, y) ∈ tb_tiles r ->
  row_done s' y (x - tx_start r) = count 0 0 s' (x, y) - count 7 (x - tx_start r) s' (cx, y).
Proof using wf.
  intros I H x' y' Ht'. pose proof (ti_row_done _ I _ _ Ht') as F.
  pose proof (row_chain _ _ _ I Ht') as C.
  pose proof (ti_role _ I _ (step_tile _ _ _ H)) as R. apply elem_of_tb_tiles in Ht' as Hr.
  count_cases s t s' H HC HC' HO; destruct R as (R1 & R2 & R3); simpl in R1, R2, R3;
    flag H (row_done s' y' (x' - tx_start r));
    at_tile (x', y') HO; at_tile (cx, y') HO; here HC HC' HO; count_lia.
Qed.

Lemma step_col_done s t s' : tb_inv s -> tb_step t s = Some s' ->
  forall y, (cx, y) ∈ tb_tiles r ->
  col_done s' (y - ty_start r) = count 2 0 s' (cx, y) - count 4 (y - ty_start r) s' (cx, cy).
Proof using wf.
  intros I H y' Ht'. pose proof (ti_col_done _ I _ Ht') as F.
  pose proof (col_chain _ _ I Ht') as C.
  pose proof (ti_role _ I _ (step_tile _ _ _ H)) as R. apply elem_of_tb_tiles in Ht' as Hr.
  count_cases s t s' H HC HC' HO; destruct R as (R1 & R2 & R3); simpl in R1, R2, R3;
    flag H (col_done s' (y' - ty_start r));
    at_tile (cx, y') HO; at_tile (cx, cy) HO; here HC HC' HO; count_lia.
Qed.

Lemma step_col_alert s t s' : tb_inv s -> tb_step t s = Some s' ->
  forall y, (cx, y) ∈ tb_tiles r ->
  col_alert s' y = count 5 y s' (cx, cy) - count 8 0 s' (cx, y).
Proof using wf.
  intros I H y' Ht'. pose proof (ti_col_alert _ I _ Ht') as F.
  pose proof (col_chain _ _ I Ht') as C.
  pose proof (ti_role _ I _ (step_tile _ _ _ H)) as R. apply elem_of_tb_tiles in Ht' as Hr.
  count_cases s t s' H HC HC' HO; destruct R as (R1 & R2 & R3); simpl in R1, R2, R3;
    flag H (col_alert s' y');
    at_tile (cx, y') HO; at_tile (cx, cy) HO; here HC HC' HO; count_lia.
Qed.

Lemma step_row_alert s t s' : tb_inv s -> tb_step t s = Some s' ->
  forall x y, (x, y) ∈ tb_tiles r ->
  row_alert s' (x, y) = count 9 x s' (cx, y) - count 11 0 s' (x, y).
Proof using wf.
  intros I H x' y' Ht'. pose proof (ti_row_alert _ I _ _ Ht') as F.
  pose proof (row_chain _ _ _ I Ht') as C.
  pose proof (ti_role _ I _ (step_tile _ _ _ H)) as R. apply elem_of_tb_tiles in Ht' as Hr.
  count_cases s t s' H HC HC' HO; destruct R as (R1 & R2 & R3); simpl in R1, R2, R3;
    flag H (row_alert s' (x', y'));
    at_tile (x', y') HO; at_tile (cx, y') HO; here HC HC' HO; count_lia.
Qed.

Lemma step_wait_col s t s' : tb_inv s -> tb_step t s = Some s' ->
  forall y, (cx, y) ∈ tb_tiles r -> count 6 0 s' (cx, y) <= count 5 y s' (cx, cy).
Proof using wf.
  intros I H y' Ht'. pose proof (ti_col_alert _ I _ Ht') as F.
  pose proof (col_chain _ _ I Ht') as C.
  pose proof (ti_role _ I _ (step_tile _ _ _ H)) as R. apply elem_of_tb_tiles in Ht' as Hr.
  count_cases s t s' H HC HC' HO; destruct R as (R1 & R2 & R3); simpl in R1, R2, R3;
    at_tile (cx, y') HO; at_tile (cx, cy) HO; here HC HC' HO; count_lia.
Qed.

Lemma step_wait_row s t s' : tb_inv s -> tb_step t s = Some s' ->
  forall x y, (x, y) ∈ tb_tiles r -> count 10 0 s' (x, y) <= count 9 x s' (cx, y).
Proof using wf.
  intros I H x' y' Ht'. pose proof (ti_row_alert _ I _ _ Ht') as F.
  pose proof (row_chain _ _ _ I Ht') as C.
  pose proof (ti_role _ I _ (step_tile _ _ _ H)) as R. apply elem_of_tb_tiles in Ht' as Hr.
  count_cases s t s' H HC HC' HO; destruct R as (R1 & R2 & R3); simpl in R1, R2, R3;
    at_tile (x', y') HO; at_tile (cx, y') HO; here HC HC' HO; count_lia.
Qed.

Lemma step_poll_row s t s' : tb_inv s -> tb_step t s = Some s' ->
  forall x y, (x, y) ∈ tb_tiles r -> count 1 (x - tx_start r) s' (cx, y) <= count 0 0 s' (x, y).
Proof using wf.
  intros I H x' y' Ht'. pose proof (ti_row_done _ I _ _ Ht') as F.
  pose proof (row_chain _ _ _ I Ht') as C.
  pose proof (ti_role _ I _ (step_tile _ _ _ H)) as R. apply elem_of_tb_tiles in Ht' as Hr.
  count_cases s t s' H HC HC' HO; destruct R as (R1 & R2 & R3); simpl in R1, R2, R3;
    try (destruct (decide (i = x' - tx_start r)) as [->|]);
    at_tile (x', y') HO; at_tile (cx, y') HO; here HC HC' HO; count_lia.
Qed.

Lemma step_poll_col s t s' : tb_inv s -> tb_step t s = Some s' ->
  forall y, (cx, y) ∈ tb_tiles r -> count 3 (y - ty_start r) s' (cx, cy) <= count 2 0 s' (cx, y).
Proof using wf.
  intros I H y' Ht'. pose proof (ti_col_done _ I _ Ht') as F.
  pose proof (col_chain _ _ I Ht') as C.
  pose proof (ti_role _ I _ (step_tile _ _ _ H)) as R. apply elem_of_tb_tiles in Ht' as Hr.
  count_cases s t s' H HC HC' HO; destruct R as (R1 & R2 & R3); simpl in R1, R2, R3;
    try (destruct (decide (i = y' - ty_start r)) as [->|]);
    at_tile (cx, y') HO; at_tile (cx, cy) HO; here HC HC' HO; count_lia.
Qed.
Lemma step_wakeup s t s' : tb_inv s -> tb_step t s = Some s' ->
  forall t', t' ∈ tb_tiles r -> wakeup_ok s' t'.
Proof using wf.
  intros I H [x' y'] Ht'. pose proof (ti_wakeup _ I _ Ht') as [W1 W2].
  pose proof (ti_role _ I _ Ht') as [R1 _]. simpl in *.
  step_cases s t s' H; split; intros Hpc Hr; simpl in *; unfold clear_resv, poll in *;
    rewrite ?insert_if in *; repeat case_decide; rewrite ?insert_if in *;
    repeat case_decide; simplify_eq; bprop; try done.
  all: try (rewrite Hpc in R1; simpl in R1; specialize (R1 ltac:(lia))).
  all: try (repeat case_match; congruence).
  all: try (first [destruct (W1 Hpc Hr)|destruct (W2 Hpc Hr)]; split; congruence).
Qed.

Hypothesis total_nonneg : 0 <= total.

Lemma tb_inv_init s : tb_init s -> tb_inv s.
Proof using wf total_nonneg.
  intros (Hrd & Hcd & Hca & Hra & Hidle).
  assert (forall k j t, t ∈ tb_tiles r -> k < 12 -> count k j s t = 0) as C.
  { intros k j t Ht Hk. unfold count. destruct (Hidle _ Ht) as [-> ->].
    unfold before. simpl stage. destruct (Z.ltb_spec 12 k), (Z.eqb_spec 12 k); simpl; lia. }
  split; intros; try (assert ((cx, y) ∈ tb_tiles r) by (by eapply row_centre));
    try (assert ((cx, cy) ∈ tb_tiles r) by (by eapply root_tile));
    rewrite ?Hrd, ?Hcd, ?Hca, ?Hra, ?C by (done || lia); try lia.
  - destruct (Hidle t) as [-> _]; [done|]. repeat split; simpl; lia.
  - destruct (Hidle t) as [E _]; [done|]. split; intros E'; congruence.
  - destruct (Hidle t) as [_ ->]; done.
Qed.

Lemma tb_inv_step s t s' : tb_inv s -> tb_step t s = Some s' -> tb_inv s'.
Proof using wf.
  intros I H. split.
  - by eapply step_row_done.
  - by eapply step_col_done.
  - by eapply step_col_alert.
  - by eapply step_row_alert.
  - by eapply step_poll_row.
  - by eapply step_poll_col.
  - by eapply step_wait_col.
  - by eapply step_wait_row.
  - by eapply step_role.
  - by eapply step_wakeup.
  - by eapply step_limit.
Qed.

Lemma tb_inv_reachable s : reachable s -> tb_inv s.
Proof using wf total_nonneg.
  revert s. apply invariant_reachable; [apply tb_inv_init|]. intros s t s'. apply tb_inv_step.
Qed.

(** ** Safety *)

(** The calls tile [t] has returned from. *)
Definition tb_returned s t : Z :=
  match tb_pcs s t with TIdle => tb_entered s t | _ => tb_entered s t - 1 end.

Lemma returned_count s t : tb_returned s t = count 11 0 s t.
Proof. unfold tb_returned, count. destruct (tb_pcs s t); simpl; unfold before; simpl; lia. Qed.

Lemma returned_entered s t t' : tb_inv s -> t ∈ tb_tiles r -> t' ∈ tb_tiles r ->
  tb_returned s t <= tb_entered s t'.
Proof using wf.
  intros I Ht Ht'. destruct t as [x y], t' as [x' y']. rewrite returned_count.
  pose proof (row_chain _ _ _ I Ht). pose proof (row_chain _ _ _ I Ht').
  pose proof (col_chain _ _ I (row_centre _ _ Ht)).
  pose proof (col_chain _ _ I (row_centre _ _ Ht')).
  pose proof (pass_count_bounds 0 0 s (x', y')).
  pose proof (count_order 3 (y' - ty_start r) 5 y s (cx, cy)). lia.
Qed.

(** ** Progress *)

(** How far a tile is; every call is 13000 long. *)
Definition pos s t : Z :=
  13000 * tb_entered s t + 1000 * stage (tb_pcs s t) + index (tb_pcs s t).

Lemma index_range s t : tb_inv s -> t ∈ tb_tiles r -> 0 <= index (tb_pcs s t) < 1000.
Proof using wf.
  intros I Ht. destruct (ti_role _ I _ Ht) as (_ & _ & R). destruct wf as (? & ? & ? & ?).
  unfold x_range, y_range in R. destruct (tb_pcs s t); simpl in *; lia.
Qed.

Lemma stage_range pc : 0 <= stage pc <= 12.
Proof. destruct pc; simpl; lia. Qed.

(** A tile that is not ahead of another has passed no point more often. *)
Lemma count_pos k j s t t' : tb_inv s -> t ∈ tb_tiles r -> t' ∈ tb_tiles r ->
  pos s t <= pos s t' -> count k j s t <= count k j s t'.
Proof using wf.
  intros I Ht Ht'. pose proof (index_range _ _ I Ht). pose proof (index_range _ _ I Ht').
  pose proof (stage_range (tb_pcs s t)). pose proof (stage_range (tb_pcs s t')).
  unfold pos, count, before.
  destruct (Z.ltb_spec (stage (tb_pcs s t)) k), (Z.ltb_spec (stage (tb_pcs s t')) k),
    (Z.eqb_spec (stage (tb_pcs s t)) k), (Z.eqb_spec (stage (tb_pcs s t')) k),
    (Z.leb_spec (index (tb_pcs s t)) j), (Z.leb_spec (index (tb_pcs s t')) j);
    simpl; lia.
Qed.

Definition last s t : Prop := forall t', t' ∈ tb_tiles r -> pos s t <= pos s t'.

Lemma last_count k j s t t' : tb_inv s -> t ∈ tb_tiles r -> last s t -> t' ∈ tb_tiles r ->
  count k j s t <= count k j s t'.
Proof using wf. intros I Ht Hl Ht'. apply count_pos; auto. Qed.

(** What the last tile polls or waits for is there. *)
Lemma last_poll_row s x y i : tb_inv s -> (x, y) ∈ tb_tiles r -> last s (x, y) ->
  tb_pcs s (x, y) = TPollRow i -> i <= x_range r -> row_done s y i <> 0.
Proof using wf.
  intros I Ht Hl Epc Hi. destruct (ti_role _ I _ Ht) as (R1 & _ & R3).
  rewrite Epc in R1, R3. simpl in R1, R3. rewrite R1 in * by lia.
  unfold x_range in *. apply elem_of_tb_tiles in Ht as Hr.
  assert ((tx_start r + i, y) ∈ tb_tiles r) as Hx by (apply elem_of_tb_tiles; lia).
  pose proof (ti_row_done _ I _ _ Hx) as F. replace (tx_start r + i - tx_start r) with i in F by lia.
  pose proof (last_count 0 0 _ _ _ I Ht Hl Hx).
  rewrite (count_at 7), (count_at 0 0 s (cx, y)), Epc in *. unfold before in *. simpl in *. lia.
Qed.

Lemma last_poll_col s x y i : tb_inv s -> (x, y) ∈ tb_tiles r -> last s (x, y) ->
  tb_pcs s (x, y) = TPollCol i -> i <= y_range r -> col_done s i <> 0.
Proof using wf.
  intros I Ht Hl Epc Hi. destruct (ti_role _ I _ Ht) as (R1 & R2 & R3).
  rewrite Epc in R1, R2, R3. simpl in R1, R2, R3. rewrite R1, R2 in * by lia.
  unfold y_range in *. apply elem_of_tb_tiles in Ht as Hr.
  assert ((cx, ty_start r + i) ∈ tb_tiles r) as Hx by (apply elem_of_tb_tiles; lia).
  pose proof (ti_col_done _ I _ Hx) as F. replace (ty_start r + i - ty_start r) with i in F by lia.
  pose proof (last_count 2 0 _ _ _ I Ht Hl Hx).
  rewrite (count_at 4), (count_at 2 0 s (cx, cy)), Epc in *. unfold before in *. simpl in *. lia.
Qed.

Lemma last_wait_col s x y aq : tb_inv s -> (x, y) ∈ tb_tiles r -> last s (x, y) ->
  tb_pcs s (x, y) = TWaitCol aq -> col_alert s y = 1.
Proof using wf.
  intros I Ht Hl Epc. destruct (ti_role _ I _ Ht) as (R1 & _ & _).
  rewrite Epc in R1. simpl in R1. rewrite R1 in * by lia.
  pose proof (ti_col_alert _ I _ Ht) as F. pose proof (col_chain _ _ I Ht) as C.
  pose proof (last_count 5 y _ _ _ I Ht Hl (root_tile _ _ Ht)).
  rewrite (count_at 8), ?(count_at _ _ s (cx, y)), Epc in *. unfold before in *. simpl in *. lia.
Qed.

Lemma last_wait_row s x y aq : tb_inv s -> (x, y) ∈ tb_tiles r -> last s (x, y) ->
  tb_pcs s (x, y) = TWaitRow aq -> row_alert s (x, y) = 1.
Proof using wf.
  intros I Ht Hl Epc.
  pose proof (ti_row_alert _ I _ _ Ht) as F. pose proof (row_chain _ _ _ I Ht) as C.
  pose proof (last_count 9 x _ _ _ I Ht Hl (row_centre _ _ Ht)).
  rewrite ?(count_at _ _ s (x, y)), Epc in *. unfold before in *. simpl in *. lia.
Qed.

Lemma pos_go s t pc :
  pos (go t pc s) t = 13000 * tb_entered s t + 1000 * stage pc + index pc.
Proof. unfold pos. simpl. by rewrite fn_lookup_insert. Qed.

(** A tile that no other is behind can move, and gets further. *)
Lemma last_moves s t : tb_inv s -> t ∈ tb_tiles r -> last s t ->
  (tb_pcs s t = TIdle -> tb_entered s t <> total) ->
  exists s', tb_step t s = Some s' /\ pos s t < pos s' t.
Proof using wf.
  intros I Ht Hl Hnf. destruct t as [x y].
  pose proof (index_range _ _ I Ht) as Hi. pose proof (ti_limit _ I _ Ht) as L.
  pose proof (ti_wakeup _ I _ Ht) as [W1 W2].
  assert (pos s (x, y) = 13000 * tb_entered s (x, y) + 1000 * stage (tb_pcs s (x, y)) +
    index (tb_pcs s (x, y))) as -> by done.
  destruct wf as (? & ? & ? & ?). unfold tb_step, poll. rewrite decide_True by done.
  destruct (tb_pcs s (x, y)) as [| |i| |i|i|i|aq|i| |i|aq|] eqn:Epc; simpl in Hi.
  all: try (pose proof (last_poll_row _ _ _ _ I Ht Hl Epc)).
  all: try (pose proof (last_poll_col _ _ _ _ I Ht Hl Epc)).
  all: try (rewrite (last_wait_col _ _ _ _ I Ht Hl Epc) in * ).
  all: try (rewrite (last_wait_row _ _ _ _ I Ht Hl Epc) in * ).
  all: try (specialize (Hnf eq_refl)).
  all: repeat case_match; bprop; try lia;
    try (eexists; split; [reflexivity|]; rewrite pos_go; simpl;
         rewrite ?fn_lookup_insert; unfold x_range, y_range in *; lia).
  - destruct W1 as [_ W1]; [done|done|]. simpl in W1. by rewrite (last_wait_col _ _ _ _ I Ht Hl Epc) in W1.
  - destruct W2 as [_ W2]; [done|done|]. done.
Qed.

Lemma pos_other s t s' t' : tb_step t s = Some s' -> t' <> t -> pos s' t' = pos s t'.
Proof. intros H Hne. unfold pos. by destruct (step_other _ _ _ _ H Hne) as [-> ->]. Qed.

Lemma pos_bound s t : tb_inv s -> t ∈ tb_tiles r -> pos s t <= 13000 * total + 13000.
Proof using wf.
  intros I Ht. pose proof (index_range _ _ I Ht). pose proof (ti_limit _ I _ Ht).
  unfold pos. destruct (tb_pcs s t); simpl in *; lia.
Qed.

(** Every tile has returned from all its calls. *)
Definition tb_done s : Prop :=
  forall t, t ∈ tb_tiles r -> tb_pcs s t = TIdle /\ tb_entered s t = total.

Lemma some_tile_moves s : tb_inv s -> tb_done s \/
  exists t s', t ∈ tb_tiles r /\ tb_step t s = Some s' /\ pos s t < pos s' t.
Proof using wf.
  intros I. assert ((cx, cy) ∈ tb_tiles r) as Hc
    by (apply elem_of_tb_tiles; pose proof center_in_range; lia).
  destruct (least_member (pos s) _ _ Hc) as (t & Ht & Hl).
  destruct (decide (tb_entered s t = total /\ stage (tb_pcs s t) = 12)) as [[He Hs]|Hnf].
  - left. intros t' Ht'. pose proof (Hl _ Ht') as Hp. pose proof (ti_limit _ I _ Ht').
    pose proof (index_range _ _ I Ht). pose proof (index_range _ _ I Ht').
    unfold pos in Hp. rewrite He, Hs in Hp.
    destruct (tb_pcs s t'); simpl in *; first [lia|split; [done|lia]].
  - right. destruct (last_moves _ _ I Ht Hl) as (s' & H & Hlt).
    { intros E1 E2. apply Hnf. by rewrite E1. }
    by exists t, s'.
Qed.

Lemma tb_progress s : tb_inv s -> tb_done s \/
  exists t s', t ∈ tb_tiles r /\ tb_step t s = Some s' /\ tb_inv s' /\
    sum_over (fun t => 13000 * total + 13000 - pos s' t) (tb_tiles r) <
    sum_over (fun t => 13000 * total + 13000 - pos s t) (tb_tiles r).
Proof using wf.
  intros I. destruct (some_tile_moves _ I) as [?|(t & s' & Ht & H & Hlt)]; [by left|right].
  exists t, s'. do 2 (split; [done|]). split; [by eapply tb_inv_step|].
  apply sum_over_lt with t; [|done|lia]. intros t' _.
  destruct (decide (t' = t)) as [->|Hne]; [lia|]. by rewrite (pos_other _ _ _ _ H Hne).
Qed.

Lemma tb_can_finish s : tb_inv s -> can_reach (.∈ tb_tiles r) s tb_done.
Proof using wf.
  revert s. apply (can_reach_measure _ tb_inv tb_done
    (fun s => sum_over (fun t => 13000 * total + 13000 - pos s t) (tb_tiles r))).
  - intros s I. apply sum_over_nonneg. intros t Ht. pose proof (pos_bound _ _ I Ht). lia.
  - apply tb_progress.
Qed.

End barrier.

(** C2 (safety).  Whatever the interleaving, no tile returns from its k-th call of
    [bsg_tile_group_barrier] before every tile of the group has begun its own k-th; and the
    two-level barrier has no deadlock and loses no alert: from every reachable state some
    continuation of the interleaving brings every tile of the group out of all its calls. *)
Theorem tile_barrier_synchronises r total s :
  wf_tb_range r -> 0 <= total -> @reachable _ _ (tb_lts r total) s ->
  (forall t t', t ∈ tb_tiles r -> t' ∈ tb_tiles r -> tb_returned s t <= tb_entered s t') /\
  @can_reach _ _ (tb_lts r total) (.∈ tb_tiles r) s (tb_done r total).
Proof.
  intros Hr Ht Hs. apply tb_inv_reachable in Hs as I; [|done..]. split.
  - intros t t'. by eapply returned_entered.
  - by apply tb_can_finish.
Qed.

(** A 2x2 group whose coordinates start at (1, 2), as in the tests of the header. *)
Definition tb_example_range : tb_range := {| tx_start := 1; tx_end := 2; ty_start := 2; ty_end := 3 |}.

Definition tb_example : tb_state :=
  Build_tb_memory (fun _ _ => 0) (fun _ => 0) (fun _ => 0) (fun _ => 0) (fun _ => None)
    (fun _ => TIdle) (fun _ => 0).

Lemma tb_example_init : tb_init tb_example_range tb_example.
Proof. by repeat split. Qed.

(** The other tiles signal, the centre (1, 2) runs its round, and (1, 3) and (2, 3) leave. *)
Definition tb_schedule : list (Z * Z) :=
  replicate 4 (2, 2) ++ replicate 4 (2, 3) ++ replicate 9 (1, 3) ++ replicate 40 (1, 2) ++
  replicate 12 (1, 3) ++ replicate 3 (2, 3).

#[local] Instance tb_example_lts : Lts tb_state (Z * Z) := tb_lts tb_example_range 2.

Lemma tile_barrier_synchronises_witness :
  let s := run_skip tb_schedule tb_example in
  tb_returned s (2, 3) = 1 /\ tb_returned s (2, 3) <= tb_entered s (2, 2) /\
  can_reach (.∈ tb_tiles tb_example_range) s (tb_done tb_example_range 2).
Proof.
  split; [vm_compute; reflexivity|].
  destruct (tile_barrier_synchronises tb_example_range 2 (run_skip tb_schedule tb_example))
    as [Hsync Hlive];
    [unfold wf_tb_range; simpl; lia|lia
    |apply run_skip_reachable; constructor; apply tb_example_init|].
  split; [|exact Hlive]. apply Hsync; apply elem_of_grid; simpl; lia.
Defined.
