(* ===== verification/CppBarrier.v ===== *)
(** * The C++ tile-group barrier of [bsg_tile_group_barrier.hpp]

    [bsg_barrier<X, Y>] is the C++ rendering of the barrier of [TileBarrier], for a group at the
    origin.  It makes the same accesses in another order: [wait_on_alert] clears the column alert
    before, not after, the row's done list is reset; each [reset] also clears the alert of its
    own object; a group of one tile returns at once.  [cpp_step] is one access of
    [bsg_barrier::sync]; the memory is that of [TileBarrier].

    The theorem is a refinement: every step of the C++ barrier is a step of [tb_step] or
    invisible to it, and the C++ tile can move whenever the C tile can.  So it inherits the
    invariant of [TileBarrier], and with it synchronisation and progress. *)

From S2P Require Import Prelude Lts TileBarrier.
Local Open Scope Z_scope.

(** Where a call of [sync] is: the next access it makes. *)
Inductive cpp_pc : Type :=
| PIdle
| PRowSync                  (* r_barrier.sync *)
| PRowPoll (i : Z)          (* r_barrier.wait_on_sync: poll_range *)
| PColSync                  (* c_barrier.sync *)
| PColPoll (i : Z)          (* c_barrier.wait_on_sync *)
| PColReset (i : Z)         (* c_barrier.reset: the done list *)
| PColResetAlert            (* ... and _local_alert *)
| PColAlert (i : Z)         (* c_barrier.alert *)
| PWaitCol (aq : bool)      (* c_barrier.wait_on_alert: bsg_wait_local *)
| PColAlertClear            (* ... _local_alert = 0 *)
| PRowReset (i : Z)         (* r_barrier.reset: the done list *)
| PRowResetAlert            (* ... and _local_alert *)
| PRowAlert (i : Z)         (* r_barrier.alert *)
| PWaitRow (aq : bool)      (* r_barrier.wait_on_alert: bsg_wait_local *)
| PRowAlertClear.           (* ... _local_alert = 0 *)

Definition cpp_state : Type := tb_memory cpp_pc.

Section cpp_barrier.
Variables BARRIER_X_DIM BARRIER_Y_DIM : Z.
Variable total : Z.

(** The group as the two coordinate ranges of the C barrier. *)
Definition cpp_range : tb_range :=
  {| tx_start := 0; tx_end := BARRIER_X_DIM - 1; ty_start := 0; ty_end := BARRIER_Y_DIM - 1 |}.

Definition cpp_center_x : Z := u8 (Z.shiftr (BARRIER_X_DIM - 1) 1).
Definition cpp_center_y : Z := u8 (Z.shiftr (BARRIER_Y_DIM - 1) 1).

(** [poll_range] of [bsg_mutex.hpp]: one iteration of its inner loop. *)
Definition cpp_poll (range i v : Z) (at_ : Z -> cpp_pc) (exit : cpp_pc) : cpp_pc :=
  if i <? range then if v =? 0 then at_ 0 else at_ (i + 1) else exit.

(** [bsg_wait_local] of [bsg_mutex.hpp] on a local alert of value [v], with reservation [w]. *)
Definition bsg_wait_local (aq : bool) (w : reserved) (v : Z) (at_ : bool -> cpp_pc) (exit : cpp_pc)
    (t : Z * Z) (s : cpp_state) : option cpp_state :=
  match aq with
  | false => Some (go t (if v =? 1 then exit else at_ true) (reserve t (Some w) s))
  | true =>
      match tb_resv s t with
      | Some _ => None
      | None => Some (go t (if v =? 1 then exit else at_ false) s)
      end
  end.

(** The methods of [bsg_row_barrier], one access each; [next] is what the caller does then. *)

Definition r_sync (bsg_x bsg_y : Z) (next : cpp_pc) (s : cpp_state) : option cpp_state :=
  Some (go (bsg_x, bsg_y) next (store_row_done bsg_y bsg_x 1 s)).

Definition r_wait_on_sync (i bsg_x bsg_y : Z) (next : cpp_pc) (s : cpp_state) : option cpp_state :=
  Some (go (bsg_x, bsg_y) (cpp_poll BARRIER_X_DIM i (row_done s bsg_y i) PRowPoll next) s).

Definition r_reset (i bsg_x bsg_y : Z) (s : cpp_state) : option cpp_state :=
  if i <? BARRIER_X_DIM then
    Some (go (bsg_x, bsg_y) (PRowReset (i + 1)) (store_row_done bsg_y i 0 s))
  else Some (go (bsg_x, bsg_y) PRowResetAlert s).

Definition r_reset_alert (bsg_x bsg_y : Z) (next : cpp_pc) (s : cpp_state) : option cpp_state :=
  Some (go (bsg_x, bsg_y) next (store_row_alert (bsg_x, bsg_y) 0 s)).

Definition r_alert (i bsg_x bsg_y : Z) (next : cpp_pc) (s : cpp_state) : option cpp_state :=
  if i <? BARRIER_X_DIM then
    Some (go (bsg_x, bsg_y) (PRowAlert (i + 1)) (store_row_alert (i, bsg_y) 1 s))
  else Some (go (bsg_x, bsg_y) next s).

Definition r_wait_on_alert (aq : bool) (bsg_x bsg_y : Z) (s : cpp_state) : option cpp_state :=
  bsg_wait_local aq OnRowAlert (row_alert s (bsg_x, bsg_y)) PWaitRow PRowAlertClear (bsg_x, bsg_y) s.

(** The methods of [bsg_col_barrier]. *)

Definition c_sync (bsg_x bsg_y : Z) (next : cpp_pc) (s : cpp_state) : option cpp_state :=
  Some (go (bsg_x, bsg_y) next (store_col_done bsg_y 1 s)).

Definition c_wait_on_sync (i bsg_x bsg_y : Z) (next : cpp_pc) (s : cpp_state) : option cpp_state :=
  Some (go (bsg_x, bsg_y) (cpp_poll BARRIER_Y_DIM i (col_done s i) PColPoll next) s).

Definition c_reset (i bsg_x bsg_y : Z) (s : cpp_state) : option cpp_state :=
  if i <? BARRIER_Y_DIM then
    Some (go (bsg_x, bsg_y) (PColReset (i + 1)) (store_col_done i 0 s))
  else Some (go (bsg_x, bsg_y) PColResetAlert s).

Definition c_reset_alert (bsg_x bsg_y : Z) (next : cpp_pc) (s : cpp_state) : option cpp_state :=
  Some (go (bsg_x, bsg_y) next (store_col_alert cpp_range bsg_y 0 s)).

Definition c_alert (i bsg_x bsg_y : Z) (next : cpp_pc) (s : cpp_state) : option cpp_state :=
  if i <? BARRIER_Y_DIM then
    Some (go (bsg_x, bsg_y) (PColAlert (i + 1)) (store_col_alert cpp_range i 1 s))
  else Some (go (bsg_x, bsg_y) next s).

Definition c_wait_on_alert (aq : bool) (bsg_x bsg_y : Z) (s : cpp_state) : option cpp_state :=
  bsg_wait_local aq OnColAlert (col_alert s bsg_y) PWaitCol PColAlertClear (bsg_x, bsg_y) s.

(** [bsg_barrier::sync]. *)
Definition cpp_step (t : Z * Z) (s : cpp_state) : option cpp_state :=
  if decide (t ∈ tb_tiles cpp_range) then
    let '(bsg_x, bsg_y) := t in
    match tb_pcs s t with
    | PIdle =>
        if tb_entered s t <? total then
          Some (go t (if (BARRIER_Y_DIM =? 1) && (BARRIER_X_DIM =? 1) then PIdle else PRowSync)
                  (begin_call t s))
        else None
    | PRowSync =>
        r_sync bsg_x bsg_y (if bsg_x =? cpp_center_x then PRowPoll 0 else PWaitRow false) s
    | PRowPoll i => r_wait_on_sync i bsg_x bsg_y PColSync s
    | PColSync =>
        c_sync bsg_x bsg_y (if bsg_y =? cpp_center_y then PColPoll 0 else PWaitCol false) s
    | PColPoll i => c_wait_on_sync i bsg_x bsg_y (PColReset 0) s
    | PColReset i => c_reset i bsg_x bsg_y s
    | PColResetAlert => c_reset_alert bsg_x bsg_y (PColAlert 0) s
    | PColAlert i => c_alert i bsg_x bsg_y (PWaitCol false) s
    | PWaitCol aq => c_wait_on_alert aq bsg_x bsg_y s
    | PColAlertClear => c_reset_alert bsg_x bsg_y (PRowReset 0) s
    | PRowReset i => r_reset i bsg_x bsg_y s
    | PRowResetAlert => r_reset_alert bsg_x bsg_y (PRowAlert 0) s
    | PRowAlert i => r_alert i bsg_x bsg_y (PWaitRow false) s
    | PWaitRow aq => r_wait_on_alert aq bsg_x bsg_y s
    | PRowAlertClear => r_reset_alert bsg_x bsg_y PIdle s
    end
  else None.

(** As the loader and the constructor leave the object. *)
Definition cpp_init (s : cpp_state) : Prop :=
  (forall y i, row_done s y i = 0) /\ (forall i, col_done s i = 0) /\
  (forall y, col_alert s y = 0) /\ (forall t, row_alert s t = 0) /\
  (forall t, t ∈ tb_tiles cpp_range -> tb_pcs s t = PIdle /\ tb_entered s t = 0).

#[local] Instance cpp_lts : Lts cpp_state (Z * Z) :=
  { lts_init := cpp_init; lts_step := cpp_step }.
#[local] Instance c_lts : Lts tb_state (Z * Z) := tb_lts cpp_range total.

Ltac unfold_cpp :=
  unfold cpp_step, r_sync, r_wait_on_sync, r_reset, r_reset_alert, r_alert, r_wait_on_alert,
    c_sync, c_wait_on_sync, c_reset, c_reset_alert, c_alert, c_wait_on_alert, bsg_wait_local in *.

(** ** The simulation *)

(** The access of the C barrier a C++ tile is about to make, or has made early. *)
Definition abs_pc (p : cpp_pc) : tb_pc :=
  match p with
  | PIdle => TIdle | PRowSync => TRowSend | PRowPoll i => TPollRow i | PColSync => TColSend
  | PColPoll i => TPollCol i | PColReset i => TColClear i
  | PColResetAlert => TColClear BARRIER_Y_DIM | PColAlert i => TColAlert i
  | PWaitCol aq => TWaitCol aq | PColAlertClear => TRowClear 0 | PRowReset i => TRowClear i
  | PRowResetAlert => TCaClear | PRowAlert i => TRowAlert i | PWaitRow aq => TWaitRow aq
  | PRowAlertClear => TRaClear
  end.

(** The C++ tile has cleared its column alert, the C tile has not. *)
Definition cleared_early (p : cpp_pc) : bool :=
  match p with PRowReset _ | PRowResetAlert => true | _ => false end.

(** The steps only the C++ barrier makes. *)
Definition stutters (p p' : cpp_pc) : Prop :=
  (exists i, p = PColReset i /\ p' = PColResetAlert) \/ (p = PColAlertClear /\ p' = PRowReset 0).

Definition waiting (p : cpp_pc) : bool :=
  match p with PWaitCol true | PWaitRow true => true | _ => false end.

#[local] Abbreviation cx := (center_x_cord cpp_range).
#[local] Abbreviation cy := (center_y_cord cpp_range).

Record simulates (c : cpp_state) (a : tb_state) : Prop := {
  sim_row_done : forall y i, row_done c y i = row_done a y i;
  sim_col_done : forall i, col_done c i = col_done a i;
  sim_row_alert : forall t, row_alert c t = row_alert a t;
  sim_entered : forall t, tb_entered c t = tb_entered a t;
  sim_col_alert : forall y, (cx, y) ∈ tb_tiles cpp_range ->
    col_alert c y = if cleared_early (tb_pcs c (cx, y)) then 0 else col_alert a y;
  sim_pcs : forall t, t ∈ tb_tiles cpp_range -> abs_pc (tb_pcs c t) = tb_pcs a t;
  sim_resv : forall t, t ∈ tb_tiles cpp_range -> waiting (tb_pcs c t) = true ->
    tb_resv c t = tb_resv a t;
}.

Hypothesis dims : 1 <= BARRIER_X_DIM <= 256 /\ 1 <= BARRIER_Y_DIM <= 256.

Lemma wf_cpp_range : wf_tb_range cpp_range.
Proof using dims. unfold wf_tb_range. simpl. lia. Qed.

Lemma cpp_centers : cpp_center_x = cx /\ cpp_center_y = cy.
Proof using dims.
  unfold cpp_center_x, cpp_center_y, center_x_cord, center_y_cord, u8.
  cbn [tx_start tx_end ty_start ty_end cpp_range].
  rewrite !Z.shiftr_div_pow2, !Z.quot_div_nonneg by lia. change (2 ^ 1) with 2.
  split; rewrite Z.mod_small; Z.to_euclidean_division_equations; lia.
Qed.

(** What the C barrier's invariant says of the alerts that the C++ barrier clears elsewhere. *)
Lemma col_alert_before_alerts a i : tb_inv cpp_range total a ->
  (cx, cy) ∈ tb_tiles cpp_range -> tb_pcs a (cx, cy) = TColClear i -> col_alert a cy = 0.
Proof.
  intros I Ht Epc. rewrite (ti_col_alert _ _ _ I _ Ht). unfold count, before.
  rewrite Epc. simpl. lia.
Qed.

Lemma row_alert_before_alerts a y : tb_inv cpp_range total a ->
  (cx, y) ∈ tb_tiles cpp_range -> tb_pcs a (cx, y) = TCaClear -> row_alert a (cx, y) = 0.
Proof.
  intros I Ht Epc. rewrite (ti_row_alert _ _ _ I _ _ Ht). unfold count, before.
  rewrite Epc. simpl. lia.
Qed.

Lemma no_alert_while_clearing a y : tb_inv cpp_range total a ->
  (cx, y) ∈ tb_tiles cpp_range -> 7 <= stage (tb_pcs a (cx, y)) <= 8 ->
  tb_pcs a (cx, cy) <> TColAlert y.
Proof using dims.
  intros I Ht Hs Epc. pose proof (col_chain _ _ _ _ I Ht) as C.
  revert C. unfold count, before. rewrite Epc.
  destruct (tb_pcs a (cx, y)); simpl in Hs; try lia; simpl;
    destruct (Z.leb_spec y y); simpl; lia.
Qed.

Definition cpp_sim_goal (t : Z * Z) (c' : cpp_state) (c : cpp_state) (a : tb_state) : Prop :=
  (simulates c' a /\ stutters (tb_pcs c t) (tb_pcs c' t)) \/
  exists a', tb_step cpp_range total t a = Some a' /\ simulates c' a'.

Hypothesis not_single : BARRIER_X_DIM <> 1 \/ BARRIER_Y_DIM <> 1.

Lemma not_single_test : (BARRIER_Y_DIM =? 1) && (BARRIER_X_DIM =? 1) = false.
Proof using not_single. clear dims. destruct (Z.eqb_spec BARRIER_Y_DIM 1), (Z.eqb_spec BARRIER_X_DIM 1); simpl; lia. Qed.

(** The updated memories are related, component by component. *)
Ltac related HS :=
  constructor; intros; simpl in *; unfold clear_resv in *; simpl in *;
  rewrite ?insert_if in *; repeat case_decide; rewrite ?insert_if in *; repeat case_decide;
  simplify_eq; simpl in *;
  first
    [ done | apply HS; done | lia
    | match goal with
      | H : (_, ?y) ∈ tb_tiles cpp_range |- col_alert _ ?y = _ =>
          let F := fresh "F" in
          pose proof (sim_col_alert _ _ HS y H) as F;
          repeat match goal with E : tb_pcs _ _ = _ |- _ => rewrite E in F end; simpl in F;
          congruence
      | H : ?t ∈ tb_tiles cpp_range, W : waiting (tb_pcs _ ?t) = true |- _ =>
          pose proof (sim_resv _ _ HS t H W); congruence
      end
    | idtac ].

Lemma cleared_early_stage p : cleared_early p = true -> 7 <= stage (abs_pc p) <= 8.
Proof. destruct p; simpl; lia. Qed.

Lemma ltb_leb i n : (i <? n) = (i <=? n - 1).
Proof. destruct (Z.ltb_spec i n), (Z.leb_spec i (n - 1)); lia. Qed.

Lemma cpp_x_range : x_range cpp_range = BARRIER_X_DIM - 1.
Proof. unfold x_range. simpl. lia. Qed.

Lemma cpp_y_range : y_range cpp_range = BARRIER_Y_DIM - 1.
Proof. unfold y_range. simpl. lia. Qed.

Lemma sim_step c a t c' : tb_inv cpp_range total a -> simulates c a ->
  cpp_step t c = Some c' -> cpp_sim_goal t c' c a.
Proof using dims not_single.
  intros I HS H. unfold_cpp. destruct (decide _) as [Ht|]; [|done].
  pose proof (sim_pcs _ _ HS _ Ht) as Ea. pose proof (sim_entered _ _ HS t) as Een.
  destruct (ti_role _ _ _ I _ Ht) as (R1 & R2 & R3). destruct cpp_centers as [Cx Cy].
  destruct t as [x y]. apply elem_of_tb_tiles in Ht as Hr. cbn [fst snd] in *.
  unfold cpp_poll in H. rewrite not_single_test, Cx, Cy in H.
  unfold cpp_sim_goal, tb_step, poll. rewrite decide_True by done. rewrite <-Ea in R1, R2, R3.
  rewrite <-Ea, <-Een, ?cpp_x_range, ?cpp_y_range.
  cbn [tx_start tx_end ty_start ty_end cpp_range].
  destruct (tb_pcs c (x, y)) as [| |i| |i|i| |i|aq| |i| |i|aq|] eqn:Epc; cbn [abs_pc stage] in *.
  all: try (rewrite R1 in * by lia); try (rewrite R2 in * by lia).
  all: rewrite ?(ltb_leb _ BARRIER_X_DIM), ?(ltb_leb _ BARRIER_Y_DIM) in H.
  - case_match; [|done]. apply (inj Some) in H as <-. right. eexists. split; [done|]. related HS.
  - apply (inj Some) in H as <-. right. eexists. split; [done|].
    destruct (Z.eqb_spec x cx); related HS. 
  - apply (inj Some) in H as <-. right. eexists. split; [done|].
    rewrite (sim_row_done _ _ HS). repeat case_match; related HS.
  - apply (inj Some) in H as <-. right. eexists. split; [done|].
    destruct (Z.eqb_spec y cy); related HS. 
  - apply (inj Some) in H as <-. right. eexists. split; [done|].
    rewrite (sim_col_done _ _ HS). repeat case_match; related HS.
  - case_match; apply (inj Some) in H as <-; [right; eexists; split; [done|]; related HS|left].
    rewrite cpp_y_range in R3. bprop. replace i with BARRIER_Y_DIM in * by lia.
    split; [related HS|]. simpl. rewrite fn_lookup_insert. left. by eexists.
  - apply (inj Some) in H as <-. right. eexists. rewrite (proj2 (Z.leb_gt _ _)) by lia.
    split; [done|]. pose proof (col_alert_before_alerts _ _ I Ht (eq_sym Ea)). related HS.
  - case_match; apply (inj Some) in H as <-; right; (eexists; split; [done|]); related HS.
    destruct (cleared_early _) eqn:Ec; [|done]. apply cleared_early_stage in Ec.
    rewrite (sim_pcs _ _ HS) in Ec by done.
    by destruct (no_alert_while_clearing _ _ I ltac:(eassumption) Ec).
  - pose proof (sim_col_alert _ _ HS _ Ht) as Ec. rewrite Epc in Ec. simpl in Ec. rewrite Ec in H.
    pose proof (sim_resv _ _ HS _ Ht) as Er. rewrite Epc in Er.
    destruct aq; [rewrite Er in H by done; case_match; [done|]|];
      apply (inj Some) in H as <-; right; (eexists; split; [done|]); case_match; related HS.
  - apply (inj Some) in H as <-. left. split; [related HS|]. simpl. rewrite fn_lookup_insert. by right.
  - case_match; apply (inj Some) in H as <-; right; (eexists; split; [done|]); related HS.
  - apply (inj Some) in H as <-. right. eexists. split; [done|].
    pose proof (row_alert_before_alerts _ _ I Ht (eq_sym Ea)). related HS.
  - case_match; apply (inj Some) in H as <-; right; (eexists; split; [done|]); related HS.
  - rewrite (sim_row_alert _ _ HS) in H.
    pose proof (sim_resv _ _ HS _ Ht) as Er. rewrite Epc in Er.
    destruct aq; [rewrite Er in H by done; case_match; [done|]|];
      apply (inj Some) in H as <-; right; (eexists; split; [done|]); case_match; related HS.
  - apply (inj Some) in H as <-. right. eexists. split; [done|]. related HS.
Qed.

Lemma sim_init c : cpp_init c -> exists a, tb_init cpp_range a /\ simulates c a.
Proof.
  intros (Hrd & Hcd & Hca & Hra & Hidle).
  exists (Build_tb_memory (row_done c) (col_done c) (col_alert c) (row_alert c) (tb_resv c)
    (fun _ => TIdle) (tb_entered c)).
  split.
  - unfold tb_init. split_and!; try done. intros t Ht. split; [done|]. by apply Hidle.
  - split; simpl; try done.
    + intros y Ht. by destruct (Hidle _ Ht) as [-> _].
    + intros t Ht. by destruct (Hidle _ Ht) as [-> _].
Qed.

(** The C++ tile can move whenever the C tile can. *)
Lemma sim_enabled c a t a' : simulates c a -> tb_step cpp_range total t a = Some a' ->
  exists c', cpp_step t c = Some c'.
Proof.
  intros HS H. pose proof (step_tile _ _ _ _ _ H) as Ht.
  unfold_cpp. unfold tb_step in H. rewrite decide_True in H by done.
  rewrite decide_True by done. pose proof (sim_resv _ _ HS _ Ht) as Er.
  rewrite <-(sim_pcs _ _ HS _ Ht), <-(sim_entered _ _ HS) in H. destruct t as [x y].
  destruct (tb_pcs c (x, y)) as [| |i| |i|i| |i|aq| |i| |i|aq|] eqn:Epc; cbn [abs_pc] in *;
    try (eexists; reflexivity); try (destruct (i <? _); eexists; reflexivity).
  - destruct (_ <? _); [by eexists|done].
  - destruct aq; [|by eexists]. rewrite Er by done. by destruct (tb_resv a (x, y)); [|eexists].
  - destruct aq; [|by eexists]. rewrite Er by done. by destruct (tb_resv a (x, y)); [|eexists].
Qed.

(** How far a tile is: where the C tile is, and whether a step of its own is behind it. *)
Definition own_step (p : cpp_pc) : Z :=
  match p with PColResetAlert | PRowReset _ => 1 | _ => 0 end.

Definition cpp_pos (c : cpp_state) (t : Z * Z) : Z :=
  2 * (13000 * tb_entered c t + 1000 * stage (abs_pc (tb_pcs c t)) + index (abs_pc (tb_pcs c t))) +
  own_step (tb_pcs c t).

Lemma cpp_pos_pos c a t : simulates c a -> t ∈ tb_tiles cpp_range ->
  cpp_pos c t = 2 * pos a t + own_step (tb_pcs c t).
Proof.
  intros HS Ht. unfold cpp_pos, pos. by rewrite (sim_entered _ _ HS), (sim_pcs _ _ HS) by done.
Qed.

Lemma own_step_range p : 0 <= own_step p <= 1.
Proof. destruct p; simpl; lia. Qed.

Lemma cpp_pos_other t c c' t' : cpp_step t c = Some c' -> t' <> t -> cpp_pos c' t' = cpp_pos c t'.
Proof.
  intros H Hne. unfold_cpp. destruct (decide _); [|done]. destruct t as [x y].
  unfold cpp_pos. repeat case_match; try discriminate H; apply (inj Some) in H as <-; simpl;
    by rewrite ?fn_lookup_insert_ne by congruence.
Qed.

(** Every tile has returned from all its calls. *)
Definition cpp_done (c : cpp_state) : Prop :=
  forall t, t ∈ tb_tiles cpp_range -> tb_pcs c t = PIdle /\ tb_entered c t = total.

(** The calls tile [t] has returned from. *)
Definition cpp_returned (c : cpp_state) (t : Z * Z) : Z :=
  match tb_pcs c t with PIdle => tb_entered c t | _ => tb_entered c t - 1 end.

Lemma sim_done c a : simulates c a -> tb_done cpp_range total a -> cpp_done c.
Proof.
  intros HS Hd t Ht. destruct (Hd t Ht) as [Ep Ee]. rewrite (sim_entered _ _ HS). split; [|done].
  rewrite <-(sim_pcs _ _ HS) in Ep by done. by destruct (tb_pcs c t).
Qed.

Lemma sim_returned c a t : simulates c a -> t ∈ tb_tiles cpp_range ->
  cpp_returned c t = tb_returned a t.
Proof.
  intros HS Ht. unfold cpp_returned, tb_returned.
  rewrite <-(sim_pcs _ _ HS), (sim_entered _ _ HS) by done. by destruct (tb_pcs c t).
Qed.

Definition cpp_inv (c : cpp_state) : Prop := exists a, tb_inv cpp_range total a /\ simulates c a.

Definition cpp_left (c : cpp_state) : Z :=
  sum_over (fun t => 2 * (13000 * total + 13000) + 1 - cpp_pos c t) (tb_tiles cpp_range).

Lemma cpp_progress c : cpp_inv c ->
  cpp_done c \/ exists t c', t ∈ tb_tiles cpp_range /\ cpp_step t c = Some c' /\ cpp_inv c' /\
    cpp_left c' < cpp_left c.
Proof using dims not_single.
  intros (a & I & HS).
  destruct (some_tile_moves _ _ wf_cpp_range _ I) as [Hd|(t & a1 & Ht & Ha & Hlt)];
    [left; by eapply sim_done|right].
  destruct (sim_enabled _ _ _ _ HS Ha) as [c' Hc]. exists t, c'. do 2 (split; [done|]).
  assert (forall b, simulates c' b -> cpp_pos c t < cpp_pos c' t -> cpp_left c' < cpp_left c).
  { intros b HS' Hp. apply sum_over_lt with t; [|done|lia]. intros t' _.
    destruct (decide (t' = t)) as [->|Hne]; [lia|]. by rewrite (cpp_pos_other _ _ _ _ Hc Hne). }
  destruct (sim_step _ _ _ _ I HS Hc) as [[HS' Hst]|(a' & Ha' & HS')].
  - split; [by exists a|]. apply (H a HS').
    rewrite (cpp_pos_pos _ _ _ HS Ht), (cpp_pos_pos _ _ _ HS' Ht).
    destruct Hst as [(i & -> & ->)|(-> & ->)]; simpl; lia.
  - rewrite Ha in Ha'. apply (inj Some) in Ha' as <-.
    split; [exists a1; split; [by eapply tb_inv_step; [apply wf_cpp_range| |]|done]|].
    apply (H a1 HS'). rewrite (cpp_pos_pos _ _ _ HS Ht), (cpp_pos_pos _ _ _ HS' Ht).
    pose proof (own_step_range (tb_pcs c t)). pose proof (own_step_range (tb_pcs c' t)). lia.
Qed.

Lemma cpp_can_finish c : cpp_inv c -> can_reach (.∈ tb_tiles cpp_range) c cpp_done.
Proof using dims not_single.
  revert c. apply (can_reach_measure _ cpp_inv cpp_done cpp_left); [|apply cpp_progress].
  intros c (a & I & HS). apply sum_over_nonneg. intros t Ht.
  rewrite (cpp_pos_pos _ _ _ HS Ht). pose proof (pos_bound _ _ wf_cpp_range _ _ I Ht).
  pose proof (own_step_range (tb_pcs c t)). lia.
Qed.

Hypothesis total_nonneg : 0 <= total.

Lemma cpp_refines c : reachable c -> exists a, reachable a /\ simulates c a.
Proof using dims not_single total_nonneg.
  apply simulation_reachable; [apply sim_init|]. intros c1 a t c' Ha HS H.
  destruct (sim_step _ _ _ _ (tb_inv_reachable _ _ wf_cpp_range total_nonneg _ Ha) HS H)
    as [[? _]|?]; [by left|by right].
Qed.
End cpp_barrier.

(** ** A group of one tile *)

Section single.
Variable total : Z.
#[local] Instance single_lts : Lts cpp_state (Z * Z) := cpp_lts 1 1 total.

Lemma single_tile t : t ∈ tb_tiles (cpp_range 1 1) -> t = (0, 0).
Proof. destruct t as [x y]. intros Ht%elem_of_tb_tiles. simpl in Ht. f_equal; lia. Qed.

Definition single_inv (c : cpp_state) : Prop :=
  tb_pcs c (0, 0) = PIdle /\ tb_entered c (0, 0) <= total.

Lemma single_step t c c' : single_inv c -> cpp_step 1 1 total t c = Some c' ->
  single_inv c' /\ tb_entered c' (0, 0) = tb_entered c (0, 0) + 1.
Proof.
  intros [Hp He] H. unfold cpp_step in H. destruct (decide _) as [Ht|]; [|done].
  apply single_tile in Ht as ->. rewrite Hp in H. destruct (Z.ltb_spec (tb_entered c (0, 0)) total); [|done].
  apply (inj Some) in H as <-. unfold single_inv. simpl. rewrite !fn_lookup_insert.
  split_and!; [done|lia|done].
Qed.

Lemma single_can_finish c : 0 <= total -> reachable c ->
  can_reach (.∈ tb_tiles (cpp_range 1 1)) c (cpp_done 1 1 total).
Proof.
  intros Ht Hc. assert ((0, 0) ∈ tb_tiles (cpp_range 1 1)) as H0 by (apply elem_of_tb_tiles; simpl; lia).
  assert (single_inv c) as I.
  { revert c Hc. apply invariant_reachable; [|intros c t c' I H; by destruct (single_step _ _ _ I H)].
    intros c (_ & _ & _ & _ & Hi). destruct (Hi _ H0) as [? E]. split; [done|lia]. }
  clear Hc. revert c I. apply (can_reach_measure _ single_inv _ (fun c => total - tb_entered c (0, 0))).
  { intros c [_ ?]. lia. }
  intros c I. destruct (decide (tb_entered c (0, 0) = total)) as [E|Hne].
  - left. intros t ->%single_tile. split; [apply I|done].
  - right. assert (exists c', cpp_step 1 1 total (0, 0) c = Some c') as [c' Hs].
    { unfold cpp_step. rewrite decide_True by done. destruct I as [-> ?].
      rewrite (proj2 (Z.ltb_lt _ _)) by lia. by eexists. }
    exists (0, 0), c'. destruct (single_step _ _ _ I Hs). repeat split; try done; [apply H|apply H|lia].
Qed.
End single.

(** C6 (refinement).  The C++ barrier keeps the contract of the C barrier.  In every state that
    [bsg_barrier<X, Y>::sync] can reach in any interleaving: unless the group is a single tile,
    some reachable state of [bsg_tile_group_barrier] is related to it access for access; no tile
    has returned from more calls than any tile has begun; and every tile can still return from
    all its calls. *)
Theorem cpp_barrier_refines X Y total c :
  1 <= X <= 256 -> 1 <= Y <= 256 -> 0 <= total -> @reachable _ _ (cpp_lts X Y total) c ->
  (X <> 1 \/ Y <> 1 ->
     exists a, @reachable _ _ (tb_lts (cpp_range X Y) total) a /\ simulates X Y c a) /\
  (forall t t', t ∈ tb_tiles (cpp_range X Y) -> t' ∈ tb_tiles (cpp_range X Y) ->
     cpp_returned c t <= tb_entered c t') /\
  @can_reach _ _ (cpp_lts X Y total) (.∈ tb_tiles (cpp_range X Y)) c (cpp_done X Y total).
Proof.
  intros HX HY Ht Hc. destruct (decide (X = 1 /\ Y = 1)) as [[-> ->]|Hns].
  - split_and!; [lia| |by apply single_can_finish].
    intros t t' ->%single_tile ->%single_tile. unfold cpp_returned. case_match; lia.
  - assert (X <> 1 \/ Y <> 1) as N by lia.
    destruct (cpp_refines X Y total (conj HX HY) N Ht c Hc) as (a & Ha & HS).
    pose proof (tb_inv_reachable _ _ (wf_cpp_range X Y (conj HX HY)) Ht _ Ha) as I.
    split_and!; [by exists a| |apply cpp_can_finish; [done|done|by exists a]].
    intros t t' Ht1 Ht2. rewrite (sim_returned _ _ _ _ _ HS), (sim_entered _ _ _ _ HS) by done.
    by apply (returned_entered _ total (wf_cpp_range X Y (conj HX HY)) a).
Qed.

(** A group of 3x2 tiles; the tiles are scheduled round robin. *)
Definition cpp_example : cpp_state :=
  Build_tb_memory (fun _ _ => 0) (fun _ => 0) (fun _ => 0) (fun _ => 0) (fun _ => None)
    (fun _ => PIdle) (fun _ => 0).

Definition cpp_schedule (rounds : nat) : list (Z * Z) :=
  mjoin (replicate rounds (tb_tiles (cpp_range 3 2))).

#[local] Instance cpp_example_lts : Lts cpp_state (Z * Z) := cpp_lts 3 2 2.

Lemma cpp_example_init : cpp_init 3 2 cpp_example.
Proof. unfold cpp_init. split_and!; [done..|]. by split. Qed.

Lemma cpp_barrier_refines_witness :
  let c := run_skip (cpp_schedule 28) cpp_example in
  tb_pcs c (0, 0) = PRowSync /\ tb_pcs c (1, 0) = PWaitRow false /\
  (forall t t', t ∈ tb_tiles (cpp_range 3 2) -> t' ∈ tb_tiles (cpp_range 3 2) ->
     cpp_returned c t <= tb_entered c t') /\
  can_reach (.∈ tb_tiles (cpp_range 3 2)) c (cpp_done 3 2 2).
Proof.
  assert (reachable (run_skip (cpp_schedule 28) cpp_example)) as Hc
    by (apply run_skip_reachable; constructor; apply cpp_example_init).
  destruct (cpp_barrier_refines 3 2 2 (run_skip (cpp_schedule 28) cpp_example)) as (_ & Hs & Hl);
    [lia|lia|lia|exact Hc|].
  split; [vm_compute; reflexivity|]. split; [vm_compute; reflexivity|]. split; [exact Hs|exact Hl].
Defined.
