(* ===== verification/AmoaddBarrier.v ===== *)
(** * The barrier of [bsg_barrier_amoadd.S]

    A sense-reversing barrier, which most of the test programs and the cuda-lite library
    ([bsg_cuda_lite_barrier.h]) use.  Every tile adds its sense, 1 or -1, to a word in DRAM.  The
    tile whose addition completes the round stores the opposite sense into the sense word of
    every tile, itself included, through tile-group pointers it computes; the others sleep on
    their own sense word with [lr.w] and [lr.w.aq].  [amo_step] makes the next memory access of
    one tile; [lr.w] and [lr.w.aq] are those of the file [Barrier].

    [a_entered] and [a_returned] count a tile's calls and returns, [a_round] the completed
    rounds and [a_woken] the wake-ups a tile has received: they are history, which no access
    reads.  The comment of the code says that a context switch can clear a reservation;
    [AInterrupt] is that event, and [interrupted_lts] the system with it. *)

From S2P Require Import Prelude Lts Arch Eva.
Local Open Scope Z_scope.

(** The next access of a call, with the registers that live across it. *)
Inductive amo_pc : Type :=
| AStart                       (* bsg_barrier_tile_group_init: sense = 1 *)
| AIdle                        (* outside *)
| ALoad                        (* lw t0, 0(a1) *)
| AAmo (t0 : Z)                (* amoadd.w t1, t0, 0(a0) *)
| AWake (t3 t4 t5 : Z)         (* sw t3, 0(t6), for the tile (t5, t4) *)
| ASleepLr (t3 : Z)            (* lr.w t0, 0(a1) *)
| ASleepAq (t3 : Z).           (* lr.w.aq t0, 0(a1) *)

Record amo_state := {
  a_lock : Z;
  a_sense : Z * Z -> Z;
  a_resv : Z * Z -> bool;
  a_pc : Z * Z -> amo_pc;
  a_entered : Z * Z -> Z;
  a_returned : Z * Z -> Z;
  a_woken : Z * Z -> Z;
  a_round : Z;
}.

(** The address that the wake-up loop computes in [t6]. *)
Definition wake_addr (t4 t5 a1 : Z) : Z :=
  u32 (u32 (u32 (0x20000000 + u32 (Z.shiftl t4 24)) + u32 (Z.shiftl t5 18)) + a1).

Section amoadd_barrier.
Variable c : config.
Variable total : Z.          (* the calls that every tile makes *)
#[local] Abbreviation tiles := (grid 0 (bsg_tiles_X c) 0 (bsg_tiles_Y c)).
#[local] Abbreviation N := (bsg_tiles_X c * bsg_tiles_Y c).
Implicit Types (s : amo_state) (t : Z * Z).

Definition amo_goto t (pc : amo_pc) s : amo_state :=
  Build_amo_state (a_lock s) (a_sense s) (a_resv s) (<[t := pc]> (a_pc s)) (a_entered s)
    (a_returned s) (a_woken s) (a_round s).

Definition amo_enter t s : amo_state :=
  Build_amo_state (a_lock s) (a_sense s) (a_resv s) (<[t := ALoad]> (a_pc s))
    (<[t := a_entered s t + 1]> (a_entered s)) (a_returned s) (a_woken s) (a_round s).

(** [bsg_barrier_amoadd_end]. *)
Definition amo_return t s : amo_state :=
  Build_amo_state (a_lock s) (a_sense s) (a_resv s) (<[t := AIdle]> (a_pc s)) (a_entered s)
    (<[t := a_returned s t + 1]> (a_returned s)) (a_woken s) (a_round s).

Definition amo_reserve t (v : bool) s : amo_state :=
  Build_amo_state (a_lock s) (a_sense s) (<[t := v]> (a_resv s)) (a_pc s) (a_entered s)
    (a_returned s) (a_woken s) (a_round s).

Definition set_lock (v : Z) (k : Z) s : amo_state :=
  Build_amo_state v (a_sense s) (a_resv s) (a_pc s) (a_entered s) (a_returned s) (a_woken s) k.

Definition init_sense t s : amo_state :=
  Build_amo_state (a_lock s) (<[t := 1]> (a_sense s)) (a_resv s) (a_pc s) (a_entered s)
    (a_returned s) (a_woken s) (a_round s).

(** A wake-up: the store clears the reservation of the tile it reaches. *)
Definition store_sense t (v : Z) s : amo_state :=
  Build_amo_state (a_lock s) (<[t := v]> (a_sense s)) (<[t := false]> (a_resv s)) (a_pc s)
    (a_entered s) (a_returned s) (<[t := a_woken s t + 1]> (a_woken s)) (a_round s).

(** The value of [t1] that the last tile of a round finds. *)
Definition check_val (t0 : Z) : Z := if 0 <? t0 then N - 1 else 1.

Definition amo_step t s : option amo_state :=
  if decide (t ∈ tiles) then
    match a_pc s t with
    | AStart => Some (amo_goto t AIdle (init_sense t s))
    | AIdle => if a_entered s t <? total then Some (amo_enter t s) else None
    | ALoad => Some (amo_goto t (AAmo (a_sense s t)) s)
    | AAmo t0 =>
        let t1 := a_lock s in
        let s := set_lock (t1 +i t0)%c (a_round s) s in
        let t3 := i32 (0 - t0) in
        let t2 := check_val t0 in
        if negb (t2 =? t1) then Some (amo_goto t (ASleepLr t3) s)
        else Some (amo_goto t (AWake t3 (bsg_tiles_Y c - 1) (bsg_tiles_X c - 1))
                     (set_lock (a_lock s) (a_round s + 1) s))
    | AWake t3 t4 t5 =>
        let s := store_sense (t5, t4) t3 s in
        if t5 - 1 >=? 0 then Some (amo_goto t (AWake t3 t4 (t5 - 1)) s)
        else if t4 - 1 >=? 0 then Some (amo_goto t (AWake t3 (t4 - 1) (bsg_tiles_X c - 1)) s)
        else Some (amo_return t s)
    | ASleepLr t3 =>
        let t0 := a_sense s t in
        if t3 =? t0 then Some (amo_return t (amo_reserve t true s))
        else Some (amo_goto t (ASleepAq t3) (amo_reserve t true s))
    | ASleepAq t3 =>
        if a_resv s t then None
        else
          let t0 := a_sense s t in
          if t3 =? t0 then Some (amo_goto t (ASleepLr t3) s)
          else Some (amo_return t s)
    end
  else None.

(** The word in DRAM is 0; a tile has its sense from the initialiser of the variable, or begins
    with [bsg_barrier_tile_group_init]. *)
Definition amo_init s : Prop :=
  a_lock s = 0 /\ a_round s = 0 /\
  (forall t, t ∈ tiles -> (a_pc s t = AStart \/ a_pc s t = AIdle /\ a_sense s t = 1) /\
    a_entered s t = 0 /\ a_returned s t = 0 /\ a_woken s t = 0).

#[local] Instance amo_lts : Lts amo_state (Z * Z) :=
  { lts_init := amo_init; lts_step := amo_step }.

(** With context switches. *)
Inductive amo_event : Type := AMove (t : Z * Z) | AInterrupt (t : Z * Z).

Definition amo_event_step (e : amo_event) s : option amo_state :=
  match e with
  | AMove t => amo_step t s
  | AInterrupt t => Some (amo_reserve t false s)
  end.

#[local] Instance interrupted_lts : Lts amo_state amo_event :=
  { lts_init := amo_init; lts_step := amo_event_step }.
(** ** The invariant *)

(** The sense of a tile that has been woken [k] times. *)
Definition sg (k : Z) : Z := if Z.even k then 1 else -1.

(** The additions a tile has made, over all rounds, and those of the present round. *)
Definition amo_joined s t : Z :=
  a_entered s t - ind (match a_pc s t with ALoad | AAmo _ => true | _ => false end).

Definition amo_count s : Z := sum_over (fun t => amo_joined s t - a_round s) tiles.

Definition waking (pc : amo_pc) : bool := match pc with AWake _ _ _ => true | _ => false end.

(** The tiles that the loop has yet to wake. *)
Definition to_wake (t4 t5 : Z) t : bool := (t.2 <? t4) || ((t.2 =? t4) && (t.1 <=? t5)).

(** A tile in round [k], woken [d] times. *)
Definition amo_pc_ok (k d e r : Z) (resv : bool) (pc : amo_pc) : Prop :=
  match pc with
  | AStart => e = 0 /\ r = 0 /\ d = 0
  | AIdle => e = r /\ d = r
  | ALoad => e = r + 1 /\ d = r
  | AAmo t0 => e = r + 1 /\ d = r /\ t0 = sg r
  | AWake t3 _ _ => e = r + 1 /\ e = k /\ t3 = sg k
  | ASleepLr t3 => e = r + 1 /\ t3 = sg e /\ (d = r \/ d = e)
  | ASleepAq t3 => e = r + 1 /\ t3 = sg e /\ d = if resv then r else e
  end.

Definition amo_tile_ok s t : Prop :=
  0 <= a_returned s t /\ a_entered s t <= total /\
  (a_pc s t = AStart \/ a_sense s t = sg (a_woken s t)) /\
  amo_pc_ok (a_round s) (a_woken s t) (a_entered s t) (a_returned s t) (a_resv s t) (a_pc s t).

Record amo_inv s : Prop := {
  ai_joined : forall t, t ∈ tiles -> amo_joined s t = a_round s \/ amo_joined s t = a_round s + 1;
  ai_lock : a_lock s = if Z.even (a_round s) then amo_count s else N - amo_count s;
  ai_room : amo_count s < N;
  ai_tile : forall t, t ∈ tiles -> amo_tile_ok s t;
  ai_wake : forall w (t3 t4 t5 : Z), w ∈ tiles -> a_pc s w = AWake t3 t4 t5 ->
    0 <= t4 < bsg_tiles_Y c /\ 0 <= t5 < bsg_tiles_X c /\
    forall t, t ∈ tiles -> a_woken s t = a_round s - ind (to_wake t4 t5 t);
  ai_one : forall w w', w ∈ tiles -> w' ∈ tiles -> waking (a_pc s w) = true ->
    waking (a_pc s w') = true -> w = w';
  ai_quiet : (forall w, w ∈ tiles -> waking (a_pc s w) = false) ->
    forall t, t ∈ tiles -> a_woken s t = a_round s;
}.

Hypothesis wf : wf_config c.
Hypothesis total_nonneg : 0 <= total.

Lemma amo_tiles_count : Z.of_nat (length tiles) = N.
Proof using wf. destruct wf as (? & ? & _). apply length_grid; lia. Qed.

Lemma N_bounds : 1 <= N <= 2048.
Proof using wf. destruct wf as (? & ? & _). nia. Qed.

Lemma sg_succ k : sg (k + 1) = - sg k.
Proof using Type. unfold sg. rewrite Z.add_1_r, Z.even_succ, <-Z.negb_even. by destruct (Z.even k). Qed.

Lemma sg_range k : sg k = 1 \/ sg k = -1.
Proof using Type. unfold sg. destruct (Z.even k); auto. Qed.

Lemma amo_count_bounds s : amo_inv s -> 0 <= amo_count s.
Proof using Type.
  intros I. apply sum_over_nonneg. intros t Hin. destruct (ai_joined s I t Hin); lia.
Qed.

(** A tile has received the wake-ups of all rounds, but perhaps the last. *)
Lemma woken_bounds s t : amo_inv s -> t ∈ tiles -> a_round s - 1 <= a_woken s t <= a_round s.
Proof using Type.
  intros I Hin. destruct (decide (Exists (fun w => waking (a_pc s w) = true) tiles)) as [E|E].
  - apply Exists_exists in E as (w & Hw & Ew). destruct (a_pc s w) as [| | | |t3 t4 t5| |] eqn:Ep; try done.
    destruct (ai_wake s I w t3 t4 t5 Hw Ep) as (_ & _ & H). rewrite H by done.
    destruct (to_wake t4 t5 t); simpl; lia.
  - rewrite (ai_quiet s I); [lia| |done]. intros w Hw. apply not_true_iff_false. intros Ew.
    apply E, Exists_exists. eauto.
Qed.

Lemma amo_inv_init s : amo_init s -> amo_inv s.
Proof using wf total_nonneg.
  intros (Hl & Hr & Ht). pose proof N_bounds.
  assert (forall t, t ∈ tiles -> amo_joined s t = 0) as Hj.
  { intros t Hin. destruct (Ht t Hin) as ([Hp|[Hp _]] & He & _); unfold amo_joined; by rewrite Hp, He. }
  assert (amo_count s = 0) as Hc.
  { apply sum_over_zero. intros t Hin. rewrite Hj by done. lia. }
  split.
  - intros t Hin. rewrite Hj by done. lia.
  - by rewrite Hl, Hr, Hc.
  - lia.
  - intros t Hin. destruct (Ht t Hin) as ([Hp|[Hp Hs]] & He & Hre & Hw);
      unfold amo_tile_ok; rewrite He, Hre, Hw, Hp; split_and!; simpl; auto; lia.
  - intros w t3 t4 t5 Hin E. destruct (Ht w Hin) as ([Hp|[Hp _]] & _); by rewrite Hp in E.
  - intros w w' Hin _ E. destruct (Ht w Hin) as ([Hp|[Hp _]] & _); by rewrite Hp in E.
  - intros _ t Hin. destruct (Ht t Hin) as (_ & _ & _ & ->). by rewrite Hr.
Qed.

(** The tile that moves changes only its own fields, and neither adds nor wakes. *)
Lemma amo_local s s' t :
  amo_inv s -> t ∈ tiles ->
  (forall t', t' <> t -> a_pc s' t' = a_pc s t' /\ a_entered s' t' = a_entered s t' /\
     a_returned s' t' = a_returned s t' /\ a_resv s' t' = a_resv s t' /\ a_sense s' t' = a_sense s t') ->
  a_lock s' = a_lock s -> a_round s' = a_round s -> a_woken s' = a_woken s ->
  waking (a_pc s t) = false -> waking (a_pc s' t) = false ->
  amo_joined s' t = amo_joined s t -> amo_tile_ok s' t -> amo_inv s'.
Proof using Type.
  intros I Hin Hoth El Er Ew Hn Hn' Hj Hok.
  assert (forall t', amo_joined s' t' = amo_joined s t') as Hjoin.
  { intros t'. destruct (decide (t' = t)) as [->|Hne]; [done|].
    unfold amo_joined. by destruct (Hoth t' Hne) as (-> & -> & _). }
  assert (amo_count s' = amo_count s) as Hc
    by (apply sum_over_ext; intros t' _; by rewrite Hjoin, Er).
  assert (forall w, waking (a_pc s' w) = waking (a_pc s w)) as Hwk.
  { intros w. destruct (decide (w = t)) as [->|Hne]; [congruence|]. by destruct (Hoth w Hne) as (-> & _). }
  split.
  - intros t' Hin'. rewrite Hjoin, Er. by apply ai_joined.
  - rewrite El, Er, Hc. by apply ai_lock.
  - rewrite Hc. by apply ai_room.
  - intros t' Hin'. destruct (decide (t' = t)) as [->|Hne]; [done|].
    unfold amo_tile_ok. destruct (Hoth t' Hne) as (-> & -> & -> & -> & ->). rewrite Er, Ew.
    by apply (ai_tile s I).
  - intros w t3 t4 t5 Hw E. rewrite Ew, Er. apply (ai_wake s I w t3 t4 t5 Hw).
    destruct (decide (w = t)) as [->|Hne]; [by rewrite E in Hn'|]. by destruct (Hoth w Hne) as (<- & _).
  - intros w w' Hw Hw'. rewrite !Hwk. by apply ai_one.
  - intros Hq t' Hin'. rewrite Ew, Er. apply (ai_quiet s I); [|done]. intros w Hw. rewrite <-Hwk. by apply Hq.
Qed.

(** Evaluates the updated functions of a successor state. *)
Ltac aupd := simpl; rewrite ?fn_lookup_insert, ?fn_lookup_insert_ne by done; simpl.

(** The steps that neither add nor wake. *)
Lemma amo_local_step s t s' :
  amo_inv s -> t ∈ tiles -> amo_step t s = Some s' ->
  (match a_pc s t with AAmo _ | AWake _ _ _ => False | _ => True end) -> amo_inv s'.
Proof using total_nonneg.
  intros I Hin E Hpc. unfold amo_step in E. rewrite decide_True in E by done.
  destruct (ai_tile s I t Hin) as (Hr & Hl & Hs & Hok).
  destruct (a_pc s t) as [| | |t0|t3 t4 t5|t3|t3] eqn:Ep; try done; simpl in Hok.
  - injection E as <-.
    apply (amo_local s _ t); try done; try (intros t' Hne; by aupd); aupd; rewrite ?Ep; try done.
    + unfold amo_joined. aupd. by rewrite ?Ep.
    + unfold amo_tile_ok. aupd. destruct Hok as (-> & -> & ->). rewrite ?Ep. by repeat split; auto.
  - case_match eqn:Elt; [|done]. apply Z.ltb_lt in Elt. injection E as <-.
    apply (amo_local s _ t); try done; try (intros t' Hne; by aupd); aupd; rewrite ?Ep; try done.
    + unfold amo_joined. aupd. rewrite ?Ep. simpl. lia.
    + destruct Hs as [Hs|Hs]; [done|]. unfold amo_tile_ok. aupd. split_and!; auto; lia.
  - injection E as <-. destruct Hs as [Hs|Hs]; [done|].
    apply (amo_local s _ t); try done; try (intros t' Hne; by aupd); aupd; rewrite ?Ep; try done.
    + unfold amo_joined. aupd. by rewrite ?Ep.
    + unfold amo_tile_ok. aupd. rewrite Hs. destruct Hok as [? ->]. split_and!; auto.
  - destruct Hs as [Hs|Hs]; [done|]. destruct Hok as (He & -> & Hd). rewrite Hs in E.
    pose proof (sg_succ (a_returned s t)) as Hsg. pose proof (sg_range (a_returned s t)) as Hsr.
    rewrite <-He in Hsg.
    destruct (Z.eqb_spec (sg (a_entered s t)) (sg (a_woken s t))) as [Eq|Ne]; injection E as <-.
    + assert (a_woken s t = a_entered s t) as Hw by (destruct Hd as [Hd|]; [|done]; rewrite Hd in Eq; lia).
      apply (amo_local s _ t); try done; try (intros t' Hne; by aupd); aupd; rewrite ?Ep; try done.
      * unfold amo_joined. aupd. by rewrite ?Ep.
      * unfold amo_tile_ok. aupd. split_and!; auto; lia.
    + assert (a_woken s t = a_returned s t) as Hw by (destruct Hd as [|Hd]; [done|]; by rewrite Hd in Ne).
      apply (amo_local s _ t); try done; try (intros t' Hne; by aupd); aupd; rewrite ?Ep; try done.
      * unfold amo_joined. aupd. by rewrite ?Ep.
      * unfold amo_tile_ok. aupd. split_and!; auto.
  - destruct Hs as [Hs|Hs]; [done|]. destruct Hok as (He & -> & Hd). destruct (a_resv s t); [done|].
    rewrite Hs, Hd, Z.eqb_refl in E. injection E as <-.
    apply (amo_local s _ t); try done; try (intros t' Hne; by aupd); aupd; rewrite ?Ep; try done.
    + unfold amo_joined. aupd. by rewrite ?Ep.
    + unfold amo_tile_ok. aupd. split_and!; auto.
Qed.

(** The addition: one more tile in the round. *)
Lemma amo_joined_goto s t (t0 : Z) pc' l k :
  a_pc s t = AAmo t0 -> (match pc' with ASleepLr _ | AWake _ _ _ => True | _ => False end) ->
  forall t', amo_joined (amo_goto t pc' (set_lock l k s)) t' =
    amo_joined s t' + ind (bool_decide (t' = t)).
Proof using Type.
  intros E Hpc t'. unfold amo_joined. simpl. case_bool_decide as Ht.
  - subst t'. rewrite fn_lookup_insert, E. destruct pc'; try done; simpl; lia.
  - rewrite fn_lookup_insert_ne by done. simpl. lia.
Qed.

Lemma amo_count_goto s t (t0 : Z) pc' l :
  t ∈ tiles -> a_pc s t = AAmo t0 -> (match pc' with ASleepLr _ | AWake _ _ _ => True | _ => False end) ->
  sum_over (fun t' => amo_joined (amo_goto t pc' (set_lock l (a_round s) s)) t' - a_round s) tiles =
    amo_count s + 1.
Proof using Type.
  intros Hin E Hpc. unfold amo_count.
  rewrite (sum_over_update (fun t' => amo_joined s t' - a_round s) _ tiles t); [|apply NoDup_grid|done|].
  - rewrite (amo_joined_goto s t t0) by done. rewrite bool_decide_eq_true_2 by done. simpl. lia.
  - intros t' _ Hne. rewrite (amo_joined_goto s t t0) by done.
    rewrite bool_decide_eq_false_2 by done. simpl. lia.
Qed.

(** A tile about to add is in the round that is open. *)
Lemma amo_adding s t (t0 : Z) : amo_inv s -> t ∈ tiles -> a_pc s t = AAmo t0 ->
  a_returned s t = a_round s /\ a_entered s t = a_round s + 1 /\ a_woken s t = a_round s /\
  t0 = sg (a_round s).
Proof using Type.
  intros I Hin E. destruct (ai_tile s I t Hin) as (_ & _ & _ & Hok). rewrite E in Hok. simpl in Hok.
  pose proof (woken_bounds s t I Hin). destruct Hok as (He & Hd & Ht0).
  destruct (ai_joined s I t Hin) as [Hj|Hj]; unfold amo_joined in Hj; rewrite E in Hj; simpl in Hj;
    [|lia].
  assert (a_returned s t = a_round s) as Er by lia. rewrite Er in Ht0. split_and!; (done || lia).
Qed.

(** The word in DRAM has the value that is tested exactly when all others have added. *)
Lemma amo_lock_full s : amo_inv s ->
  (check_val (sg (a_round s)) =? a_lock s) = (amo_count s =? N - 1).
Proof using Type.
  intros I. rewrite (ai_lock s I). unfold check_val, sg.
  destruct (Z.even (a_round s)); [change (0 <? 1) with true|change (0 <? -1) with false]; cbv iota;
    [by rewrite Z.eqb_sym|].
  destruct (Z.eqb_spec 1 (N - amo_count s)), (Z.eqb_spec (amo_count s) (N - 1)); (done || lia).
Qed.

Lemma amo_lock_add s : amo_inv s ->
  i32 (a_lock s + sg (a_round s)) =
    if Z.even (a_round s) then amo_count s + 1 else N - (amo_count s + 1).
Proof using wf.
  intros I. pose proof N_bounds. pose proof (amo_count_bounds s I). pose proof (ai_room s I).
  rewrite (ai_lock s I). unfold sg. destruct (Z.even (a_round s)); rewrite i32_id; unfold is_i32; lia.
Qed.

(** Another tile adds, and sleeps. *)
Lemma amo_add_step s t (t0 : Z) :
  amo_inv s -> t ∈ tiles -> a_pc s t = AAmo t0 -> amo_count s <> N - 1 ->
  amo_inv (amo_goto t (ASleepLr (i32 (0 - t0))) (set_lock (i32 (a_lock s + t0)) (a_round s) s)).
Proof using wf.
  intros I Hin E Hne. destruct (amo_adding s t t0 I Hin E) as (Hr & He & Hw & ->).
  pose proof (ai_room s I). set (s' := amo_goto _ _ _).
  assert (forall w, waking (a_pc s' w) = waking (a_pc s w)) as Hwk.
  { intros w. unfold s'. simpl. destruct (decide (w = t)) as [->|Hne'];
      [by rewrite fn_lookup_insert, E|by rewrite fn_lookup_insert_ne]. }
  assert (amo_count s' = amo_count s + 1) as Hc by (by apply (amo_count_goto s t (sg (a_round s)))).
  split.
  - intros t' Hin'. unfold s'. rewrite (amo_joined_goto s t (sg (a_round s))) by done. simpl.
    case_bool_decide as Ht; [subst t'|destruct (ai_joined s I t' Hin'); simpl; lia].
    unfold amo_joined. rewrite E. simpl. lia.
  - rewrite Hc. unfold s'. simpl. by apply amo_lock_add.
  - lia.
  - intros t' Hin'. destruct (ai_tile s I t' Hin') as (Hr' & Hl & Hs & Hok). unfold s', amo_tile_ok.
    destruct (decide (t' = t)) as [->|Hne']; aupd; [|done]. split_and!; try done.
    + rewrite E in Hs. by destruct Hs; [|right].
    + lia.
    + rewrite He, sg_succ. apply i32_id. destruct (sg_range (a_round s)) as [-> | ->]; unfold is_i32; lia.
    + left. lia.
  - intros w t3 t4 t5 Hin' Ew. unfold s' in *. simpl in *. apply (ai_wake s I w t3 t4 t5 Hin').
    destruct (decide (w = t)) as [->|Hne']; [by rewrite fn_lookup_insert in Ew|].
    by rewrite fn_lookup_insert_ne in Ew.
  - intros w w' Hw1 Hw2. rewrite !Hwk. by apply ai_one.
  - intros Hq. apply (ai_quiet s I). intros w Hin'. rewrite <-Hwk. by apply Hq.
Qed.

(** The last tile adds: the round is complete, and the tile wakes the others. *)
Lemma amo_last_step s t (t0 : Z) :
  amo_inv s -> t ∈ tiles -> a_pc s t = AAmo t0 -> amo_count s = N - 1 ->
  amo_inv (amo_goto t (AWake (i32 (0 - t0)) (bsg_tiles_Y c - 1) (bsg_tiles_X c - 1))
    (set_lock (i32 (a_lock s + t0)) (a_round s + 1) s)).
Proof using wf.
  intros I Hin E Hfull. destruct (amo_adding s t t0 I Hin E) as (Hr & He & Hw & ->).
  pose proof N_bounds. pose proof wf as (HX & HY & _).
  pose proof (amo_count_goto s t (sg (a_round s)) (AWake 0 0 0) 0 Hin E Logic.I) as Hc.
  rewrite Hfull in Hc. replace (N - 1 + 1) with (1 * Z.of_nat (length tiles)) in Hc
    by (rewrite amo_tiles_count; lia).
  assert (forall t', t' ∈ tiles -> amo_joined s t' + ind (bool_decide (t' = t)) = a_round s + 1) as Hall.
  { assert (forall t', amo_joined (amo_goto t (AWake 0 0 0) (set_lock 0 (a_round s) s)) t' =
      amo_joined s t' + ind (bool_decide (t' = t))) as Hg
      by (intros; by apply (amo_joined_goto s t (sg (a_round s)))).
    intros t' Hin'. rewrite <-Hg. enough (amo_joined (amo_goto t (AWake 0 0 0)
      (set_lock 0 (a_round s) s)) t' - a_round s = 1) by lia.
    revert t' Hin'. apply sum_over_tight; [|by rewrite Hc].
    intros a Ha. rewrite Hg. case_bool_decide as Ht.
    - subst a. unfold amo_joined. rewrite E. simpl. lia.
    - destruct (ai_joined s I a Ha); simpl; lia. }
  assert (forall w, w ∈ tiles -> waking (a_pc s w) = false) as Hnw.
  { intros w Hin'. apply not_true_iff_false. intros Ew. specialize (Hall w Hin').
    destruct (ai_tile s I w Hin') as (_ & _ & _ & Hok). unfold amo_joined in Hall.
    case_bool_decide as Ht; [subst w; by rewrite E in Ew|].
    destruct (a_pc s w); try done. simpl in *. lia. }
  pose proof (ai_quiet s I Hnw) as Hq. set (s' := amo_goto _ _ _).
  assert (amo_count s' = 0) as Hc'.
  { apply sum_over_zero. intros t' Hin'. unfold s'. rewrite (amo_joined_goto s t (sg (a_round s))) by done.
    rewrite Hall by done. simpl. lia. }
  assert (forall t', t' <> t -> waking (a_pc s' t') = waking (a_pc s t')) as Hwk
    by (intros t' Hne; unfold s'; by aupd).
  split.
  - intros t' Hin'. left. unfold s'. rewrite (amo_joined_goto s t (sg (a_round s))) by done.
    by rewrite Hall.
  - rewrite Hc'. unfold s'. simpl. rewrite (amo_lock_add s I), Hfull, (Z.add_1_r (a_round s)), Z.even_succ, <-Z.negb_even.
    destruct (Z.even (a_round s)); simpl; lia.
  - rewrite Hc'. lia.
  - intros t' Hin'. destruct (ai_tile s I t' Hin') as (Hr' & Hl & Hs & Hok). unfold s', amo_tile_ok.
    destruct (decide (t' = t)) as [->|Hne']; aupd.
    + split_and!; try done; [rewrite E in Hs; by destruct Hs; [|right]|lia|].
      rewrite sg_succ. apply i32_id. destruct (sg_range (a_round s)) as [-> | ->]; unfold is_i32; lia.
    + split_and!; try done. specialize (Hnw t' Hin'). by destruct (a_pc s t').
  - intros w t3 t4 t5 Hin' Ew. unfold s' in *. simpl in *. destruct (decide (w = t)) as [->|Hne'].
    + rewrite fn_lookup_insert in Ew. injection Ew as <- <- <-. split_and!; [lia..|].
      intros [x y] Hxy. pose proof Hxy as Hxy'%elem_of_grid. rewrite Hq by done. unfold to_wake. simpl.
      destruct (Z.ltb_spec y (bsg_tiles_Y c - 1)), (Z.eqb_spec y (bsg_tiles_Y c - 1)),
        (Z.leb_spec x (bsg_tiles_X c - 1)); simpl; lia.
    + rewrite fn_lookup_insert_ne in Ew by done. pose proof (Hnw w Hin') as H'. by rewrite Ew in H'.
  - intros w w' Hw1 Hw2 E1 E2.
    destruct (decide (w = t)) as [->|Hne1]; destruct (decide (w' = t)) as [->|Hne2]; try done; exfalso.
    + rewrite Hwk, Hnw in E2 by done. done.
    + rewrite Hwk, Hnw in E1 by done. done.
    + rewrite Hwk, Hnw in E1 by done. done.
  - intros Hq'. specialize (Hq' t Hin). unfold s' in Hq'. simpl in Hq'. by rewrite fn_lookup_insert in Hq'.
Qed.

(** While a tile wakes the others, nobody else does. *)
Lemma amo_waker s w (t3 t4 t5 : Z) : amo_inv s -> w ∈ tiles -> a_pc s w = AWake t3 t4 t5 ->
  0 <= t4 < bsg_tiles_Y c /\ 0 <= t5 < bsg_tiles_X c /\ (t5, t4) ∈ tiles /\
  a_entered s w = a_round s /\ a_returned s w = a_round s - 1 /\ t3 = sg (a_round s) /\
  a_woken s (t5, t4) = a_round s - 1 /\
  forall t, t ∈ tiles -> t <> w -> waking (a_pc s t) = false.
Proof using Type.
  intros I Hin E. destruct (ai_wake s I w t3 t4 t5 Hin E) as (H4 & H5 & Hw).
  destruct (ai_tile s I w Hin) as (_ & _ & _ & Hok). rewrite E in Hok. simpl in Hok.
  assert ((t5, t4) ∈ tiles) as Hu by (apply elem_of_grid; lia).
  split_and!; try done; try lia.
  - rewrite Hw by done. unfold to_wake. simpl. rewrite Z.eqb_refl, Z.leb_refl. simpl.
    rewrite orb_true_r. done.
  - intros t Ht Hne. apply not_true_iff_false. intros Et. apply Hne.
    apply (ai_one s I); [done..|by rewrite E].
Qed.

(** The tile that is woken sleeps. *)
Lemma amo_woken_ok s w (t3 t4 t5 : Z) t : amo_inv s -> w ∈ tiles -> a_pc s w = AWake t3 t4 t5 ->
  t ∈ tiles -> t <> w -> amo_tile_ok (store_sense (t5, t4) t3 s) t.
Proof using Type.
  intros I Hin E Ht Hne. destruct (amo_waker s w t3 t4 t5 I Hin E) as (_ & _ & Hu & He & Hr & -> & Hd & Hnw).
  pose proof (ai_tile s I t Ht) as Hok. unfold amo_tile_ok in *.
  destruct (decide (t = (t5, t4))) as [->|Hne']; [|by aupd].
  pose proof (Hnw _ Ht Hne) as Hnwt. aupd. rewrite Hd in *. destruct Hok as (? & ? & Hs & Hok).
  pose proof (ai_tile s I w Hin) as (? & _).
  split_and!; [done..|right; f_equal; lia|].
  destruct (ai_joined s I _ Ht) as [Hj|Hj]; unfold amo_joined in Hj;
    destruct (a_pc s (t5, t4)); try done; simpl in *; try destruct (a_resv s (t5, t4)); lia.
Qed.

(** A store of the loop. *)
Lemma amo_wake_store s s' w (t3 t4 t5 : Z) :
  amo_inv s -> w ∈ tiles -> a_pc s w = AWake t3 t4 t5 ->
  let s1 := store_sense (t5, t4) t3 s in
  a_lock s' = a_lock s -> a_round s' = a_round s -> a_woken s' = a_woken s1 ->
  a_sense s' = a_sense s1 -> a_resv s' = a_resv s1 ->
  (forall t, t <> w -> a_pc s' t = a_pc s t /\ a_entered s' t = a_entered s t /\
     a_returned s' t = a_returned s t) ->
  a_entered s' w = a_entered s w ->
  (match a_pc s' w with
   | AWake t3' t4' t5' => t3' = t3 /\ a_returned s' w = a_returned s w /\ 0 <= t4' < bsg_tiles_Y c /\
       0 <= t5' < bsg_tiles_X c /\
       forall t, t ∈ tiles -> ind (to_wake t4 t5 t) = ind (bool_decide (t = (t5, t4))) + ind (to_wake t4' t5' t)
   | AIdle => a_returned s' w = a_returned s w + 1 /\
       forall t, t ∈ tiles -> ind (to_wake t4 t5 t) = ind (bool_decide (t = (t5, t4)))
   | _ => False
   end) ->
  amo_inv s'.
Proof using Type.
  intros I Hin E s1 El Er Ew Es Ev Hoth Ee Hpc.
  destruct (amo_waker s w t3 t4 t5 I Hin E) as (H4 & H5 & Hu & He & Hr & Ht3 & Hd & Hnw).
  destruct (ai_wake s I w t3 t4 t5 Hin E) as (_ & _ & Hwk).
  destruct (ai_tile s I w Hin) as (Hr0 & Hl & Hs & Hok). rewrite E in Hs, Hok. simpl in Hok.
  assert (forall t, amo_joined s' t = amo_joined s t) as Hj.
  { intros t. unfold amo_joined. destruct (decide (t = w)) as [->|Hne].
    - rewrite Ee, E. by destruct (a_pc s' w).
    - by destruct (Hoth t Hne) as (-> & -> & _). }
  assert (amo_count s' = amo_count s) as Hc by (apply sum_over_ext; intros t _; by rewrite Hj, Er).
  assert (forall t, a_woken s' t = a_woken s t + ind (bool_decide (t = (t5, t4)))) as Hw'.
  { intros t. rewrite Ew. unfold s1. simpl. case_bool_decide as Ht; simpl.
    - by rewrite Ht, fn_lookup_insert.
    - rewrite fn_lookup_insert_ne by done. lia. }
  assert (a_sense s' w = sg (a_woken s' w)) as Hsw.
  { rewrite Es, Ew. unfold s1. simpl. destruct (decide (w = (t5, t4))) as [->|Hne].
    - rewrite !fn_lookup_insert, Hd, Ht3. f_equal. lia.
    - rewrite !fn_lookup_insert_ne by done. by destruct Hs. }
  assert (forall t, t ∈ tiles -> t <> w -> waking (a_pc s' t) = false) as Hnw'
    by (intros t Ht Hne; destruct (Hoth t Hne) as (-> & _); by apply Hnw).
  split.
  - intros t Ht. rewrite Hj, Er. by apply ai_joined.
  - rewrite El, Er, Hc. by apply ai_lock.
  - rewrite Hc. by apply ai_room.
  - intros t Ht. destruct (decide (t = w)) as [->|Hne].
    + unfold amo_tile_ok. rewrite Er, Ee, Hsw, Hw', Hwk by done.
      destruct (a_pc s' w); try done; simpl; destruct Hpc as [Hp Hrest].
      * rewrite (Hrest w Ht). split_and!; (lia || by right).
      * destruct Hrest as (-> & _ & _ & _). split_and!; (done || lia || by right).
    + pose proof (amo_woken_ok s w t3 t4 t5 t I Hin E Ht Hne) as H. unfold amo_tile_ok in *.
      destruct (Hoth t Hne) as (-> & -> & ->). by rewrite Er, Ew, Es, Ev.
  - intros w' t3' t4' t5' Hin' Ew'. destruct (decide (w' = w)) as [->|Hne].
    + rewrite Ew' in Hpc. destruct Hpc as (_ & _ & ? & ? & Hrest). split_and!; [lia..|].
      intros t Ht. rewrite Er, Hw', Hwk, Hrest by done. lia.
    + specialize (Hnw' w' Hin' Hne). by rewrite Ew' in Hnw'.
  - intros w1 w2 Hw1 Hw2 E1 E2.
    destruct (decide (w1 = w)) as [->|N1]; [|by rewrite (Hnw' w1) in E1].
    destruct (decide (w2 = w)) as [->|N2]; [done|by rewrite (Hnw' w2) in E2].
  - intros Hq t Ht. specialize (Hq w Hin). rewrite Er, Hw', Hwk by done.
    destruct (a_pc s' w); try done. destruct Hpc as [_ Hrest]. rewrite Hrest by done. lia.
Qed.

Lemma amo_wake_step s w (t3 t4 t5 : Z) s' :
  amo_inv s -> w ∈ tiles -> a_pc s w = AWake t3 t4 t5 -> amo_step w s = Some s' -> amo_inv s'.
Proof using wf.
  intros I Hin E Es. pose proof wf as (HX & HY & _).
  destruct (amo_waker s w t3 t4 t5 I Hin E) as (H4 & H5 & Hu & _).
  unfold amo_step in Es. rewrite decide_True, E in Es by done.
  assert (forall (t4' t5' : Z), (t5 = 0 -> t4' = t4 - 1 /\ t5' = bsg_tiles_X c - 1) ->
    (0 < t5 -> t4' = t4 /\ t5' = t5 - 1) -> forall t, t ∈ tiles ->
    ind (to_wake t4 t5 t) = ind (bool_decide (t = (t5, t4))) + ind (to_wake t4' t5' t)) as Hnext.
  { intros t4' t5' Hz Hp [x y] [Hx Hy]%elem_of_grid. unfold to_wake. simpl.
    case_bool_decide as Ht; [injection Ht as -> ->|assert (x <> t5 \/ y <> t4)
      by (destruct (decide (x = t5)); [right; congruence|by left])];
    bcase; simpl; lia. }
  destruct (t5 - 1 >=? 0) eqn:E5; [|destruct (t4 - 1 >=? 0) eqn:E4]; injection Es as <-;
    (apply (amo_wake_store s _ w t3 t4 t5); try done; try (intros t Hne; by aupd)); aupd; [| |].
  - split_and!; try done; try lia. apply Hnext; lia.
  - split_and!; try done; try lia. apply Hnext; lia.
  - split; [done|]. intros [x y] Hxy. rewrite (Hnext (-1) (bsg_tiles_X c - 1)) by (done || lia).
    apply elem_of_grid in Hxy. unfold to_wake. simpl. bcase; simpl; lia.
Qed.

Lemma amo_inv_step s t s' : amo_inv s -> amo_step t s = Some s' -> amo_inv s'.
Proof using wf total_nonneg.
  intros I E. assert (t ∈ tiles) as Hin by (unfold amo_step in E; by case_decide).
  destruct (a_pc s t) as [| | |t0|t3 t4 t5|t3|t3] eqn:Ep;
    try (apply (amo_local_step s t); [done..|by rewrite Ep]).
  - unfold amo_step in E. rewrite decide_True, Ep in E by done. cbv zeta in E.
    destruct (amo_adding s t t0 I Hin Ep) as (_ & _ & _ & Ht0).
    rewrite Ht0, (amo_lock_full s I), <-Ht0 in E. simpl a_round in E. simpl a_lock in E.
    destruct (Z.eqb_spec (amo_count s) (N - 1)); injection E as <-.
    + by apply (amo_last_step s t t0).
    + by apply (amo_add_step s t t0).
  - by eapply amo_wake_step.
Qed.

Lemma amo_reachable_inv s : @reachable _ (Z * Z) amo_lts s -> amo_inv s.
Proof using wf total_nonneg.
  apply invariant_reachable; [apply amo_inv_init|intros; by eapply amo_inv_step].
Qed.

(** ** Termination *)

(** Every tile has returned from all its calls. *)
Definition amo_done s : Prop :=
  forall t, t ∈ tiles -> a_pc s t = AIdle /\ a_entered s t = total /\ a_returned s t = total.

(** The steps that a tile has left. *)
Definition amo_rank s t : Z :=
  match a_pc s t with
  | AStart => 1
  | AIdle => 0
  | ALoad => N + 5
  | AAmo _ => N + 4
  | AWake _ t4 t5 => t4 * bsg_tiles_X c + t5 + 1
  | ASleepLr _ => if a_woken s t =? a_entered s t then 1 else 3
  | ASleepAq _ => 2
  end.

Definition amo_tile_measure s t : Z := (total - a_entered s t) * (N + 6) + amo_rank s t.
Definition amo_measure s : Z := sum_over (amo_tile_measure s) tiles.

Lemma amo_measure_nonneg s : amo_inv s -> 0 <= amo_measure s.
Proof using wf.
  intros I. pose proof N_bounds. apply sum_over_nonneg. intros t Hin. unfold amo_tile_measure.
  destruct (ai_tile s I t Hin) as (_ & Hl & _).
  assert (0 <= amo_rank s t); [|nia].
  unfold amo_rank. destruct (a_pc s t) as [| | |t0|t3 t4 t5|t3|t3] eqn:E; try lia.
  - destruct (ai_wake s I t t3 t4 t5 Hin E) as (? & ? & _). nia.
  - destruct (_ =? _); lia.
Qed.

(** A step of [t] that makes its own measure smaller, and no other's larger. *)
Lemma amo_decreases s s' t :
  t ∈ tiles -> (forall t', t' ∈ tiles -> t' <> t -> amo_tile_measure s' t' <= amo_tile_measure s t') ->
  amo_tile_measure s' t < amo_tile_measure s t -> amo_measure s' < amo_measure s.
Proof using Type.
  intros Hin Hoth Hlt. apply (sum_over_lt _ _ _ t); [|done..].
  intros t' Hin'. destruct (decide (t' = t)) as [->|Hne]; [lia|by apply Hoth].
Qed.

(** What the step of one tile does to the measure of another. *)
Lemma amo_others_measure s t s' t' :
  amo_inv s -> amo_step t s = Some s' -> t' ∈ tiles -> t' <> t ->
  amo_tile_measure s' t' <= amo_tile_measure s t'.
Proof using Type.
  intros I E Hin' Hne. unfold amo_step in E. case_decide as Hin; [|done].
  destruct (a_pc s t) as [| | |t0|t3 t4 t5|t3|t3] eqn:Ep.
  5: { assert (amo_tile_measure (store_sense (t5, t4) t3 s) t' <= amo_tile_measure s t') as Hle.
    { destruct (amo_waker s t t3 t4 t5 I Hin Ep) as (_ & _ & Hu & _ & _ & _ & Hd & Hnw).
      unfold amo_tile_measure, amo_rank. simpl. destruct (decide (t' = (t5, t4))) as [->|Hne'];
        [|by rewrite fn_lookup_insert_ne].
      rewrite fn_lookup_insert. destruct (a_pc s (t5, t4)) eqn:Eu; try lia.
      destruct (ai_joined s I _ Hu) as [Hj|Hj]; unfold amo_joined in Hj; rewrite Eu in Hj; simpl in Hj;
        destruct (Z.eqb_spec (a_woken s (t5, t4)) (a_entered s (t5, t4)));
        destruct (Z.eqb_spec (a_woken s (t5, t4) + 1) (a_entered s (t5, t4))); lia. }
    revert Hle. unfold amo_tile_measure, amo_rank.
    destruct (t5 - 1 >=? 0); [|destruct (t4 - 1 >=? 0)]; injection E as <-; simpl;
      by rewrite (fn_lookup_insert_ne (a_pc s) t t'). }
  all: cbv zeta in E;
    repeat match type of E with (if ?b then _ else _) = _ => destruct b end; try done;
    injection E as <-; unfold amo_tile_measure, amo_rank; by aupd.
Qed.

Lemma amo_step_decreases s t s' :
  amo_inv s -> amo_step t s = Some s' -> amo_measure s' < amo_measure s.
Proof using wf.
  intros I E. pose proof N_bounds. pose proof wf as (HX & HY & _).
  assert (t ∈ tiles) as Hin by (unfold amo_step in E; by case_decide).
  apply (amo_decreases s s' t); [done|intros; by apply (amo_others_measure s t)|].
  destruct (ai_tile s I t Hin) as (Hr & Hl & Hs & Hok).
  unfold amo_step in E. rewrite decide_True in E by done. unfold amo_tile_measure, amo_rank.
  destruct (a_pc s t) as [| | |t0|t3 t4 t5|t3|t3] eqn:Ep; simpl in Hok.
  - injection E as <-. aupd. lia.
  - destruct (a_entered s t <? total); [|done]. injection E as <-. aupd. lia.
  - injection E as <-. aupd. lia.
  - cbv zeta in E. destruct (negb _); injection E as <-; aupd; [destruct (_ =? _)|]; nia.
  - destruct (ai_wake s I t t3 t4 t5 Hin Ep) as (? & ? & _).
    destruct (Z.geb_spec (t5 - 1) 0); [|destruct (Z.geb_spec (t4 - 1) 0)]; injection E as <-; aupd; nia.
  - destruct Hs as [Hs|Hs]; [done|]. destruct Hok as (He & -> & Hd). rewrite Hs in E.
    destruct (Z.eqb_spec (sg (a_entered s t)) (sg (a_woken s t))) as [Eq|Ne]; injection E as <-; aupd.
    + destruct (_ =? _); lia.
    + destruct (Z.eqb_spec (a_woken s t) (a_entered s t)) as [Ew|]; [by rewrite Ew in Ne|lia].
  - destruct Hs as [Hs|Hs]; [done|]. destruct Hok as (He & -> & Hd). destruct (a_resv s t); [done|].
    rewrite Hs, Hd, Z.eqb_refl in E. injection E as <-. aupd. rewrite Hd, Z.eqb_refl. lia.
Qed.

(** When no tile can move, all are done. *)
Lemma amo_stuck_done s :
  amo_inv s -> (forall t, t ∈ tiles -> amo_step t s = None) -> amo_done s.
Proof using wf.
  intros I Hstuck. pose proof N_bounds.
  assert (forall t, t ∈ tiles ->
    (a_pc s t = AIdle /\ a_entered s t = total /\ a_returned s t = total) \/
    (exists v, a_pc s t = ASleepAq v /\ a_woken s t = a_entered s t - 1)) as Hpc.
  { intros t Hin. specialize (Hstuck t Hin). destruct (ai_tile s I t Hin) as (_ & Hl & _ & Hok).
    unfold amo_step in Hstuck. rewrite decide_True in Hstuck by done.
    destruct (a_pc s t) as [| | |t0|t3 t4 t5|t3|t3] eqn:Ep; simpl in Hok; try done.
    - left. destruct (Z.ltb_spec (a_entered s t) total); [done|]. split_and!; (done || lia).
    - cbv zeta in Hstuck. by destruct (negb _).
    - destruct (t5 - 1 >=? 0); [done|]. by destruct (t4 - 1 >=? 0).
    - by destruct (_ =? _).
    - right. exists t3. destruct (a_resv s t); [split; [done|lia]|]. by destruct (_ =? _). }
  assert (forall t, t ∈ tiles -> a_woken s t = a_round s) as Hq.
  { apply (ai_quiet s I). intros w Hw. by destruct (Hpc w Hw) as [(-> & _)|(? & -> & _)]. }
  intros t Hin. destruct (Hpc t Hin) as [|(t3 & Ep & Hw)]; [done|exfalso].
  destruct (decide (Exists (fun t' => amo_joined s t' = a_round s) tiles)) as [Ex|Nx].
  - apply Exists_exists in Ex as (t' & Hin' & Hj). unfold amo_joined in Hj.
    destruct (ai_tile s I t Hin) as (_ & Hl & _). rewrite Hq in Hw by done.
    destruct (Hpc t' Hin') as [(Ep' & He & _)|(? & Ep' & Hw')]; rewrite Ep' in Hj; simpl in Hj; [lia|].
    rewrite Hq in Hw' by done. lia.
  - assert (amo_count s = 1 * Z.of_nat (length tiles)) as Hc.
    { rewrite <-sum_over_const. apply sum_over_ext. intros t' Hin'.
      destruct (ai_joined s I t' Hin') as [Hj|]; [|lia]. exfalso. apply Nx, Exists_exists. eauto. }
    rewrite amo_tiles_count in Hc. pose proof (ai_room s I). lia.
Qed.

(** A run is no longer than the measure. *)
Lemma amo_run_bound ts s s' :
  amo_inv s -> run (Tid := Z * Z) ts s = Some s' -> Z.of_nat (length ts) <= amo_measure s - amo_measure s'.
Proof using wf total_nonneg.
  revert s. induction ts as [|t ts IH]; intros s I E; simpl in E; [simplify_eq; simpl; lia|].
  destruct (amo_step t s) as [s1|] eqn:Es; [|done].
  pose proof (amo_step_decreases s t s1 I Es). pose proof (IH s1 (amo_inv_step s t s1 I Es) E). simpl. lia.
Qed.

Lemma amo_measure_init s : amo_init s -> amo_measure s <= N * (total * (N + 6) + 1).
Proof using wf.
  intros (_ & _ & Ht). rewrite <-amo_tiles_count at 1. rewrite (Z.mul_comm (Z.of_nat _)).
  rewrite <-sum_over_const. apply sum_over_le. intros t Hin. destruct (Ht t Hin) as (Hp & He & _).
  unfold amo_tile_measure, amo_rank. rewrite He. destruct Hp as [-> | [-> _]]; lia.
Qed.
End amoadd_barrier.

(** The wake-up loop's address is the pointer that the header's macro makes. *)
Lemma wake_addr_ptr x y a : 0 <= x < 64 -> 0 <= y < 32 -> 0 <= a < 2 ^ 18 ->
  wake_addr y x a = bsg_tile_group_remote_ptr x y a.
Proof.
  intros Hx Hy Ha. change (bsg_tile_group_remote_ptr x y a) with (bsg_remote_ptr x y a).
  rewrite bsg_remote_ptr_sum by (simpl; lia). unfold wake_addr. rewrite !Z.shiftl_mul_pow2 by lia.
  rewrite (u32_id (y * 2 ^ 24)), (u32_id (x * 2 ^ 18)) by (unfold is_u32; lia).
  rewrite (u32_id (0x20000000 + _)) by (unfold is_u32; lia).
  rewrite (u32_id (0x20000000 + _ + _)) by (unfold is_u32; lia).
  rewrite u32_id by (unfold is_u32; lia). lia.
Qed.

(** C3 (safety).  The barrier synchronises: whatever the interleaving, no tile returns from its
    k-th call before every tile of the group has entered its own k-th.  The addresses that the
    wake-up loop computes are the pointers of the header to the sense words of the tiles. *)
Theorem amo_barrier_synchronises c total s t t' :
  wf_config c -> 0 <= total -> @reachable _ _ (amo_lts c total) s ->
  t ∈ grid 0 (bsg_tiles_X c) 0 (bsg_tiles_Y c) -> t' ∈ grid 0 (bsg_tiles_X c) 0 (bsg_tiles_Y c) ->
  a_returned s t <= a_entered s t' /\
  forall a1, 0 <= a1 < 2 ^ 18 -> wake_addr t.2 t.1 a1 = bsg_tile_group_remote_ptr t.1 t.2 a1.
Proof.
  intros wf Ht Hs Hin Hin'. apply (amo_reachable_inv c total wf Ht) in Hs as I. split.
  - destruct (ai_tile c total s I t Hin) as (_ & _ & _ & Hok).
    pose proof (woken_bounds c total s t I Hin). pose proof (ai_joined c total s I t Hin) as Hj.
    assert (a_round s <= a_entered s t').
    { destruct (ai_joined c total s I t' Hin'); unfold amo_joined in *; destruct (a_pc s t'); simpl in *; lia. }
    unfold amo_joined in Hj. destruct (a_pc s t); simpl in *; try destruct (a_resv s t); lia.
  - intros a1 Ha. destruct wf as (HX & HY & _). destruct t as [x y]. apply elem_of_grid in Hin.
    apply wake_addr_ptr; simpl; lia.
Qed.

(** C4 (termination).  Every run of the barrier is finite, since a sleeping tile does not poll:
    no schedule is longer than the bound, and one that cannot be continued has brought every
    tile out of all its calls, so that no wake-up is lost. *)
Theorem amo_barrier_terminates c total s ts s' :
  wf_config c -> 0 <= total -> amo_init c s -> run (H := amo_lts c total) ts s = Some s' ->
  let N := bsg_tiles_X c * bsg_tiles_Y c in
  Z.of_nat (length ts) <= N * (total * (N + 6) + 1) /\
  ((forall t, t ∈ grid 0 (bsg_tiles_X c) 0 (bsg_tiles_Y c) -> amo_step c total t s' = None) ->
   amo_done c total s').
Proof.
  intros wf Ht Hs Hrun N.
  assert (amo_inv c total s') as I'.
  { apply (amo_reachable_inv c total wf Ht). apply (run_reachable ts s); [by constructor|done]. }
  split; [|by apply amo_stuck_done]. apply (amo_inv_init c total wf Ht) in Hs as I.
  pose proof (amo_run_bound c total wf Ht ts s s' I Hrun).
  pose proof (amo_measure_init c total wf s Hs). pose proof (amo_measure_nonneg c total wf s' I'). lia.
Qed.

(** A group of two tiles, one of which calls [bsg_barrier_tile_group_init]. *)
Definition config_2x1 : config := {|
  bsg_tiles_X := 2; bsg_tiles_Y := 1; bsg_global_X := 16; bsg_global_Y := 8; IO_X_INDEX := 16;
  IO_Y_INDEX := 1 |}.

Definition amo_example : amo_state :=
  Build_amo_state 0 (fun _ => 1) (fun _ => false) (fun t => if t.1 =? 0 then AIdle else AStart)
    (fun _ => 0) (fun _ => 0) (fun _ => 0) 0.

Lemma amo_example_init : amo_init config_2x1 amo_example.
Proof.
  split_and!; [done..|]. intros t _. unfold amo_example. simpl. destruct (t.1 =? 0); auto.
Qed.

(** The first tile adds and falls asleep, and is interrupted. *)
Definition amo_interrupted : list amo_event :=
  replicate 4 (AMove (0, 0)) ++ [AInterrupt (0, 0); AMove (0, 0)].

(** C5 (error).  With context switches the barrier does not synchronise: a tile whose
    reservation was cleared while nobody had woken it leaves the barrier although another tile
    has not entered it, because the branch after [lr.w.aq] goes back to sleep when the sense has
    changed and falls out of the barrier when it has not. *)
Theorem amo_barrier_interrupted :
  exists s, @reachable _ _ (interrupted_lts config_2x1 1) s /\
    a_returned s (0, 0) = 1 /\ a_entered s (1, 0) = 0.
Proof.
  assert (match run (H := interrupted_lts config_2x1 1) amo_interrupted amo_example with
    | Some s => a_returned s (0, 0) = 1 /\ a_entered s (1, 0) = 0
    | None => False end) as Hs by (vm_compute; split; reflexivity).
  destruct (run (H := interrupted_lts config_2x1 1) amo_interrupted amo_example) as [s|] eqn:E;
    [|destruct Hs].
  exists s. split; [|exact Hs]. eapply run_reachable; [|exact E]. constructor. apply amo_example_init.
Qed.

(** Two calls of each tile: the second tile is last in the first round, the first in the
    second. *)
Definition amo_schedule : list (Z * Z) :=
  replicate 4 (0, 0) ++ replicate 6 (1, 0) ++ replicate 2 (0, 0) ++ replicate 4 (1, 0) ++
  replicate 5 (0, 0) ++ replicate 2 (1, 0).

Lemma amo_barrier_synchronises_witness :
  let s := run_skip (H := amo_lts config_2x1 2) (take 12 amo_schedule) amo_example in
  a_returned s (0, 0) = 1 /\ a_returned s (0, 0) <= a_entered s (1, 0).
Proof.
  split; [reflexivity|].
  apply (amo_barrier_synchronises config_2x1 2
    (run_skip (H := amo_lts config_2x1 2) (take 12 amo_schedule) amo_example) (0, 0) (1, 0));
    [unfold wf_config; simpl; lia|lia
    |apply run_skip_reachable; constructor; apply amo_example_init
    |apply elem_of_grid; simpl; lia|apply elem_of_grid; simpl; lia].
Defined.

Lemma amo_barrier_terminates_witness :
  exists s', run (H := amo_lts config_2x1 2) amo_schedule amo_example = Some s' /\
    Z.of_nat (length amo_schedule) <= 34 /\ amo_done config_2x1 2 s'.
Proof.
  assert (match run (H := amo_lts config_2x1 2) amo_schedule amo_example with
    | Some s' => amo_step config_2x1 2 (0, 0) s' = None /\ amo_step config_2x1 2 (1, 0) s' = None
    | None => False end) as Hstuck by (vm_compute; split; reflexivity).
  destruct (run (H := amo_lts config_2x1 2) amo_schedule amo_example) as [s'|] eqn:E; [|destruct Hstuck].
  exists s'. split; [reflexivity|].
  destruct (amo_barrier_terminates config_2x1 2 amo_example amo_schedule s') as [Hle Hdone];
    [unfold wf_config; simpl; lia|lia|apply amo_example_init|exact E|].
  split; [exact Hle|]. apply Hdone. intros [x y] [Hx Hy]%elem_of_grid. simpl in Hx, Hy.
  assert (x = 0 \/ x = 1) as [-> | ->] by lia; (assert (y = 0) as -> by lia); apply Hstuck.
Defined.
