(* ===== verification/ChainedCore.v ===== *)
(** * The chained producers and consumers of [bsg_chained_core]

    Tile [id] sends a vector of [BUF_LEN] tagged words to tile [id + 1], which tags it and passes
    it on; every link has two buffers used in turn, a word [valid_num[j]] that names the round a
    buffer was filled in, and a word [ready_num[j]] that names the round it may be filled in.
    [chain_step] makes the next memory access of one tile: the spinning of [spin_cond]
    ([lr], [lr.aq] as in [Barrier]), every load and store of the vector, the two notifications,
    the packets of the last tile.

    A link is described by two counts, both functions of the two tiles' own program points: the
    rounds the producer has declared valid ([V]) and the rounds the consumer has granted ([A]).
    [V <= A <= V + 2] gives that no buffer is overwritten before it is consumed, and that no
    value either tile spins for is missed.

    The tiles are named by their id; [next_id] and [prev_id] are what the coordinates the code
    computes decode to.  [spin_uncond] delays only, and is left out. *)

From S2P Require Import Prelude Lts Arch Console.
Local Open Scope Z_scope.

Definition MAX_ROUND_NUM : Z := 16.
Definition BUF_LEN : Z := 16.

(** [chained_tag_s], and the word it shares storage with ([tag_data_s]). *)
Record chained_tag := { value : Z; rounds : Z; cores : Z }.

Definition tag_data (t : chained_tag) : Z := value t + 2 ^ 8 * rounds t + 2 ^ 16 * cores t.

Definition zero_tag : chained_tag := {| value := 0; rounds := 0; cores := 0 |}.

Inductive config_enum : Type := eALL_ZERO_FUNCS | eALL_PASS_FUNCS | eONE_COPY_FUNCS | eALL_TAG_PASS_FUNCS.

Inductive proc_func : Type := pass_proc | tag_pass_proc | copy_proc.

(** [init_func_array] on the zeroed [func_array]. *)
Definition init_func_array (bsg_num_tiles : Z) (config : config_enum) (id : Z) : option proc_func :=
  match config with
  | eALL_PASS_FUNCS => if id <? bsg_num_tiles - 1 then Some pass_proc else None
  | eALL_TAG_PASS_FUNCS => if id <? bsg_num_tiles - 1 then Some tag_pass_proc else None
  | eONE_COPY_FUNCS =>
      if id =? 1 then Some copy_proc
      else if id <? bsg_num_tiles - 1 then Some pass_proc else None
  | eALL_ZERO_FUNCS => None
  end.

(** What a process does to an element between its load and its store. *)
Definition process (f : proc_func) (rnd id : Z) (t : chained_tag) : chained_tag :=
  match f with
  | tag_pass_proc => {| value := value t; rounds := u8 rnd; cores := u16 (cores t + id) |}
  | pass_proc | copy_proc => t
  end.

(** Where a tile is: the next access it makes. *)
Inductive chain_pc : Type :=
| CInit (j i : Z)                         (* main: buffer[j][i].tag.value = i *)
| CRoundInit                              (* proc: round_num++ *)
| CReady (j : Z)                          (* ... ready_num + j of the previous tile *)
| CWaitValid (aq : bool)                  (* spin_cond on valid_num + j *)
| CWaitReady (aq : bool)                  (* spin_cond on ready_num + j *)
| CCopy (i : Z)                           (* copy_proc: local_buffer[i] = local_ptr[i] *)
| CLoad0 (i : Z)                          (* tmp0 = local_ptr[i] *)
| CLoad1 (i : Z) (tmp0 : chained_tag)     (* tmp1 = local_ptr[i+1], and the tagging *)
| CStore0 (i : Z) (tmp0 tmp1 : chained_tag)
| CStore1 (i : Z) (tmp1 : chained_tag)
| CNotify                                 (* valid_num + j of the next tile *)
| CPrint (i : Z)                          (* print_buff: pData[i].data *)
| CSend (i data : Z)                      (* ... and its packet *)
| CRound                                  (* round_num++ *)
| CBack                                   (* ready_num + j of the previous tile *)
| CFinish                                 (* main: bsg_finish *)
| CEnd.                                   (* bsg_wait_while(1) *)

(** A word another tile writes, and this tile spins on. *)
Inductive sync_word : Type := OnValid (j : Z) | OnReady (j : Z).

#[export] Instance chained_tag_eq_dec : EqDecision chained_tag.
Proof. solve_decision. Defined.

#[export] Instance chain_pc_eq_dec : EqDecision chain_pc.
Proof. solve_decision. Defined.

#[export] Instance sync_word_eq_dec : EqDecision sync_word.
Proof. solve_decision. Defined.

Record chain_local := { at_pc : chain_pc; round_num : Z; buf_j : Z }.

Record chain_state := {
  locals : Z -> chain_local;
  valid_num : Z -> Z -> Z;                (* tile, j *)
  ready_num : Z -> Z -> Z;
  buffer : Z -> Z -> Z -> chained_tag;    (* tile, j, i *)
  local_buffer : Z -> Z -> chained_tag;
  chain_resv : Z -> option sync_word;
  console : list packet;
}.

Definition set_local (id : Z) (l : chain_local) (s : chain_state) : chain_state :=
  {| locals := <[id := l]> (locals s); valid_num := valid_num s; ready_num := ready_num s;
     buffer := buffer s; local_buffer := local_buffer s; chain_resv := chain_resv s;
     console := console s |}.

(** Local tile [id] goes on at [pc], its variables unchanged. *)
Definition chain_goto (id : Z) (pc : chain_pc) (s : chain_state) : chain_state :=
  set_local id {| at_pc := pc; round_num := round_num (locals s id); buf_j := buf_j (locals s id) |} s.

Definition chain_reserve (id : Z) (w : sync_word) (s : chain_state) : chain_state :=
  {| locals := locals s; valid_num := valid_num s; ready_num := ready_num s; buffer := buffer s;
     local_buffer := local_buffer s; chain_resv := <[id := Some w]> (chain_resv s);
     console := console s |}.

(** A store clears the reservation of its tile when that is on the stored word. *)
Definition stored_word (id : Z) (w : sync_word) (s : chain_state) : Z -> option sync_word :=
  if decide (chain_resv s id = Some w) then <[id := None]> (chain_resv s) else chain_resv s.

Definition store_valid (id j v : Z) (s : chain_state) : chain_state :=
  {| locals := locals s; valid_num := <[id := <[j := v]> (valid_num s id)]> (valid_num s);
     ready_num := ready_num s; buffer := buffer s; local_buffer := local_buffer s;
     chain_resv := stored_word id (OnValid j) s; console := console s |}.

Definition store_ready (id j v : Z) (s : chain_state) : chain_state :=
  {| locals := locals s; valid_num := valid_num s;
     ready_num := <[id := <[j := v]> (ready_num s id)]> (ready_num s);
     buffer := buffer s; local_buffer := local_buffer s;
     chain_resv := stored_word id (OnReady j) s; console := console s |}.

Definition store_buffer (id j i : Z) (t : chained_tag) (s : chain_state) : chain_state :=
  {| locals := locals s; valid_num := valid_num s; ready_num := ready_num s;
     buffer := <[id := <[j := <[i := t]> (buffer s id j)]> (buffer s id)]> (buffer s);
     local_buffer := local_buffer s; chain_resv := chain_resv s; console := console s |}.

Definition store_local_buffer (id i : Z) (t : chained_tag) (s : chain_state) : chain_state :=
  {| locals := locals s; valid_num := valid_num s; ready_num := ready_num s; buffer := buffer s;
     local_buffer := <[id := <[i := t]> (local_buffer s id)]> (local_buffer s);
     chain_resv := chain_resv s; console := console s |}.

Definition emit (p : packet) (s : chain_state) : chain_state :=
  {| locals := locals s; valid_num := valid_num s; ready_num := ready_num s; buffer := buffer s;
     local_buffer := local_buffer s; chain_resv := chain_resv s; console := console s ++ [p] |}.

(** One access of [spin_cond(ptr, cond)], where [v] is the value of the word [w]. *)
Definition spin_cond (id : Z) (w : sync_word) (v cond : Z) (aq : bool) (at_ : bool -> chain_pc)
    (exit : chain_pc) (s : chain_state) : option chain_state :=
  if aq then
    match chain_resv s id with
    | Some _ => None
    | None => Some (chain_goto id (if v =? cond then exit else at_ false) s)
    end
  else Some (chain_goto id (if v =? cond then exit else at_ true) (chain_reserve id w s)).

Section chain.
Variable c : config.
Variable func : config_enum.
Variable buffer_addr : Z.        (* where [buffer] is in the local memory *)
Implicit Types (s : chain_state) (id : Z).

#[local] Abbreviation nt := (bsg_num_tiles c).

(** The tiles at the coordinates [(next_x, next_y)] and [(prev_x, prev_y)]. *)
Definition next_id id : Z :=
  bsg_x_y_to_id c (bsg_id_to_x c (id + 1)) (bsg_id_to_y c (id + 1)).
Definition prev_id id : Z :=
  bsg_x_y_to_id c (bsg_id_to_x c (id - 1)) (bsg_id_to_y c (id - 1)).

Definition func_array id : option proc_func := init_func_array nt func id.

(** The first access of the body of the loop of [proc], in round [rnd] ... *)
Definition after_valid id (rnd : Z) : chain_pc :=
  if negb (id =? nt - 1) then CWaitReady false
  else if rnd =? MAX_ROUND_NUM - 1 then CPrint 0 else CRound.

Definition loop_body id (rnd : Z) : chain_pc :=
  if negb (id =? 0) then CWaitValid false else after_valid id rnd.

(** ... and what follows the wait for the next tile's buffer. *)
Definition call_func id : chain_pc :=
  match func_array id with
  | None => CNotify
  | Some copy_proc => CCopy 0
  | Some _ => CLoad0 0
  end.

(** One access of [pass_proc], [tag_pass_proc] or [copy_proc]; [BUF_LEN] is even, so that the
    tail of an odd vector is not reached. *)
Definition func_step (f : proc_func) id (pc : chain_pc) s : option chain_state :=
  let j := buf_j (locals s id) in
  let rnd := round_num (locals s id) in
  match pc with
  | CCopy i =>
      if i <? BUF_LEN then
        Some (chain_goto id (CCopy (i + 1)) (store_local_buffer id i (buffer s id j i) s))
      else Some (chain_goto id (CLoad0 0) s)
  | CLoad0 i =>
      if i <? BUF_LEN then Some (chain_goto id (CLoad1 i (buffer s id j i)) s)
      else Some (chain_goto id CNotify s)
  | CLoad1 i tmp0 =>
      Some (chain_goto id
              (CStore0 i (process f rnd id tmp0) (process f rnd id (buffer s id j (i + 1)))) s)
  | CStore0 i tmp0 tmp1 =>
      Some (chain_goto id (CStore1 i tmp1) (store_buffer (next_id id) j i tmp0 s))
  | CStore1 i tmp1 =>
      Some (chain_goto id (CLoad0 (i + 2)) (store_buffer (next_id id) j (i + 1) tmp1 s))
  | _ => None
  end.

(** [round_num++] and the tests after it: leave the loops, or release the buffer. *)
Definition end_round id s : chain_state :=
  let l := locals s id in
  let rnd := (round_num l +i 1)%c in
  let j := if buf_j l + 1 <? 2 then buf_j l + 1 else 0 in
  if rnd >? MAX_ROUND_NUM then
    set_local id
      {| at_pc := if id =? nt - 1 then CFinish else CEnd; round_num := rnd; buf_j := buf_j l |} s
  else if negb (id =? 0) then
    set_local id {| at_pc := CBack; round_num := rnd; buf_j := buf_j l |} s
  else set_local id {| at_pc := loop_body id rnd; round_num := rnd; buf_j := j |} s.

(** One access of [proc]. *)
Definition proc_step id (pc : chain_pc) s : option chain_state :=
  let l := locals s id in
  let j := buf_j l in
  let rnd := round_num l in
  match pc with
  | CRoundInit =>
      let rnd := (rnd +i 1)%c in
      if negb (id =? 0) then
        Some (set_local id {| at_pc := CReady 0; round_num := rnd; buf_j := j |} s)
      else Some (set_local id {| at_pc := loop_body id rnd; round_num := rnd; buf_j := 0 |} s)
  | CReady k =>
      if k =? 0 then Some (chain_goto id (CReady 1) (store_ready (prev_id id) 0 rnd s))
      else
        Some (set_local id {| at_pc := loop_body id rnd; round_num := rnd; buf_j := 0 |}
                (store_ready (prev_id id) 1 (rnd +i 1)%c s))
  | CWaitValid aq =>
      spin_cond id (OnValid j) (valid_num s id j) rnd aq CWaitValid (after_valid id rnd) s
  | CWaitReady aq =>
      spin_cond id (OnReady j) (ready_num s id j) rnd aq CWaitReady (call_func id) s
  | CNotify => Some (chain_goto id CRound (store_valid (next_id id) j rnd s))
  | CPrint i =>
      if i <? BUF_LEN then Some (chain_goto id (CSend i (tag_data (buffer s id j i))) s)
      else Some (chain_goto id CRound s)
  | CSend i data =>
      Some (chain_goto id (CPrint (i + 1))
              (emit (IoStore (buffer_addr + 4 * (BUF_LEN * j + i)) data) s))
  | CRound => Some (end_round id s)
  | CBack =>
      Some (set_local id
              {| at_pc := loop_body id rnd; round_num := rnd;
                 buf_j := if j + 1 <? 2 then j + 1 else 0 |}
              (store_ready (prev_id id) j (rnd +i 1)%c s))
  | pc => match func_array id with Some f => func_step f id pc s | None => None end
  end.

(** [main], after [bsg_set_tile_x_y]. *)
Definition main_start id : chain_pc := if id =? 0 then CInit 0 0 else CRoundInit.

Definition chain_step id s : option chain_state :=
  if decide (0 <= id < nt) then
    match at_pc (locals s id) with
    | CInit j i =>
        if i <? BUF_LEN then
          Some (chain_goto id (if j =? 0 then CInit 1 i else CInit 0 (i + 1))
                  (store_buffer id j i
                     {| value := u8 i; rounds := rounds (buffer s id j i);
                        cores := cores (buffer s id j i) |} s))
        else Some (chain_goto id CRoundInit s)
    | CFinish => Some (chain_goto id CEnd (emit Finished s))
    | CEnd => None
    | pc => proc_step id pc s
    end
  else None.

Definition chain_init s : Prop :=
  (forall id, 0 <= id < nt -> locals s id = {| at_pc := main_start id; round_num := 0; buf_j := 0 |}) /\
  (forall id j, valid_num s id j = 0) /\ (forall id j, ready_num s id j = 0) /\
  (forall id j i, buffer s id j i = zero_tag) /\ console s = [].

#[local] Instance chain_lts : Lts chain_state Z := { lts_init := chain_init; lts_step := chain_step }.

(** ** What arrives *)

(** The element [i] of round [rnd] as tile [k] receives it. *)
Fixpoint arrives (k : nat) (rnd i : Z) : chained_tag :=
  match k with
  | O => {| value := i; rounds := 0; cores := 0 |}
  | S k =>
      match func_array (Z.of_nat k) with
      | None => zero_tag
      | Some f => process f rnd (Z.of_nat k) (arrives k rnd i)
      end
  end.

Definition element id (rnd i : Z) : chained_tag := arrives (Z.to_nat id) rnd i.

Lemma element_next id rnd i : 0 <= id ->
  element (id + 1) rnd i =
  match func_array id with None => zero_tag | Some f => process f rnd id (element id rnd i) end.
Proof.
  intros Hid. unfold element. rewrite Z.add_1_r, Z2Nat.inj_succ by done. simpl.
  by rewrite Z2Nat.id.
Qed.

(** ** The two counts of a link *)

(** The rounds a tile has declared valid to the next one ... *)
Definition validated (l : chain_local) : Z :=
  match at_pc l with
  | CInit _ _ | CRoundInit => 0
  | CRound => round_num l
  | _ => round_num l - 1
  end.

(** ... and those it has granted to the previous one. *)
Definition granted (l : chain_local) : Z :=
  match at_pc l with
  | CInit _ _ | CRoundInit => 0
  | CReady k => k
  | CBack | CEnd | CFinish => round_num l
  | _ => round_num l + 1
  end.

(** The last round up to [v] that uses buffer [j]: what the words of a link hold. *)
Definition last_of (j v : Z) : Z :=
  if v <=? 0 then 0 else if (v - 1) mod 2 =? j then v else v - 1.

Lemma last_of_next j r : 0 <= j < 2 -> 1 <= r ->
  last_of j r = if decide ((r - 1) mod 2 = j) then r else last_of j (r - 1).
Proof.
  intros Hj Hr. unfold last_of. bcase; case_decide; try lia; Z.to_euclidean_division_equations; lia.
Qed.

Lemma last_of_reached r v : 1 <= r -> r - 1 <= v <= r + 1 ->
  (last_of ((r - 1) mod 2) v =? r) = (r <=? v).
Proof.
  intros Hr Hv. unfold last_of.
  destruct (Z.leb_spec v 0), (Z.eqb_spec ((v - 1) mod 2) ((r - 1) mod 2)), (Z.leb_spec r v);
    first [apply Z.eqb_eq|apply Z.eqb_neq]; Z.to_euclidean_division_equations; lia.
Qed.

(** Past the wait for the vector, and past the wait for the buffer. *)
Definition past_valid (pc : chain_pc) : bool :=
  match pc with
  | CWaitReady _ | CCopy _ | CLoad0 _ | CLoad1 _ _ | CStore0 _ _ _ | CStore1 _ _ | CNotify
  | CPrint _ | CSend _ _ | CRound => true
  | _ => false
  end.

Definition past_ready (pc : chain_pc) : bool :=
  match pc with
  | CCopy _ | CLoad0 _ | CLoad1 _ _ | CStore0 _ _ _ | CStore1 _ _ | CNotify => true
  | _ => false
  end.

(** The elements of the current round that have been stored. *)
Definition stored id (pc : chain_pc) : Z :=
  match pc with
  | CLoad0 i | CLoad1 i _ | CStore0 i _ _ => i
  | CStore1 i _ => i + 1
  | CNotify => match func_array id with Some _ => BUF_LEN | None => 0 end
  | _ => 0
  end.

Definition in_round (l : chain_local) : Prop :=
  1 <= round_num l <= 16 /\ buf_j l = (round_num l - 1) mod 2.

(** The tile's variables, and who may be where. *)
Definition local_ok id (l : chain_local) : Prop :=
  match at_pc l with
  | CInit j i => id = 0 /\ round_num l = 0 /\ (j = 0 /\ 0 <= i <= 16 \/ j = 1 /\ 0 <= i < 16)
  | CRoundInit => round_num l = 0
  | CReady k => id <> 0 /\ round_num l = 1 /\ (k = 0 \/ k = 1)
  | CWaitValid _ => id <> 0 /\ in_round l
  | CWaitReady _ | CNotify => id <> nt - 1 /\ in_round l
  | CCopy i => id <> nt - 1 /\ in_round l /\ 0 <= i <= 16 /\ func_array id <> None
  | CLoad0 i => id <> nt - 1 /\ in_round l /\ 0 <= i <= 16 /\ i mod 2 = 0 /\ func_array id <> None
  | CLoad1 i _ | CStore0 i _ _ | CStore1 i _ =>
      id <> nt - 1 /\ in_round l /\ 0 <= i < 16 /\ i mod 2 = 0 /\ func_array id <> None
  | CPrint i => id = nt - 1 /\ in_round l /\ round_num l = 15 /\ 0 <= i <= 16
  | CSend i _ => id = nt - 1 /\ in_round l /\ round_num l = 15 /\ 0 <= i < 16
  | CRound => in_round l
  | CBack => id <> 0 /\ 2 <= round_num l <= 16 /\ buf_j l = round_num l mod 2
  | CFinish => id = nt - 1 /\ round_num l = 17
  | CEnd => round_num l = 17
  end.

(** The registers of a tile hold what they should. *)
Definition regs_ok id (l : chain_local) : Prop :=
  match at_pc l with
  | CLoad1 i tmp0 => tmp0 = element id (round_num l) i
  | CStore0 i tmp0 tmp1 =>
      tmp0 = element (id + 1) (round_num l) i /\ tmp1 = element (id + 1) (round_num l) (i + 1)
  | CStore1 i tmp1 => tmp1 = element (id + 1) (round_num l) (i + 1)
  | CSend i data => data = tag_data (element id (round_num l) i)
  | _ => True
  end.

(** The link from tile [id], at [l], to the next tile, at [l']. *)
Record link_ok id (l l' : chain_local) (valid ready : Z -> Z) (buf : Z -> Z -> chained_tag) : Prop := {
  lk_valid : forall j, 0 <= j < 2 -> valid j = last_of j (validated l);
  lk_ready : forall j, 0 <= j < 2 -> ready j = last_of j (granted l');
  lk_grant : validated l <= granted l' /\ (past_ready (at_pc l) = true -> round_num l <= granted l');
  lk_round : round_num l' - 1 <= validated l /\
    (past_valid (at_pc l') = true -> round_num l' <= validated l);
  lk_data : forall r i, 1 <= r -> round_num l' <= r <= validated l -> 0 <= i < 16 ->
    buf ((r - 1) mod 2) i = element (id + 1) r i;
  lk_partial : forall i, 0 <= i < stored id (at_pc l) ->
    buf (buf_j l) i = element (id + 1) (round_num l) i;
  lk_zero : func_array id = None -> forall j i, buf j i = zero_tag;
}.

Definition link s id : Prop :=
  link_ok id (locals s id) (locals s (id + 1)) (valid_num s (id + 1)) (ready_num s id)
    (buffer s (id + 1)).

Lemma id_of_coordinates id : bsg_x_y_to_id c (bsg_id_to_x c id) (bsg_id_to_y c id) = id.
Proof.
  unfold bsg_x_y_to_id, bsg_id_to_x, bsg_id_to_y.
  destruct (decide (bsg_tiles_X c = 0)) as [->|H].
  - by destruct id.
  - pose proof (Z.quot_rem' id (bsg_tiles_X c)). lia.
Qed.

Lemma next_id_succ id : next_id id = id + 1.
Proof. apply id_of_coordinates. Qed.

Lemma prev_id_pred id : prev_id id = id - 1.
Proof. apply id_of_coordinates. Qed.

(** A reservation a tile sleeps on is on the word it waits for, which has another value. *)
Definition wake_ok s id : Prop := forall w, chain_resv s id = Some w ->
  (at_pc (locals s id) = CWaitValid true ->
     w = OnValid (buf_j (locals s id)) /\
     valid_num s id (buf_j (locals s id)) <> round_num (locals s id)) /\
  (at_pc (locals s id) = CWaitReady true ->
     w = OnReady (buf_j (locals s id)) /\
     ready_num s id (buf_j (locals s id)) <> round_num (locals s id)).

(** The elements of buffer [j] that tile 0 has initialised. *)
Definition inited (j : Z) (l : chain_local) : Z :=
  match at_pc l with
  | CInit k i => if j <? k then i + 1 else i
  | _ => BUF_LEN
  end.

(** The packets of the vector that the last tile has sent. *)
Definition printed (l : chain_local) : Z :=
  if round_num l <? 15 then 0
  else if 15 <? round_num l then BUF_LEN
  else match at_pc l with CPrint i | CSend i _ => i | CRound => BUF_LEN | _ => 0 end.

Definition is_end (pc : chain_pc) : bool := match pc with CEnd => true | _ => false end.

Definition vector_packet (i : Z) : packet :=
  IoStore (buffer_addr + 4 * i) (tag_data (element (nt - 1) 15 i)).

Definition console_of (l : chain_local) : list packet :=
  (vector_packet <$> seqZ 0 (printed l)) ++ if is_end (at_pc l) then [Finished] else [].

Record chain_inv s : Prop := {
  ci_local : forall id, 0 <= id < nt -> local_ok id (locals s id);
  ci_regs : forall id, 0 <= id < nt -> regs_ok id (locals s id);
  ci_link : forall id, 0 <= id -> id + 1 < nt -> link s id;
  ci_wake : forall id, 0 <= id < nt -> wake_ok s id;
  ci_first : forall j i, 0 <= j < 2 -> 0 <= i < 16 ->
    buffer s 0 j i = if i <? inited j (locals s 0) then element 0 0 i else zero_tag;
  ci_console : 0 < nt -> console s = console_of (locals s (nt - 1));
}.

Lemma local_ok_range id l : local_ok id l -> 0 <= round_num l <= 17.
Proof. unfold local_ok, in_round. destruct (at_pc l); lia. Qed.

Lemma round_succ id l : local_ok id l -> (round_num l +i 1)%c = round_num l + 1.
Proof. intros H%local_ok_range. apply i32_id. unfold is_i32. lia. Qed.

Lemma loop_body_ok id rnd j : 1 <= rnd <= 16 -> j = (rnd - 1) mod 2 ->
  local_ok id {| at_pc := loop_body id rnd; round_num := rnd; buf_j := j |}.
Proof.
  intros Hr Hj. unfold loop_body, after_valid, local_ok, in_round. cbn [at_pc round_num buf_j].
  destruct (Z.eqb_spec id 0), (Z.eqb_spec id (nt - 1)), (Z.eqb_spec rnd (MAX_ROUND_NUM - 1));
    simpl; unfold MAX_ROUND_NUM in *; lia.
Qed.

Lemma after_valid_ok id rnd j : 1 <= rnd <= 16 -> j = (rnd - 1) mod 2 ->
  local_ok id {| at_pc := after_valid id rnd; round_num := rnd; buf_j := j |}.
Proof.
  intros Hr Hj. unfold after_valid, local_ok, in_round. cbn [at_pc round_num buf_j].
  destruct (Z.eqb_spec id (nt - 1)), (Z.eqb_spec rnd (MAX_ROUND_NUM - 1));
    simpl; unfold MAX_ROUND_NUM in *; lia.
Qed.

Lemma call_func_ok id rnd j : id <> nt - 1 -> 1 <= rnd <= 16 -> j = (rnd - 1) mod 2 ->
  local_ok id {| at_pc := call_func id; round_num := rnd; buf_j := j |}.
Proof.
  intros Hid Hr Hj. unfold call_func, local_ok, in_round. cbn [at_pc round_num buf_j].
  destruct (func_array id) as [[]|]; split_and!; (lia || done).
Qed.

Ltac elia := first [lia|Z.to_euclidean_division_equations; lia].

(** The cases of a step of tile [t]; [L] says that its variables are in range. *)
Ltac chain_cases H L :=
  unfold chain_step, proc_step, func_step, end_round, spin_cond in H;
  rewrite ?(round_succ _ _ L), ?next_id_succ, ?prev_id_pred in H;
  match type of H with context [at_pc (locals ?s ?t)] =>
    let X := fresh "X" in
    let HX := fresh "HX" in
    pose proof L as HX;
    destruct (decide (0 <= t < nt)) as [Hid|]; [|done];
    destruct (at_pc (locals s t)) as [j i| |k|aq|aq|i|i|i tmp0|i tmp0 tmp1|i tmp1| |i|i data| | | |] eqn:Epc;
    unfold local_ok, in_round in HX; rewrite Epc in HX; revert HX;
    try (destruct (func_array t) as [f|] eqn:Ef; [|discriminate H]);
    repeat match type of H with
    | (if ?b then _ else _) = _ => destruct b eqn:?
    | Some (if ?b then _ else _) = _ => destruct b eqn:?
    | match ?o with Some _ => _ | None => _ end = _ => destruct o eqn:?
    end; try discriminate H; apply (inj Some) in H; subst; intros HX; unfold BUF_LEN, MAX_ROUND_NUM in *; bprop
  end.

(** The memory after a step, in the goal. *)
Ltac after_step :=
  cbn [locals valid_num ready_num buffer chain_resv console set_local chain_goto chain_reserve
       store_valid store_ready store_buffer store_local_buffer emit].

(** ... and the program point of the tile that moved. *)
Ltac own_step :=
  after_step; rewrite ?fn_lookup_insert;
  repeat match goal with |- context [if ?b then _ else _] => destruct b eqn:? end; bprop.

Lemma step_tile_range t s s' : chain_step t s = Some s' -> 0 <= t < nt.
Proof. unfold chain_step. by case_decide. Qed.

Lemma step_local t s s' : chain_inv s -> chain_step t s = Some s' -> local_ok t (locals s t).
Proof. intros I H. apply I. by eapply step_tile_range. Qed.

Lemma step_frame t s s' id : chain_inv s -> chain_step t s = Some s' -> id <> t ->
  locals s' id = locals s id.
Proof.
  intros I H Hne. pose proof (step_local _ _ _ I H) as L.
  chain_cases H L; after_step; by rewrite ?fn_lookup_insert_ne by congruence.
Qed.

Lemma local_ok_step t s s' : chain_inv s -> chain_step t s = Some s' ->
  forall id, 0 <= id < nt -> local_ok id (locals s' id).
Proof.
  intros I H id Hid'. pose proof (step_local _ _ _ I H) as L.
  destruct (decide (id = t)) as [->|Hne]; [|rewrite (step_frame _ _ _ _ I H Hne); by apply I].
  chain_cases H L; own_step;
    try (apply loop_body_ok || apply after_valid_ok || apply call_func_ok);
    try (unfold local_ok, in_round; cbn [at_pc round_num buf_j]);
    try elia.
  all: rewrite Ef; split_and!; try done; elia.
Qed.

(** What a tile that is past its wait reads is what has arrived. *)
Lemma source_ok s id i : chain_inv s -> 0 <= id < nt -> past_valid (at_pc (locals s id)) = true ->
  in_round (locals s id) -> 0 <= i < 16 ->
  buffer s id (buf_j (locals s id)) i = element id (round_num (locals s id)) i.
Proof.
  intros I Hid Hp [Hr ->] Hi. destruct (decide (id = 0)) as [->|Hne].
  - rewrite (ci_first _ I) by (try apply Z.mod_pos_bound; lia).
    unfold inited. destruct (at_pc (locals s 0)); try discriminate Hp;
      by rewrite (proj2 (Z.ltb_lt _ _)) by (unfold BUF_LEN; lia).
  - pose proof (ci_link _ I (id - 1)) as K. unfold link in K. rewrite Z.sub_add in K.
    destruct (lk_round _ _ _ _ _ _ (K ltac:(lia) ltac:(lia))) as [_ Hv]. specialize (Hv Hp).
    by rewrite (lk_data _ _ _ _ _ _ (K ltac:(lia) ltac:(lia))), Z.sub_add by lia.
Qed.

Lemma regs_ok_step t s s' : chain_inv s -> chain_step t s = Some s' ->
  forall id, 0 <= id < nt -> regs_ok id (locals s' id).
Proof.
  intros I H id Hid'. pose proof (step_local _ _ _ I H) as L.
  destruct (decide (id = t)) as [->|Hne]; [|rewrite (step_frame _ _ _ _ I H Hne); by apply I].
  pose proof (ci_regs _ I _ Hid') as R.
  chain_cases H L; own_step; unfold regs_ok in *; cbn [at_pc round_num]; rewrite Epc in R.
  all: try (unfold loop_body, after_valid, call_func; repeat case_match; done).
  all: pose proof (source_ok s t) as S; unfold in_round in S; rewrite Epc in S.
  all: specialize (fun k => S k I Hid eq_refl); rewrite ?S by elia; try done.
  all: try (rewrite !element_next, Ef by lia; by subst).
  all: by destruct R.
Qed.
(** Who writes what. *)
Lemma memory_frame t s s' id : chain_inv s -> chain_step t s = Some s' ->
  (id <> t + 1 -> valid_num s' id = valid_num s id) /\
  (id <> t - 1 -> ready_num s' id = ready_num s id) /\
  (id <> t + 1 -> id <> 0 \/ inited 1 (locals s t) = BUF_LEN -> buffer s' id = buffer s id).
Proof.
  intros I H. pose proof (step_local _ _ _ I H) as L.
  unfold inited. chain_cases H L; after_step; split_and!; intros;
    rewrite ?fn_lookup_insert_ne by (lia || (repeat case_match; bprop; unfold BUF_LEN in *; lia)); done.
Qed.

Lemma granted_range id l : local_ok id l -> 0 <= granted l <= round_num l + 1.
Proof. unfold local_ok, in_round, granted. destruct (at_pc l); lia. Qed.

Lemma validated_range id l : local_ok id l -> 0 <= validated l <= 16.
Proof. unfold local_ok, in_round, validated. destruct (at_pc l); lia. Qed.

(** How a link changes when one of its tiles moves. *)
Section link_changes.
Context {id : Z} {l l' : chain_local} {v r : Z -> Z} {b : Z -> Z -> chained_tag}.
Hypothesis K : link_ok id l l' v r b.
Hypothesis id_nonneg : 0 <= id.

Lemma link_producer_moves l2 : validated l2 = validated l ->
  (past_ready (at_pc l2) = true -> round_num l2 <= granted l') ->
  stored id (at_pc l2) <= Z.max 0 (stored id (at_pc l)) ->
  (0 < stored id (at_pc l2) -> round_num l2 = round_num l /\ buf_j l2 = buf_j l) ->
  link_ok id l2 l' v r b.
Proof using K. clear id_nonneg.
  intros HV Hp Hst Hsame. destruct K as [Kv Kr Kg Kn Kd Kp Kz]. split; rewrite ?HV; try done.
  - split; [apply Kg|done].
  - intros i Hi. destruct Hsame as [-> ->]; [lia|]. apply Kp. lia.
Qed.

Lemma link_store l2 i x : in_round l -> validated l = round_num l - 1 ->
  past_ready (at_pc l) = true -> granted l' <= round_num l' + 1 -> func_array id <> None ->
  x = element (id + 1) (round_num l) i ->
  validated l2 = validated l -> round_num l2 = round_num l -> buf_j l2 = buf_j l ->
  0 <= stored id (at_pc l) -> i = stored id (at_pc l) -> stored id (at_pc l2) = i + 1 ->
  link_ok id l2 l' v r (<[buf_j l := <[i := x]> (b (buf_j l))]> b).
Proof using K. clear id_nonneg.
  intros [Hr Hj] HV Hp Hg Hf Hx EV Er Ej Hst Hi Hst2. destruct K as [Kv Kr Kg Kn Kd Kp Kz].
  destruct Kg as [Kg1 Kg2]. specialize (Kg2 Hp).
  split; rewrite ?EV, ?Er, ?Ej; try done.
  - intros r' k H1 H2 Hk. rewrite fn_lookup_insert_ne; [by apply Kd|].
    rewrite Hj. replace r' with (round_num l - 1) by lia. Z.to_euclidean_division_equations. lia.
  - intros k Hk. rewrite fn_lookup_insert, insert_if. case_decide; [by subst|]. apply Kp. lia.
Qed.

Lemma link_notify l2 : in_round l -> at_pc l = CNotify -> 
  at_pc l2 = CRound -> round_num l2 = round_num l -> 
  link_ok id l2 l' (<[buf_j l := round_num l]> v) r b.
Proof using K id_nonneg.
  intros [Hr Hj] Hp Hp2 Er. destruct K as [Kv Kr Kg Kn Kd Kp Kz].
  destruct Kg as [Kg1 Kg2]. rewrite Hp in Kg2, Kp. specialize (Kg2 eq_refl).
  unfold validated in *. rewrite Hp in *. split; unfold validated; rewrite ?Hp2, ?Er; try done.
  - intros j Hj'. rewrite last_of_next, insert_if, <-Hj by lia. case_decide; [by subst|by apply Kv].
  - split; [lia|]. intros Hv. destruct Kn as [_ Kn]. specialize (Kn Hv). lia.
  - intros r' k H1 H2 Hk. destruct (decide (r' = round_num l)) as [->|Hne]; [|apply Kd; lia].
    rewrite <-Hj. simpl in Kp. destruct (func_array id) eqn:Ef; [apply Kp; unfold BUF_LEN; lia|].
    by rewrite Kz, element_next, Ef by done.
  - intros k Hk. simpl in Hk. lia.
Qed.

Lemma link_consumer_moves l2 : granted l2 = granted l' -> round_num l' <= round_num l2 ->
  round_num l2 - 1 <= validated l ->
  (past_valid (at_pc l2) = true -> round_num l2 <= validated l) ->
  link_ok id l l2 v r b.
Proof using K. clear id_nonneg.
  intros HG Hr Hr2 Hp. destruct K as [Kv Kr Kg Kn Kd Kp Kz]. split; rewrite ?HG; try done.
  intros r' i H1 H2 Hi. apply Kd; lia.
Qed.

Lemma link_grant l2 j g : granted l2 = granted l' + 1 -> 0 <= granted l' ->
  round_num l2 = round_num l' -> past_valid (at_pc l2) = false ->
  g = granted l2 -> j = (granted l2 - 1) mod 2 ->
  link_ok id l l2 v (<[j := g]> r) b.
Proof using K. clear id_nonneg.
  intros HG H0 Hr Hp -> ->. destruct K as [Kv Kr Kg Kn Kd Kp Kz]. split; try done.
  - intros j Hj. rewrite last_of_next, insert_if by lia. case_decide; [done|].
    rewrite Kr by done. f_equal. lia.
  - destruct Kg as [? Kg]. split; [lia|]. intros P. specialize (Kg P). lia.
  - rewrite Hr, Hp. split; [apply Kn|done].
  - intros r' i H1 H2 Hi. apply Kd; lia.
Qed.
End link_changes.

(** The two waits: what the words are compared with. *)
Lemma valid_seen id l l' v r b : link_ok id l l' v r b -> local_ok (id + 1) l' -> in_round l' ->
  granted l' = round_num l' + 1 -> v (buf_j l') = round_num l' <-> round_num l' <= validated l.
Proof.
  intros K L [Hr Hj] HG. destruct (lk_grant _ _ _ _ _ _ K). destruct (lk_round _ _ _ _ _ _ K).
  rewrite (lk_valid _ _ _ _ _ _ K), Hj, <-Z.eqb_eq, last_of_reached, Z.leb_le by elia. done.
Qed.

Lemma ready_seen id l l' v r b : link_ok id l l' v r b -> local_ok (id + 1) l' -> in_round l ->
  validated l = round_num l - 1 -> r (buf_j l) = round_num l <-> round_num l <= granted l'.
Proof.
  intros K L [Hr Hj] HV. destruct (lk_grant _ _ _ _ _ _ K). destruct (lk_round _ _ _ _ _ _ K).
  apply granted_range in L. rewrite (lk_ready _ _ _ _ _ _ K), Hj, <-Z.eqb_eq, last_of_reached, Z.leb_le by elia. done.
Qed.

Ltac producer_quiet K Epc :=
  apply (link_producer_moves K); cbn [at_pc round_num buf_j];
  unfold validated, stored, loop_body, after_valid, call_func; rewrite ?Epc;
  cbn [at_pc round_num buf_j]; repeat case_match; bprop; simpl in *; unfold BUF_LEN;
  try done; first [lia|congruence|simplify_eq; lia].

Lemma link_produce t s s' : chain_inv s -> chain_step t s = Some s' -> t + 1 < nt -> link s' t.
Proof.
  intros I H Ht. pose proof (step_local _ _ _ I H) as L. pose proof (step_tile_range _ _ _ H) as Hr.
  pose proof (ci_regs _ I _ Hr) as R.
  pose proof (ci_link _ I _ (proj1 Hr) Ht) as K.
  pose proof (ci_local _ I (t + 1) ltac:(lia)) as L'.
  pose proof (granted_range _ _ L') as G.
  destruct (memory_frame t s s' t I H) as (_ & Er & _).
  unfold link in *. rewrite Er, (step_frame t s s' (t + 1) I H) by lia. clear Er.
  destruct (lk_grant _ _ _ _ _ _ K) as [_ G2].
  pose proof (ready_seen _ _ _ _ _ _ K L') as W. 
  chain_cases H L; own_step; rewrite ?Epc in G2; rewrite ?fn_lookup_insert_ne by lia.
  all: try (producer_quiet K Epc).
  1,2: assert (round_num (locals s t) <= granted (locals s (t + 1)))
    by (apply W; [split; lia|unfold validated; by rewrite Epc|done]); producer_quiet K Epc.
  - unfold regs_ok in R. rewrite Epc in R. destruct R as [R _].
    apply (link_store K); unfold validated; rewrite ?Epc; cbn [at_pc round_num buf_j stored past_ready];
      try done; try lia; [split; lia|congruence].
  - unfold regs_ok in R. rewrite Epc in R.
    apply (link_store K); unfold validated; rewrite ?Epc; cbn [at_pc round_num buf_j stored past_ready];
      try done; try lia; [split; lia|congruence].
  - by apply (link_notify K); cbn [at_pc round_num]; [lia|split; lia|..].
Qed.

Ltac consumer_quiet K Epc :=
  apply (link_consumer_moves K); cbn [at_pc round_num buf_j];
  unfold granted, loop_body, after_valid, call_func; rewrite ?Epc;
  cbn [at_pc round_num buf_j]; repeat case_match; bprop; simpl in *;
  try done; first [lia|congruence].

Lemma link_consume t s s' : chain_inv s -> chain_step t s = Some s' -> 0 < t -> link s' (t - 1).
Proof.
  intros I H Ht. pose proof (step_local _ _ _ I H) as L. pose proof (step_tile_range _ _ _ H) as Hr.
  pose proof (ci_link _ I (t - 1) ltac:(lia) ltac:(lia)) as K.
  pose proof (validated_range _ _ (ci_local _ I (t - 1) ltac:(lia))) as G.
  pose proof (granted_range _ _ L) as G'.
  destruct (memory_frame t s s' t I H) as (Ev & _ & Eb).
  unfold link in *. rewrite Z.sub_add in *. rewrite Ev, Eb, (step_frame t s s' (t - 1) I H) by lia.
  clear Ev Eb. destruct (lk_round _ _ _ _ _ _ K) as [G1 G2].
  pose proof (valid_seen (t - 1) (locals s (t - 1)) (locals s t) (valid_num s t)
    (ready_num s (t - 1)) (buffer s t) K) as W. rewrite Z.sub_add in W. specialize (W L).
  chain_cases H L; own_step; rewrite ?Epc in G2.
  all: try (consumer_quiet K Epc).
  all: try (assert (round_num (locals s t) <= validated (locals s (t - 1)))
    by (apply W; [split; lia|unfold granted; by rewrite Epc|done]); consumer_quiet K Epc).
  all: apply (link_grant K); cbn [at_pc round_num buf_j]; unfold granted, loop_body, after_valid;
    rewrite ?Epc; cbn [at_pc round_num buf_j]; repeat case_match; bprop; simplify_eq;
    cbn [past_valid]; try done; elia.
Qed.

Lemma link_step t s s' : chain_inv s -> chain_step t s = Some s' ->
  forall id, 0 <= id -> id + 1 < nt -> link s' id.
Proof.
  intros I H id Hid Hid1. destruct (decide (id = t)) as [->|Hne]; [by eapply link_produce|].
  destruct (decide (id = t - 1)) as [->|Hne1]; [apply (link_consume t s s' I H); lia|].
  unfold link. destruct (memory_frame t s s' (id + 1) I H) as (-> & _ & ->); [|lia..].
  destruct (memory_frame t s s' id I H) as (_ & -> & _); [|lia].
  rewrite !(step_frame _ _ _ _ I H) by lia. by apply I.
Qed.

Lemma wake_step t s s' : chain_inv s -> chain_step t s = Some s' ->
  forall id, 0 <= id < nt -> wake_ok s' id.
Proof.
  intros I H id Hid' w. pose proof (step_local _ _ _ I H) as L.
  pose proof (ci_wake _ I _ Hid' w) as W.
  destruct (decide (id = t)) as [->|Hne].
  - clear W. chain_cases H L; own_step; intros Hw; cbn [at_pc round_num buf_j];
      unfold loop_body, after_valid, call_func; split; intros E;
      repeat case_match; try discriminate E; simplify_eq; try (rewrite fn_lookup_insert in Hw); simplify_eq; by split.
  - rewrite (step_frame _ _ _ _ I H Hne).
    chain_cases H L; after_step; try exact W; rewrite ?insert_if; unfold stored_word;
      repeat case_decide; subst; try done; rewrite ?insert_if; repeat case_decide; subst; try done;
      intros Hw; destruct (W Hw) as [W1 W2]; split; intros E;
      try (destruct (W1 E)); try (destruct (W2 E)); subst; split; congruence.
Qed.

Definition is_init (pc : chain_pc) : bool := match pc with CInit _ _ => true | _ => false end.

Lemma inited_all j l : is_init (at_pc l) = false -> inited j l = BUF_LEN.
Proof. unfold inited. by destruct (at_pc l). Qed.

Lemma init_over t s s' : chain_inv s -> chain_step t s = Some s' ->
  is_init (at_pc (locals s t)) = false -> is_init (at_pc (locals s' t)) = false.
Proof.
  intros I H. pose proof (step_local _ _ _ I H) as L.
  chain_cases H L; after_step; rewrite fn_lookup_insert; cbn [at_pc];
    unfold loop_body, after_valid, call_func;
    repeat match goal with
    | |- context [if ?b then _ else _] => destruct b
    | |- context [match ?o with Some _ => _ | None => _ end] => destruct o as [[]|]
    end; try done; rewrite Epc; done.
Qed.

Lemma first_step t s s' : chain_inv s -> chain_step t s = Some s' ->
  forall j i, 0 <= j < 2 -> 0 <= i < 16 ->
  buffer s' 0 j i = if i <? inited j (locals s' 0) then element 0 0 i else zero_tag.
Proof.
  intros I H b m Hb Hm. pose proof (step_local _ _ _ I H) as L.
  pose proof (step_tile_range _ _ _ H) as Hr. pose proof (ci_first _ I b m Hb Hm) as F.
  destruct (memory_frame _ _ _ 0 I H) as (_ & _ & EF).
  destruct (is_init (at_pc (locals s t))) eqn:Ei.
  - assert (forall j i, 0 <= j < 2 -> 0 <= i < 16 -> inited j (locals s 0) <= i ->
      buffer s 0 j i = zero_tag) as Z0.
    { intros j i Hj Hi Hle. rewrite (ci_first _ I) by done.
      by rewrite (proj2 (Z.ltb_ge _ _)) by done. }
    destruct (at_pc (locals s t)) as [j i| | | | | | | | | | | | | | | |] eqn:Epc; try discriminate Ei.
    unfold local_ok in L. rewrite Epc in L. destruct L as (-> & _ & Hji).
    unfold chain_step in H. rewrite decide_True, Epc in H by done. unfold BUF_LEN in H.
    unfold inited in *. rewrite Epc in *.
    assert (b = 0 \/ b = 1) as Eb by lia.
    assert (i < 16 \/ j = 0 /\ i = 16) as [Hi|[-> ->]] by lia.
    + rewrite (proj2 (Z.ltb_lt _ _) Hi) in H. apply (inj Some) in H as <-. after_step.
      rewrite !fn_lookup_insert, insert_if. cbn [at_pc].
      rewrite (Z0 j i), u8_id by (rewrite ?Z.ltb_irrefl; lia). cbn [rounds cores zero_tag].
      destruct Eb as [-> | ->]; destruct Hji as [[-> _]|[-> _]]; simpl in *; rewrite ?insert_if; repeat case_decide; subst;
        rewrite ?F; bcase; lia || done.
    + apply (inj Some) in H as <-. after_step. rewrite fn_lookup_insert. cbn [at_pc]. rewrite F.
      by destruct Eb as [-> | ->].
  - rewrite EF by (lia || by right; apply inited_all). rewrite F.
    destruct (decide (t = 0)) as [->|Hne]; [|by rewrite (step_frame _ _ _ _ I H) by done].
    rewrite !inited_all by (done || by eapply init_over). done.
Qed.

Lemma console_same l l2 : printed l2 = printed l -> is_end (at_pc l2) = is_end (at_pc l) ->
  console_of l = console_of l2.
Proof. unfold console_of. by intros -> ->. Qed.

Lemma printed_next i : 0 <= i -> vector_packet <$> seqZ 0 (i + 1) =
  (vector_packet <$> seqZ 0 i) ++ [vector_packet i].
Proof.
  intros Hi. replace (i + 1) with (Z.of_nat (S (Z.to_nat i))) by lia.
  by rewrite seqZ_S, fmap_app, Z2Nat.id by done.
Qed.

Lemma console_step t s s' : chain_inv s -> chain_step t s = Some s' ->
  console s' = console_of (locals s' (nt - 1)).
Proof.
  intros I H. pose proof (step_local _ _ _ I H) as L.
  pose proof (step_tile_range _ _ _ H) as Hr. pose proof (ci_console _ I ltac:(lia)) as C.
  pose proof (ci_regs _ I _ Hr) as R.
  destruct (decide (nt - 1 = t)) as [Et|Hne].
  - rewrite Et in *. chain_cases H L; own_step; cbn [at_pc round_num buf_j] in *; rewrite ?C.
    all: try (apply console_same; unfold printed, loop_body, after_valid, call_func, BUF_LEN, MAX_ROUND_NUM;
      rewrite ?Epc; cbn [at_pc round_num buf_j]; repeat case_match; bprop; simplify_eq; done || lia).
    + destruct HX as (_ & [_ Hj] & H15 & Hi). unfold regs_ok in R. rewrite Epc, H15 in R.
      rewrite H15 in Hj. unfold console_of, printed. cbn [at_pc round_num is_end].
      rewrite Epc, H15. cbn [Z.ltb Z.compare Pos.compare Pos.compare_cont is_end].
      rewrite printed_next, !app_nil_r by lia. unfold vector_packet. by rewrite Hj, R.
    + destruct HX as (_ & H17). unfold console_of, printed. rewrite Epc, H17. cbn [at_pc round_num is_end].
      by rewrite app_nil_r.
  - rewrite (step_frame _ _ _ _ I H Hne), <-C. chain_cases H L; after_step; try done; lia.
Qed.

Lemma chain_inv_step s t s' : chain_inv s -> chain_step t s = Some s' -> chain_inv s'.
Proof.
  intros I H. split.
  - by eapply local_ok_step.
  - by eapply regs_ok_step.
  - by eapply link_step.
  - by eapply wake_step.
  - by eapply first_step.
  - intros _. by eapply console_step.
Qed.

Lemma chain_inv_init s : 0 < nt -> chain_init s -> chain_inv s.
Proof.
  intros Hn (Hl & Hv & Hr & Hb & Hc). unfold main_start in Hl.
  split; intros; rewrite ?Hl by lia; unfold local_ok, regs_ok; cbn [at_pc round_num].
  - destruct (Z.eqb_spec id 0); lia.
  - by destruct (id =? 0).
  - unfold link. rewrite !Hl by lia. split; unfold validated, granted; cbn [at_pc round_num buf_j]; intros.
    all: rewrite ?Hv, ?Hr, ?Hb; destruct (Z.eqb_spec id 0), (Z.eqb_spec (id + 1) 0);
      try done; simpl in *; try lia; split; done || lia.
  - intros w _. rewrite Hl by done. cbn [at_pc]. by destruct (id =? 0).
  - rewrite Hb. unfold inited. simpl. by rewrite !(proj2 (Z.ltb_ge _ 0)) by lia.
  - rewrite Hc. unfold console_of, printed. simpl. by destruct (_ =? 0).
Qed.

Lemma chain_inv_reachable s : 0 < nt -> reachable s -> chain_inv s.
Proof.
  intros Hn. apply invariant_reachable; [intros s0; by apply chain_inv_init|].
  intros s0 t s1. apply chain_inv_step.
Qed.

(** ** What is delivered *)

(** The vector the last tile is left with in round [rnd], by configuration. *)
Definition delivered rnd (i : Z) : chained_tag :=
  if nt =? 1 then {| value := i; rounds := 0; cores := 0 |}
  else match func with
  | eALL_ZERO_FUNCS => zero_tag
  | eALL_PASS_FUNCS | eONE_COPY_FUNCS => {| value := i; rounds := 0; cores := 0 |}
  | eALL_TAG_PASS_FUNCS => {| value := i; rounds := rnd; cores := (((nt - 1) * (nt - 2)) / 2) mod 2 ^ 16 |}
  end.

Lemma cores_sum k : 0 <= k -> ((k + 1) * k) / 2 = (k * (k - 1)) / 2 + k.
Proof.
  intros Hk. replace ((k + 1) * k) with (k * (k - 1) + k * 2) by lia. by rewrite Z.div_add.
Qed.

Lemma func_array_some id : 0 <= id < nt - 1 -> func_array id =
  match func with
  | eALL_ZERO_FUNCS => None
  | eALL_PASS_FUNCS => Some pass_proc
  | eONE_COPY_FUNCS => if id =? 1 then Some copy_proc else Some pass_proc
  | eALL_TAG_PASS_FUNCS => Some tag_pass_proc
  end.
Proof. intros H. unfold func_array, init_func_array. by rewrite (proj2 (Z.ltb_lt _ _)) by lia. Qed.

Lemma element_tagged rnd i k : 0 <= rnd < 2 ^ 8 -> func = eALL_TAG_PASS_FUNCS ->
  0 <= k -> k + 1 <= nt - 1 ->
  element (k + 1) rnd i = {| value := i; rounds := rnd; cores := ((k + 1) * k / 2) mod 2 ^ 16 |}.
Proof.
  intros Hr Hf Hk. revert k Hk. apply (natlike_ind (fun k => k + 1 <= nt - 1 -> _)).
  - intros Hn. rewrite element_next, func_array_some, Hf by lia. unfold process. cbn [value rounds cores].
    by rewrite u8_id by done.
  - intros k Hk IH Hn. rewrite <-Z.add_1_r in *. rewrite element_next, func_array_some, Hf by lia.
    unfold process. rewrite IH by lia. cbn [value rounds cores]. rewrite u8_id by done.
    f_equal. unfold u16. rewrite (cores_sum (k + 1)), Z.add_simpl_r, Z.add_mod_idemp_l by lia.
    by do 3 f_equal.
Qed.

Lemma element_passed rnd i k : func = eALL_PASS_FUNCS \/ func = eONE_COPY_FUNCS ->
  0 <= k -> k <= nt - 1 -> element k rnd i = {| value := i; rounds := 0; cores := 0 |}.
Proof.
  intros Hf Hk. revert k Hk. apply (natlike_ind (fun k => k <= nt - 1 -> _)); [done|].
  intros k Hk IH Hn. rewrite <-Z.add_1_r in *. rewrite element_next, func_array_some by lia.
  unfold process. rewrite IH by lia. by destruct Hf as [->| ->]; [|destruct (k =? 1)].
Qed.

Lemma element_delivered rnd i : 0 < nt -> 0 <= rnd < 2 ^ 8 -> element (nt - 1) rnd i = delivered rnd i.
Proof.
  intros Hn Hr. unfold delivered. destruct (Z.eqb_spec nt 1) as [->|Hne]; [done|].
  destruct func eqn:Ef.
  - rewrite <-(Z.sub_add 1 (nt - 1)), element_next, func_array_some, Ef by lia. done.
  - apply element_passed; lia || by left.
  - apply element_passed; lia || by right.
  - rewrite <-(Z.sub_add 1 (nt - 1)), element_tagged by (done || lia). do 4 f_equal. lia.
Qed.

(** ** Progress *)

(** How far a tile has come. *)
Definition stage (pc : chain_pc) : Z :=
  match pc with
  | CInit j i => 2 * i + j
  | CRoundInit => 40
  | CReady k => k - 10
  | CBack => -5
  | CWaitValid _ => 0
  | CWaitReady _ => 1
  | CCopy i => 2 + i
  | CPrint i => 10 + 2 * i
  | CSend i _ => 11 + 2 * i
  | CLoad0 i => 100 + 4 * i
  | CLoad1 i _ => 101 + 4 * i
  | CStore0 i _ _ => 102 + 4 * i
  | CStore1 i _ => 103 + 4 * i
  | CNotify => 200
  | CRound => 300
  | CFinish => 10
  | CEnd => 20
  end.

Definition pos (l : chain_local) : Z := 1000 * round_num l + stage (at_pc l).

Definition chain_left s : Z := sum_over (fun id => 18000 - pos (locals s id)) (seqZ 0 nt).

Lemma pos_range id l : local_ok id l -> 0 <= pos l <= 18000.
Proof. unfold local_ok, in_round, pos, stage. destruct (at_pc l); lia. Qed.

(** A wait of tile [id] in state [s] for a value that is not there yet. *)
Definition waits s id : Prop :=
  match at_pc (locals s id) with
  | CWaitValid _ => valid_num s id (buf_j (locals s id)) <> round_num (locals s id)
  | CWaitReady _ => ready_num s id (buf_j (locals s id)) <> round_num (locals s id)
  | CEnd => True
  | _ => False
  end.

Lemma moves s id : chain_inv s -> 0 <= id < nt -> ~ waits s id ->
  exists s', chain_step id s = Some s' /\ pos (locals s id) < pos (locals s' id).
Proof.
  intros I Hid Hw. pose proof (ci_local _ I _ Hid) as L. pose proof (ci_wake _ I _ Hid) as W.
  unfold wake_ok, waits in *.
  unfold chain_step, proc_step, func_step, end_round, spin_cond.
  rewrite ?(round_succ _ _ L), ?next_id_succ, ?prev_id_pred, decide_True by done.
  unfold local_ok, in_round in L. unfold pos.
  destruct (at_pc (locals s id)) as [j i| |k|aq|aq|i|i|i tmp0|i tmp0 tmp1|i tmp1| |i|i data| | | |] eqn:Epc.

  all: repeat match goal with
    | |- context [chain_resv ?a ?b] => destruct (chain_resv a b) eqn:?
    | |- context [if ?b then _ else _] => destruct b eqn:?
    end; bprop.
  all: try (by exfalso; tauto).
  all: try (destruct (W _ eq_refl); exfalso; tauto).
  all: try (eexists; split; [reflexivity|]; own_step; unfold loop_body, after_valid, call_func; cbn [at_pc round_num];
     repeat case_match; bprop; simpl; unfold BUF_LEN, MAX_ROUND_NUM in *; lia).
  - destruct (func_array id) as [f|]; [|by destruct L as (_ & _ & _ & _ & ?)].
    eexists. split; [reflexivity|]. own_step. simpl. lia.
Qed.

(** Who is behind: by round, then by id. *)
Definition rank s id : Z :=
  (round_num (locals s id) + if is_end (at_pc (locals s id)) then 1 else 0) * nt + id.

Lemma rank_le s id id' : 0 <= id < nt -> 0 <= id' < nt -> rank s id <= rank s id' ->
  (round_num (locals s id) + if is_end (at_pc (locals s id)) then 1 else 0) <=
  (round_num (locals s id') + if is_end (at_pc (locals s id')) then 1 else 0) -
    if id' <? id then 1 else 0.
Proof.
  unfold rank. intros H H'.
  generalize (round_num (locals s id) + if is_end (at_pc (locals s id)) then 1 else 0).
  generalize (round_num (locals s id') + if is_end (at_pc (locals s id')) then 1 else 0).
  intros y x Hle. destruct (Z.ltb_spec id' id).
  - cut (x < y); [lia|]. apply (Z.mul_lt_mono_pos_r nt); lia.
  - cut (x < y + 1); [lia|]. apply (Z.mul_lt_mono_pos_r nt); lia.
Qed.

(** A tile that no other is behind does not wait. *)
Lemma least_waits s k : chain_inv s -> 0 <= k < nt ->
  (forall id, 0 <= id < nt -> rank s k <= rank s id) -> at_pc (locals s k) <> CEnd ->
  (k + 1 < nt -> at_pc (locals s (k + 1)) <> CReady 0) -> ~ waits s k.
Proof.
  intros I Hk Hmin Hne Hnext Hw. unfold waits in Hw.
  pose proof (ci_local _ I _ Hk) as L. unfold local_ok in L.
  destruct (at_pc (locals s k)) eqn:Epc; try done; destruct L as [Hid L].
  - pose proof (ci_link _ I (k - 1) ltac:(lia) ltac:(lia)) as K. unfold link in K. rewrite Z.sub_add in K.
    pose proof (ci_local _ I (k - 1) ltac:(lia)) as Lp. 
    pose proof (rank_le s k (k - 1) Hk ltac:(lia) (Hmin (k - 1) ltac:(lia))) as Hr. rewrite Epc in Hr.
    apply Hw, (valid_seen _ _ _ _ _ _ K); rewrite ?Z.sub_add; try done.
    + by apply I.
    + unfold granted. by rewrite Epc.
    + destruct L as [? _]. rewrite (proj2 (Z.ltb_lt _ _)) in Hr by lia.
      unfold local_ok, in_round in Lp. unfold validated.
      destruct (at_pc (locals s (k - 1))); simpl in Hr; lia.
  - assert (k + 1 < nt) as Hk1 by lia. specialize (Hnext Hk1).
    pose proof (ci_link _ I k ltac:(lia) Hk1) as K.
    pose proof (ci_local _ I (k + 1) ltac:(lia)) as Ln. 
    pose proof (rank_le s k (k + 1) Hk ltac:(lia) (Hmin (k + 1) ltac:(lia))) as Hr. rewrite Epc in Hr.
    apply Hw, (ready_seen _ _ _ _ _ _ K); try done.
    + unfold validated. by rewrite Epc.
    + destruct L as [? _]. rewrite (proj2 (Z.ltb_ge _ _)) in Hr by lia.
      unfold local_ok, in_round in Ln. unfold granted.
      destruct (at_pc (locals s (k + 1))) as [| |z| | | | | | | | | | | | | |]; simpl in Hr; try lia.
      destruct Ln as (_ & ? & [->| ->]); [done|lia].
Qed.

Lemma chain_some_moves s : 0 < nt -> chain_inv s ->
  (forall id, 0 <= id < nt -> at_pc (locals s id) = CEnd) \/
  exists id, 0 <= id < nt /\ ~ waits s id.
Proof.
  intros Hn I.
  destruct (least_member (rank s) (seqZ 0 nt) 0) as (k & Hk & Hmin); [apply elem_of_seqZ; lia|].
  apply elem_of_seqZ in Hk. setoid_rewrite elem_of_seqZ in Hmin.
  destruct (is_end (at_pc (locals s k))) eqn:Ek.
  - left. intros id Hid. pose proof (rank_le s k id ltac:(lia) Hid (Hmin id ltac:(lia))) as Hr.
    rewrite Ek in Hr. pose proof (ci_local _ I id Hid) as L. pose proof (ci_local _ I k ltac:(lia)) as Lk.
    unfold local_ok, in_round in *. destruct (at_pc (locals s k)); try done.
    destruct (at_pc (locals s id)); simpl in Hr; try done; destruct (id <? k); lia.
  - right. destruct (decide (k + 1 < nt /\ at_pc (locals s (k + 1)) = CReady 0)) as [[? E]|Hnext].
    { exists (k + 1). split; [lia|]. unfold waits. rewrite E. tauto. }
    exists k. split; [lia|]. apply least_waits; [done|lia|intros; apply Hmin; lia| |tauto].
    intros E. by rewrite E in Ek.
Qed.

Lemma chain_all_end s : 0 < nt -> chain_inv s ->
  can_reach (fun id => 0 <= id < nt) s (fun s' => forall id, 0 <= id < nt -> at_pc (locals s' id) = CEnd).
Proof.
  intros Hn. revert s. apply (can_reach_measure _ _ _ chain_left).
  - intros s I. apply sum_over_nonneg. intros id Hid%elem_of_seqZ.
    pose proof (pos_range _ _ (ci_local _ I id ltac:(lia))). lia.
  - intros s I. destruct (chain_some_moves s Hn I) as [?|(id & Hid & Hw)]; [by left|right].
    destruct (moves s id I Hid Hw) as (s' & E & Hpos). exists id, s'.
    split_and!; [lia|lia|done|by eapply chain_inv_step|].
    apply (sum_over_lt _ _ _ id); [|apply elem_of_seqZ; lia|lia].
    intros k Hk%elem_of_seqZ. destruct (decide (k = id)) as [->|Hne]; [lia|].
    rewrite (step_frame _ _ _ _ I E Hne). lia.
Qed.
(** ** Theorems *)

(** Every tile works on the vector that was sent for its round, and no buffer is
    written while it is read, in any interleaving: a tile that is past its wait for the vector
    finds all the elements of its own round in its buffer; a tile that is past its wait for the
    next tile's buffer is at most one round ahead of that tile, and while both are in their
    bodies they use different buffers. *)
Lemma chain_vectors_intact s id :
  0 < nt -> reachable s -> 0 <= id < nt ->
  let l := locals s id in let next := locals s (id + 1) in
  (past_valid (at_pc l) = true -> forall i, 0 <= i < BUF_LEN ->
     buffer s id (buf_j l) i = element id (round_num l) i) /\
  (id + 1 < nt -> past_ready (at_pc l) = true ->
     round_num l <= round_num next + 1 /\
     (past_valid (at_pc next) = true -> buf_j l <> buf_j next)).
Proof.
  intros Hn Hs Hid l next. pose proof (chain_inv_reachable _ Hn Hs) as I.
  pose proof (ci_local _ I _ Hid) as L. fold l in L.
  assert (past_valid (at_pc l) = true -> in_round l) as Hin
    by (unfold local_ok in L; destruct (at_pc l); done || tauto).
  split.
  - intros Hp i Hi. by apply source_ok; try apply Hin.
  - intros Hid1 Hp. pose proof (ci_link _ I id ltac:(lia) Hid1) as K. unfold link in K. fold l next in K.
    pose proof (ci_local _ I (id + 1) ltac:(lia)) as L'. fold next in L'.
    pose proof (granted_range _ _ L'). destruct (lk_grant _ _ _ _ _ _ K) as [_ Hg]. specialize (Hg Hp).
    split; [lia|]. intros Hp'. destruct (lk_round _ _ _ _ _ _ K) as [_ Hr]. specialize (Hr Hp').
    assert (in_round next) as [? ->] by (unfold local_ok in L'; destruct (at_pc next); done || tauto).
    assert (past_valid (at_pc l) = true) as Hpv by (destruct (at_pc l); done).
    destruct (Hin Hpv) as [? ->].
    assert (validated l = round_num l - 1) by (unfold validated; destruct (at_pc l); done).
    replace (round_num l) with (round_num next + 1) by lia.
    rewrite Z.add_simpl_r. Z.to_euclidean_division_equations. lia.
Qed.

(** What the last tile sends to the host. *)
Definition delivered_packet (i : Z) : packet :=
  IoStore (buffer_addr + 4 * i) (tag_data (delivered 15 i)).

Lemma console_reached s : 0 < nt -> chain_inv s ->
  console s = (delivered_packet <$> seqZ 0 (printed (locals s (nt - 1)))) ++
    if is_end (at_pc (locals s (nt - 1))) then [Finished] else [].
Proof.
  intros Hn I. rewrite (ci_console _ I Hn). unfold console_of. f_equal. apply list_fmap_ext.
  intros k i _. unfold vector_packet. by rewrite element_delivered by (done || lia).
Qed.

(** The host only ever receives a prefix of the sixteen elements, in order and each
    once, as all the processes of the chain make them: passed on unchanged, with the round and the
    sum of the ids of the tiles they passed, or left zero when no process is configured.  They are
    those of round 15, the last but one.  When the last tile is done the host has all of them
    and its finish packet. *)
Lemma chain_delivers s :
  0 < nt -> reachable s ->
  (exists k, 0 <= k <= BUF_LEN /\
     (console s = delivered_packet <$> seqZ 0 k \/
      console s = (delivered_packet <$> seqZ 0 BUF_LEN) ++ [Finished])) /\
  (at_pc (locals s (nt - 1)) = CEnd ->
     console s = (delivered_packet <$> seqZ 0 BUF_LEN) ++ [Finished]).
Proof.
  intros Hn Hs. pose proof (chain_inv_reachable _ Hn Hs) as I.
  pose proof (ci_local _ I (nt - 1) ltac:(lia)) as L. rewrite (console_reached s Hn I).
  assert (0 <= printed (locals s (nt - 1)) <= BUF_LEN /\
    (at_pc (locals s (nt - 1)) = CEnd -> printed (locals s (nt - 1)) = BUF_LEN)) as [Hp He].
  { unfold local_ok in L. unfold printed, BUF_LEN.
    destruct (Z.ltb_spec (round_num (locals s (nt - 1))) 15), (Z.ltb_spec 15 (round_num (locals s (nt - 1))));
      (split; [destruct (at_pc (locals s (nt - 1))); lia|intros E; rewrite E in *; lia]). }
  split; [|intros E; rewrite He, E by done; done].
  exists (printed (locals s (nt - 1))). split; [done|].
  destruct (at_pc (locals s (nt - 1))); cbn [is_end]; rewrite ?app_nil_r.
  all: try (by left).
  right. by rewrite He.
Qed.

(** The chain cannot deadlock and loses no wake-up: from every reachable state all
    tiles can come to the end of [main], and the host then has the whole vector. *)
Lemma chain_can_finish s :
  0 < nt -> reachable s ->
  can_reach (fun id => 0 <= id < nt) s (fun s' =>
    (forall id, 0 <= id < nt -> at_pc (locals s' id) = CEnd) /\
    console s' = (delivered_packet <$> seqZ 0 BUF_LEN) ++ [Finished]).
Proof.
  intros Hn Hs.
  eapply can_reach_weaken, (can_reach_reachable _ _ _ Hs (chain_all_end s Hn (chain_inv_reachable _ Hn Hs)));
    [done|]. intros s' [Hs' Hend]. split; [done|]. rewrite (console_reached s' Hn (chain_inv_reachable _ Hn Hs')).
  pose proof (ci_local _ (chain_inv_reachable _ Hn Hs') (nt - 1) ltac:(lia)) as L.
  unfold local_ok in L. rewrite Hend in * by lia. unfold printed. by rewrite L.
Qed.

(** C10 (safety).  The chain of processes, in any interleaving.  A tile that is past its wait for the
    vector finds all the elements of its own round in its buffer; one that is past its wait for the
    next tile's buffer is at most one round ahead of that tile, and while both are in their bodies
    they use different buffers.  The host only ever receives a prefix of the sixteen elements, in
    order and each once, as all the processes of the chain make them (those of round 15, the last but
    one), and all of them with the finish packet when the last tile is done.  The chain cannot
    deadlock and loses no wake-up. *)
Theorem chain_correct s :
  0 < nt -> reachable s ->
  (forall id, 0 <= id < nt ->
     let l := locals s id in let next := locals s (id + 1) in
     (past_valid (at_pc l) = true -> forall i, 0 <= i < BUF_LEN ->
        buffer s id (buf_j l) i = element id (round_num l) i) /\
     (id + 1 < nt -> past_ready (at_pc l) = true ->
        round_num l <= round_num next + 1 /\
        (past_valid (at_pc next) = true -> buf_j l <> buf_j next))) /\
  (exists k, 0 <= k <= BUF_LEN /\
     (console s = delivered_packet <$> seqZ 0 k \/
      console s = (delivered_packet <$> seqZ 0 BUF_LEN) ++ [Finished])) /\
  (at_pc (locals s (nt - 1)) = CEnd ->
     console s = (delivered_packet <$> seqZ 0 BUF_LEN) ++ [Finished]) /\
  can_reach (fun id => 0 <= id < nt) s (fun s' =>
    (forall id, 0 <= id < nt -> at_pc (locals s' id) = CEnd) /\
    console s' = (delivered_packet <$> seqZ 0 BUF_LEN) ++ [Finished]).
Proof.
  intros Hn Hs. split; [intros id Hid; by apply chain_vectors_intact|].
  destruct (chain_delivers s Hn Hs) as [H1 H2]. split_and!; [done|done|by apply chain_can_finish].
Qed.
End chain.

(** *** Witness: the four tiles of a 2x2 group *)

Definition chain_config : config :=
  {| bsg_tiles_X := 2; bsg_tiles_Y := 2; bsg_global_X := 16; bsg_global_Y := 8;
     IO_X_INDEX := 16; IO_Y_INDEX := 0 |}.

Definition chain_start : chain_state :=
  {| locals := fun id => {| at_pc := main_start id; round_num := 0; buf_j := 0 |};
     valid_num := fun _ _ => 0; ready_num := fun _ _ => 0; buffer := fun _ _ _ => zero_tag;
     local_buffer := fun _ _ => zero_tag; chain_resv := fun _ => None; console := [] |}.

(** The first turns of the four tiles, in which a tile that cannot move is passed over. *)
Definition chain_run (func : config_enum) (turns : nat) : chain_state :=
  @run_skip _ _ (chain_lts chain_config func 0x1000)
    (mjoin (replicate turns [0; 1; 2; 3])) chain_start.

Lemma chain_run_reachable func turns : @reachable _ _ (chain_lts chain_config func 0x1000) (chain_run func turns).
Proof. apply run_skip_reachable. constructor. repeat split. Qed.

(** Tile 1 is in its second round while tile 2 is in its first; at the end the host has the vector. *)
Lemma chain_correct_witness :
  let s := chain_run eALL_TAG_PASS_FUNCS 120 in
  ((round_num (locals s 1) = 2 /\ round_num (locals s 2) = 1) /\
   (forall i, 0 <= i < BUF_LEN -> buffer s 1 1 i = {| value := i; rounds := 2; cores := 0 |}) /\
   buf_j (locals s 1) <> buf_j (locals s 2)) /\
  console (chain_run eALL_TAG_PASS_FUNCS 1000) =
    ((fun i => IoStore (0x1000 + 4 * i) (i + 2 ^ 8 * 15 + 2 ^ 16 * 3)) <$> seqZ 0 16) ++ [Finished] /\
  @can_reach _ _ (chain_lts chain_config eALL_TAG_PASS_FUNCS 0x1000) (fun id => 0 <= id < 4) s
    (fun s' => (forall id, 0 <= id < 4 -> at_pc (locals s' id) = CEnd) /\
       console s' = (delivered_packet chain_config eALL_TAG_PASS_FUNCS 0x1000 <$> seqZ 0 BUF_LEN) ++ [Finished]).
Proof.
  intros s. split; [|split].
  - assert (past_valid (at_pc (locals s 1)) = true) as V1 by (vm_compute; reflexivity).
    assert (past_ready (at_pc (locals s 1)) = true) as R1 by (vm_compute; reflexivity).
    assert (past_valid (at_pc (locals s 2)) = true) as V2 by (vm_compute; reflexivity).
    assert (round_num (locals s 1) = 2) as N1 by (vm_compute; reflexivity).
    assert (round_num (locals s 2) = 1) as N2 by (vm_compute; reflexivity).
    assert (buf_j (locals s 1) = 1) as J1 by (vm_compute; reflexivity).
    pose proof (chain_run_reachable eALL_TAG_PASS_FUNCS 120) as Hs. fold s in Hs. clearbody s.
    destruct (chain_correct chain_config eALL_TAG_PASS_FUNCS 0x1000 s) as [H _]; [reflexivity|exact Hs|].
    destruct (H 1) as [Hd Hn]; [by split|].
    split; [split; assumption|split].
    + specialize (Hd V1). rewrite N1, J1 in Hd. exact Hd.
    + destruct Hn as [_ Hn]; [reflexivity|exact R1|]. exact (Hn V2).
  - destruct (chain_correct chain_config eALL_TAG_PASS_FUNCS 0x1000 (chain_run eALL_TAG_PASS_FUNCS 1000))
      as (_ & _ & H & _); [done|apply chain_run_reachable|]. apply H. by vm_compute.
  - apply (chain_correct chain_config eALL_TAG_PASS_FUNCS 0x1000); [done|apply chain_run_reachable].
Defined.
