(* ===== verification/CudaRuntime.v ===== *)
(** * The cuda-lite runtime, [bsg_cuda_lite_runtime.h]

    Every tile of a group loops in [__wait_until_valid_func]: it sleeps until the host has stored
    a kernel's address into [cuda_kernel_ptr], calls the kernel with the arguments the host has
    left in memory, clears the pointer and, on tile 0, tells the host that it is finished.

    The first part is the passing of arguments: eight in registers, the others copied to the
    stack.  The second is the dispatch loop, one access per step, with the host as a further
    party whose stores are events ([HostStore]); the host is not in the repository, so when it
    stores what is a parameter ([may]).  A kernel is called in one step: it does not touch the
    words of the runtime. *)

From S2P Require Import Prelude Lts Arch.
Local Open Scope Z_scope.

(** ** The arguments of a kernel *)

Definition CUDAL_REG_ARGS_NUM : Z := 8.

(** A memory of words; the addresses are those of the RV32 core. *)
#[local] Abbreviation memory := (Z -> Z).

(** [__load_argument]: [a0] to [a7]. *)
Definition load_argument (m : memory) (s3 : Z) : list Z :=
  (fun i => m (u32 (s3 + i))) <$> [0; 4; 8; 12; 16; 20; 24; 28].

(** [__load_stack]; the loop body is executed at least once. *)
Fixpoint load_stack (fuel : nat) (s2 s3 sp t0 t1 t3 : Z) (m : memory) : option memory :=
  match fuel with
  | O => None
  | S fuel =>
      let m := <[u32 (t3 + sp) := m (u32 (t1 + s3))]> m in
      let t0 := u32 (t0 + 1) in
      let t1 := u32 (t1 + 4) in
      let t3 := u32 (t3 + 4) in
      if i32 t0 <? i32 s2 then load_stack fuel s2 s3 sp t0 t1 t3 m else Some m
  end.

(** The words below the stack pointer that the further arguments take. *)
Definition stack_args (s2 : Z) : Z := u32 (Z.shiftl (u32 (s2 - 8)) 2).

(** From [__load_argument] to the [jalr]: the registers, the stack pointer and the memory that
    the kernel finds. *)
Definition pass_arguments (fuel : nat) (s2 s3 sp : Z) (m : memory) : option (list Z * Z * memory) :=
  let regs := load_argument m s3 in
  if 8 >=? i32 s2 then Some (regs, sp, m)
  else
    let sp := u32 (sp - stack_args s2) in
    m ← load_stack fuel s2 s3 sp 8 32 0 m; Some (regs, sp, m).

(** What follows the call: [sp] is set back. *)
Definition after_kernel (s2 sp : Z) : Z :=
  if 8 >=? i32 s2 then sp else u32 (sp + stack_args s2).

(** The loop, from its [k]-th round on. *)
Lemma load_stack_correct fuel argc s3 sp k m :
  8 < argc < 2 ^ 29 -> 0 <= k < argc - 8 -> argc - 8 - k <= Z.of_nat fuel ->
  0 <= s3 -> s3 + 4 * argc < 2 ^ 32 -> 0 <= sp -> sp + 4 * (argc - 8) < 2 ^ 32 ->
  (s3 + 4 * argc <= sp \/ sp + 4 * (argc - 8) <= s3) ->
  exists m', load_stack fuel argc s3 sp (8 + k) (32 + 4 * k) (4 * k) m = Some m' /\
    (forall i, k <= i < argc - 8 -> m' (sp + 4 * i) = m (s3 + 4 * (8 + i))) /\
    (forall a, (forall i, k <= i < argc - 8 -> a <> sp + 4 * i) -> m' a = m a).
Proof.
  intros Hargc. revert k m. induction fuel as [|fuel IH]; intros k m Hk Hfuel Hs3 Hs3' Hsp Hsp' Hdis; [lia|].
  cbn [load_stack]. set (m1 := <[_ := _]> m).
  assert (m1 = <[sp + 4 * k := m (s3 + 4 * (8 + k))]> m) as Em1.
  { unfold m1. rewrite !u32_id by (unfold is_u32; lia).
    by replace (4 * k + sp) with (sp + 4 * k) by lia; replace (32 + 4 * k + s3) with (s3 + 4 * (8 + k)) by lia. }
  rewrite Em1. clear m1 Em1.
  rewrite (u32_id (8 + k + 1)), (i32_id (8 + k + 1)), (i32_id argc) by (unfold is_u32, is_i32; lia).
  destruct (Z.ltb_spec (8 + k + 1) argc) as [Hlt|Hge].
  - rewrite (u32_id (32 + 4 * k + 4)), (u32_id (4 * k + 4)) by (unfold is_u32; lia).
    replace (8 + k + 1) with (8 + (k + 1)) by lia. replace (32 + 4 * k + 4) with (32 + 4 * (k + 1)) by lia.
    replace (4 * k + 4) with (4 * (k + 1)) by lia.
    destruct (IH (k + 1) (<[sp + 4 * k := m (s3 + 4 * (8 + k))]> m)) as (m' & -> & Hin & Hout); try lia.
    exists m'. split_and!; [done| |].
    + intros i Hi. destruct (decide (i = k)) as [->|Hne].
      * rewrite Hout by (intros; lia). by rewrite fn_lookup_insert.
      * rewrite Hin by lia. rewrite fn_lookup_insert_ne by lia. done.
    + intros a Ha. rewrite Hout by (intros; apply Ha; lia). apply fn_lookup_insert_ne.
      intros E. by apply (Ha k); [lia|].
  - exists (<[sp + 4 * k := m (s3 + 4 * (8 + k))]> m). split_and!; [done| |].
    + intros i Hi. replace i with k by lia. by rewrite fn_lookup_insert.
    + intros a Ha. apply fn_lookup_insert_ne. intros E. by apply (Ha k); [lia|].
Qed.

(** C12 (functional).  A kernel finds its arguments where the calling convention of RISC-V puts
    them: the first eight in registers, the others on the stack in order, the first of them at
    the stack pointer; no other word is changed, and the stack pointer is set back after the
    call.  An argument count that is negative as a signed number puts nothing on the stack. *)
Theorem arguments_passed fuel argc argv sp m :
  0 <= argc < 2 ^ 29 \/ 2 ^ 31 <= argc < 2 ^ 32 ->
  0 <= argv -> argv + 4 * Z.max 8 (i32 argc) < 2 ^ 32 ->
  let extra := Z.max 0 (i32 argc - 8) in
  4 * extra <= sp < 2 ^ 32 -> extra <= Z.of_nat fuel ->
  (0 < extra -> argv + 4 * argc <= sp - 4 * extra \/ sp <= argv) ->
  exists sp' m',
    pass_arguments fuel argc argv sp m =
      Some ((fun i => m (argv + 4 * i)) <$> seqZ 0 CUDAL_REG_ARGS_NUM, sp', m') /\
    sp' = sp - 4 * extra /\ after_kernel argc sp' = sp /\
    (forall i, 0 <= i < extra -> m' (sp' + 4 * i) = m (argv + 4 * (CUDAL_REG_ARGS_NUM + i))) /\
    (forall a, ~ (sp' <= a < sp) -> m' a = m a).
Proof.
  intros Hargc Hargv Hargv' extra Hsp Hfuel Hdis.
  assert (load_argument m argv = (fun i => m (argv + 4 * i)) <$> seqZ 0 CUDAL_REG_ARGS_NUM) as Hregs.
  { unfold load_argument, CUDAL_REG_ARGS_NUM. rewrite (eq_refl : seqZ 0 8 = [0; 1; 2; 3; 4; 5; 6; 7]).
    cbn [fmap list_fmap]. by rewrite !u32_id by (unfold is_u32; lia). }
  unfold pass_arguments, after_kernel. rewrite Hregs.
  destruct (Z.geb_spec 8 (i32 argc)) as [Hle|Hgt].
  - exists sp, m. split_and!; [done|unfold extra; lia|done|unfold extra; lia|done].
  - assert (8 < argc < 2 ^ 29) as Hb.
    { destruct Hargc as [H|H].
      - rewrite i32_id in Hgt by (unfold is_i32; lia). lia.
      - exfalso. clear - H Hgt. word_lia. }
    assert (i32 argc = argc) as Ei by (apply i32_id; unfold is_i32; lia).
    assert (stack_args argc = 4 * extra) as Es.
    { unfold stack_args. rewrite (u32_id (argc - 8)) by (unfold is_u32; lia).
      rewrite Z.shiftl_mul_pow2, u32_id; unfold is_u32; unfold extra in *; lia. }
    assert (extra = argc - 8) as Ee by (unfold extra; lia).
    rewrite Es, (u32_id (sp - _)) by (unfold is_u32; lia).
    destruct (load_stack_correct fuel argc argv (sp - 4 * extra) 0 m) as (m' & E & Hin & Hout); try lia.
    rewrite Z.add_0_r, Z.mul_0_r in E. change (32 + 0) with 32 in E. rewrite E. cbn [mbind option_bind].
    exists (sp - 4 * extra), m'. split_and!; [done|done|rewrite u32_id; [lia|unfold is_u32; lia]| |].
    + intros i Hi. apply Hin. lia.
    + intros a Ha. apply Hout. intros i Hi ->. apply Ha. lia.
Qed.

Lemma arguments_passed_witness :
  let m : memory := fun a => if a <? 0x2000 then 100 + a / 4 - 0x400 else 0 in
  exists sp' m', pass_arguments 3 11 0x1000 0x3000 m =
    Some ([100; 101; 102; 103; 104; 105; 106; 107], sp', m') /\
    after_kernel 11 sp' = 0x3000 /\ m' (sp' + 4 * 2) = 110.
Proof.
  intros m. destruct (arguments_passed 3 11 0x1000 0x3000 m) as (sp' & m' & E & Esp & Er & Hin & _);
    [lia|lia|vm_compute; reflexivity|vm_compute; split; [discriminate|reflexivity]
    |vm_compute; discriminate|intros _; left; vm_compute; discriminate|].
  exists sp', m'. split; [rewrite E; reflexivity|]. split; [exact Er|].
  rewrite Hin by (vm_compute; split; [discriminate|reflexivity]). reflexivity.
Defined.

(** ** The dispatch loop *)

(** The next access of a tile, with the registers that it still needs. *)
Inductive cuda_pc : Type :=
| CLr                          (* lr.w t1, cuda_kernel_ptr, compared with cuda_kernel_not_loaded_val *)
| CLrAq                        (* lr.w.aq: asleep *)
| CLoadPtr                     (* __init_param: lw s1 *)
| CLoadArgc (s1 : Z)
| CLoadArgv (s1 s2 : Z)
| CLoadSig (s1 s2 s3 : Z)
| CCall (s1 s2 s3 : Z)         (* the arguments, jalr s1, and sp set back *)
| CClear                       (* __kernel_return: sw to cuda_kernel_ptr *)
| CSigAddr                     (* write_finish_signal: the address *)
| CSigVal (signal_ptr : Z).    (* the value, and the store to the host *)

(** A kernel with its arguments. *)
Record launch := { l_fn : Z; l_argc : Z; l_argv : Z }.

(** The variables that the host sets. *)
Inductive cuda_word : Type := KernelPtr | Argc | ArgvPtr | SignalAddr | SignalVal.

Global Instance cuda_word_eq_dec : EqDecision cuda_word.
Proof. solve_decision. Defined.

Record cuda_state := {
  c_word : Z * Z -> cuda_word -> Z;         (* the variables of a tile *)
  c_resv : Z * Z -> bool;
  c_pc : Z * Z -> cuda_pc;
  c_launched : Z * Z -> list launch;        (* history: what the host has asked for *)
  c_called : Z * Z -> list launch;          (* history: the calls made *)
  c_signals : list (Z * Z);                 (* the stores of the finish signal *)
}.

(** Who acts: a tile, or the host by a store to a variable of a tile. *)
Inductive cuda_event : Type :=
| CTile (t : Z * Z)
| HostStore (t : Z * Z) (w : cuda_word) (v : Z).

Section dispatch.
Variable c : config.
Variable not_loaded : Z.       (* cuda_kernel_not_loaded_val *)
Variable may : cuda_state -> Z * Z -> cuda_word -> Z -> bool.
#[local] Abbreviation tiles := (grid 0 (bsg_tiles_X c) 0 (bsg_tiles_Y c)).
Implicit Types (s : cuda_state) (t : Z * Z).

Definition cgoto t (pc : cuda_pc) s : cuda_state :=
  Build_cuda_state (c_word s) (c_resv s) (<[t := pc]> (c_pc s)) (c_launched s) (c_called s) (c_signals s).

Definition creserve t (v : bool) s : cuda_state :=
  Build_cuda_state (c_word s) (<[t := v]> (c_resv s)) (c_pc s) (c_launched s) (c_called s) (c_signals s).

Definition set_word t (w : cuda_word) (v : Z) s : cuda_state :=
  Build_cuda_state (<[t := <[w := v]> (c_word s t)]> (c_word s)) (c_resv s) (c_pc s) (c_launched s)
    (c_called s) (c_signals s).

Definition call_kernel t (k : launch) s : cuda_state :=
  Build_cuda_state (c_word s) (c_resv s) (c_pc s) (c_launched s)
    (<[t := c_called s t ++ [k]]> (c_called s)) (c_signals s).

(** [*signal_ptr = cuda_finish_signal_val]. *)
Definition send_signal (signal_ptr v : Z) s : cuda_state :=
  Build_cuda_state (c_word s) (c_resv s) (c_pc s) (c_launched s) (c_called s)
    (c_signals s ++ [(signal_ptr, v)]).

(** The launch that the variables of a tile describe. *)
Definition current s t : launch :=
  {| l_fn := c_word s t KernelPtr; l_argc := c_word s t Argc; l_argv := c_word s t ArgvPtr |}.

(** A store of the host; one to [cuda_kernel_ptr] clears the reservation, and is a launch. *)
Definition host_store t (w : cuda_word) (v : Z) s : cuda_state :=
  let s := set_word t w v s in
  match w with
  | KernelPtr => Build_cuda_state (c_word s) (<[t := false]> (c_resv s)) (c_pc s)
      (<[t := c_launched s t ++ [current s t]]> (c_launched s)) (c_called s) (c_signals s)
  | _ => s
  end.

Definition cuda_step t s : option cuda_state :=
  if decide (t ∈ tiles) then
    match c_pc s t with
    | CLr =>
        let s := creserve t true s in
        Some (cgoto t (if negb (not_loaded =? c_word s t KernelPtr) then CLoadPtr else CLrAq) s)
    | CLrAq => if c_resv s t then None else Some (cgoto t CLoadPtr s)
    | CLoadPtr => Some (cgoto t (CLoadArgc (c_word s t KernelPtr)) s)
    | CLoadArgc s1 => Some (cgoto t (CLoadArgv s1 (c_word s t Argc)) s)
    | CLoadArgv s1 s2 => Some (cgoto t (CLoadSig s1 s2 (c_word s t ArgvPtr)) s)
    | CLoadSig s1 s2 s3 => Some (cgoto t (CCall s1 s2 s3) s)
    | CCall s1 s2 s3 =>
        Some (cgoto t CClear (call_kernel t {| l_fn := s1; l_argc := s2; l_argv := s3 |} s))
    | CClear =>
        Some (cgoto t (if bsg_x_y_to_id c t.1 t.2 =? 0 then CSigAddr else CLr)
          (set_word t KernelPtr not_loaded s))
    | CSigAddr => Some (cgoto t (CSigVal (c_word s t SignalAddr)) s)
    | CSigVal signal_ptr => Some (cgoto t CLr (send_signal signal_ptr (c_word s t SignalVal) s))
    end
  else None.

Definition cuda_event_step (e : cuda_event) s : option cuda_state :=
  match e with
  | CTile t => cuda_step t s
  | HostStore t w v => if may s t w v then Some (host_store t w v s) else None
  end.

Definition cuda_init s : Prop :=
  c_signals s = [] /\
  forall t, c_word s t KernelPtr = not_loaded /\ c_pc s t = CLr /\ c_launched s t = [] /\ c_called s t = [].

#[local] Instance cuda_lts : Lts cuda_state cuda_event :=
  { lts_init := cuda_init; lts_step := cuda_event_step }.

(** A tile that waits for a kernel. *)
Definition waiting s t : Prop :=
  (c_pc s t = CLr \/ c_pc s t = CLrAq) /\ c_word s t KernelPtr = not_loaded.

(** The host stores to a tile only while the tile waits, and never launches "nothing". *)
Definition polite : Prop := forall s t w v,
  may s t w v = true -> waiting s t /\ (w = KernelPtr -> v <> not_loaded).

(** *** The invariant *)

(** The launch that a tile has not called yet. *)
Definition pending s t : list launch :=
  match c_pc s t with
  | CLr | CLrAq => if c_word s t KernelPtr =? not_loaded then [] else [current s t]
  | CLoadPtr | CLoadArgc _ | CLoadArgv _ _ | CLoadSig _ _ _ | CCall _ _ _ => [current s t]
  | CClear | CSigAddr | CSigVal _ => []
  end.

Definition cuda_pc_ok s t : Prop :=
  match c_pc s t with
  | CLr => True
  | CLrAq => c_resv s t = true -> c_word s t KernelPtr = not_loaded
  | CLoadPtr | CClear => True
  | CLoadArgc s1 => s1 = c_word s t KernelPtr
  | CLoadArgv s1 s2 => s1 = c_word s t KernelPtr /\ s2 = c_word s t Argc
  | CLoadSig s1 s2 s3 | CCall s1 s2 s3 =>
      {| l_fn := s1; l_argc := s2; l_argv := s3 |} = current s t
  | CSigAddr | CSigVal _ => c_word s t KernelPtr = not_loaded /\ t = (0, 0)
  end /\
  (c_pc s t = CLrAq -> c_resv s t = false -> c_word s t KernelPtr <> not_loaded) /\
  c_launched s t = c_called s t ++ pending s t.

(** The calls of tile 0 whose finish signal is still to come. *)
Definition unsignalled s : Z :=
  match c_pc s (0, 0) with CClear | CSigAddr | CSigVal _ => 1 | _ => 0 end.

Definition cuda_inv s : Prop :=
  (forall t, t ∈ tiles -> cuda_pc_ok s t) /\
  Z.of_nat (length (c_signals s)) + unsignalled s = Z.of_nat (length (c_called s (0, 0))).

Hypothesis host_polite : polite.
Hypothesis wf : wf_config c.

Lemma cuda_inv_init s : cuda_init s -> cuda_inv s.
Proof using Type.
  intros (Hs & Ht). split.
  - intros t _. destruct (Ht t) as (Hw & Hp & Hl & Hc). unfold cuda_pc_ok, pending.
    by rewrite Hp, Hw, Hl, Hc, Z.eqb_refl.
  - destruct (Ht (0, 0)) as (_ & Hp & _ & Hc). unfold unsignalled. by rewrite Hs, Hp, Hc.
Qed.

(** What a tile's condition depends on. *)
Lemma cuda_pc_ok_ext s s' t :
  c_word s' t = c_word s t -> c_resv s' t = c_resv s t -> c_pc s' t = c_pc s t ->
  c_launched s' t = c_launched s t -> c_called s' t = c_called s t ->
  cuda_pc_ok s t -> cuda_pc_ok s' t.
Proof using Type.
  unfold cuda_pc_ok, pending, current. intros -> -> -> -> ->. done.
Qed.

Ltac cupd := simpl; rewrite ?fn_lookup_insert, ?fn_lookup_insert_ne by done; simpl.

Lemma tile_zero t : t ∈ tiles -> bsg_x_y_to_id c t.1 t.2 = 0 -> t = (0, 0).
Proof using wf.
  destruct t as [x y]. intros Hin%elem_of_grid E. unfold bsg_x_y_to_id in E. simpl in E.
  destruct wf as (? & ? & _). assert (y = 0) by nia. assert (x = 0) by nia. congruence.
Qed.

Lemma cuda_tile_step s t s' : cuda_inv s -> cuda_step t s = Some s' -> cuda_inv s'.
Proof using wf.
  intros [Hok Hsig] E. unfold cuda_step in E. case_decide as Hin; [|done].
  pose proof (Hok t Hin) as Ht. unfold cuda_pc_ok, pending in Ht. destruct Ht as (Hpc & Haq & Hl).
  split.
  - intros t' Hin'. destruct (decide (t' = t)) as [->|Hne].
    2: { apply (cuda_pc_ok_ext s); [..|by apply Hok];
         destruct (c_pc s t); try (destruct (c_resv s t); [done|]); injection E as <-; by cupd. }
    unfold cuda_pc_ok, pending, current.
    destruct (c_pc s t) as [| | |s1|s1 s2|s1 s2 s3|s1 s2 s3| | |ptr] eqn:Epc.
    + injection E as <-. cupd. rewrite Hl, (Z.eqb_sym not_loaded).
      destruct (Z.eqb_spec (c_word s t KernelPtr) not_loaded) as [Ew|Ew]; simpl; [|done].
      by rewrite ?Ew, ?Z.eqb_refl.
    + destruct (c_resv s t); [done|]. injection E as <-. cupd. rewrite Hl.
      split_and!; [done..|]. destruct (Z.eqb_spec (c_word s t KernelPtr) not_loaded); [by destruct Haq|done].
    + injection E as <-. by cupd.
    + injection E as <-. subst. by cupd.
    + injection E as <-. destruct Hpc as [-> ->]. by cupd.
    + injection E as <-. by cupd.
    + injection E as <-. cupd. split_and!; [done..|]. by rewrite app_nil_r, Hpc.
    + injection E as <-. cupd. rewrite Hl. destruct (Z.eqb_spec (bsg_x_y_to_id c t.1 t.2) 0) as [E0|];
        simpl; rewrite ?Z.eqb_refl; [|done]. split_and!; [done|by apply tile_zero|done..].
    + injection E as <-. by cupd.
    + injection E as <-. cupd. by rewrite Hl, (proj1 Hpc), Z.eqb_refl.
  - unfold unsignalled in *. destruct (decide (t = (0, 0))) as [->|Hne].
    + destruct (c_pc s (0, 0)); try (destruct (c_resv s (0, 0)); [done|]); injection E as <-; cupd;
        rewrite ?length_app; simpl; try lia.
      * by destruct (negb _).
      * assert ((bsg_x_y_to_id c 0 0 =? 0) = true) as ->; [|lia]. unfold bsg_x_y_to_id. lia.
    + assert ((bsg_x_y_to_id c t.1 t.2 =? 0) = false) as Hid.
      { apply Z.eqb_neq. intros E0. by apply Hne, tile_zero. }
      destruct (c_pc s t) eqn:Epc; try (destruct (c_resv s t); [done|]); injection E as <-; cupd; try lia;
        try (by destruct Hpc).
Qed.

Lemma host_step s t w v : cuda_inv s -> waiting s t -> (w = KernelPtr -> v <> not_loaded) ->
  cuda_inv (host_store t w v s).
Proof using Type.
  intros [Hok Hsig] [Hpc Hptr] Hv.
  assert (c_pc (host_store t w v s) = c_pc s) as Ep by (by destruct w).
  assert (c_called (host_store t w v s) = c_called s) as Ec by (by destruct w).
  assert (c_signals (host_store t w v s) = c_signals s) as Es by (by destruct w).
  split; [|unfold unsignalled; by rewrite Ep, Ec, Es].
  intros t' Hin'. pose proof (Hok t' Hin') as Ht. destruct (decide (t' = t)) as [->|Hne].
  - unfold cuda_pc_ok, pending in *. rewrite Ep, Ec. destruct Ht as (Hpc' & Haq & Hl).
    assert (c_launched s t = c_called s t) as Hlc.
    { destruct Hpc as [E|E]; rewrite E, Hptr, Z.eqb_refl, app_nil_r in Hl; done. }
    destruct (decide (w = KernelPtr)) as [->|Hw].
    + specialize (Hv eq_refl). apply Z.eqb_neq in Hv as Hv'. unfold host_store, current in *. cupd.
      destruct Hpc as [E|E]; rewrite E; cupd; rewrite Hv', Hlc; split_and!; try done; by intros.
    + assert (c_word (host_store t w v s) t KernelPtr = not_loaded) as ->.
      { destruct w; try done; by cupd. }
      assert (c_resv (host_store t w v s) = c_resv s) as -> by (by destruct w).
      assert (c_launched (host_store t w v s) = c_launched s) as -> by (by destruct w).
      destruct Hpc as [E|E]; rewrite E in *; rewrite Z.eqb_refl, Hlc, app_nil_r; split_and!; try done.
      rewrite Hptr in Haq. by apply Haq.
  - apply (cuda_pc_ok_ext s); [..|done]; destruct w; by cupd.
Qed.

Lemma cuda_inv_step s e s' : cuda_inv s -> cuda_event_step e s = Some s' -> cuda_inv s'.
Proof using host_polite wf.
  intros I E. destruct e as [t|t w v]; simpl in E; [by eapply cuda_tile_step|].
  destruct (may s t w v) eqn:Em; [|done]. injection E as <-.
  apply host_polite in Em as [Hw Hv]. by apply host_step.
Qed.

Lemma cuda_reachable_inv s : reachable s -> cuda_inv s.
Proof using host_polite wf.
  apply invariant_reachable; [apply cuda_inv_init|intros; by eapply cuda_inv_step].
Qed.

(** The steps a tile takes until it waits. *)
Definition cuda_rank s t : Z :=
  match c_pc s t with
  | CLr => if c_word s t KernelPtr =? not_loaded then 0 else 9
  | CLrAq => if c_word s t KernelPtr =? not_loaded then 0 else 9
  | CLoadPtr => 8 | CLoadArgc _ => 7 | CLoadArgv _ _ => 6 | CLoadSig _ _ _ => 5 | CCall _ _ _ => 4
  | CClear => 3 | CSigAddr => 2 | CSigVal _ => 1
  end.

Lemma cuda_progress s t : cuda_inv s -> t ∈ tiles ->
  (waiting s t /\ c_called s t = c_launched s t) \/
  exists s', cuda_step t s = Some s' /\ cuda_inv s' /\ cuda_rank s' t < cuda_rank s t.
Proof using wf.
  intros I Hin. pose proof (proj1 I t Hin) as Ht. unfold cuda_pc_ok, pending in Ht.
  destruct Ht as (Hpc & Haq & Hl).
  assert (forall s', cuda_step t s = Some s' -> cuda_rank s' t < cuda_rank s t ->
    exists s', cuda_step t s = Some s' /\ cuda_inv s' /\ cuda_rank s' t < cuda_rank s t) as Hgo.
  { intros s' E Hr. exists s'. split_and!; [done|by eapply cuda_tile_step|done]. }
  unfold waiting, cuda_step, cuda_rank in *. rewrite decide_True in * by done.
  destruct (c_pc s t) as [| | |s1|s1 s2|s1 s2 s3|s1 s2 s3| | |ptr] eqn:Epc.
  1: { destruct (Z.eqb_spec (c_word s t KernelPtr) not_loaded) as [E|E].
    - left. rewrite Hl, app_nil_r. split_and!; auto.
    - right. eapply Hgo; [done|]. rewrite (proj2 (Z.eqb_neq not_loaded _)) by done. by cupd. }
  1: { destruct (Z.eqb_spec (c_word s t KernelPtr) not_loaded) as [E|E].
    - left. rewrite Hl, app_nil_r. split_and!; auto.
    - right. destruct (c_resv s t); [by rewrite Hpc in E|]. eapply Hgo; [done|]. by cupd. }
  all: right; eapply Hgo; [done|]; cupd; try done.
  - destruct (_ =? 0); cupd; [done|]. by rewrite Z.eqb_refl.
  - by rewrite (proj1 Hpc), Z.eqb_refl.
Qed.

(** A pointer stored before a tile clears the variable is erased. *)
Lemma launch_erased s t v : t ∈ tiles -> c_pc s t = CClear -> bsg_x_y_to_id c t.1 t.2 <> 0 ->
  exists s', cuda_step t (host_store t KernelPtr v s) = Some s' /\
    waiting s' t /\ c_called s' t = c_called s t.
Proof using Type.
  intros Hin Ep Hid%Z.eqb_neq. unfold cuda_step. rewrite decide_True by done.
  assert (c_pc (host_store t KernelPtr v s) t = CClear) as -> by done. rewrite Hid.
  eexists. split; [done|]. split; [|done]. split; [left|]; by cupd.
Qed.
End dispatch.

#[local] Existing Instance cuda_lts.

(** C11 (safety).  Dispatch, for a host that stores to a tile only while the tile waits: in every
    interleaving a tile has called the kernels it was given, in order, each once and with the
    arguments it was given, but for at most the last; it has called that too when it waits
    again; left alone it comes to that point, so no launch is lost and no wake-up is missed; and
    tile 0 has then sent one finish signal for each of its calls. *)
Theorem dispatch_correct c not_loaded may s t :
  wf_config c -> polite not_loaded may ->
  @reachable _ _ (cuda_lts c not_loaded may) s -> t ∈ grid 0 (bsg_tiles_X c) 0 (bsg_tiles_Y c) ->
  (exists rest, c_launched s t = c_called s t ++ rest /\ (length rest <= 1)%nat /\
     (waiting not_loaded s t -> rest = [])) /\
  @can_reach _ _ (cuda_lts c not_loaded may) (.= CTile t) s
    (fun s' => waiting not_loaded s' t /\ c_called s' t = c_launched s' t) /\
  (waiting not_loaded s (0, 0) -> length (c_signals s) = length (c_called s (0, 0))).
Proof.
  intros wf Hp Hs Hin. apply cuda_reachable_inv in Hs as I; [|done..]. split_and!.
  - exists (pending not_loaded s t). destruct (proj1 I t Hin) as (_ & _ & Hl). split_and!; [done| |].
    + unfold pending. destruct (c_pc s t); try destruct (_ =? _); simpl; lia.
    + intros [Hpc Hw]. unfold pending. destruct Hpc as [-> | ->]; by rewrite Hw, Z.eqb_refl.
  - apply (can_reach_measure _ (cuda_inv c not_loaded) _ (fun s => cuda_rank not_loaded s t)); [| |done].
    + intros s' _. unfold cuda_rank. destruct (c_pc s' t); try destruct (_ =? _); lia.
    + intros s' I'. destruct (cuda_progress c not_loaded wf s' t I' Hin) as [|(s2 & E & I2 & Hr)]; [by left|].
      right. exists (CTile t), s2. done.
  - intros [Hpc _]. destruct I as [_ Hsig]. unfold unsignalled in Hsig.
    destruct Hpc as [E|E]; rewrite E in Hsig; lia.
Qed.

(** A host that looks at the state of the tile, and a group of two tiles. *)
Definition example_may (s : cuda_state) (t : Z * Z) (w : cuda_word) (v : Z) : bool :=
  match c_pc s t with CLr | CLrAq => c_word s t KernelPtr =? 0 | _ => false end &&
  negb (bool_decide (w = KernelPtr) && (v =? 0)).

Lemma example_polite : polite 0 example_may.
Proof.
  intros s t w v E. unfold example_may in E. apply andb_true_iff in E as [E1 E2].
  apply negb_true_iff, andb_false_iff in E2. split.
  - unfold waiting. destruct (c_pc s t); try done; apply Z.eqb_eq in E1; auto.
  - intros ->. destruct E2 as [E2|E2]; [done|]. by apply Z.eqb_neq.
Qed.

Definition config_pair : config := {|
  bsg_tiles_X := 2; bsg_tiles_Y := 1; bsg_global_X := 16; bsg_global_Y := 8; IO_X_INDEX := 16;
  IO_Y_INDEX := 1 |}.

Definition cuda_example : cuda_state := {|
  c_word := fun _ _ => 0; c_resv := fun _ => false; c_pc := fun _ => CLr;
  c_launched := fun _ => []; c_called := fun _ => []; c_signals := [] |}.

Lemma cuda_example_init : cuda_init 0 cuda_example.
Proof. by repeat split. Qed.

(** The host launches a kernel at 0x100 with three arguments on both tiles, one of them asleep;
    tile 0 runs until it waits again, the other up to the return of its kernel. *)
Definition cuda_schedule : list cuda_event :=
  replicate 2 (CTile (1, 0)) ++
  ([(0, 0); (1, 0)] ≫= fun t => [HostStore t Argc 3; HostStore t ArgvPtr 0x2000;
    HostStore t SignalAddr 0x3000; HostStore t SignalVal 1; HostStore t KernelPtr 0x100]) ++
  replicate 9 (CTile (0, 0)) ++ replicate 6 (CTile (1, 0)).

Definition cuda_after : cuda_state :=
  run_skip (H := cuda_lts config_pair 0 example_may) cuda_schedule cuda_example.

Lemma cuda_after_reachable : @reachable _ _ (cuda_lts config_pair 0 example_may) cuda_after.
Proof. apply run_skip_reachable. constructor. apply cuda_example_init. Qed.

Lemma dispatch_correct_witness :
  c_called cuda_after (0, 0) = [{| l_fn := 0x100; l_argc := 3; l_argv := 0x2000 |}] /\
  length (c_signals cuda_after) = 1%nat /\
  @can_reach _ _ (cuda_lts config_pair 0 example_may) (.= CTile (1, 0)) cuda_after
    (fun s' => waiting 0 s' (1, 0) /\ c_called s' (1, 0) = c_launched s' (1, 0)).
Proof.
  split; [vm_compute; reflexivity|]. split.
  - rewrite (proj2 (proj2 (dispatch_correct config_pair 0 example_may cuda_after (0, 0)
      ltac:(unfold wf_config; simpl; lia) example_polite cuda_after_reachable
      ltac:(apply elem_of_grid; simpl; lia)))); [vm_compute; reflexivity|].
    split; [left|]; vm_compute; reflexivity.
  - apply (dispatch_correct config_pair 0 example_may cuda_after (1, 0));
      [unfold wf_config; simpl; lia|exact example_polite|exact cuda_after_reachable|].
    apply elem_of_grid; simpl; lia.
Defined.

(** C13 (error).  The finish signal does not say that the kernel has finished on the group: in
    this interleaving, under the same host, tile 0 has sent it and waits again while the other
    tile has yet to clear its [cuda_kernel_ptr]; a kernel launched on that tile now is erased by
    its next access, and never called. *)
Theorem finish_signal_early :
  exists s, @reachable _ _ (cuda_lts config_pair 0 example_may) s /\
    c_signals s = [(0x3000, 1)] /\ waiting 0 s (0, 0) /\
    forall v, exists s', cuda_step config_pair 0 (1, 0) (host_store (1, 0) KernelPtr v s) = Some s' /\
      waiting 0 s' (1, 0) /\ c_called s' (1, 0) = c_called s (1, 0).
Proof.
  exists cuda_after. split; [apply cuda_after_reachable|].
  split; [vm_compute; reflexivity|]. split; [split; [left|]; vm_compute; reflexivity|].
  intros v. apply (launch_erased config_pair 0 cuda_after (1, 0) v);
    [apply elem_of_grid; simpl; lia|vm_compute; reflexivity|discriminate].
Qed.
