(* ===== verification/PodBarrier.v ===== *)
(** * The pod barrier of [pod_barrier]

    A sense-reversing barrier of the 128 tiles of a 16x8 pod.  Every tile stores its sense in a
    byte of the tile in column 8 of its row; that tile waits for the sixteen bytes
    ([bsg_join4_relay]) and stores its own byte at (8,4), which waits for the eight rows
    ([bsg_join2]) and stores the sense in the [notify] words of columns 7 and 8.  Column 7 passes
    it on to columns 3, 11 and 15, and every tile to its left neighbour in its group of four.
    [pod_step] makes the next memory access of one tile; [lr] and [lr.aq] are as in [Barrier].

    A tile that finds another word than its sense sleeps with [lr.aq], and takes whatever store
    wakes it for the right one ([bsg_wait_local_int_asm_blind]).  [pod_barrier_overtakes] is an
    interleaving in which that store is a late one of the round before; the other theorems
    are about the interleavings in which (8,4) has made its sixteen stores before a tile that they
    release begins another call ([prompt_step]).

    All the counts of the proof are of the form "how many times has this tile passed this point"
    ([cnt]); every word of the barrier is the sense of a count. *)

From S2P Require Import Prelude Lts Arch Eva Console.
Local Open Scope Z_scope.

Definition kPodBarrier_CenterX : Z := 8.
Definition kPodBarrier_CenterY : Z := 4.

Definition pod_tiles : list (Z * Z) := grid 0 16 0 8.

Definition pod_root : Z * Z := (kPodBarrier_CenterX, kPodBarrier_CenterY).

(** Where a tile is: the next access it makes. *)
Inductive pod_pc : Type :=
| PPrint                      (* main, tile 0: bsg_print_int(0xFACADE) *)
| PCall                       (* main: bsg_pod_barrier *)
| PArrive                     (* the byte of the row *)
| PJoin (k tmp : Z)           (* bsg_join4_relay: word k; tmp is the word before *)
| PRelay                      (* ... the byte of the column *)
| PJoin2 (k tmp : Z)          (* bsg_join2: word k *)
| PWake (k : Z)               (* the sixteen stores of the root *)
| PWait (aq : bool)           (* bsg_wait_local_int_asm_blind *)
| PQuad (k : Z)               (* s, t, u of column 7 *)
| PBuddy                      (* the store to the buddy *)
| PFinish                     (* main, tile 0: bsg_finish *)
| PEnd.                       (* bsg_wait_while(1) *)

#[export] Instance pod_pc_eq_dec : EqDecision pod_pc.
Proof. solve_decision. Defined.

Record pod_state := {
  row : Z * Z -> Z -> Z;          (* the bytes of [pod_barrier.row] of a tile *)
  col : Z * Z -> Z -> Z;          (* the bytes of [pod_barrier.col] *)
  notify : Z * Z -> Z;
  pod_barrier_sense : Z * Z -> Z;
  pod_resv : Z * Z -> bool;       (* a reservation, which is on [notify] *)
  pod_pcs : Z * Z -> pod_pc;
  pod_entered : Z * Z -> Z;       (* history: the calls begun *)
  pod_notified : Z * Z -> Z;      (* history: the call that last stored to [notify] *)
  pod_console : list packet;
}.

Implicit Types (s : pod_state) (t w : Z * Z).

Definition pod_go t (pc : pod_pc) s : pod_state :=
  {| row := row s; col := col s; notify := notify s; pod_barrier_sense := pod_barrier_sense s;
     pod_resv := pod_resv s; pod_pcs := <[t := pc]> (pod_pcs s); pod_entered := pod_entered s;
     pod_notified := pod_notified s; pod_console := pod_console s |}.

Definition pod_begin t s : pod_state :=
  {| row := row s; col := col s; notify := notify s; pod_barrier_sense := pod_barrier_sense s;
     pod_resv := pod_resv s; pod_pcs := pod_pcs s;
     pod_entered := <[t := pod_entered s t + 1]> (pod_entered s);
     pod_notified := pod_notified s; pod_console := pod_console s |}.

Definition pod_reserve t s : pod_state :=
  {| row := row s; col := col s; notify := notify s; pod_barrier_sense := pod_barrier_sense s;
     pod_resv := <[t := true]> (pod_resv s); pod_pcs := pod_pcs s; pod_entered := pod_entered s;
     pod_notified := pod_notified s; pod_console := pod_console s |}.

(** A [char] store to byte [i] of the row, or of the column, of tile [p]. *)
Definition store_row (p : Z * Z) (i v : Z) s : pod_state :=
  {| row := <[p := <[i := u8 v]> (row s p)]> (row s); col := col s; notify := notify s;
     pod_barrier_sense := pod_barrier_sense s;
     pod_resv := pod_resv s; pod_pcs := pod_pcs s; pod_entered := pod_entered s;
     pod_notified := pod_notified s; pod_console := pod_console s |}.

Definition store_col (p : Z * Z) (i v : Z) s : pod_state :=
  {| row := row s; col := <[p := <[i := u8 v]> (col s p)]> (col s); notify := notify s;
     pod_barrier_sense := pod_barrier_sense s;
     pod_resv := pod_resv s; pod_pcs := pod_pcs s; pod_entered := pod_entered s;
     pod_notified := pod_notified s; pod_console := pod_console s |}.

(** Tile [w] stores its sense to the [notify] of tile [t], whose reservation is gone. *)
Definition store_notify w t s : pod_state :=
  {| row := row s; col := col s; notify := <[t := pod_barrier_sense s w]> (notify s);
     pod_barrier_sense := pod_barrier_sense s;
     pod_resv := <[t := false]> (pod_resv s); pod_pcs := pod_pcs s; pod_entered := pod_entered s;
     pod_notified := <[t := pod_entered s w]> (pod_notified s); pod_console := pod_console s |}.

Definition invert_sense t s : pod_state :=
  {| row := row s; col := col s; notify := notify s;
     pod_barrier_sense := <[t := Z.lnot (pod_barrier_sense s t)]> (pod_barrier_sense s);
     pod_resv := pod_resv s; pod_pcs := pod_pcs s; pod_entered := pod_entered s;
     pod_notified := pod_notified s; pod_console := pod_console s |}.

Definition pod_emit (p : packet) s : pod_state :=
  {| row := row s; col := col s; notify := notify s; pod_barrier_sense := pod_barrier_sense s;
     pod_resv := pod_resv s; pod_pcs := pod_pcs s; pod_entered := pod_entered s;
     pod_notified := pod_notified s; pod_console := pod_console s ++ [p] |}.

(** [lw] of word [k] of an array of bytes. *)
Definition load_word (b : Z -> Z) (k : Z) : Z :=
  i32 (b (4 * k) + 2 ^ 8 * b (4 * k + 1) + 2 ^ 16 * b (4 * k + 2) + 2 ^ 24 * b (4 * k + 3)).

(** [bsg_pod_barrier_init]: the tile and the byte of its row that a tile stores to, and the tile
    whose [notify] it stores to. *)
Definition pod_barrier_parent t : (Z * Z) * Z :=
  let '(bsg_x, bsg_y) := t in
  ((kPodBarrier_CenterX, bsg_y),
   Z.shiftl (Z.land bsg_x 3) 2 + Z.land (Z.shiftr bsg_x 2) 3).

Definition pod_barrier_buddy t : Z * Z :=
  let '(bsg_x, bsg_y) := t in
  let buddy_x := if Z.land bsg_x 3 =? 0 then bsg_x else bsg_x - 1 in (buddy_x, bsg_y).

(** The tile of store [k] of the root: [r] goes down column 7, [s] down column 8. *)
Definition wake_target (k : Z) : Z * Z :=
  if k <? 8 then (kPodBarrier_CenterX - 1, k) else (kPodBarrier_CenterX, k - 8).

(** The column of store [k] of a tile of column 7: [s], [t] and [u]. *)
Definition quad_x (k : Z) : Z := if k =? 0 then 3 else if k =? 1 then 3 + 4 + 4 else 3 + 4 * 3.

(** The pointers of the stores step from tile to tile as the two functions say: [r += incY] is
    the same word one row down, [s + inc4] the same word four columns to the right. *)
Lemma incY_next_row x y a : 0 <= x < 64 -> 0 <= y < 31 -> 0 <= a < 2 ^ 18 ->
  bsg_remote_ptr x y a + 4 * Z.shiftr (1 <<i REMOTE_Y_CORD_SHIFT)%c 2 = bsg_remote_ptr x (y + 1) a.
Proof.
  intros. change (4 * _) with 16777216. rewrite !bsg_remote_ptr_sum by lia. lia.
Qed.

Lemma inc4_next_quad x y a : 0 <= x < 60 -> 0 <= y < 32 -> 0 <= a < 2 ^ 18 ->
  bsg_remote_ptr x y a + 4 * (Z.shiftr (1 <<i REMOTE_X_CORD_SHIFT)%c 2 * 4) = bsg_remote_ptr (x + 4) y a.
Proof.
  intros. change (4 * _) with 1048576. rewrite !bsg_remote_ptr_sum by lia. lia.
Qed.

(** What a tile does after each load of [bsg_join4_relay] and of [bsg_join2]. *)
Definition bsg_join4_relay (ptr_in : Z -> Z) (cond k tmp : Z) : pod_pc :=
  if k =? 0 then PJoin 1 (load_word ptr_in 0)
  else if k =? 1 then
    if (tmp =? cond) && (load_word ptr_in 1 =? cond) then PJoin 2 0 else PJoin 0 0
  else if k =? 2 then PJoin 3 (load_word ptr_in 2)
  else if (tmp =? cond) && (load_word ptr_in 3 =? cond) then PRelay else PJoin 2 0.

Definition bsg_join2 (ptr_in : Z -> Z) (cond k tmp : Z) : pod_pc :=
  if k =? 0 then PJoin2 1 (load_word ptr_in 0)
  else if (tmp =? cond) && (load_word ptr_in 1 =? cond) then PWake 0 else PJoin2 0 0.

Definition after_wait t : pod_pc := if t.1 =? kPodBarrier_CenterX - 1 then PQuad 0 else PBuddy.

(** [lr] and [lr.aq]; the word is looked at only once. *)
Definition bsg_wait_local_int_asm_blind t (cond : Z) (aq : bool) s : option pod_state :=
  if aq then if pod_resv s t then None else Some (pod_go t (after_wait t) s)
  else Some (pod_go t (if notify s t =? cond then after_wait t else PWait true) (pod_reserve t s)).

Section pod.
Variable total : Z.              (* the calls [main] makes: six *)

(** [main] after a print, and after a call. *)
Definition next_call t (e : Z) : pod_pc :=
  if e <? total then PCall else if decide (t = (0, 0)) then PFinish else PEnd.

Definition after_call t (e : Z) : pod_pc := if decide (t = (0, 0)) then PPrint else next_call t e.

(** [done]: the sense is inverted. *)
Definition pod_done t s : pod_state :=
  pod_go t (after_call t (pod_entered s t)) (invert_sense t s).

Definition pod_step t s : option pod_state :=
  if decide (t ∈ pod_tiles) then
    let tmp_pod_barrier_sense := pod_barrier_sense s t in
    match pod_pcs s t with
    | PPrint => Some (pod_go t (next_call t (pod_entered s t)) (pod_emit (PrintInt 0xFACADE) s))
    | PCall => Some (pod_go t PArrive (pod_begin t s))
    | PArrive =>
        let '(p, i) := pod_barrier_parent t in
        Some (pod_go t (if t.1 =? kPodBarrier_CenterX then PJoin 0 0 else PWait false)
                (store_row p i tmp_pod_barrier_sense s))
    | PJoin k tmp => Some (pod_go t (bsg_join4_relay (row s t) tmp_pod_barrier_sense k tmp) s)
    | PRelay =>
        Some (pod_go t (if t.2 =? kPodBarrier_CenterY then PJoin2 0 0 else PWait false)
                (store_col pod_root t.2 tmp_pod_barrier_sense s))
    | PJoin2 k tmp => Some (pod_go t (bsg_join2 (col s t) tmp_pod_barrier_sense k tmp) s)
    | PWake k =>
        let s' := store_notify t (wake_target k) s in
        Some (if k <? 15 then pod_go t (PWake (k + 1)) s' else pod_done t s')
    | PWait aq => bsg_wait_local_int_asm_blind t tmp_pod_barrier_sense aq s
    | PQuad k =>
        Some (pod_go t (if k <? 2 then PQuad (k + 1) else PBuddy) (store_notify t (quad_x k, t.2) s))
    | PBuddy => Some (pod_done t (store_notify t (pod_barrier_buddy t) s))
    | PFinish => Some (pod_go t PEnd (pod_emit Finished s))
    | PEnd => None
    end
  else None.

(** As the loader leaves the words, after [bsg_set_tile_x_y] and [bsg_pod_barrier_init]. *)
Definition pod_init s : Prop :=
  (forall t, t ∈ pod_tiles ->
     pod_pcs s t = after_call t 0 /\ pod_entered s t = 0 /\ pod_notified s t = 0 /\
     notify s t = 0 /\ pod_barrier_sense s t = -1 /\
     (forall i, row s t i = 0) /\ (forall i, col s t i = 0)) /\
  pod_console s = [].

#[local] Instance pod_lts : Lts pod_state (Z * Z) := { lts_init := pod_init; lts_step := pod_step }.

Definition waking s : bool := match pod_pcs s pod_root with PWake _ => true | _ => false end.

(** The interleavings in which no call begins before the root has made all its stores.  The root
    makes them one after the other, while a tile it releases has to wake up, pass the notification
    on and come back to the barrier; but nothing in the code enforces it. *)
Definition prompt_step t s : option pod_state :=
  match pod_pcs s t with
  | PCall => if waking s then None else pod_step t s
  | _ => pod_step t s
  end.

(** ** Counts *)

(** How far into a call a tile is. *)
Definition stage (pc : pod_pc) : Z :=
  match pc with
  | PArrive => 0
  | PJoin _ _ => 1
  | PRelay => 2
  | PJoin2 _ _ => 3
  | PWait _ => 4
  | PWake k => 10 + k
  | PQuad k => 30 + k
  | PBuddy => 40
  | PPrint | PCall | PFinish | PEnd => 50
  end.

(** How many times a tile has passed the point [n]. *)
Definition cnt (n : Z) s t : Z :=
  if n <=? stage (pod_pcs s t) then pod_entered s t else pod_entered s t - 1.

(** The points: its arrival, the relay of a row, the end of the wait; the releases of the root. *)
Abbreviation arrived := (cnt 1).
Abbreviation relayed := (cnt 3).
Abbreviation passed := (cnt 10).
Abbreviation released s := (cnt 10 s pod_root).

(** Who wakes a tile, and the point where it has. *)
Definition waker t : (Z * Z) * Z :=
  let '(x, y) := t in
  if x =? 7 then (pod_root, 11 + y)
  else if x =? 8 then (pod_root, 19 + y)
  else if x mod 4 =? 3 then ((7, y), 31 + if x =? 3 then 0 else if x =? 11 then 1 else 2)
  else ((x + 1, y), 50).

Definition sent_to s t : Z := cnt (waker t).2 s (waker t).1.

(** The sense of call [r]. *)
Definition val (r : Z) : Z := if Z.odd r then -1 else 0.

Definition in_call (pc : pod_pc) : bool := stage pc <? 50.

(** The tiles of word [k] of a row have arrived. *)
Definition joined s t (k : Z) : Prop :=
  forall j, 0 <= j < 4 -> pod_entered s t <= arrived s (4 * j + k, t.2).

Definition rows_joined s (k : Z) : Prop :=
  forall j, 0 <= j < 4 -> pod_entered s pod_root <= relayed s (8, 4 * k + j).

(** Who may be where, and what it knows there. *)
Definition local_at t (pc : pod_pc) (e : Z) : Prop :=
  match pc with
  | PPrint => t = (0, 0)
  | PCall => e < total
  | PArrive => True
  | PJoin k _ => t.1 = 8 /\ 0 <= k <= 3
  | PRelay => t.1 = 8
  | PJoin2 k _ => t = pod_root /\ 0 <= k <= 1
  | PWake k => t = pod_root /\ 0 <= k < 16
  | PWait _ => t <> pod_root
  | PQuad k => t.1 = 7 /\ 0 <= k <= 2
  | PBuddy => t <> pod_root
  | PFinish => t = (0, 0) /\ e = total
  | PEnd => e = total
  end.

Definition local_ok s t : Prop := local_at t (pod_pcs s t) (pod_entered s t).

Definition join_at (row_joined : Z -> Prop) (rows : Prop) (sense : Z) (pc : pod_pc) : Prop :=
  match pc with
  | PJoin k tmp =>
      (2 <= k -> row_joined 0 /\ row_joined 1) /\ ((k = 1 \/ k = 3) -> tmp = sense -> row_joined (k - 1))
  | PRelay => forall k, 0 <= k < 4 -> row_joined k
  | PJoin2 k tmp => k = 1 -> tmp = sense -> rows
  | _ => True
  end.

Definition join_ok s t : Prop :=
  join_at (joined s t) (rows_joined s 0) (pod_barrier_sense s t) (pod_pcs s t).

Record pod_inv s : Prop := {
  pi_local : forall t, t ∈ pod_tiles -> local_ok s t;
  pi_range : forall t, t ∈ pod_tiles ->
    (if in_call (pod_pcs s t) then 1 else 0) <= pod_entered s t <= total;
  pi_join : forall t, t ∈ pod_tiles -> join_ok s t;
  pi_sense : forall t, t ∈ pod_tiles ->
    pod_barrier_sense s t = val (if in_call (pod_pcs s t) then pod_entered s t else pod_entered s t + 1);
  pi_row : forall t, t ∈ pod_tiles ->
    row s (8, t.2) (4 * (t.1 mod 4) + t.1 / 4) = u8 (val (arrived s t));
  pi_col : forall y, 0 <= y < 8 -> col s pod_root y = u8 (val (relayed s (8, y)));
  pi_notify : forall t, t ∈ pod_tiles -> notify s t = val (pod_notified s t);
  pi_relay : forall t, t ∈ pod_tiles -> relayed s (8, t.2) <= arrived s t;
  pi_release : forall y, 0 <= y < 8 -> released s <= relayed s (8, y);
  pi_upper : forall t, t ∈ pod_tiles -> pod_notified s t <= released s;
  pi_lower : forall t, t ∈ pod_tiles -> t <> pod_root -> passed s t <= pod_notified s t;
  pi_sent : forall t, t ∈ pod_tiles -> t <> pod_root ->
    sent_to s t <= pod_notified s t /\ (t.1 <> 8 -> pod_notified s t <= sent_to s t);
  pi_wait : forall t, t ∈ pod_tiles -> pod_pcs s t = PWait true ->
    pod_resv s t = negb (pod_notified s t =? pod_entered s t);
  pi_wake : waking s = true -> forall t, t ∈ pod_tiles -> pod_entered s t <= pod_entered s pod_root;
}.

Lemma parent_eq t : 0 <= t.1 < 16 ->
  pod_barrier_parent t = ((8, t.2), 4 * (t.1 mod 4) + t.1 / 4).
Proof.
  destruct t as [x y]. cbn [fst snd]. intros Hx. unfold pod_barrier_parent.
  assert (forall k, k ∈ seqZ 0 16 ->
    Z.shiftl (Z.land k 3) 2 + Z.land (Z.shiftr k 2) 3 = 4 * (k mod 4) + k / 4) as E.
  { apply Forall_forall. vm_compute. repeat constructor. }
  by rewrite E by (apply elem_of_seqZ; lia).
Qed.

Lemma elem_of_pod t : t ∈ pod_tiles <-> 0 <= t.1 < 16 /\ 0 <= t.2 < 8.
Proof. destruct t as [x y]. unfold pod_tiles. rewrite elem_of_grid. simpl. lia. Qed.

Lemma root_in_pod : pod_root ∈ pod_tiles.
Proof. by apply elem_of_pod. Qed.

Lemma cnt_range n s t : pod_entered s t - 1 <= cnt n s t <= pod_entered s t.
Proof. unfold cnt. case_match; lia. Qed.

Lemma cnt_le n m s t : m <= n -> cnt n s t <= cnt m s t.
Proof. unfold cnt. destruct (Z.leb_spec n (stage (pod_pcs s t))), (Z.leb_spec m (stage (pod_pcs s t))); lia. Qed.

Lemma cnt_idle n s t : n <= 50 -> in_call (pod_pcs s t) = false -> cnt n s t = pod_entered s t.
Proof.
  unfold cnt, in_call. intros Hn H. rewrite (proj2 (Z.leb_le _ _)); [done|].
  apply Z.ltb_ge in H. lia.
Qed.

(** All tiles are in two consecutive calls. *)
Lemma counts_close s t : pod_inv s -> t ∈ pod_tiles ->
  released s <= relayed s (8, t.2) <= arrived s t /\ arrived s t <= pod_entered s t <= released s + 1.
Proof.
  intros I Ht. pose proof (proj1 (elem_of_pod t) Ht). pose proof (cnt_range 1 s t).
  pose proof (cnt_range 10 s t). pose proof (pi_relay _ I t Ht). pose proof (pi_release _ I t.2 ltac:(lia)).
  destruct (decide (t = pod_root)) as [->|Hne]; [lia|].
  pose proof (pi_lower _ I t Ht Hne). pose proof (pi_upper _ I t Ht). lia.
Qed.

Lemma val_inj r n : r - 1 <= n <= r -> val n = val r -> n = r.
Proof.
  intros Hn. unfold val. destruct (decide (n = r)) as [|Hne]; [done|].
  replace r with (Z.succ n) by lia. rewrite Z.odd_succ, <-Z.negb_odd. by destruct (Z.odd n).
Qed.

Lemma val_succ r : Z.lnot (val r) = val (r + 1).
Proof. unfold val. rewrite Z.add_1_r, Z.odd_succ, <-Z.negb_odd. by destruct (Z.odd r). Qed.

(** A word of four bytes is the sense of [r] when the four bytes are. *)
Lemma load_word_val (b : Z -> Z) (k r : Z) (n : Z -> Z) :
  (forall j, 0 <= j < 4 -> b (4 * k + j) = u8 (val (n j)) /\ r - 1 <= n j <= r) ->
  load_word b k = val r <-> forall j, 0 <= j < 4 -> n j = r.
Proof.
  intros H. assert (forall j, 0 <= j < 4 -> n j = r \/ n j = r - 1) as Hn.
  { intros j Hj. destruct (H j Hj). lia. }
  unfold load_word. rewrite <-(Z.add_0_r (4 * k)) at 1. rewrite !(fun j P => proj1 (H j P)) by lia.
  assert (val (r - 1) = -1 - val r) as Hv.
  { replace r with ((r - 1) + 1) at 2 by lia. rewrite <-val_succ, Z.lnot_eq_pred_opp. lia. }
  split.
  - intros E. assert (n 0 = r /\ n 1 = r /\ n 2 = r /\ n 3 = r) as HE.
    { destruct (Hn 0 ltac:(lia)) as [E0|E0], (Hn 1 ltac:(lia)) as [E1|E1], (Hn 2 ltac:(lia)) as [E2|E2],
        (Hn 3 ltac:(lia)) as [E3|E3]; [done|exfalso; revert E; rewrite E0, E1, E2, E3, ?Hv; unfold val;
        by destruct (Z.odd r)..]. }
    intros j Hj. assert (j = 0 \/ j = 1 \/ j = 2 \/ j = 3) as [->|[->|[->| ->]]] by lia; tauto.
  - intros E. rewrite !E by lia. unfold val. by destruct (Z.odd r).
Qed.

Lemma word_joined s t k : pod_inv s -> t ∈ pod_tiles -> t.1 = 8 -> 0 <= k < 4 ->
  stage (pod_pcs s t) = 1 ->
  load_word (row s t) k = pod_barrier_sense s t <-> joined s t k.
Proof.
  destruct t as [x y]. cbn [fst]. 
  intros I Ht -> Hk Hc. pose proof (proj1 (elem_of_pod _) Ht) as Hr. simpl in Hr.
  rewrite (pi_sense _ I _ Ht). unfold in_call, joined. rewrite Hc. change (1 <? 50) with true. cbv iota.
  assert (relayed s (8, y) = pod_entered s (8, y) - 1) as Er by (unfold cnt; by rewrite Hc).
  assert (forall j, 0 <= j < 4 -> (4 * j + k, y) ∈ pod_tiles /\
    pod_entered s (8, y) - 1 <= arrived s (4 * j + k, y) <= pod_entered s (8, y)) as Hj.
  { intros j Hj. assert ((4 * j + k, y) ∈ pod_tiles) as Hj' by (apply elem_of_pod; simpl; lia).
    split; [done|]. pose proof (counts_close s _ I Hj'). pose proof (counts_close s _ I Ht). simpl in *. lia. }
  rewrite (load_word_val _ k (pod_entered s (8, y)) (fun j => arrived s (4 * j + k, y))).
  - split; intros H j Hj4; specialize (H j Hj4); destruct (Hj j Hj4); simpl in *; lia.
  - intros j Hj4. destruct (Hj j Hj4) as [Hin ?]. split; [|done].
    rewrite <-(pi_row _ I _ Hin). simpl. f_equal. Z.to_euclidean_division_equations. lia.
Qed.

Lemma word_rows s k : pod_inv s -> 0 <= k < 2 -> stage (pod_pcs s pod_root) = 3 ->
  load_word (col s pod_root) k = pod_barrier_sense s pod_root <-> rows_joined s k.
Proof.
  intros I Hk Hc. pose proof root_in_pod as Ht.
  rewrite (pi_sense _ I _ Ht). unfold in_call, rows_joined. rewrite Hc. change (3 <? 50) with true. cbv iota.
  assert (released s = pod_entered s pod_root - 1) as Er by (unfold cnt; by rewrite Hc).
  assert (forall j, 0 <= j < 4 ->
    pod_entered s pod_root - 1 <= relayed s (8, 4 * k + j) <= pod_entered s pod_root) as Hj.
  { intros j Hj. assert ((8, 4 * k + j) ∈ pod_tiles) as Hj' by (apply elem_of_pod; simpl; lia).
    pose proof (counts_close s _ I Hj'). simpl in *. lia. }
  rewrite (load_word_val _ k (pod_entered s pod_root) (fun j => relayed s (8, 4 * k + j))).
  - split; intros H j Hj4; specialize (H j Hj4); specialize (Hj j Hj4); lia.
  - intros j Hj4. split; [|by apply Hj]. apply (pi_col _ I). lia.
Qed.

(** ** A step *)

Ltac pod_cases H :=
  unfold pod_step, pod_done, bsg_join4_relay, bsg_join2, bsg_wait_local_int_asm_blind in H;
  match type of H with context [pod_pcs ?s ?t] =>
    destruct (decide (t ∈ pod_tiles)) as [Ht|]; [|done];
    destruct (pod_pcs s t) as [| | |k tmp| |k tmp|k|[]|k| | |] eqn:Epc; cbv iota in H;
    repeat match type of H with
    | Some (pod_go _ (if (?k =? 0) then _ else _) _) = _ => destruct (k =? 0) eqn:?
    | Some (pod_go _ (if (?k =? 1) then _ else _) _) = _ => destruct (k =? 1) eqn:?
    | Some (pod_go _ (if (?k =? 2) then _ else _) _) = _ => destruct (k =? 2) eqn:?
    | (if ?b then _ else _) = _ => destruct b eqn:?
    | Some (if ?b then _ else _) = _ => destruct b eqn:?
    | (let '(_, _) := ?p in _) = _ => destruct p as [? ?] eqn:?
    end; try discriminate H; apply (inj Some) in H; subst; bprop
  end.

Ltac after_pod :=
  cbn [row col notify pod_barrier_sense pod_resv pod_pcs pod_entered pod_notified pod_console
       pod_go pod_begin pod_reserve store_row store_col store_notify invert_sense pod_emit].

Lemma step_in_pod t s s' : pod_step t s = Some s' -> t ∈ pod_tiles.
Proof. unfold pod_step. by case_decide. Qed.

Lemma pod_frame t s s' w : pod_step t s = Some s' -> w <> t ->
  pod_pcs s' w = pod_pcs s w /\ pod_entered s' w = pod_entered s w /\
  pod_barrier_sense s' w = pod_barrier_sense s w.
Proof. intros H Hne. pod_cases H; after_pod; by rewrite ?fn_lookup_insert_ne by congruence. Qed.

Lemma stage_next t e : stage (next_call t e) = 50.
Proof. unfold next_call. by repeat case_match. Qed.

Lemma stage_after t e : stage (after_call t e) = 50.
Proof. unfold after_call. case_decide; [done|apply stage_next]. Qed.

Lemma stage_after_wait t : stage (after_wait t) = if t.1 =? 7 then 30 else 40.
Proof. unfold after_wait, kPodBarrier_CenterX. change (8 - 1) with 7. by destruct (t.1 =? 7). Qed.

(** A tile goes on within its call, or begins the next one. *)
Lemma own_counts t s s' : pod_inv s -> pod_step t s = Some s' ->
  (pod_entered s' t = pod_entered s t /\ stage (pod_pcs s t) <= stage (pod_pcs s' t) <= 50) \/
  (pod_pcs s t = PCall /\ pod_entered s' t = pod_entered s t + 1 /\ pod_pcs s' t = PArrive).
Proof.
  intros I H. pose proof (pi_local _ I t (step_in_pod _ _ _ H)) as L. unfold local_ok, local_at in L.
  pod_cases H; after_pod; rewrite ?fn_lookup_insert; try (by right); left; (split; [done|]);
    rewrite ?stage_next, ?stage_after; repeat case_match; rewrite ?stage_after_wait;
    repeat case_match; simpl; lia.
Qed.

Lemma cnt_frame n t s s' w : pod_step t s = Some s' -> w <> t -> cnt n s' w = cnt n s w.
Proof. intros H Hne. destruct (pod_frame _ _ _ _ H Hne) as (E1 & E2 & _). unfold cnt. by rewrite E1, E2. Qed.

Lemma cnt_mono n t s s' w : pod_inv s -> pod_step t s = Some s' -> 1 <= n <= 50 ->
  cnt n s w <= cnt n s' w.
Proof.
  intros I H Hn. destruct (decide (w = t)) as [->|Hne]; [|by rewrite (cnt_frame _ _ _ _ _ H Hne)].
  destruct (own_counts _ _ _ I H) as [[E Hst]|(Epc & E & Epc')]; unfold cnt; rewrite E, ?Epc, ?Epc'; simpl.
  - destruct (Z.leb_spec n (stage (pod_pcs s t))), (Z.leb_spec n (stage (pod_pcs s' t))); lia.
  - rewrite (proj2 (Z.leb_le n 50)), (proj2 (Z.leb_gt n 0)) by lia. lia.
Qed.

(** The stores to [notify]. *)
Definition store_target t (pc : pod_pc) : option (Z * Z) :=
  match pc with
  | PWake k => Some (wake_target k)
  | PQuad k => Some (quad_x k, t.2)
  | PBuddy => Some (pod_barrier_buddy t)
  | _ => None
  end.

Lemma step_notify t s s' : pod_step t s = Some s' ->
  pod_notified s' = match store_target t (pod_pcs s t) with
    Some w => <[w := pod_entered s t]> (pod_notified s) | None => pod_notified s end /\
  notify s' = match store_target t (pod_pcs s t) with
    Some w => <[w := pod_barrier_sense s t]> (notify s) | None => notify s end /\
  (forall w, w <> t -> pod_resv s' w =
     if decide (store_target t (pod_pcs s t) = Some w) then false else pod_resv s w).
Proof.
  intros H. pod_cases H; after_pod; unfold store_target; split_and!; try done; intros w Hne;
    try (by rewrite decide_False by done).
  all: try (by rewrite fn_lookup_insert_ne, decide_False by congruence).
  all: rewrite insert_if; repeat case_decide; congruence.
Qed.

Lemma buddy_eq x y : pod_barrier_buddy (x, y) = (if x mod 4 =? 0 then x else x - 1, y).
Proof.
  unfold pod_barrier_buddy. change (Z.land x 3) with (Z.land x (Z.ones 2)).
  by rewrite Z.land_ones by lia.
Qed.

Lemma target_in t s w : t ∈ pod_tiles -> local_ok s t -> store_target t (pod_pcs s t) = Some w ->
  w ∈ pod_tiles.
Proof.
  intros Ht L E. unfold local_ok, local_at, store_target in *. apply elem_of_pod in Ht. apply elem_of_pod.
  destruct t as [x y]. destruct (pod_pcs s (x, y)); simplify_eq; cbn [fst snd] in *.
  - unfold wake_target, kPodBarrier_CenterX. destruct (Z.ltb_spec k 8); simpl; lia.
  - unfold quad_x. repeat case_match; lia.
  - rewrite buddy_eq. simpl. destruct (Z.eqb_spec (x mod 4) 0); [lia|].
    assert (x <> 0) by (by intros ->). lia.
Qed.

(** A tile that stores to a [notify] has been released. *)
Lemma store_released t s w : pod_inv s -> t ∈ pod_tiles -> store_target t (pod_pcs s t) = Some w ->
  pod_entered s t = released s.
Proof.
  intros I Ht E. pose proof (pi_local _ I t Ht) as L. unfold local_ok, local_at in L.
  assert (passed s t = pod_entered s t) as Ep.
  { unfold cnt. destruct (pod_pcs s t); try discriminate E; simpl; rewrite ?(proj2 (Z.leb_le _ _)); done || lia. }
  destruct (decide (t = pod_root)) as [->|Hne]; [done|].
  pose proof (counts_close s t I Ht). pose proof (pi_upper _ I t Ht). pose proof (pi_lower _ I t Ht Hne). lia.
Qed.

Lemma target_in_call t s w : pod_inv s -> t ∈ pod_tiles -> store_target t (pod_pcs s t) = Some w ->
  in_call (pod_pcs s t) = true.
Proof.
  intros I Ht E. pose proof (pi_local _ I t Ht) as L. unfold local_ok, local_at in L.
  unfold in_call. apply Z.ltb_lt. destruct (pod_pcs s t); try discriminate E; simpl; lia.
Qed.

Lemma target_stage t s w : pod_inv s -> t ∈ pod_tiles -> store_target t (pod_pcs s t) = Some w ->
  10 <= stage (pod_pcs s t).
Proof.
  intros I Ht E. pose proof (pi_local _ I t Ht) as L. unfold local_ok, local_at in L.
  destruct (pod_pcs s t); try discriminate E; simpl; lia.
Qed.

Lemma waker_ne t : t ∈ pod_tiles -> t <> pod_root -> (waker t).1 <> t.
Proof.
  intros Ht Hne. apply elem_of_pod in Ht. destruct t as [x y]. cbn [fst snd] in *. unfold waker.
  repeat case_match; bprop; cbn [fst]; intros E; try (by rewrite <-E in Hne); injection E; lia.
Qed.

Lemma waker_range t : t ∈ pod_tiles -> (waker t).1 ∈ pod_tiles /\ 11 <= (waker t).2 <= 50.
Proof.
  intros Ht. pose proof (proj1 (elem_of_pod t) Ht) as Hr. destruct t as [x y]. cbn [fst snd] in Hr.
  unfold waker. repeat case_match; bprop; (split; [|cbn [snd]; lia]); try apply root_in_pod;
    apply elem_of_pod; cbn [fst snd]; try lia.
  assert (x <> 15) by (by intros ->). lia.
Qed.

(** Who it is that stores to a tile. *)
Lemma target_waker t s s' w : pod_inv s -> pod_step t s = Some s' ->
  store_target t (pod_pcs s t) = Some w ->
  ((waker w).1 = t /\ sent_to s w = pod_entered s t - 1 /\ sent_to s' w = pod_entered s t) \/ w = t \/
  (w.1 = 8 /\ t = (9, w.2)).
Proof.
  intros I H E. pose proof (step_in_pod _ _ _ H) as Hr. pose proof (pi_local _ I t Hr) as L.
  apply elem_of_pod in Hr. unfold local_ok, local_at, sent_to, cnt in *. destruct t as [x y]. cbn [fst snd] in Hr.
  pod_cases H; try discriminate E; cbn [store_target fst snd] in E; apply (inj Some) in E; subst w; after_pod.
  1,2: left; destruct L as [Er Hk]; rewrite Er in *; unfold wake_target, waker, kPodBarrier_CenterX;
    destruct (Z.ltb_spec k 8); simpl; rewrite ?fn_lookup_insert, ?stage_after, ?Epc; simpl; bcase;
    split_and!; done || lia.
  - left. cbn [fst] in L. destruct L as [-> Hk]. unfold quad_x, waker.
    assert (k = 0 \/ k = 1 \/ k = 2) as [->|[->| ->]] by lia; simpl;
      rewrite ?fn_lookup_insert, ?Epc; simpl; split_and!; done || lia.
  - rewrite buddy_eq. destruct (Z.eqb_spec (x mod 4) 0) as [|Hm]; [by right; left|].
    destruct (decide (x = 9)) as [->|H9]; [by right; right|]. left.
    assert (waker (x - 1, y) = ((x, y), 50)) as ->.
    { unfold waker. rewrite !(proj2 (Z.eqb_neq _ _)) by (Z.to_euclidean_division_equations; lia).
      by rewrite Z.sub_add. }
    cbn [fst snd]. rewrite fn_lookup_insert, stage_after, Epc. simpl. split_and!; done || lia.
Qed.


(** Which points a step passes. *)
Lemma crossing n t s s' : pod_inv s -> pod_step t s = Some s' -> 11 <= n <= 50 ->
  cnt n s' t = cnt n s t \/
  match pod_pcs s t with
  | PWake k => n = 11 + k \/ (k = 15 /\ 26 < n)
  | PWait _ => n <= 30 \/ (t.1 <> 7 /\ n <= 40)
  | PQuad k => n = 31 + k \/ (k = 2 /\ 33 < n <= 40)
  | PBuddy => 40 < n
  | _ => False
  end.
Proof.
  intros I H Hn. pose proof (pi_local _ I t (step_in_pod _ _ _ H)) as L. unfold local_ok, local_at in L.
  unfold cnt in *.
  pod_cases H; after_pod; rewrite ?fn_lookup_insert, ?stage_next, ?stage_after;
    repeat match goal with |- context [if notify s t =? ?v then _ else _] => destruct (notify s t =? v) end;
    rewrite ?stage_after_wait; simpl.
  all: repeat match goal with |- context [if ?b then _ else _] => destruct b eqn:? end; bprop; simpl in *.
  all: repeat match goal with H : context [if ?b then _ else _] |- _ => destruct b eqn:? end; bprop; simpl in *.
  all: try (by left); try lia; right; lia.
Qed.

(** A tile leaves its wait when it has been notified in its own call. *)
Lemma wait_over t s s' : pod_inv s -> pod_step t s = Some s' -> t <> pod_root ->
  stage (pod_pcs s t) < 10 -> 10 <= stage (pod_pcs s' t) -> pod_notified s t = pod_entered s t.
Proof.
  intros I H Hne Hst Hst'. pose proof (step_in_pod _ _ _ H) as Hin.
  pose proof (pi_local _ I t Hin) as L. unfold local_ok in L.
  pose proof (counts_close s t I Hin). pose proof (pi_upper _ I t Hin). pose proof (pi_lower _ I t Hin Hne) as Lo.
  pose proof (cnt_range 10 s t). pose proof (pi_notify _ I t Hin) as N. pose proof (pi_sense _ I t Hin) as S.
  pose proof (pi_wait _ I t Hin) as W. unfold in_call in S.
  revert Hst Hst'. pod_cases H; after_pod; rewrite ?fn_lookup_insert, ?stage_next, ?stage_after; simpl; try lia.
  all: repeat match goal with |- context [stage (if ?b then _ else _)] => destruct b eqn:? end;
    rewrite ?stage_after_wait; bprop; simpl; try lia.
  all: try (simpl in L; lia).
  - by destruct L.
  - intros _ _. specialize (W eq_refl). by destruct (Z.eqb_spec (pod_notified s t) (pod_entered s t)).
  - intros _ _. simpl in S. apply val_inj; [lia|congruence].
Qed.

(** The tile of column 8 relays its row, and the root is done with its wait. *)
Lemma relays t s s' : pod_step t s = Some s' -> local_ok s t -> t.1 = 8 -> stage (pod_pcs s t) < 3 ->
  3 <= stage (pod_pcs s' t) -> pod_pcs s t = PRelay.
Proof.
  intros H L Hx. unfold local_ok in L. pod_cases H; after_pod; rewrite ?fn_lookup_insert; simpl in *; try lia; try done.
  all: rewrite ?Hx; change (8 =? kPodBarrier_CenterX) with true; simpl; try lia.
  all: match goal with |- context [stage (if ?b then _ else _)] => destruct b end; simpl; lia.
Qed.

Lemma joins t s s' : pod_step t s = Some s' -> local_ok s t -> t = pod_root -> stage (pod_pcs s t) < 10 ->
  10 <= stage (pod_pcs s' t) ->
  exists k tmp, pod_pcs s t = PJoin2 k tmp /\ k <> 0 /\ tmp = pod_barrier_sense s t /\
    load_word (col s t) 1 = pod_barrier_sense s t.
Proof.
  intros H L ->. unfold local_ok in L. pod_cases H; after_pod; rewrite ?fn_lookup_insert; simpl in *; try lia; try done.
  all: try match goal with |- context [stage (if ?b then _ else _)] => destruct b eqn:? end; bprop;
    simpl; intros; try lia; eauto 10.
Qed.

(** The root begins its stores when [bsg_join2] returns. *)
Lemma wake_begins t s s' : pod_step t s = Some s' -> waking s = false -> waking s' = true ->
  t = pod_root /\ pod_entered s' = pod_entered s /\ stage (pod_pcs s pod_root) = 3.
Proof.
  intros H Hw Hw'. unfold waking in *.
  destruct (decide (t = pod_root)) as [->|Hne];
    [|by destruct (pod_frame _ _ _ _ H (not_eq_sym Hne)) as (E & _); rewrite E, Hw in Hw'].
  split; [done|]. revert Hw'. pod_cases H; after_pod; rewrite ?fn_lookup_insert; try done;
    unfold after_call, next_call, after_wait; repeat case_match; done.
Qed.

Lemma sent_step t s s' w : pod_inv s -> pod_step t s = Some s' -> w ∈ pod_tiles -> w <> pod_root ->
  store_target t (pod_pcs s t) <> Some w -> sent_to s' w = sent_to s w.
Proof.
  intros I H Hw Hne Hst. unfold sent_to.
  destruct (decide ((waker w).1 = t)) as [Et|Hwt]; [|by rewrite (cnt_frame _ _ _ _ _ H Hwt)].
  apply elem_of_pod in Hw. destruct w as [x y]. cbn [fst snd] in Hw.
  pose proof (pi_local _ I t (step_in_pod _ _ _ H)) as L. unfold local_ok, local_at in L.
  unfold store_target in Hst. revert Et. unfold waker.
  destruct (Z.eqb_spec x 7) as [->|H7]; [|destruct (Z.eqb_spec x 8) as [->|H8];
    [|destruct (Z.eqb_spec (x mod 4) 3) as [H3|H3]]]; cbn [fst snd]; intros <-.
  - destruct (crossing (11 + y) _ _ _ I H) as [|C]; [lia|done|]. exfalso.
    destruct (pod_pcs s pod_root); try done; [|destruct L; done || lia..].
    destruct Hst. unfold wake_target, kPodBarrier_CenterX. by bcase; f_equal; f_equal; lia.
  - destruct (crossing (19 + y) _ _ _ I H) as [|C]; [lia|done|]. exfalso.
    destruct (pod_pcs s pod_root); try done; [|destruct L; done || lia..].
    destruct Hst. unfold wake_target, kPodBarrier_CenterX. by bcase; f_equal; f_equal; lia.
  - set (q := if x =? 3 then 0 else if x =? 11 then 1 else 2) in *.
    assert (0 <= q <= 2 /\ quad_x q = x) as [Hq Hx].
    { assert (x = 3 \/ x = 11 \/ x = 15) as [->|[->| ->]] by (Z.to_euclidean_division_equations; lia);
        by subst q. }
    destruct (crossing (31 + q) _ _ _ I H) as [|C]; [lia|done|]. exfalso.
    destruct (pod_pcs s (7, y)); try done; cbn [fst] in *; try lia; [by destruct L|].
    destruct Hst. replace k with q by lia. by rewrite Hx.
  - destruct (crossing 50 _ _ _ I H) as [|C]; [lia|done|]. exfalso.
    destruct (pod_pcs s (x + 1, y)); try done; cbn [fst] in *; try lia.
    + destruct L as [[= E] ?]. unfold kPodBarrier_CenterX in E. lia.
    + destruct Hst. rewrite buddy_eq, (proj2 (Z.eqb_neq _ _)) by (Z.to_euclidean_division_equations; lia).
      by rewrite Z.add_simpl_r.
Qed.

(** ** The invariant *)

Lemma local_next_call t e : e <= total -> local_at t (next_call t e) e.
Proof. intros He. unfold next_call. destruct (Z.ltb_spec e total); [done|]. case_decide; simpl; [split; [done|]|]; lia. Qed.

Lemma local_after_call t e : e <= total -> local_at t (after_call t e) e.
Proof. intros He. unfold after_call. case_decide; [done|by apply local_next_call]. Qed.

Lemma local_after_wait t e : t <> pod_root -> local_at t (after_wait t) e.
Proof. intros Ht. unfold after_wait, kPodBarrier_CenterX. destruct (Z.eqb_spec t.1 (8 - 1)); simpl; [lia|done]. Qed.

Lemma root_row t : t = pod_root <-> t.1 = 8 /\ t.2 = 4.
Proof.
  destruct t as [x y]. unfold pod_root, kPodBarrier_CenterX, kPodBarrier_CenterY. cbn [fst snd].
  split; [by intros [= -> ->]|by intros [-> ->]].
Qed.

Section preservation.
Context {s s' : pod_state} {t : Z * Z}.
Hypothesis I : pod_inv s.
Hypothesis step : prompt_step t s = Some s'.

Lemma prompt_pod : pod_step t s = Some s'.
Proof using step. clear I. unfold prompt_step in step. repeat case_match; congruence. Qed.

Lemma t_in : t ∈ pod_tiles.
Proof using step. eapply step_in_pod, prompt_pod. Qed.

Lemma pod_inv_local : forall w, w ∈ pod_tiles -> local_ok s' w.
Proof using I step.
  intros w Hw. pose proof prompt_pod as H. pose proof (pi_local _ I w Hw) as L.
  destruct (decide (w = t)) as [->|Hne].
  - pose proof (pi_range _ I t Hw) as R. pose proof (root_row t). clear step. unfold local_ok, in_call in *.
    pod_cases H; after_pod; rewrite ?fn_lookup_insert; rewrite ?Epc in L, R; simpl in L, R.
    all: first [apply local_after_call; lia|apply local_next_call; lia|idtac].
    all: try match goal with |- context [if ?b then _ else _] => destruct b eqn:? end; bprop;
      first [apply local_after_wait; by auto|idtac].
    all: simpl; unfold kPodBarrier_CenterX, kPodBarrier_CenterY in *;
      first [tauto|lia|split; [tauto|lia]|rewrite root_row; lia].
  - unfold local_ok. by destruct (pod_frame _ _ _ _ H Hne) as (-> & -> & _).
Qed.

Lemma inv_range : forall w, w ∈ pod_tiles ->
  (if in_call (pod_pcs s' w) then 1 else 0) <= pod_entered s' w <= total.
Proof using I step.
  intros w Hw. pose proof prompt_pod as H. pose proof (pi_range _ I w Hw) as R.
  destruct (decide (w = t)) as [->|Hne].
  - destruct (own_counts _ _ _ I H) as [[-> Hst]|(Epc & -> & ->)]; unfold in_call in *.
    + destruct (Z.ltb_spec (stage (pod_pcs s t)) 50), (Z.ltb_spec (stage (pod_pcs s' t)) 50); lia.
    + pose proof (pi_local _ I t Hw) as L. unfold local_ok in L. rewrite Epc in L, R. simpl in *. lia.
  - by destruct (pod_frame _ _ _ _ H Hne) as (-> & -> & _).
Qed.

Lemma inv_sense : forall w, w ∈ pod_tiles ->
  pod_barrier_sense s' w = val (if in_call (pod_pcs s' w) then pod_entered s' w else pod_entered s' w + 1).
Proof using I step.
  intros w Hw. pose proof prompt_pod as H. pose proof (pi_sense _ I w Hw) as S.
  destruct (decide (w = t)) as [->|Hne].
  - pose proof (pi_local _ I t Hw) as L. unfold local_ok in L. clear step. unfold in_call in *.
    pod_cases H; after_pod; rewrite ?fn_lookup_insert, ?stage_next, ?stage_after;
      rewrite ?Epc in S, L; simpl in S, L; try done.
    all: repeat match goal with |- context [stage (if ?b then _ else _)] => destruct b eqn:? end;
      rewrite ?stage_after_wait; try (case_match; done).
    all: rewrite ?S, ?val_succ; try done.
    all: cbn [stage]; bcase; try lia; try done.
  - by destruct (pod_frame _ _ _ _ H Hne) as (-> & -> & ->).
Qed.

Lemma inv_notify : forall w, w ∈ pod_tiles -> notify s' w = val (pod_notified s' w).
Proof using I step.
  intros w Hw. destruct (step_notify _ _ _ prompt_pod) as (-> & -> & _).
  destruct (store_target t (pod_pcs s t)) as [u|] eqn:E; [|by apply I]. rewrite !insert_if.
  case_decide; [|by apply I]. by rewrite (pi_sense _ I t t_in), (target_in_call _ _ _ I t_in E).
Qed.

Lemma released_mono : released s <= released s'.
Proof using I step. by eapply cnt_mono; [|apply prompt_pod|]. Qed.

Lemma inv_upper : forall w, w ∈ pod_tiles -> pod_notified s' w <= released s'.
Proof using I step.
  intros w Hw. pose proof released_mono. destruct (step_notify _ _ _ prompt_pod) as (-> & _).
  pose proof (pi_upper _ I w Hw).
  destruct (store_target t (pod_pcs s t)) as [u|] eqn:E; [|lia]. rewrite insert_if.
  case_decide; [|lia]. rewrite (store_released _ _ _ I t_in E). lia.
Qed.

Lemma inv_lower : forall w, w ∈ pod_tiles -> w <> pod_root -> passed s' w <= pod_notified s' w.
Proof using I step.
  intros w Hw Hne. pose proof prompt_pod as H. pose proof (pi_lower _ I w Hw Hne) as Lo.
  assert (pod_notified s w <= pod_notified s' w) as Hmono.
  { destruct (step_notify _ _ _ H) as (-> & _). destruct (store_target t (pod_pcs s t)) as [u|] eqn:E; [|done].
    rewrite insert_if. case_decide; [|done]. rewrite (store_released _ _ _ I t_in E).
    by apply (pi_upper _ I). }
  destruct (decide (w = t)) as [->|Hwt]; [|rewrite (cnt_frame _ _ _ _ _ H Hwt); lia].
  destruct (own_counts _ _ _ I H) as [[E Hst]|(Epc & E & Epc')]; revert Lo; unfold cnt; rewrite E.
  - destruct (Z.leb_spec 10 (stage (pod_pcs s t))), (Z.leb_spec 10 (stage (pod_pcs s' t))); try lia.
    (* the end of the wait *)
    intros _. assert (pod_notified s t = pod_entered s t) as En; [|lia].
    eapply wait_over; [done|apply H|done|lia|lia].
  - rewrite Epc, Epc'. simpl. lia.
Qed.

Lemma inv_sent : forall w, w ∈ pod_tiles -> w <> pod_root ->
  sent_to s' w <= pod_notified s' w /\ (w.1 <> 8 -> pod_notified s' w <= sent_to s' w).
Proof using I step.
  intros w Hw Hne. pose proof prompt_pod as H. destruct (pi_sent _ I w Hw Hne) as [S1 S2].
  destruct (step_notify _ _ _ H) as (-> & _). 
  destruct (decide (store_target t (pod_pcs s t) = Some w)) as [E|E].
  - rewrite E, fn_lookup_insert. pose proof (store_released _ _ _ I t_in E) as Er.
    pose proof (pi_upper _ I w Hw). pose proof (target_waker _ _ _ _ I H E) as T.
    destruct T as [(_ & _ & ->)|[->|[Hx ->]]]; [lia| |].
    + unfold sent_to in *. rewrite (cnt_frame _ _ _ _ _ H (waker_ne t Hw Hne)).
      split; [lia|]. intros H8. specialize (S2 H8). pose proof (pi_lower _ I t Hw Hne) as Lo.
      unfold cnt at 1 in Lo. pose proof (cnt_range 10 s t). 
      assert (10 <= stage (pod_pcs s t)) as Hst by (by eapply target_stage).
      rewrite (proj2 (Z.leb_le _ _) Hst) in Lo. lia.
    + unfold sent_to in *. destruct w as [x y]. simpl in Hx. subst x. cbn [waker Z.eqb Pos.eqb fst snd] in *.
      rewrite (cnt_frame _ _ _ _ _ H) by done. lia.
  - rewrite (sent_step _ _ _ _ I H Hw Hne E).
    destruct (store_target t (pod_pcs s t)) as [u|] eqn:Eu; [|done]. rewrite insert_if.
    case_decide; [by subst|done].
Qed.

(** A count of the tile that moves changes when the step passes the point. *)
Lemma cnt_passes n : 1 <= n <= 50 -> cnt n s' t = cnt n s t \/
  (stage (pod_pcs s t) < n <= stage (pod_pcs s' t) /\ cnt n s' t = pod_entered s t /\
   pod_entered s' t = pod_entered s t).
Proof using I step.
  intros Hn. destruct (own_counts _ _ _ I prompt_pod) as [[E Hst]|(Epc & E & Epc')]; unfold cnt; rewrite E.
  - destruct (Z.leb_spec n (stage (pod_pcs s t))), (Z.leb_spec n (stage (pod_pcs s' t))); try (left; lia).
    right. lia.
  - left. rewrite Epc, Epc'. simpl. rewrite (proj2 (Z.leb_le n 50)), (proj2 (Z.leb_gt n 0)) by lia. lia.
Qed.

Lemma entered_wake : waking s = true -> forall w, pod_entered s' w = pod_entered s w.
Proof using I step.
  intros Hw w. pose proof prompt_pod as H. destruct (decide (w = t)) as [->|Hne].
  - destruct (own_counts _ _ _ I H) as [[E _]|(Epc & _)]; [done|].
    unfold prompt_step in step. by rewrite Epc, Hw in step.
  - by destruct (pod_frame _ _ _ _ H Hne) as (_ & -> & _).
Qed.

Lemma inv_wake : waking s' = true -> forall w, w ∈ pod_tiles -> pod_entered s' w <= pod_entered s' pod_root.
Proof using I step.
  intros Hw' w Hw. destruct (waking s) eqn:Ewk.
  { rewrite !entered_wake by done. by apply (pi_wake _ I). }
  destruct (wake_begins _ _ _ prompt_pod Ewk Hw') as (_ & -> & Hst).
  pose proof (counts_close s w I Hw). unfold cnt in *. rewrite Hst in *. simpl in *. lia.
Qed.

Lemma inv_wait : forall w, w ∈ pod_tiles -> pod_pcs s' w = PWait true ->
  pod_resv s' w = negb (pod_notified s' w =? pod_entered s' w).
Proof using I step.
  intros w Hw Epc. pose proof prompt_pod as H. pose proof (pod_inv_local w Hw) as L.
  unfold local_ok in L. rewrite Epc in L. simpl in L.
  destruct (step_notify _ _ _ H) as (En & _ & Er). destruct (decide (w = t)) as [->|Hne].
  - pose proof (pi_notify _ I t Hw) as N. pose proof (pi_sense _ I t Hw) as S. clear step L Er.
    revert Epc En. pod_cases H; after_pod; rewrite ?fn_lookup_insert; intros Epc' En; try discriminate Epc';
      try (revert Epc'; unfold after_call, next_call, after_wait; repeat case_match; discriminate).
    destruct (Z.eqb_spec (notify s t) (pod_barrier_sense s t)) as [|Hv];
      [unfold after_wait in Epc'; destruct (t.1 =? kPodBarrier_CenterX - 1); discriminate Epc'|].
    symmetry. apply negb_true_iff, Z.eqb_neq. intros E. apply Hv. by rewrite N, S, E.
  - destruct (pod_frame _ _ _ _ H Hne) as (Ep & Ee & _). rewrite Ep in Epc.
    rewrite (Er w Hne), En, Ee. case_decide as Est; [|].
    + rewrite Est, fn_lookup_insert. symmetry. apply negb_false_iff, Z.eqb_eq.
      pose proof (store_released _ _ _ I t_in Est) as R. pose proof (counts_close s w I Hw).
      assert (passed s w = pod_entered s w - 1) as Ew by (unfold cnt; by rewrite Epc).
      pose proof (pi_lower _ I w Hw L). destruct (pi_sent _ I w Hw L) as [_ S2].
      destruct (target_waker _ _ _ _ I H Est) as [(Ht & Hs & _)|[->|[Hx Ht]]]; [|done|].
      * destruct (decide (w.1 = 8)) as [H8|H8]; [|specialize (S2 H8); lia].
        assert (t = pod_root) as Er' by (rewrite <-Ht; destruct w; simpl in H8; by subst).
        assert (waking s = true) as Hwk.
        { pose proof (pi_local _ I t t_in) as Lt. unfold local_ok in Lt. unfold waking.
          rewrite Er' in *. destruct (pod_pcs s pod_root); try discriminate Est; [done| |];
          simpl in Lt; [by destruct Lt|done]. }
        pose proof (pi_wake _ I Hwk w Hw). rewrite <-Er' in *. lia.
      * pose proof (pi_relay _ I t t_in) as Rl. pose proof (cnt_range 1 s t).
        assert ((8, t.2) = w) as Ew8 by (rewrite Ht; destruct w; simpl in Hx; by subst).
        rewrite Ew8 in Rl. unfold cnt in Rl at 1. rewrite Epc in Rl. simpl in Rl. lia.
    + rewrite (pi_wait _ I w Hw Epc). destruct (store_target t (pod_pcs s t)) as [u|]; [|done].
      rewrite insert_if. by case_decide; [subst|].
Qed.

Lemma inv_relay : forall w, w ∈ pod_tiles -> relayed s' (8, w.2) <= arrived s' w.
Proof using I step.
  intros w Hw. pose proof prompt_pod as H. pose proof (pi_relay _ I w Hw) as R.
  pose proof (cnt_mono 1 _ _ _ w I H ltac:(lia)).
  destruct (decide ((8, w.2) = t)) as [Et|Hne]; [|rewrite (cnt_frame _ _ _ _ _ H Hne); lia].
  rewrite Et in *. destruct (cnt_passes 3 ltac:(lia)) as [->|(Hst & -> & _)]; [lia|].
  assert (t.1 = 8) as Hx by (by rewrite <-Et).
  pose proof (pi_join _ I t t_in) as J. unfold join_ok in J. rewrite (relays _ _ _ H (pi_local _ I t t_in) Hx) in J by lia.
  apply elem_of_pod in Hw. destruct w as [x y]. cbn [fst snd] in *.
  specialize (J (x mod 4) ltac:(by apply Z.mod_pos_bound) (x / 4) ltac:(Z.to_euclidean_division_equations; lia)).
  rewrite <-Et in *. cbn [snd] in J. rewrite <-Z.div_mod in J by lia. lia.
Qed.

Lemma inv_release : forall y, 0 <= y < 8 -> released s' <= relayed s' (8, y).
Proof using I step.
  intros y Hy. pose proof prompt_pod as H. pose proof (pi_release _ I y Hy) as R.
  pose proof (cnt_mono 3 _ _ _ (8, y) I H ltac:(lia)).
  destruct (decide (pod_root = t)) as [Et|Hne]; [|rewrite (cnt_frame _ _ _ _ _ H Hne); lia].
  rewrite Et in *. destruct (cnt_passes 10 ltac:(lia)) as [->|(Hst & -> & _)]; [lia|].
  pose proof (pi_join _ I t t_in) as J. pose proof (pi_local _ I t t_in) as L.
  unfold join_ok, local_ok in J, L. rewrite <-Et in *.
  destruct (joins _ _ _ H L eq_refl) as (k & tmp & E & Hk & Htmp & Hw); [lia..|]. rewrite E in *. simpl in L.
  assert (rows_joined s 0) as J0 by (apply J; [lia|done]).
  assert (rows_joined s 1) as J1 by (apply word_rows; [done|lia|by rewrite E|done]).
  destruct (Z.le_gt_cases y 3).
  - specialize (J0 y ltac:(lia)). rewrite Z.add_0_l in J0. lia.
  - specialize (J1 (y - 4) ltac:(lia)). replace (4 * 1 + (y - 4)) with y in J1 by lia. lia.
Qed.

Lemma joined_mono w k : pod_entered s' w = pod_entered s w -> joined s w k -> joined s' w k.
Proof using I step.
  intros E J j Hj. rewrite E. specialize (J j Hj).
  pose proof (cnt_mono 1 _ _ _ (4 * j + k, w.2) I prompt_pod ltac:(lia)). lia.
Qed.

Lemma rows_joined_mono k : pod_entered s' pod_root = pod_entered s pod_root ->
  rows_joined s k -> rows_joined s' k.
Proof using I step.
  intros E J j Hj. rewrite E. specialize (J j Hj).
  pose proof (cnt_mono 3 _ _ _ (8, 4 * k + j) I prompt_pod ltac:(lia)). lia.
Qed.

Lemma inv_join : forall w, w ∈ pod_tiles -> join_ok s' w.
Proof using I step.
  intros w Hw. pose proof prompt_pod as H. pose proof (pi_join _ I w Hw) as J. unfold join_ok in *.
  assert (pod_entered s' w = pod_entered s w ->
    join_at (joined s w) (rows_joined s 0) (pod_barrier_sense s' w) (pod_pcs s' w) ->
    local_ok s' w -> join_at (joined s' w) (rows_joined s' 0) (pod_barrier_sense s' w) (pod_pcs s' w)) as M.
  { intros E M L. pose proof (fun k => joined_mono w k E). unfold local_ok, join_at in *.
    destruct (pod_pcs s' w); try done.
    - destruct M as [M1 M2]. split; [intros Hk; destruct (M1 Hk)|]; auto.
    - auto.
    - intros Hk Ht. destruct L as [-> _]. by apply rows_joined_mono; [|apply M]. }
  pose proof (pod_inv_local w Hw) as L'. destruct (decide (w = t)) as [->|Hne].
  - destruct (own_counts _ _ _ I H) as [[E _]|(_ & _ & ->)]; [|done]. apply M; [done| |done].
    pose proof (pi_local _ I t Hw) as L. unfold local_ok in L.
    pose proof (fun k => word_joined s t k I Hw) as W. pose proof (fun k => word_rows s k I) as W2.
    clear M E L' step. pod_cases H; after_pod; rewrite ?fn_lookup_insert;
      try (unfold after_call, next_call, after_wait; repeat case_match; done).
    1: by case_match; simpl; [split; [lia|intros [?|?]; lia]|].
    all: destruct L as [Hx Hk]; try pose proof (fun k P => proj1 (W k Hx P eq_refl)) as W1;
      try destruct J as [J1 J2].
    + split; [lia|]. intros _ E. by apply W1.
    + destruct (Z.eqb_spec tmp (pod_barrier_sense s t)) as [E1|],
        (Z.eqb_spec (load_word (row s t) 1) (pod_barrier_sense s t)) as [E2|]; simpl;
        (split; [intros ?|intros [?|?]]; try lia).
      subst k. split; [apply J2; [by left|done]|by apply W1].
    + subst k. split; [intros _; by apply J1|]. intros _ E. by apply W1.
    + destruct (Z.eqb_spec tmp (pod_barrier_sense s t)) as [E1|],
        (Z.eqb_spec (load_word (row s t) 3) (pod_barrier_sense s t)) as [E2|]; simpl;
        try (split; [intros _; apply J1; lia|intros [?|?]; lia]).
      assert (k = 3) as -> by lia. intros j Hj. destruct (J1 ltac:(lia)).
      assert (j = 0 \/ j = 1 \/ j = 2 \/ j = 3) as [->|[->|[->| ->]]] by lia; try done.
      * apply J2; [by right|done].
      * by apply W1.
    + intros _ E. subst t. by apply W2; [lia|rewrite Epc|].
  - destruct (pod_frame _ _ _ _ H Hne) as (Ep & Ee & Es). apply M; [done|by rewrite Ep, Es|done].
Qed.

Lemma step_row p i : row s' p i =
  if decide (pod_pcs s t = PArrive /\ pod_barrier_parent t = (p, i)) then u8 (pod_barrier_sense s t)
  else row s p i.
Proof using step.
  pose proof prompt_pod as H. clear step I. pod_cases H; after_pod; try (by rewrite decide_False by (intros [? _]; done)).
  destruct (decide _) as [[_ [= -> ->]]|Hn]; rewrite ?fn_lookup_insert; [done|].
  rewrite insert_if. case_decide; [subst|done]. rewrite insert_if. case_decide; [subst; by destruct Hn|done].
Qed.

Lemma step_col p i : col s' p i =
  if decide (pod_pcs s t = PRelay /\ pod_root = p /\ t.2 = i) then u8 (pod_barrier_sense s t)
  else col s p i.
Proof using step.
  pose proof prompt_pod as H. clear step I. pod_cases H; after_pod; try (by rewrite decide_False by (intros [? _]; done)).
  destruct (decide _) as [(_ & <- & <-)|Hn]; rewrite ?fn_lookup_insert; [done|].
  rewrite insert_if. case_decide; [subst|done]. rewrite insert_if. case_decide; [subst; by destruct Hn|done].
Qed.

Lemma inv_row : forall w, w ∈ pod_tiles ->
  row s' (8, w.2) (4 * (w.1 mod 4) + w.1 / 4) = u8 (val (arrived s' w)).
Proof using I step.
  intros w Hw. rewrite step_row. pose proof prompt_pod as H. pose proof t_in as Hin.
  pose proof (proj1 (elem_of_pod w) Hw) as Hwr. pose proof (proj1 (elem_of_pod t) Hin) as Htr.
  rewrite parent_eq by lia. case_decide as D.
  - destruct D as [Earr [= Ey Ei]]. assert (t = w) as <-.
    { destruct t as [x y], w as [x' y']. simpl in *. f_equal; [|done]. Z.to_euclidean_division_equations; lia. }
    rewrite (pi_sense _ I _ Hin), Earr. simpl. do 2 f_equal. symmetry.
    clear step. pod_cases H; after_pod; try congruence. unfold cnt. after_pod. rewrite fn_lookup_insert.
    by destruct (_ =? _).
  - rewrite (pi_row _ I _ Hw). do 2 f_equal. symmetry.
    destruct (decide (w = t)) as [->|Hne]; [|by apply (cnt_frame _ _ _ _ _ H)].
    destruct (cnt_passes 1 ltac:(lia)) as [->|(Hst & _)]; [done|]. destruct D.
    split; [|done]. pose proof (pi_local _ I _ Hin) as L. unfold local_ok in L.
    destruct (pod_pcs s t); simpl in *; done || lia.
Qed.

Lemma inv_col : forall y, 0 <= y < 8 -> col s' pod_root y = u8 (val (relayed s' (8, y))).
Proof using I step.
  intros y Hy. rewrite step_col. pose proof prompt_pod as H. pose proof t_in as Hin.
  pose proof (pi_local _ I _ Hin) as L. unfold local_ok in L.
  case_decide as D.
  - destruct D as (Earr & _ & <-). rewrite (pi_sense _ I _ Hin). rewrite Earr in *. simpl in *.
    assert ((8, t.2) = t) as Et by (destruct t; simpl in *; by subst). rewrite Et.
    do 2 f_equal. symmetry. clear step. pod_cases H; try discriminate Earr. unfold cnt. after_pod. rewrite fn_lookup_insert.
    by destruct (_ =? _).
  - rewrite (pi_col _ I _ Hy). do 2 f_equal. symmetry.
    destruct (decide ((8, y) = t)) as [E|Hne]; [|by apply (cnt_frame _ _ _ _ _ H)].
    rewrite E. destruct (cnt_passes 3 ltac:(lia)) as [->|(Hst & _)]; [done|]. destruct D.
    split; [|split; [done|by rewrite <-E]]. apply (relays _ _ _ H); [done|by rewrite <-E|lia|lia].
Qed.

Lemma pod_inv_prompt : pod_inv s'.
Proof using I step.
  split; [exact pod_inv_local|exact inv_range|exact inv_join|exact inv_sense|exact inv_row|exact inv_col
    |exact inv_notify|exact inv_relay|exact inv_release|exact inv_upper|exact inv_lower|exact inv_sent
    |exact inv_wait|exact inv_wake].
Qed.
End preservation.

#[local] Instance prompt_lts : Lts pod_state (Z * Z) :=
  { lts_init := pod_init; lts_step := prompt_step }.

Lemma pod_inv_init s : 0 <= total -> pod_init s -> pod_inv s.
Proof.
  intros Htot [Hs _].
  assert (forall t n, t ∈ pod_tiles -> n <= 50 -> cnt n s t = 0) as Hc.
  { intros t n Ht Hn. destruct (Hs t Ht) as (Epc & Ee & _). rewrite cnt_idle; [done|done|].
    unfold in_call. by rewrite Epc, stage_after. }
  assert (forall y, 0 <= y < 8 -> (8, y) ∈ pod_tiles) as Hcol by (intros; apply elem_of_pod; simpl; lia).
  assert (forall t, t ∈ pod_tiles -> (8, t.2) ∈ pod_tiles) as Hrow
    by (intros t Ht; apply Hcol; by apply elem_of_pod in Ht as [_ ?]).
  split; intros; unfold local_ok, join_ok, in_call, sent_to.
  - destruct (Hs t H) as (-> & -> & _). by apply local_after_call.
  - destruct (Hs t H) as (-> & -> & _). by rewrite stage_after.
  - destruct (Hs t H) as (-> & _). unfold after_call, next_call. by repeat case_match.
  - destruct (Hs t H) as (-> & -> & _ & _ & -> & _). by rewrite stage_after.
  - destruct (Hs (8, t.2)) as (_ & _ & _ & _ & _ & Er & _); [by apply Hrow|]. by rewrite Er, Hc.
  - destruct (Hs _ root_in_pod) as (_ & _ & _ & _ & _ & _ & Ec). by rewrite Ec, Hc by (done || by apply Hcol).
  - by destruct (Hs t H) as (_ & _ & -> & -> & _).
  - by rewrite !Hc by (done || by apply Hrow).
  - by rewrite !Hc by (done || by apply Hcol || apply root_in_pod).
  - destruct (Hs t H) as (_ & _ & -> & _). by rewrite Hc by (done || apply root_in_pod).
  - destruct (Hs t H) as (_ & _ & -> & _). by rewrite Hc.
  - destruct (Hs t H) as (_ & _ & -> & _). destruct (waker_range t H) as [Hw Hn]. by rewrite Hc by (done || lia).
  - exfalso. destruct (Hs t H) as (Epc & _). rewrite Epc in H0. revert H0. unfold after_call, next_call.
    by repeat case_match.
  - destruct (Hs t H0) as (_ & -> & _). by destruct (Hs _ root_in_pod) as (_ & -> & _).
Qed.

Lemma prompt_inv s : 0 <= total -> reachable s -> pod_inv s.
Proof.
  intros Ht. apply invariant_reachable; [intros s0; by apply pod_inv_init|].
  intros s0 t s1 I H. by eapply pod_inv_prompt.
Qed.

(** ** Progress *)

(** How far a tile has come in a call: what is known to be there counts. *)
Definition step_no (sense : Z) (pc : pod_pc) : Z :=
  match pc with
  | PArrive => 0
  | PJoin k tmp => if k =? 0 then 2 else if k =? 1 then (if tmp =? sense then 3 else 1)
                   else if k =? 2 then 5 else if tmp =? sense then 6 else 4
  | PRelay => 7
  | PJoin2 k tmp => if k =? 0 then 9 else if tmp =? sense then 10 else 8
  | PWake k => 11 + k
  | PWait aq => if aq then 28 else 27
  | PQuad k => 30 + k
  | PBuddy => 40
  | PPrint => 50
  | PCall => 51
  | PFinish => 52
  | PEnd => 53
  end.

Definition pod_pos s t : Z := 100 * pod_entered s t + step_no (pod_barrier_sense s t) (pod_pcs s t).

Definition pod_left s : Z := sum_over (fun t => 100 * total + 60 - pod_pos s t) pod_tiles.

(** The tiles that wait for others, and those that are done. *)
Definition stuck s t : bool :=
  match pod_pcs s t with
  | PEnd => true
  | PWait true => pod_resv s t
  | PJoin _ _ => negb (forallb (fun k => load_word (row s t) k =? pod_barrier_sense s t) [0; 1; 2; 3])
  | PJoin2 _ _ => negb (forallb (fun k => load_word (col s t) k =? pod_barrier_sense s t) [0; 1])
  | _ => false
  end.

Lemma pod_pos_range s t : pod_inv s -> t ∈ pod_tiles -> 0 <= pod_pos s t <= 100 * total + 60.
Proof.
  intros I Ht. pose proof (pi_range _ I t Ht) as R. pose proof (pi_local _ I t Ht) as L.
  unfold local_ok, local_at, pod_pos, step_no in *.
  destruct (pod_pcs s t); repeat case_match; lia.
Qed.

Lemma step_no_calls v t e : 51 <= step_no v (next_call t e) /\ 50 <= step_no v (after_call t e) /\
  30 <= step_no v (after_wait t).
Proof.
  unfold after_call, next_call, after_wait.
  destruct (e <? total), (decide (t = (0, 0))), (t.1 =? kPodBarrier_CenterX - 1); simpl; lia.
Qed.

Lemma unstuck_moves s t : pod_inv s -> t ∈ pod_tiles -> stuck s t = false ->
  exists s', pod_step t s = Some s' /\ pod_pos s t < pod_pos s' t.
Proof.
  intros I Ht Hs. pose proof (pi_local _ I t Ht) as L. unfold local_ok, local_at in L.
  unfold stuck in Hs. unfold pod_step, pod_pos, pod_done, bsg_join4_relay, bsg_join2, bsg_wait_local_int_asm_blind.
  rewrite decide_True by done.
  pose proof (step_no_calls (pod_barrier_sense s t) t (pod_entered s t)) as N.
  pose proof (step_no_calls (Z.lnot (pod_barrier_sense s t)) t (pod_entered s t)) as N'.
  destruct (pod_pcs s t) as [| | |k tmp| |k tmp|k|[]|k| | |] eqn:Epc; try discriminate Hs.
  3: destruct (pod_barrier_parent t) as [p i].
  4: destruct L as [_ Hk]; assert (k = 0 \/ k = 1 \/ k = 2 \/ k = 3) as [->|[->|[->| ->]]] by lia.
  9: destruct L as [_ Hk]; assert (k = 0 \/ k = 1) as [->| ->] by lia.
  12: rewrite Hs.
  all: try (apply negb_false_iff in Hs; simpl in Hs; bprop).
  all: eexists; (split; [reflexivity|]); repeat match goal with |- context [(if ?b then pod_go _ _ _ else _)] => destruct b eqn:? end;
    after_pod; rewrite ?fn_lookup_insert.
  all: rewrite ?(proj2 (Z.eqb_eq _ _)) by eassumption; simpl.
  all: try (repeat case_match; bprop; simpl in *; try congruence; lia).
Qed.

(** How far from the root the notification of a tile starts. *)
Definition depth t : Z :=
  if (t.1 =? 7) || (t.1 =? 8) then 0 else if t.1 mod 4 =? 3 then 1 else 5 - t.1 mod 4.

Lemma waker_depth t : (waker t).1 <> pod_root -> 0 <= depth (waker t).1 < depth t.
Proof.
  destruct t as [x y]. unfold waker, depth. destruct (Z.eqb_spec x 7) as [->|H7]; [done|].
  destruct (Z.eqb_spec x 8) as [->|H8]; [done|]. destruct (Z.eqb_spec (x mod 4) 3) as [H3|H3]; cbn [fst snd]; intros _.
  - rewrite (proj2 (Z.eqb_neq x 7)), (proj2 (Z.eqb_neq x 8)), (proj2 (Z.eqb_eq _ _) H3) by done. simpl. lia.
  - rewrite (proj2 (Z.eqb_neq x 7)), (proj2 (Z.eqb_neq x 8)), (proj2 (Z.eqb_neq _ _) H3) by done. simpl.
    destruct (Z.eqb_spec (x + 1) 7), (Z.eqb_spec (x + 1) 8), (Z.eqb_spec ((x + 1) mod 4) 3); simpl;
      Z.to_euclidean_division_equations; lia.
Qed.

Section stuck.
Context {s : pod_state}.
Hypothesis I : pod_inv s.
Hypothesis all_stuck : forall t, t ∈ pod_tiles -> stuck s t = true.

(** A tile of the call before would have been woken. *)
Lemma stuck_wait t : t ∈ pod_tiles -> pod_pcs s t = PWait true -> pod_entered s t = released s + 1.
Proof using I all_stuck.
  intros Ht Epc. remember (Z.to_nat (depth t)) as d eqn:Ed. revert t Ht Epc Ed.
  induction (lt_wf d) as [d _ IH]. intros t Ht Epc ->.
  pose proof (counts_close s t I Ht) as C. destruct (decide (pod_entered s t = released s + 1)) as [|Hne]; [done|].
  exfalso. pose proof (pi_local _ I t Ht) as L. unfold local_ok in L. rewrite Epc in L. simpl in L.
  pose proof (pi_wait _ I t Ht Epc) as W. pose proof (all_stuck t Ht) as S. unfold stuck in S. rewrite Epc, W in S.
  apply negb_true_iff, Z.eqb_neq in S. pose proof (pi_lower _ I t Ht L) as Lo. pose proof (cnt_range 10 s t).
  pose proof (pi_upper _ I t Ht) as U. destruct (pi_sent _ I t Ht L) as [Sn _].
  destruct (waker_range t Ht) as [Hw Hn]. unfold sent_to in Sn. set (w := (waker t).1) in *.
  pose proof (counts_close s w I Hw) as Cw. pose proof (cnt_range (waker t).2 s w).
  pose proof (all_stuck w Hw) as Sw. pose proof (pi_local _ I w Hw) as Lw. unfold local_ok in Lw.
  assert (released s <= cnt (waker t).2 s w) as Hs; [|lia].
  unfold stuck in Sw. destruct (decide (w = pod_root)) as [Ew|Ew].
  - rewrite Ew in *. unfold cnt. destruct (pod_pcs s pod_root) as [| | | | | | |[]| | | |]; try done; simpl;
      repeat case_match; bprop; lia.
  - destruct (pod_pcs s w) as [| | |k tmp| |k tmp|k|[]|k| | |] eqn:Ew'; try done.
    + exfalso. destruct Lw as [Hx _]. subst w. destruct t as [x y]. unfold waker in Hx, Ew.
      repeat case_match; bprop; cbn [fst] in *; try done. lia.
    + by destruct Lw.
    + assert (pod_entered s w = released s + 1) as Ee.
      { eapply IH; [|exact Hw|exact Ew'|reflexivity]. pose proof (waker_depth t Ew). fold w in H1. lia. }
      unfold cnt at 2. rewrite Ew'. rewrite (proj2 (Z.leb_gt _ _)) by (simpl; lia). lia.
    + unfold cnt at 2. rewrite Ew'. rewrite (proj2 (Z.leb_le _ _)) by (simpl; lia). lia.
Qed.

Lemma stuck_end t : t ∈ pod_tiles -> pod_pcs s t = PEnd.
Proof using I all_stuck.
  assert (forall t, t ∈ pod_tiles -> pod_pcs s t = PEnd \/
    (pod_pcs s t <> PEnd /\ pod_entered s t = released s + 1)) as Hcl.
  { intros u Hu. pose proof (all_stuck u Hu) as S. pose proof (pi_local _ I u Hu) as L. unfold local_ok in L.
    pose proof (counts_close s u I Hu) as C. unfold stuck in S.
    destruct (pod_pcs s u) as [| | | | | | |[]| | | |] eqn:Epc; try done; try (by left); right; (split; [done|]).
    - destruct L as [Hx _]. assert ((8, u.2) = u) as Eu by (destruct u; simpl in *; by subst).
      rewrite Eu in C. unfold cnt in C at 2. rewrite Epc in C. simpl in C. lia.
    - destruct L as [-> _]. unfold cnt. rewrite Epc. simpl. lia.
    - by apply stuck_wait. }
  intros Ht. destruct (Hcl t Ht) as [|[_ Et]]; [done|exfalso].
  (* everybody has arrived *)
  assert (released s < total) as HR by (pose proof (pi_range _ I t Ht); lia).
  assert (forall u, u ∈ pod_tiles -> pod_entered s u = released s + 1) as He.
  { intros u Hu. destruct (Hcl u Hu) as [E|[_ ?]]; [|done]. pose proof (pi_local _ I u Hu) as L.
    unfold local_ok in L. rewrite E in L. simpl in L. pose proof (counts_close s u I Hu). lia. }
  assert (forall u, u ∈ pod_tiles -> 1 <= stage (pod_pcs s u)) as Hst.
  { intros u Hu. pose proof (all_stuck u Hu) as S. unfold stuck in S.
    destruct (pod_pcs s u) as [| | | | | | |[]| | | |]; try done; simpl; lia. }
  assert (forall u k, u ∈ pod_tiles -> u.1 = 8 -> 0 <= k < 4 -> joined s u k) as HJ.
  { intros u k Hu Hx Hk j Hj. assert ((4 * j + k, u.2) ∈ pod_tiles) as Hin.
    { apply elem_of_pod. apply elem_of_pod in Hu. simpl. lia. }
    unfold cnt. rewrite (proj2 (Z.leb_le _ _) (Hst _ Hin)), !He by done. lia. }
  (* so every row has been relayed *)
  assert (forall u, u ∈ pod_tiles -> u.1 = 8 -> 3 <= stage (pod_pcs s u)) as Hst3.
  { intros u Hu Hx. pose proof (all_stuck u Hu) as S. unfold stuck in S.
    destruct (pod_pcs s u) as [| | |k tmp| | | |[]| | | |] eqn:Epc; try done; simpl; try lia. exfalso.
    apply negb_true_iff, not_true_iff_false in S. apply S. clear S. apply forallb_forall. intros j Hj.
    apply Z.eqb_eq. apply word_joined; try done; [simpl in Hj; lia|by rewrite Epc|].
    apply HJ; try done. simpl in Hj. lia. }
  (* and the root goes on *)
  pose proof (all_stuck _ root_in_pod) as S. pose proof (He _ root_in_pod) as Er.
  pose proof (Hst3 _ root_in_pod eq_refl) as H3. unfold stuck in S. unfold cnt in Er.
  pose proof (pi_local _ I _ root_in_pod) as L. unfold local_ok in L.
  destruct (pod_pcs s pod_root) as [| | | | |k tmp| |[]| | | |] eqn:Epc; try done; simpl in H3; try lia.
  - apply negb_true_iff, not_true_iff_false in S. apply S. clear S. apply forallb_forall. intros j Hj.
    apply Z.eqb_eq. assert (0 <= j < 2) by (simpl in Hj; lia).
    apply word_rows; [done|done|by rewrite Epc|]. intros i Hi.
    assert ((8, 4 * j + i) ∈ pod_tiles) as Hin by (apply elem_of_pod; simpl; lia).
    unfold cnt. rewrite (proj2 (Z.leb_le _ _) (Hst3 _ Hin eq_refl)), (He _ Hin), (He _ root_in_pod). lia.
  - simpl in Er. lia.
Qed.
End stuck.

Lemma prompt_progress s : pod_inv s ->
  (forall t, t ∈ pod_tiles -> pod_pcs s t = PEnd) \/
  exists t, t ∈ pod_tiles /\ stuck s t = false /\ (waking s = true -> t = pod_root).
Proof.
  intros I. destruct (waking s) eqn:Ew.
  { right. exists pod_root. split; [apply root_in_pod|]. split; [|done].
    unfold waking, stuck in *. by destruct (pod_pcs s pod_root). }
  destruct (decide (Forall (fun t => stuck s t = true) pod_tiles)) as [HF|HF].
  - left. rewrite Forall_forall in HF. by apply stuck_end.
  - right. apply not_Forall_Exists in HF; [|intros t; apply _].
    apply Exists_exists in HF as (t & Ht & Hst). exists t. split; [done|].
    split; [by apply not_true_is_false|done].
Qed.

Lemma prompt_completes s : pod_inv s ->
  can_reach (.∈ pod_tiles) s (fun s' => forall t, t ∈ pod_tiles -> pod_pcs s' t = PEnd).
Proof.
  revert s. apply (can_reach_measure _ _ _ pod_left).
  - intros s I. apply sum_over_nonneg. intros t Ht. pose proof (pod_pos_range s t I Ht). lia.
  - intros s I. destruct (prompt_progress s I) as [?|(t & Ht & Hs & Hw)]; [by left|right].
    destruct (unstuck_moves s t I Ht Hs) as (s' & E & Hpos).
    assert (prompt_step t s = Some s') as E'.
    { unfold prompt_step. destruct (waking s) eqn:Ew; [|by destruct (pod_pcs s t)].
      rewrite (Hw eq_refl) in *. unfold waking in Ew. by destruct (pod_pcs s pod_root). }
    exists t, s'. split_and!; [done|done|by eapply pod_inv_prompt|].
    apply (sum_over_lt _ _ _ t); [|done|lia]. intros u Hu.
    destruct (decide (u = t)) as [->|Hne]; [lia|]. unfold pod_pos.
    destruct (pod_frame _ _ _ _ E Hne) as (-> & -> & ->). lia.
Qed.

(** ** What tile 0 prints *)

Definition console_of (pc : pod_pc) (e : Z) : list packet :=
  replicate (Z.to_nat (e + match pc with PCall | PFinish | PEnd => 1 | _ => 0 end)) (PrintInt 0xFACADE) ++
  match pc with PEnd => [Finished] | _ => [] end.

Definition console_ok s : Prop := pod_console s = console_of (pod_pcs s (0, 0)) (pod_entered s (0, 0)).

Lemma console_call t e : t = (0, 0) ->
  replicate (Z.to_nat (e + 1)) (PrintInt 0xFACADE) = console_of (next_call t e) e /\
  replicate (Z.to_nat e) (PrintInt 0xFACADE) = console_of (after_call t e) e.
Proof.
  intros ->. unfold after_call, next_call, console_of. rewrite !decide_True by done.
  destruct (e <? total); rewrite ?app_nil_r, ?Z.add_0_r; done.
Qed.

Lemma pod_console_step s t s' : pod_inv s -> pod_step t s = Some s' -> console_ok s -> console_ok s'.
Proof.
  intros I H C. pose proof (pi_local _ I t (step_in_pod _ _ _ H)) as L. unfold local_ok in L.
  pose proof (pi_range _ I t (step_in_pod _ _ _ H)) as R. unfold console_ok in *.
  destruct (decide ((0, 0) = t)) as [Et|Hne].
  - rewrite Et in *. assert (0 <= pod_entered s t) as He by (destruct (in_call (pod_pcs s t)); lia).
    destruct (console_call t (pod_entered s t) (eq_sym Et)) as [N A].
    pod_cases H; after_pod; rewrite ?fn_lookup_insert, C, <-?N, <-?A; unfold console_of, after_wait;
      repeat match goal with |- context [match (if ?b then _ else _) with _ => _ end] => destruct b end;
      rewrite ?app_nil_r, ?Z.add_0_r; try done.
    rewrite Z.add_1_r, Z2Nat.inj_succ, replicate_S_end by lia. done.
  - destruct (pod_frame _ _ _ _ H Hne) as (-> & -> & _). rewrite <-C.
    pod_cases H; after_pod; try done; simpl in L; intuition congruence.
Qed.

(** ** Theorems *)

(** The calls a tile has returned from. *)
Definition pod_returned s t : Z := if in_call (pod_pcs s t) then pod_entered s t - 1 else pod_entered s t.

Lemma returned_cnt s t : pod_returned s t <= passed s t.
Proof.
  unfold pod_returned, cnt, in_call.
  destruct (Z.ltb_spec (stage (pod_pcs s t)) 50), (Z.leb_spec 10 (stage (pod_pcs s t))); lia.
Qed.

(** In every interleaving in which the root has made its sixteen stores before a tile
    begins another call: no tile returns from its [k]-th call of [bsg_pod_barrier] before every
    tile of the pod has begun its [k]-th; and every tile can still return from all its calls, after
    which tile 0 has printed once before each call and once at the end. *)
Lemma pod_barrier_holds s :
  0 <= total -> reachable s ->
  (forall t t', t ∈ pod_tiles -> t' ∈ pod_tiles -> pod_returned s t <= pod_entered s t') /\
  can_reach (.∈ pod_tiles) s (fun s' =>
    (forall t, t ∈ pod_tiles -> pod_pcs s' t = PEnd /\ pod_returned s' t = total) /\
    pod_console s' = replicate (S (Z.to_nat total)) (PrintInt 0xFACADE) ++ [Finished]).
Proof.
  intros Htot Hs. pose proof (prompt_inv s Htot Hs) as I. split.
  - intros t t' Ht Ht'. pose proof (returned_cnt s t). pose proof (counts_close s t' I Ht').
    destruct (decide (t = pod_root)) as [->|Hne]; [lia|].
    pose proof (pi_lower _ I t Ht Hne). pose proof (pi_upper _ I t Ht). lia.
  - eapply can_reach_weaken, (can_reach_reachable _ _ _ Hs (prompt_completes s I)); [done|].
    intros s' [Hs' Hend]. pose proof (prompt_inv s' Htot Hs') as I'.
    assert (forall t, t ∈ pod_tiles -> pod_entered s' t = total) as He.
    { intros t Ht. pose proof (pi_local _ I' t Ht) as L. unfold local_ok in L. by rewrite (Hend t Ht) in L. }
    assert (console_ok s') as C.
    { apply (invariant_reachable (fun s => pod_inv s /\ console_ok s)); [| |done].
      - intros s0 H0. split; [by apply pod_inv_init|]. destruct H0 as [H0 Hc]. unfold console_ok.
        destruct (H0 (0, 0)) as (-> & -> & _); [by apply elem_of_pod|]. rewrite Hc.
        by apply (console_call (0, 0) 0).
      - intros s0 t s1 [I0 C0] H. split; [by eapply pod_inv_prompt|].
        eapply pod_console_step; [exact I0|exact (prompt_pod H)|done]. }
    split; [intros t Ht; unfold pod_returned; by rewrite Hend, He|].
    assert ((0, 0) ∈ pod_tiles) as H0 by (by apply elem_of_pod).
    rewrite C, Hend, He by done. unfold console_of. by rewrite Z.add_1_r, Z2Nat.inj_succ.
Qed.
End pod.

(** *** The six calls of the test *)

Definition pod_start : pod_state :=
  {| row := fun _ _ => 0; col := fun _ _ => 0; notify := fun _ => 0; pod_barrier_sense := fun _ => -1;
     pod_resv := fun _ => false; pod_pcs := fun t => after_call 6 t 0; pod_entered := fun _ => 0;
     pod_notified := fun _ => 0; pod_console := [] |}.

(** Round 1 up to the eighth store of the root ... *)
Definition overtaking : list (Z * Z) :=
  let all := pod_tiles in
  let row0 := (fun x => (x, 0)) <$> [7; 7; 7; 7; 7; 15; 15; 14; 14; 13; 13; 12; 12; 11; 11; 10; 10; 9; 9; 8; 8] in
  let centres := (fun y => (8, y)) <$> seqZ 0 8 in
  (0, 0) :: all ++ all ++ mjoin (replicate 5 centres) ++ replicate 2 pod_root ++ replicate 8 pod_root ++
  row0 ++ ((fun x => (x, 0)) <$> [3; 3; 2; 2; 1; 1; 0; 0; 6; 6; 5; 5; 4; 4; 0]) ++
  (* and the second round of row 0 *)
  ((fun x => (x, 0)) <$> seqZ 0 16) ++ ((fun x => (x, 0)) <$> seqZ 0 16) ++ replicate 7 (8, 0) ++
  [pod_root] ++ replicate 2 (8, 0).

Lemma pod_start_init : pod_init 6 pod_start.
Proof. split; [|done]. intros t _. by repeat split. Qed.

Lemma overtaking_end :
  let s := @run_skip _ _ (pod_lts 6) overtaking pod_start in
  pod_returned s (8, 0) = 2 /\ pod_entered s (0, 7) = 1.
Proof. split; vm_compute; reflexivity. Qed.

Lemma overtaking_reachable : @reachable _ _ (pod_lts 6) (@run_skip _ _ (pod_lts 6) overtaking pod_start).
Proof. apply run_skip_reachable. constructor. apply pod_start_init. Qed.

(** A late root. *)
Lemma pod_barrier_overtakes :
  exists s t t', @reachable _ _ (pod_lts 6) s /\ t ∈ pod_tiles /\ t' ∈ pod_tiles /\
    pod_returned s t = 2 /\ pod_entered s t' = 1.
Proof.
  pose proof overtaking_end as E. pose proof overtaking_reachable as R. cbv zeta in E. revert E R.
  generalize (@run_skip _ _ (pod_lts 6) overtaking pod_start). intros s [E1 E2] R.
  exists s, (8, 0), (0, 7). split_and!; [done|by apply elem_of_pod|by apply elem_of_pod|done|done].
Qed.

(** C7 (safety).  In every interleaving in which the root has made its sixteen stores before a tile
    begins another call: no tile returns from its [k]-th call of [bsg_pod_barrier] before every
    tile of the pod has begun its [k]-th; and every tile can still return from all its calls, after
    which tile 0 has printed once before each call and once at the end.

    Without that restriction the barrier is not one.  A tile of column 8 may be woken in the first
    call by its right neighbour instead of the root; if the root is late with its own store, that
    store wakes the tile in the second call, and the blind wait takes it for the second
    notification: in an interleaving of the six calls of the test, a tile returns from its second
    call while others are still in their first. *)
Theorem pod_barrier_correct :
  (forall total s, 0 <= total -> @reachable _ _ (prompt_lts total) s ->
     (forall t t', t ∈ pod_tiles -> t' ∈ pod_tiles -> pod_returned s t <= pod_entered s t') /\
     @can_reach _ _ (prompt_lts total) (.∈ pod_tiles) s (fun s' =>
       (forall t, t ∈ pod_tiles -> pod_pcs s' t = PEnd /\ pod_returned s' t = total) /\
       pod_console s' = replicate (S (Z.to_nat total)) (PrintInt 0xFACADE) ++ [Finished])) /\
  (exists s t t', @reachable _ _ (pod_lts 6) s /\ t ∈ pod_tiles /\ t' ∈ pod_tiles /\
     pod_returned s t = 2 /\ pod_entered s t' = 1).
Proof. split; [exact pod_barrier_holds|exact pod_barrier_overtakes]. Qed.

(** Tile (0,0) has arrived. *)
Lemma pod_barrier_correct_witness :
  let s := @run_skip _ _ (prompt_lts 6) [(0, 0); (0, 0); (0, 0)] pod_start in
  pod_returned s (0, 0) <= pod_entered s (15, 7) /\
  @can_reach _ _ (prompt_lts 6) (.∈ pod_tiles) s (fun s' =>
    (forall t, t ∈ pod_tiles -> pod_pcs s' t = PEnd /\ pod_returned s' t = 6) /\
    pod_console s' = replicate 7 (PrintInt 0xFACADE) ++ [Finished]).
Proof.
  intros s.
  assert (@reachable _ _ (prompt_lts 6) s) as R
    by (apply run_skip_reachable; constructor; apply pod_start_init).
  clearbody s. destruct (proj1 pod_barrier_correct 6 s) as [Hs Hr]; [done|done|].
  split; [apply Hs; by apply elem_of_pod|exact Hr].
Defined.
