(* ===== verification/TokenQueue.v ===== *)
(** * The token queue of [bsg_token_queue.h]

    A circular buffer at the receiver, filled by remote stores, with one pair of counters
    [send]/[receive] on each side: the sender's [send] and the receiver's [receive] are local,
    the other two are copies the peer writes.  [queue_step] makes the next memory access of the
    sender or of the receiver, which run the loops of [spmd/bsg_token_queue/main.c]: confirm,
    fill (or read) the elements of the batch, transfer (or release).  Counters are [int] and
    wrap; [lr] reserves the counter it reads, the peer's remote store clears the reservation,
    [lr.aq] stalls until it is cleared.

    [q_sent] and [q_released] count the elements transferred and released since the start; they
    are history, which no access reads.  [bsg_commit_stores] orders the data stores before the
    counter store, as the interleaving semantics does. *)

From S2P Require Import Prelude Lts.
Local Open Scope Z_scope.

Inductive party : Type := Sender | Receiver.

Global Instance party_eq_dec : EqDecision party.
Proof. solve_decision. Defined.

Inductive sender_pc : Type :=
| SLr | SLrAq              (* bsg_tq_sender_confirm *)
| SFill (left : Z)         (* the client's stores to the buffer *)
| SLocal | SRemote.        (* bsg_tq_sender_xfer *)

Inductive receiver_pc : Type :=
| RLr | RLrAq              (* bsg_tq_receiver_confirm *)
| RRead (left : Z)         (* the client's loads from the buffer *)
| RLocal | RRemote.        (* bsg_tq_receiver_release *)

Record queue_state := {
  s_send : Z; s_receive : Z;      (* the sender's pair; [s_receive] is written remotely *)
  r_send : Z; r_receive : Z;      (* the receiver's pair; [r_send] is written remotely *)
  s_resv : bool; r_resv : bool;
  s_slot : Z; r_slot : Z;         (* bufIndex of each side *)
  s_pc : sender_pc; r_pc : receiver_pc;
  buffer : Z -> Z;
  q_sent : Z; q_released : Z;
  q_out : list Z;                 (* what the receiver has read *)
}.

(** [bsg_tq_sender_confirm]: the value compared with [receive], and the test of the wait. *)
Definition sender_tmp (send max_els depth : Z) : Z := (i32 (- max_els) +i depth +i send)%c.

Definition sender_must_wait (send max_els depth receive : Z) : bool :=
  (sender_tmp send max_els depth -i receive)%c >? 0.

(** [bsg_tq_receiver_confirm]. *)
Definition receiver_tmp (receive depth : Z) : Z := (depth +i receive)%c.

Definition receiver_must_wait (receive depth send : Z) : bool :=
  (send -i receiver_tmp receive depth)%c <? 0.

(** [bufIndex += ...; if (bufIndex == kBufferSize) bufIndex = 0;] *)
Definition next_slot (max_els i : Z) : Z := if i + 1 =? max_els then 0 else i + 1.

Section queue.
Variables max_els depth_s depth_r : Z.    (* the capacity, and the batch of each side *)
Variable src : Z -> Z.                    (* the stream the sender writes *)
Implicit Types s : queue_state.

Definition sender_step s : option queue_state :=
  let wait := sender_must_wait (s_send s) max_els depth_s (s_receive s) in
  let set pc resv :=
    {| s_send := s_send s; s_receive := s_receive s; r_send := r_send s;
       r_receive := r_receive s; s_resv := resv; r_resv := r_resv s;
       s_slot := s_slot s; r_slot := r_slot s; s_pc := pc; r_pc := r_pc s;
       buffer := buffer s; q_sent := q_sent s; q_released := q_released s; q_out := q_out s |} in
  match s_pc s with
  | SLr => Some (set (if wait then SLrAq else SFill depth_s) true)
  | SLrAq => if s_resv s then None else Some (set (if wait then SLr else SFill depth_s) false)
  | SFill n =>
      if 0 <? n then
        Some {| s_send := s_send s; s_receive := s_receive s; r_send := r_send s;
                r_receive := r_receive s; s_resv := s_resv s; r_resv := r_resv s;
                s_slot := next_slot max_els (s_slot s); r_slot := r_slot s;
                s_pc := SFill (n - 1); r_pc := r_pc s;
                buffer := <[s_slot s := src (q_sent s + (depth_s - n))]> (buffer s);
                q_sent := q_sent s; q_released := q_released s; q_out := q_out s |}
      else Some (set SLocal (s_resv s))
  | SLocal =>
      Some {| s_send := (s_send s +i depth_s)%c; s_receive := s_receive s; r_send := r_send s;
              r_receive := r_receive s; s_resv := s_resv s; r_resv := r_resv s;
              s_slot := s_slot s; r_slot := r_slot s; s_pc := SRemote; r_pc := r_pc s;
              buffer := buffer s; q_sent := q_sent s; q_released := q_released s;
              q_out := q_out s |}
  | SRemote =>
      Some {| s_send := s_send s; s_receive := s_receive s; r_send := s_send s;
              r_receive := r_receive s; s_resv := s_resv s; r_resv := false;
              s_slot := s_slot s; r_slot := r_slot s; s_pc := SLr; r_pc := r_pc s;
              buffer := buffer s; q_sent := q_sent s + depth_s; q_released := q_released s;
              q_out := q_out s |}
  end.

Definition receiver_step s : option queue_state :=
  let wait := receiver_must_wait (r_receive s) depth_r (r_send s) in
  let set pc resv :=
    {| s_send := s_send s; s_receive := s_receive s; r_send := r_send s;
       r_receive := r_receive s; s_resv := s_resv s; r_resv := resv;
       s_slot := s_slot s; r_slot := r_slot s; s_pc := s_pc s; r_pc := pc;
       buffer := buffer s; q_sent := q_sent s; q_released := q_released s; q_out := q_out s |} in
  match r_pc s with
  | RLr => Some (set (if wait then RLrAq else RRead depth_r) true)
  | RLrAq => if r_resv s then None else Some (set (if wait then RLr else RRead depth_r) false)
  | RRead n =>
      if 0 <? n then
        Some {| s_send := s_send s; s_receive := s_receive s; r_send := r_send s;
                r_receive := r_receive s; s_resv := s_resv s; r_resv := r_resv s;
                s_slot := s_slot s; r_slot := next_slot max_els (r_slot s);
                s_pc := s_pc s; r_pc := RRead (n - 1); buffer := buffer s;
                q_sent := q_sent s; q_released := q_released s;
                q_out := q_out s ++ [buffer s (r_slot s)] |}
      else Some (set RLocal (r_resv s))
  | RLocal =>
      Some {| s_send := s_send s; s_receive := s_receive s; r_send := r_send s;
              r_receive := (r_receive s +i depth_r)%c; s_resv := s_resv s; r_resv := r_resv s;
              s_slot := s_slot s; r_slot := r_slot s; s_pc := s_pc s; r_pc := RRemote;
              buffer := buffer s; q_sent := q_sent s; q_released := q_released s;
              q_out := q_out s |}
  | RRemote =>
      Some {| s_send := s_send s; s_receive := r_receive s; r_send := r_send s;
              r_receive := r_receive s; s_resv := false; r_resv := r_resv s;
              s_slot := s_slot s; r_slot := r_slot s; s_pc := s_pc s; r_pc := RLr;
              buffer := buffer s; q_sent := q_sent s; q_released := q_released s + depth_r;
              q_out := q_out s |}
  end.

Definition queue_step (p : party) s : option queue_state :=
  match p with Sender => sender_step s | Receiver => receiver_step s end.

(** [bsg_declare_token_queue] zeroes the pairs; both sides start at the first slot. *)
Definition queue_init s : Prop :=
  s_send s = 0 /\ s_receive s = 0 /\ r_send s = 0 /\ r_receive s = 0 /\
  s_slot s = 0 /\ r_slot s = 0 /\ s_pc s = SLr /\ r_pc s = RLr /\
  q_sent s = 0 /\ q_released s = 0 /\ q_out s = [].

#[local] Instance queue_lts : Lts queue_state party :=
  { lts_init := queue_init; lts_step := queue_step }.

(** ** The invariant *)

(** Elements written, and read, since the start. *)
Definition q_written s : Z :=
  q_sent s + match s_pc s with SFill n => depth_s - n | SLocal | SRemote => depth_s | _ => 0 end.

Definition q_read s : Z :=
  q_released s + match r_pc s with RRead n => depth_r - n | RLocal | RRemote => depth_r | _ => 0 end.

Definition sender_in_batch (pc : sender_pc) : bool :=
  match pc with SLr | SLrAq => false | _ => true end.

Definition receiver_in_batch (pc : receiver_pc) : bool :=
  match pc with RLr | RLrAq => false | _ => true end.

Record queue_inv s : Prop := {
  qi_s_send : s_send s = i32 (q_sent s + match s_pc s with SRemote => depth_s | _ => 0 end);
  qi_s_receive : s_receive s = i32 (q_released s);
  qi_r_send : r_send s = i32 (q_sent s);
  qi_r_receive :
    r_receive s = i32 (q_released s + match r_pc s with RRemote => depth_r | _ => 0 end);
  qi_nonneg : 0 <= q_released s <= q_sent s;
  qi_room : q_sent s + (if sender_in_batch (s_pc s) then depth_s else 0) <= q_released s + max_els;
  qi_data : q_released s + (if receiver_in_batch (r_pc s) then depth_r else 0) <= q_sent s;
  qi_fill : match s_pc s with SFill n => 0 <= n <= depth_s | _ => True end;
  qi_readn : match r_pc s with RRead n => 0 <= n <= depth_r | _ => True end;
  qi_s_slot : s_slot s = q_written s mod max_els;
  qi_r_slot : r_slot s = q_read s mod max_els;
  qi_buffer : forall n, q_read s <= n < q_written s -> buffer s (n mod max_els) = src n;
  qi_out : q_out s = map src (seqZ 0 (q_read s));
  qi_s_wakeup : s_pc s = SLrAq -> s_resv s = true ->
    q_sent s + depth_s > q_released s + max_els;
  qi_r_wakeup : r_pc s = RLrAq -> r_resv s = true -> q_released s + depth_r > q_sent s;
  qi_s_batch : (depth_s | q_sent s);
  qi_r_batch : (depth_r | q_released s);
}.

Hypothesis max_els_range : 0 < max_els < 2147483648.
Hypothesis depth_s_range : 0 < depth_s <= max_els.
Hypothesis depth_r_range : 0 < depth_r <= max_els.

(** The tests decide the wait exactly, whatever the counters have wrapped to. *)
Lemma sender_wait_spec a b :
  0 <= a - b <= max_els ->
  sender_must_wait (i32 a) max_els depth_s (i32 b) = (b + max_els <? a + depth_s).
Proof using max_els_range depth_s_range.
  clear - max_els_range depth_s_range.
  intros Hab. unfold sender_must_wait, sender_tmp.
  replace (i32 (i32 (i32 (i32 (- max_els) + depth_s) + i32 a) - i32 b))
    with (i32 (a + depth_s - max_els - b)) by word_lia.
  rewrite i32_id by (unfold is_i32; lia). bcase; lia.
Qed.

Lemma receiver_wait_spec a b :
  0 <= a - b <= max_els ->
  receiver_must_wait (i32 b) depth_r (i32 a) = (a <? b + depth_r).
Proof using max_els_range depth_r_range.
  clear - max_els_range depth_r_range.
  intros Hab. unfold receiver_must_wait, receiver_tmp.
  replace (i32 (i32 a - i32 (depth_r + i32 b))) with (i32 (a - depth_r - b)) by word_lia.
  rewrite i32_id by (unfold is_i32; lia). bcase; lia.
Qed.

Lemma next_slot_mod n : 0 <= n -> next_slot max_els (n mod max_els) = (n + 1) mod max_els.
Proof using max_els_range.
  clear - max_els_range.
  intros Hn. unfold next_slot. pose proof (Z.mod_pos_bound n max_els).
  destruct (Z.eqb_spec (n mod max_els + 1) max_els) as [E|E].
  - symmetry. rewrite Z.add_mod, <-(Z.mod_mod n), <-Z.add_mod, E by lia. apply Z.mod_same. lia.
  - rewrite <-(Z.add_mod_idemp_l n 1) by lia. symmetry. apply Z.mod_small. lia.
Qed.

(** Two positions less than a buffer apart share a slot only when equal. *)
Lemma slot_inj n m : n mod max_els = m mod max_els -> Z.abs (n - m) < max_els -> n = m.
Proof using max_els_range.
  clear - max_els_range.
  intros E Hlt. pose proof (Z.div_mod n max_els). pose proof (Z.div_mod m max_els).
  assert (n - m = max_els * (n / max_els - m / max_els)) as Hd by lia.
  assert (n / max_els - m / max_els = 0); nia.
Qed.
Lemma queue_inv_init s : queue_init s -> queue_inv s.
Proof.
  intros (E1 & E2 & E3 & E4 & E5 & E6 & E7 & E8 & E9 & E10 & E11).
  split; unfold q_written, q_read; rewrite ?E1, ?E2, ?E3, ?E4, ?E5, ?E6, ?E7, ?E8, ?E9, ?E10, ?E11;
    simpl; try done; try lia; apply Z.divide_0_r.
Qed.

(** Brings the invariant of [s] into the context. *)
Ltac open_inv I :=
  destruct I as [Hss Hsr Hrs Hrr Hnn Hroom Hdata Hfill Hreadn Hslot Hrslot Hbuf Hout Hsw Hrw Hsb Hrb];
  unfold q_written, q_read in *.

(** Closes the fields of the invariant that a step does not touch. *)
Ltac close_inv :=
  unfold q_written, q_read; simpl; rewrite ?Z.sub_diag, ?Z.add_0_r in *; try done; try lia.

Lemma inv_sender_step s s' : queue_inv s -> sender_step s = Some s' -> queue_inv s'.
Proof.
  intros I E. open_inv I. unfold sender_step in E.
  destruct (s_pc s) as [| |n| |] eqn:Ep; simpl in *.
  - rewrite Hss, Hsr, Z.add_0_r, sender_wait_spec in E by lia. injection E as <-.
    destruct (Z.ltb_spec (q_released s + max_els) (q_sent s + depth_s)); split; close_inv.
  - destruct (s_resv s); [done|].
    rewrite Hss, Hsr, Z.add_0_r, sender_wait_spec in E by lia. injection E as <-.
    destruct (Z.ltb_spec (q_released s + max_els) (q_sent s + depth_s)); split; close_inv.
  - destruct (Z.ltb_spec 0 n) as [Hn|Hn]; injection E as <-.
    + split; close_inv.
      * rewrite Hslot, next_slot_mod by lia. f_equal. lia.
      * intros m Hm. destruct (decide (m = q_sent s + (depth_s - n))) as [->|Hne].
        -- by rewrite Hslot, fn_lookup_insert.
        -- rewrite fn_lookup_insert_ne; [apply Hbuf; lia|].
           rewrite Hslot. intros Hmod. apply Hne. symmetry. apply slot_inj; [done|].
           assert (q_released s <= m) by (destruct (r_pc s); lia). lia.
    + assert (n = 0) as -> by lia. rewrite Z.sub_0_r in *. split; close_inv.
  - injection E as <-. split; close_inv. rewrite Hss. by autorewrite with word.
  - injection E as <-. split; close_inv.
    + by apply Z.divide_add_r; [|apply Z.divide_refl].
Qed.

Lemma inv_receiver_step s s' : queue_inv s -> receiver_step s = Some s' -> queue_inv s'.
Proof.
  intros I E. open_inv I. unfold receiver_step in E.
  destruct (r_pc s) as [| |n| |] eqn:Ep; simpl in *.
  - rewrite Hrr, Hrs, Z.add_0_r, receiver_wait_spec in E by (destruct (sender_in_batch (s_pc s)); lia).
    injection E as <-.
    destruct (Z.ltb_spec (q_sent s) (q_released s + depth_r)); split; close_inv.
  - destruct (r_resv s); [done|].
    rewrite Hrr, Hrs, Z.add_0_r, receiver_wait_spec in E by (destruct (sender_in_batch (s_pc s)); lia).
    injection E as <-.
    destruct (Z.ltb_spec (q_sent s) (q_released s + depth_r)); split; close_inv.
  - destruct (Z.ltb_spec 0 n) as [Hn|Hn]; injection E as <-.
    + split; close_inv.
      * rewrite Hrslot, next_slot_mod by lia. f_equal. lia.
      * intros m Hm. apply Hbuf. lia.
      * rewrite Hrslot, Hbuf by (destruct (s_pc s); lia). rewrite Hout.
        replace (q_released s + (depth_r - (n - 1))) with (q_released s + (depth_r - n) + 1) by lia.
        rewrite (seqZ_app 0 _ 1), map_app by lia. by f_equal.
    + assert (n = 0) as -> by lia. rewrite Z.sub_0_r in *. split; close_inv.
  - injection E as <-. split; close_inv. rewrite Hrr. by autorewrite with word.
  - injection E as <-. split; close_inv.
    by apply Z.divide_add_r; [|apply Z.divide_refl].
Qed.

Lemma queue_reachable_inv s : reachable s -> queue_inv s.
Proof.
  apply invariant_reachable; [apply queue_inv_init|].
  intros s1 [] s2 I E; [by eapply inv_sender_step|by eapply inv_receiver_step].
Qed.
(** ** Progress, when both sides use the same batch *)

Definition sender_rank (pc : sender_pc) : Z :=
  match pc with SLr | SLrAq => depth_s + 4 | SFill n => n + 3 | SLocal => 2 | SRemote => 1 end.

Definition receiver_rank (pc : receiver_pc) : Z :=
  match pc with RLr | RLrAq => depth_r + 4 | RRead n => n + 3 | RLocal => 2 | RRemote => 1 end.

(** Steps left until [n] elements have been read, no wait failing. *)
Definition queue_measure (n : Z) s : Z :=
  (n + max_els - q_sent s) * (depth_s + 4) + sender_rank (s_pc s) +
  (n - q_released s) * (depth_r + 4) + receiver_rank (r_pc s).

Definition goal_inv (n : Z) s : Prop := queue_inv s /\ q_released s <= n.

Lemma queue_measure_nonneg n s : goal_inv n s -> 0 <= queue_measure n s.
Proof.
  intros [I Hn]. open_inv I. unfold queue_measure.
  assert (q_sent s <= n + max_els) by (destruct (sender_in_batch (s_pc s)); lia).
  assert (0 <= sender_rank (s_pc s)) by (destruct (s_pc s); simpl; lia).
  assert (0 <= receiver_rank (r_pc s)) by (destruct (r_pc s); simpl; lia).
  nia.
Qed.

(** A side that is in a batch, or whose wait is over, moves and lowers the measure. *)
Lemma sender_moves n s :
  goal_inv n s ->
  sender_in_batch (s_pc s) = true \/ q_sent s + depth_s <= q_released s + max_els ->
  exists s', queue_step Sender s = Some s' /\ goal_inv n s' /\ queue_measure n s' < queue_measure n s.
Proof.
  intros [I Hn] Hgo. pose proof (inv_sender_step s) as Hpres.
  assert (forall s', sender_step s = Some s' -> q_released s' = q_released s ->
    queue_measure n s' < queue_measure n s ->
    exists s', queue_step Sender s = Some s' /\ goal_inv n s' /\
      queue_measure n s' < queue_measure n s) as Hok.
  { intros s' E Er Hlt. exists s'. split; [done|]. split; [|done].
    split; [by eapply Hpres|by rewrite Er]. }
  open_inv I. unfold sender_step in *. rewrite Hss, Hsr in *.
  destruct (s_pc s) as [| |m| |] eqn:Ep; simpl in *; rewrite ?Z.add_0_r in *.
  - destruct Hgo as [|Hgo]; [done|]. eapply Hok; [done..|].
    rewrite sender_wait_spec by lia. unfold queue_measure. rewrite Ep.
    destruct (Z.ltb_spec (q_released s + max_els) (q_sent s + depth_s)); simpl; lia.
  - destruct Hgo as [|Hgo]; [done|]. destruct (s_resv s); [specialize (Hsw eq_refl eq_refl); lia|].
    eapply Hok; [done..|].
    rewrite sender_wait_spec by lia. unfold queue_measure. rewrite Ep.
    destruct (Z.ltb_spec (q_released s + max_els) (q_sent s + depth_s)); simpl; lia.
  - destruct (Z.ltb_spec 0 m); (eapply Hok; [done..|]); unfold queue_measure; rewrite Ep; simpl; lia.
  - eapply Hok; [done..|]. unfold queue_measure. rewrite Ep. simpl. lia.
  - eapply Hok; [done..|]. unfold queue_measure. rewrite Ep. simpl. nia.
Qed.

Lemma receiver_moves n s :
  goal_inv n s -> q_read s < n ->
  receiver_in_batch (r_pc s) = true \/ q_released s + depth_r <= q_sent s ->
  exists s', queue_step Receiver s = Some s' /\ goal_inv n s' /\
    queue_measure n s' < queue_measure n s.
Proof.
  intros [I Hn] Hread Hgo. pose proof (inv_receiver_step s) as Hpres.
  assert (forall s', receiver_step s = Some s' -> q_released s' <= n ->
    queue_measure n s' < queue_measure n s ->
    exists s', queue_step Receiver s = Some s' /\ goal_inv n s' /\
      queue_measure n s' < queue_measure n s) as Hok.
  { intros s' E Er Hlt. exists s'. split; [done|]. split; [|done]. split; [by eapply Hpres|done]. }
  open_inv I.
  assert (q_sent s - q_released s <= max_els) by (destruct (sender_in_batch (s_pc s)); lia).
  unfold receiver_step in *. rewrite Hrr, Hrs in *.
  destruct (r_pc s) as [| |m| |] eqn:Ep; simpl in *; rewrite ?Z.add_0_r in *.
  - destruct Hgo as [|Hgo]; [done|]. eapply Hok; [done|simpl; lia|].
    rewrite receiver_wait_spec by lia. unfold queue_measure. rewrite Ep.
    destruct (Z.ltb_spec (q_sent s) (q_released s + depth_r)); simpl; lia.
  - destruct Hgo as [|Hgo]; [done|]. destruct (r_resv s); [specialize (Hrw eq_refl eq_refl); lia|].
    eapply Hok; [done|simpl; lia|].
    rewrite receiver_wait_spec by lia. unfold queue_measure. rewrite Ep.
    destruct (Z.ltb_spec (q_sent s) (q_released s + depth_r)); simpl; lia.
  - destruct (Z.ltb_spec 0 m); (eapply Hok; [done|simpl; lia|]); unfold queue_measure; rewrite Ep;
      simpl; lia.
  - eapply Hok; [done|simpl; lia|]. unfold queue_measure. rewrite Ep. simpl. lia.
  - eapply Hok; [done|simpl; lia|]. unfold queue_measure. rewrite Ep. simpl. nia.
Qed.

(** With equal batches one of the two sides can always go on. *)
Lemma queue_progress n s :
  depth_s = depth_r -> goal_inv n s -> n <= q_read s \/
  exists p s', queue_step p s = Some s' /\ goal_inv n s' /\ queue_measure n s' < queue_measure n s.
Proof.
  intros Hd G. destruct (Z.le_gt_cases n (q_read s)) as [|Hlt]; [by left|right].
  destruct (sender_in_batch (s_pc s)) eqn:Es.
  { destruct (sender_moves n s G) as (s' & ? & ? & ?); [by left|]. eauto. }
  destruct (receiver_in_batch (r_pc s)) eqn:Er.
  { destruct (receiver_moves n s G Hlt) as (s' & ? & ? & ?); [by left|]. eauto. }
  destruct (Z.le_gt_cases (q_sent s + depth_s) (q_released s + max_els)).
  { destruct (sender_moves n s G) as (s' & ? & ? & ?); [by right|]. eauto. }
  destruct (receiver_moves n s G Hlt) as (s' & ? & ? & ?); [right|eauto].
  destruct G as [I _]. destruct (qi_s_batch s I) as [a Ha], (qi_r_batch s I) as [b Hb].
  rewrite Hd in *. assert (b < a) by nia. nia.
Qed.
End queue.

(** When both sides use the same batch, the waits cannot deadlock and no wake-up is lost. *)
Lemma queue_can_read max_els depth src s n :
  0 < max_els < 2147483648 -> 0 < depth <= max_els -> queue_inv max_els depth depth src s ->
  @can_reach _ _ (queue_lts max_els depth depth src) (fun _ => True) s
    (fun s' => n <= Z.of_nat (length (q_out s'))).
Proof.
  intros Hm Hd I.
  set (n' := Z.max n (q_released s)).
  apply (can_reach_weaken (fun _ => True) _ _
    (fun s' => goal_inv max_els depth depth src n' s' /\ n' <= q_read depth s')); [done| |].
  { intros s' [[I' _] Hn]. rewrite (qi_out _ _ _ _ s' I'), length_map, length_seqZ. lia. }
  apply (can_reach_measure _ (goal_inv max_els depth depth src n') _
    (queue_measure max_els depth depth n')); [| |split; [done|lia]].
  - intros s' G. by eapply queue_measure_nonneg.
  - intros s' G. destruct (queue_progress max_els depth depth src Hm Hd Hd n' s') as [|(p & s2 & ?)];
      [done|done|by left|right]. exists p, s2. tauto.
Qed.

(** C8 (safety).  The queue is a FIFO: whatever the interleaving, what the receiver has read
    is a prefix of the stream the sender writes, no element lost, repeated or overtaken, also
    when the counters have wrapped around.  The sender never has more than [max_els] elements
    outstanding, and a store of the sender never hits a slot that the receiver has been given and
    has not released, nor one the sender itself filled for the same batch.  When both
    sides use the same batch, from every reachable state some continuation reads as many elements
    as one likes. *)
Theorem queue_correct max_els depth_s depth_r src s :
  0 < max_els < 2147483648 -> 0 < depth_s <= max_els -> 0 < depth_r <= max_els ->
  @reachable _ _ (queue_lts max_els depth_s depth_r src) s ->
  q_out s = map src (seqZ 0 (Z.of_nat (length (q_out s)))) /\
  0 <= q_sent s - q_released s <= max_els /\
  (forall n k, s_pc s = SFill n -> 0 < n -> q_released s <= k < q_written depth_s s ->
   k mod max_els <> s_slot s) /\
  (depth_r = depth_s -> forall n,
   @can_reach _ _ (queue_lts max_els depth_s depth_r src) (fun _ => True) s
     (fun s' => n <= Z.of_nat (length (q_out s')))).
Proof.
  intros Hm Hs Hr Hreach.
  assert (queue_inv max_els depth_s depth_r src s) as I by (by apply queue_reachable_inv).
  pose proof (qi_nonneg _ _ _ _ s I). pose proof (qi_room _ _ _ _ s I) as Hroom. split_and!.
  - rewrite (qi_out _ _ _ _ s I), length_map, length_seqZ. f_equal.
    assert (0 <= q_read depth_r s); [|by rewrite Z2Nat.id].
    pose proof (qi_readn _ _ _ _ s I). unfold q_read. destruct (r_pc s); lia.
  - lia.
  - destruct (sender_in_batch (s_pc s)); lia.
  - intros n k E Hn Hk Hmod. rewrite (qi_s_slot _ _ _ _ s I) in Hmod.
    pose proof (qi_fill _ _ _ _ s I) as Hf. unfold q_written in *. rewrite E in *. simpl in Hroom.
    apply (slot_inj max_els) in Hmod; lia.
  - intros -> n. by apply queue_can_read.
Qed.

(** A queue of four slots, batches of two and one, on the stream 10, 11, 12, ... *)
Definition queue_example : queue_state := {|
  s_send := 0; s_receive := 0; r_send := 0; r_receive := 0; s_resv := false; r_resv := false;
  s_slot := 0; r_slot := 0; s_pc := SLr; r_pc := RLr; buffer := fun _ => 0;
  q_sent := 0; q_released := 0; q_out := [] |}.

#[local] Instance queue_example_lts : Lts queue_state party := queue_lts 4 2 1 (fun n => 10 + n).

(** The receiver waits first; the sender fills the queue and waits in its turn. *)
Definition queue_schedule : list party :=
  replicate 3 Receiver ++ replicate 30 Sender ++ replicate 12 Receiver ++ replicate 3 Sender.

Lemma queue_example_reachable : reachable (run_skip queue_schedule queue_example).
Proof. apply run_skip_reachable. constructor. by repeat split. Qed.

Lemma queue_correct_witness :
  let s := run_skip queue_schedule queue_example in
  q_out s = [10; 11; 12] /\ q_out s = map (fun n => 10 + n) (seqZ 0 (Z.of_nat (length (q_out s)))) /\
  0 <= q_sent s - q_released s <= 4 /\
  (s_pc s = SFill 2 -> 0 < 2 -> q_released s <= 3 < q_written 2 s -> 3 mod 4 <> s_slot s) /\
  @can_reach _ _ (queue_lts 3 2 2 (fun n => n)) (fun _ => True) queue_example
    (fun s' => 1000000 <= Z.of_nat (length (q_out s'))).
Proof.
  destruct (queue_correct 4 2 1 (fun n => 10 + n) (run_skip queue_schedule queue_example)) as (Hq & Ho & Hf & _);
    [lia|lia|lia|apply queue_example_reachable|].
  destruct (queue_correct 3 2 2 (fun n => n) queue_example) as (_ & _ & _ & Hlive);
    [lia|lia|lia|constructor; by repeat split|].
  split_and!; [reflexivity|exact Hq|apply Ho..|apply Hf|apply Hlive; reflexivity].
Defined.

(** ** [BSG_TOKEN_QUEUE_SHORT]

    The counters become [short] and both are read with one [lr] of the pair. *)

Definition BSG_TOKEN_QUEUE_SHORT_RECEIVE (x : Z) : Z := Z.shiftr x 16.
Definition BSG_TOKEN_QUEUE_SHORT_SEND (x : Z) : Z := Z.land x 65535.

(** The [int] at the address of a pair of [short]s: [send] below, [receive] above. *)
Definition pair_word (send receive : Z) : Z := i32 (receive * 65536 + u16 send).

Definition short_sender_must_wait (send max_els depth word : Z) : bool :=
  negb ((sender_tmp send max_els depth -i BSG_TOKEN_QUEUE_SHORT_RECEIVE word)%c <=? 0).

Definition short_receiver_must_wait (receive depth word : Z) : bool :=
  negb ((BSG_TOKEN_QUEUE_SHORT_SEND word -i receiver_tmp receive depth)%c >=? 0).

Lemma short_receive_word s r :
  is_i16 r -> BSG_TOKEN_QUEUE_SHORT_RECEIVE (pair_word s r) = r.
Proof.
  intros Hr. unfold BSG_TOKEN_QUEUE_SHORT_RECEIVE, pair_word.
  assert (0 <= u16 s < 65536) by word_lia.
  rewrite i32_id by (unfold is_i32, is_i16 in *; lia).
  rewrite Z.shiftr_div_pow2 by lia. norm_pow2. Z.to_euclidean_division_equations. lia.
Qed.

Lemma short_send_word s r : BSG_TOKEN_QUEUE_SHORT_SEND (pair_word s r) = u16 s.
Proof.
  unfold BSG_TOKEN_QUEUE_SHORT_SEND, pair_word. change 65535 with (Z.ones 16).
  rewrite Z.land_ones by lia. norm_pow2. word_lia.
Qed.

(** C39 (bounds).  The 16-bit variant decides both waits exactly up to the 32767th element, and
    fails at the next one: with [max_els] elements outstanding and 32768 sent, the sender's
    test lets it overwrite an element that has not been released, where the 32-bit counters
    make it wait. *)
Theorem short_counters_until_wrap max_els depth a b :
  0 < max_els <= 32767 -> 0 < depth <= max_els -> 0 <= b <= a -> a - b <= max_els ->
  (a <= 32767 ->
    short_sender_must_wait (i16 a) max_els depth (pair_word (i16 a) (i16 b)) =
      (b + max_els <? a + depth) /\
    short_receiver_must_wait (i16 b) depth (pair_word (i16 a) (i16 b)) = (a <? b + depth)) /\
  (a = 32768 -> b = 32768 - max_els ->
    short_sender_must_wait (i16 a) max_els depth (pair_word (i16 a) (i16 b)) = false /\
    sender_must_wait (i32 a) max_els depth (i32 b) = true).
Proof.
  intros Hm Hd Hb Hab.
  assert (is_i16 (i16 b)) as Hrange by apply i16_range. split.
  - intros Ha. unfold short_sender_must_wait, short_receiver_must_wait.
    rewrite short_receive_word, short_send_word by done.
    assert (i16 a = a /\ i16 b = b /\ u16 a = a) as (-> & -> & ->) by word_lia.
    unfold sender_tmp, receiver_tmp. unwrap. split; bcase; simpl; lia.
  - intros -> ->. unfold short_sender_must_wait. rewrite short_receive_word by done. split.
    + assert (i16 32768 = -32768 /\ i16 (32768 - max_els) = 32768 - max_els) as [-> ->] by word_lia.
      unfold sender_tmp. unwrap. bcase; simpl; lia.
    + rewrite (sender_wait_spec max_els depth) by lia. bcase; lia.
Qed.

Lemma short_counters_until_wrap_witness :
  (short_sender_must_wait (i16 32767) 8 2 (pair_word (i16 32767) (i16 32760)) = true /\
   short_receiver_must_wait (i16 32760) 2 (pair_word (i16 32767) (i16 32760)) = false) /\
  (short_sender_must_wait (i16 32768) 8 1 (pair_word (i16 32768) (i16 32760)) = false /\
   sender_must_wait (i32 32768) 8 1 (i32 32760) = true).
Proof.
  split.
  - apply (short_counters_until_wrap 8 2 32767 32760); lia.
  - apply (short_counters_until_wrap 8 1 32768 32760); lia.
Defined.
