(* ===== verification/McsMutex.v ===== *)
(** * The queue lock of [bsg_mcs_mutex.hpp]

    The lock word holds the node of the last tile in line.  A tile joins by swapping its own node
    in, tells its predecessor where it is, and waits on a flag in its own node.  Without a
    compare-and-swap, a tile that releases and sees no successor swaps the word out; when that
    took out tiles which had joined in the meantime (the victims), it swaps them back, and hangs
    them behind whoever joined while the word was null (the usurpers), or else passes the lock to
    the first of them.

    A pointer to a node is the tile that owns the node: [lcl_as_glbl] is a tile-group pointer,
    and those are distinct for distinct tiles and not null ([Eva.pointers_decode]).  One
    step is one memory access; [lr] and [lr.aq] are as in [Barrier].  The tiles run the loop of
    [spmd/bsg_mcs_mutex_test], which increments a word inside the lock; [bsg_mcs_mutex.S] is the
    same algorithm in assembly. *)

From S2P Require Import Prelude Lts Arch Spmd SpmdLogic.
Local Open Scope Z_scope.

(** The next access of a tile. *)
Inductive mcs_pc (Tid : Type) : Type :=
| CIdle
(* bsg_mcs_mutex_acquire *)
| CNext                              (* lcl->next = nullptr *)
| CUnlocked                          (* lcl->unlocked = 0 *)
| CSwap                              (* pred = mtx->exchange(lcl_as_glbl) *)
| CLink (pred : Tid)                 (* pred->next = lcl_as_glbl *)
| CLr | CLrAq                        (* bsg_wait_local_int_asm(&lcl->unlocked, 1) *)
(* data += 1 *)
| CLoad | CStore (value : Z)
(* bsg_mcs_mutex_release *)
| RTest                              (* lcl->next != nullptr *)
| RReload | RPass (successor : Tid)  (* lcl->next->unlocked = 1 *)
| RSwapOut                           (* vic_tail = mtx->exchange(nullptr) *)
| RSwapBack (vic_tail : option Tid)  (* usurper = mtx->exchange(vic_tail) *)
| RPoll (usurper : option Tid)       (* while (lcl->next == nullptr) *)
| RVictims (usurper : Tid)           (* lcl->next *)
| RJoin (usurper victims : Tid).     (* usurper->next = lcl->next *)
Arguments CIdle {Tid}.
Arguments CNext {Tid}.
Arguments CUnlocked {Tid}.
Arguments CSwap {Tid}.
Arguments CLink {Tid}.
Arguments CLr {Tid}.
Arguments CLrAq {Tid}.
Arguments CLoad {Tid}.
Arguments CStore {Tid}.
Arguments RTest {Tid}.
Arguments RReload {Tid}.
Arguments RPass {Tid}.
Arguments RSwapOut {Tid}.
Arguments RSwapBack {Tid}.
Arguments RPoll {Tid}.
Arguments RVictims {Tid}.
Arguments RJoin {Tid}.

Global Instance mcs_pc_eq_dec `{EqDecision Tid} : EqDecision (mcs_pc Tid).
Proof. solve_decision. Defined.

(** The lock word, the node of each tile, the word the test increments; per tile the reservation
    of its flag, the program counter, the calls left. *)
Record mcs_state (Tid : Type) := {
  c_mtx : option Tid;
  c_unlocked : Tid -> Z;
  c_next : Tid -> option Tid;
  c_data : Z;
  c_resv : Tid -> bool;
  c_pc : Tid -> mcs_pc Tid;
  c_todo : Tid -> Z;
}.
Arguments Build_mcs_state {Tid}.
Arguments c_mtx {Tid}.
Arguments c_unlocked {Tid}.
Arguments c_next {Tid}.
Arguments c_data {Tid}.
Arguments c_resv {Tid}.
Arguments c_pc {Tid}.
Arguments c_todo {Tid}.

Section mcs.
Context {Tid : Type} `{EqDecision Tid}.
Variable tiles : list Tid.
#[local] Abbreviation state := (mcs_state Tid).
Implicit Types (s : state) (t p n : Tid).

Definition move t pc s : state :=
  Build_mcs_state (c_mtx s) (c_unlocked s) (c_next s) (c_data s) (c_resv s)
    (<[t := pc]> (c_pc s)) (c_todo s).

Definition set_mtx o s : state :=
  Build_mcs_state o (c_unlocked s) (c_next s) (c_data s) (c_resv s) (c_pc s) (c_todo s).

(** A store to the flag clears the reservation. *)
Definition set_unlocked t v s : state :=
  Build_mcs_state (c_mtx s) (<[t := v]> (c_unlocked s)) (c_next s) (c_data s)
    (<[t := false]> (c_resv s)) (c_pc s) (c_todo s).

Definition set_next t o s : state :=
  Build_mcs_state (c_mtx s) (c_unlocked s) (<[t := o]> (c_next s)) (c_data s) (c_resv s)
    (c_pc s) (c_todo s).

Definition set_data v s : state :=
  Build_mcs_state (c_mtx s) (c_unlocked s) (c_next s) v (c_resv s) (c_pc s) (c_todo s).

Definition set_resv t b s : state :=
  Build_mcs_state (c_mtx s) (c_unlocked s) (c_next s) (c_data s) (<[t := b]> (c_resv s))
    (c_pc s) (c_todo s).

Definition begin_call t s : state :=
  Build_mcs_state (c_mtx s) (c_unlocked s) (c_next s) (c_data s) (c_resv s)
    (c_pc s) (<[t := c_todo s t - 1]> (c_todo s)).

Definition bsg_mcs_mutex_acquire t s : option state :=
  match c_pc s t with
  | CNext => Some (move t CUnlocked (set_next t None s))
  | CUnlocked => Some (move t CSwap (set_unlocked t 0 s))
  | CSwap =>
      let s' := set_mtx (Some t) s in
      Some (match c_mtx s with Some pred => move t (CLink pred) s' | None => move t CLoad s' end)
  | CLink pred => Some (move t CLr (set_next pred (Some t) s))
  | CLr =>
      Some (move t (if c_unlocked s t =? 1 then CLoad else CLrAq) (set_resv t true s))
  | CLrAq =>
      if c_resv s t then None
      else Some (move t (if c_unlocked s t =? 1 then CLoad else CLr) s)
  | _ => None
  end.

(** A null [lcl->next] is dereferenced nowhere: the theorems show that [RReload] and [RVictims]
    are never stuck. *)
Definition bsg_mcs_mutex_release t s : option state :=
  match c_pc s t with
  | RTest => Some (move t (match c_next s t with Some _ => RReload | None => RSwapOut end) s)
  | RReload => next ← c_next s t; Some (move t (RPass next) s)
  | RPass next => Some (move t CIdle (set_unlocked next 1 s))
  | RSwapOut =>
      Some (move t (if decide (c_mtx s = Some t) then CIdle else RSwapBack (c_mtx s))
              (set_mtx None s))
  | RSwapBack vic_tail => Some (move t (RPoll (c_mtx s)) (set_mtx vic_tail s))
  | RPoll usurper =>
      match c_next s t with
      | None => Some (move t (RPoll usurper) s)
      | Some _ => Some (move t (match usurper with None => RReload | Some u => RVictims u end) s)
      end
  | RVictims usurper => next ← c_next s t; Some (move t (RJoin usurper next) s)
  | RJoin usurper next => Some (move t CIdle (set_next usurper (Some next) s))
  | _ => None
  end.

(** The loop of [main]. *)
Definition mcs_step t s : option state :=
  if decide (t ∈ tiles) then
    match c_pc s t with
    | CIdle => if 0 <? c_todo s t then Some (move t CNext (begin_call t s)) else None
    | CNext | CUnlocked | CSwap | CLink _ | CLr | CLrAq => bsg_mcs_mutex_acquire t s
    | CLoad => Some (move t (CStore (c_data s +i 1)%c) s)
    | CStore v => Some (move t RTest (set_data v s))
    | _ => bsg_mcs_mutex_release t s
    end
  else None.

(** ** The shape of the queue *)

(** The tile is in line: it has swapped its node in and not left yet. *)
Definition queued (pc : mcs_pc Tid) : bool :=
  match pc with CIdle | CNext | CUnlocked | CSwap => false | _ => true end.

(** The tile has joined, and its turn has to be signalled. *)
Definition waiting (pc : mcs_pc Tid) : bool :=
  match pc with CLink _ | CLr | CLrAq => true | _ => false end.

Definition linking (pc : mcs_pc Tid) : bool := match pc with CLink _ => true | _ => false end.

(** The tile holds a pointer to a node whose [next] is still to be written, or holds the node as
    the last of its victims. *)
Definition target (pc : mcs_pc Tid) : option Tid :=
  match pc with
  | CLink p | RVictims p | RJoin p _ => Some p
  | RSwapBack o | RPoll o => o
  | _ => None
  end.

Definition points (o : option Tid) p : Z := ind (bool_decide (o = Some p)).

(** Who refers to [p] as a node without successor: the lock word, and the tiles that target it. *)
Definition refs s p : Z :=
  points (c_mtx s) p + sum_over (fun t => points (target (c_pc s t)) p) tiles.

(** Who will pass the lock to [n]: the queued tile whose [next] is [n]; [n] itself as long as it
    has not told its predecessor. *)
Definition preds s n : Z :=
  ind (linking (c_pc s n)) +
  sum_over (fun p => ind (queued (c_pc s p)) * points (c_next s p) n) tiles.

(** A node in line has a successor or is referred to, once; a waiting tile has one predecessor
    until it is signalled, and no other tile has any. *)
Record shape s : Prop := {
  sh_tiles : forall t, c_pc s t <> CIdle -> t ∈ tiles;
  sh_refs : forall p, refs s p = if queued (c_pc s p) then ind (bool_decide (c_next s p = None)) else 0;
  sh_preds : forall n, preds s n = ind (waiting (c_pc s n)) * (1 - c_unlocked s n);
  sh_flag : forall t, waiting (c_pc s t) = true -> c_unlocked s t = 0 \/ c_unlocked s t = 1;
  sh_start : forall t, c_pc s t = CSwap \/ linking (c_pc s t) = true -> c_unlocked s t = 0;
  sh_null : forall t, c_pc s t = CUnlocked \/ c_pc s t = CSwap -> c_next s t = None;
  sh_next : forall t, match c_pc s t with
                      | RReload | RVictims _ => c_next s t <> None
                      | RPass n | RJoin _ n => c_next s t = Some n
                      | _ => True
                      end;
}.

Section invariant.
Hypothesis tiles_nodup : NoDup tiles.

Lemma points_eq o p : points o p = if decide (o = Some p) then 1 else 0.
Proof. unfold points. by case_bool_decide; case_decide. Qed.

(** How the counts change when a tile moves, the word is swapped, or a [next] is stored. *)
Lemma refs_move t pc s p : t ∈ tiles ->
  refs (move t pc s) p = refs s p + points (target pc) p - points (target (c_pc s t)) p.
Proof.
  intros Ht. unfold refs. cbn [move c_pc c_mtx].
  rewrite (sum_over_update (fun t' => points (target (c_pc s t')) p) _ tiles t); [|done|done|].
  - rewrite fn_lookup_insert. lia.
  - intros t' _ Hne. by rewrite fn_lookup_insert_ne.
Qed.

Lemma refs_mtx o s p : refs (set_mtx o s) p = refs s p + points o p - points (c_mtx s) p.
Proof. unfold refs. cbn [set_mtx c_mtx c_pc]. lia. Qed.

Lemma preds_move t pc s n : t ∈ tiles ->
  preds (move t pc s) n = preds s n
    + (if decide (n = t) then ind (linking pc) - ind (linking (c_pc s t)) else 0)
    + (ind (queued pc) - ind (queued (c_pc s t))) * points (c_next s t) n.
Proof.
  intros Ht. unfold preds. cbn [move c_pc c_next].
  rewrite (sum_over_update (fun p => ind (queued (c_pc s p)) * points (c_next s p) n) _ tiles t);
    [|done|done|].
  - rewrite fn_lookup_insert. destruct (decide (n = t)) as [->|Hne];
      [rewrite fn_lookup_insert|rewrite fn_lookup_insert_ne by done]; lia.
  - intros p _ Hne. by rewrite fn_lookup_insert_ne.
Qed.

Lemma preds_next p o s n : p ∈ tiles ->
  preds (set_next p o s) n =
    preds s n + ind (queued (c_pc s p)) * (points o n - points (c_next s p) n).
Proof.
  intros Hp. unfold preds. cbn [set_next c_pc c_next].
  rewrite (sum_over_update (fun q => ind (queued (c_pc s q)) * points (c_next s q) n) _ tiles p);
    [|done|done|].
  - rewrite fn_lookup_insert. lia.
  - intros q _ Hne. by rewrite fn_lookup_insert_ne.
Qed.

(** The other stores leave the counts alone. *)
Lemma refs_begin t s p : refs (begin_call t s) p = refs s p. Proof. done. Qed.
Lemma refs_unlocked t v s p : refs (set_unlocked t v s) p = refs s p. Proof. done. Qed.
Lemma refs_next t o s p : refs (set_next t o s) p = refs s p. Proof. done. Qed.
Lemma refs_data v s p : refs (set_data v s) p = refs s p. Proof. done. Qed.
Lemma refs_resv t b s p : refs (set_resv t b s) p = refs s p. Proof. done. Qed.
Lemma preds_begin t s p : preds (begin_call t s) p = preds s p. Proof. done. Qed.
Lemma preds_unlocked t v s p : preds (set_unlocked t v s) p = preds s p. Proof. done. Qed.
Lemma preds_mtx o s p : preds (set_mtx o s) p = preds s p. Proof. done. Qed.
Lemma preds_data v s p : preds (set_data v s) p = preds s p. Proof. done. Qed.
Lemma preds_resv t b s p : preds (set_resv t b s) p = preds s p. Proof. done. Qed.
Create Rewrite HintDb mcs.
#[local] Hint Rewrite refs_begin refs_unlocked refs_next refs_data refs_resv preds_begin
  preds_unlocked preds_mtx preds_data preds_resv refs_mtx : mcs.
#[local] Hint Rewrite refs_move preds_move preds_next using assumption : mcs.


(** What the counts say of the nodes that are pointed at. *)
Lemma points_self p : points (Some p) p = 1.
Proof. unfold points. by rewrite bool_decide_true. Qed.

Lemma points_range o p : 0 <= points o p <= 1.
Proof. unfold points. by case_bool_decide. Qed.

Lemma refs_target s t p : t ∈ tiles -> target (c_pc s t) = Some p ->
  1 + points (c_mtx s) p <= refs s p.
Proof.
  intros Ht E. unfold refs.
  pose proof (sum_over_one (fun t => points (target (c_pc s t)) p) tiles t
    (fun _ _ => proj1 (points_range _ _)) Ht) as H1. cbv beta in H1.
  rewrite E, points_self in H1. lia.
Qed.

Lemma refs_word s p : c_mtx s = Some p -> 1 <= refs s p.
Proof.
  intros E. unfold refs. rewrite E, points_self.
  pose proof (sum_over_nonneg (fun t => points (target (c_pc s t)) p) tiles
    (fun _ _ => proj1 (points_range _ _))). lia.
Qed.

Lemma shape_refs s p : shape s -> 1 <= refs s p ->
  queued (c_pc s p) = true /\ c_next s p = None /\ refs s p = 1.
Proof.
  intros S H1. pose proof (sh_refs s S p) as H. destruct (queued _); [|lia].
  case_bool_decide; simpl in H; [done|lia].
Qed.

Lemma shape_target s t p : shape s -> target (c_pc s t) = Some p ->
  queued (c_pc s p) = true /\ c_next s p = None /\ refs s p = 1 /\ c_mtx s <> Some p.
Proof.
  intros S E. assert (t ∈ tiles) as Ht by (apply (sh_tiles s S); intros E'; by rewrite E' in E).
  pose proof (refs_target s t p Ht E). pose proof (points_range (c_mtx s) p).
  destruct (shape_refs s p S) as (? & ? & ?); [lia|]. split_and!; [done..|].
  intros E'. rewrite E', points_self in *. lia.
Qed.

Lemma shape_word s p : shape s -> c_mtx s = Some p ->
  queued (c_pc s p) = true /\ c_next s p = None /\ refs s p = 1.
Proof. intros S E. by apply shape_refs, refs_word. Qed.

Lemma queued_tiles s t : shape s -> queued (c_pc s t) = true -> t ∈ tiles.
Proof. intros S E. apply (sh_tiles s S). intros E'. by rewrite E' in E. Qed.

Lemma shape_next s r n : shape s -> queued (c_pc s r) = true -> c_next s r = Some n ->
  waiting (c_pc s n) = true /\ linking (c_pc s n) = false /\ c_unlocked s n = 0 /\ preds s n = 1.
Proof.
  intros S Hr E. pose proof (sh_preds s S n) as H.
  pose proof (sum_over_one (fun p => ind (queued (c_pc s p)) * points (c_next s p) n) tiles r) as H1.
  cbv beta in H1. rewrite Hr, E, points_self in H1. change (ind true * 1) with 1 in H1.
  assert (forall p, p ∈ tiles -> 0 <= ind (queued (c_pc s p)) * points (c_next s p) n) as Hpos.
  { intros p _. pose proof (ind_nonneg (queued (c_pc s p))). pose proof (points_range (c_next s p) n). nia. }
  specialize (H1 Hpos (queued_tiles s r S Hr)). unfold preds in H at 1.
  destruct (waiting (c_pc s n)) eqn:Ew; [|destruct (linking _); simpl in H; lia].
  destruct (sh_flag s S n Ew) as [E0|E0]; rewrite E0 in H; destruct (linking _) eqn:El;
    simpl in H; try lia.
  split_and!; [done..|]. rewrite (sh_preds s S n), Ew, E0. done.
Qed.

(** Nobody passes the lock to a tile that does not wait. *)
Lemma shape_no_pred s r n : shape s -> queued (c_pc s r) = true -> c_next s r = Some n ->
  waiting (c_pc s n) = false -> False.
Proof. intros S Hr E Hn. destruct (shape_next s r n S Hr E) as [Hw _]. congruence. Qed.

(** Looks a function up at [x], which [t] or [q] may have updated. *)
Ltac updates x t q :=
  destruct (decide (x = q)) as [->|?];
  [destruct (decide (q = t)) as [?|?]; [try subst q|]|destruct (decide (x = t)) as [->|?]];
  rewrite ?fn_lookup_insert, ?fn_lookup_insert_ne by done;
  rewrite ?fn_lookup_insert, ?fn_lookup_insert_ne by done.

Ltac known :=
  repeat match goal with
  | H : queued ?pc = true |- context [queued ?pc] => rewrite H
  | H : waiting ?pc = true |- context [waiting ?pc] => rewrite H
  | H : linking ?pc = false |- context [linking ?pc] => rewrite H
  | H : c_unlocked ?s ?t = 0 |- context [c_unlocked ?s ?t] => rewrite H
  end.

Ltac crush :=
  known; unfold points in *; repeat case_bool_decide; intros; simplify_eq/=; try done; try lia.

(** Splits [shape] after a step of [t], which may also write to the node of [q], and settles what
    the step leaves alone. *)
Ltac shape_split S t q Epc :=
  split;
  [ intros x; pose proof (sh_tiles _ S x); cbn; updates x t q; try done; auto
  | intros p; autorewrite with mcs; cbn -[points]; generalize (sh_refs _ S p); updates p t q;
    rewrite ?Epc in *; cbn -[points] in *; crush
  | intros p; autorewrite with mcs; cbn -[points]; generalize (sh_preds _ S p); updates p t q;
    rewrite ?Epc in *; cbn -[points] in *; crush
  | intros x; cbn; pose proof (sh_flag _ S x); updates x t q; rewrite ?Epc in *; cbn in *; auto; try done
  | intros x; cbn; pose proof (sh_start _ S x); updates x t q; rewrite ?Epc in *; cbn in *;
    try (intuition congruence)
  | intros x; cbn; pose proof (sh_null _ S x); updates x t q; rewrite ?Epc in *; cbn in *;
    try (intuition congruence)
  | intros x; cbn; pose proof (sh_next _ S x); updates x t q; rewrite ?Epc in *; cbn in *;
    try (intuition congruence) ].

(** What is left at a node that is referred to depends on where its tile is. *)
Ltac by_pc p S :=
  pose proof (sh_next _ S p); destruct (c_pc _ p) eqn:?; simpl in *; intuition congruence.

Lemma shape_swap s t : shape s -> t ∈ tiles -> c_pc s t = CSwap ->
  shape (move t (match c_mtx s with Some p => CLink p | None => CLoad end) (set_mtx (Some t) s)).
Proof.
  intros S Ht Epc. pose proof (sh_refs s S t) as Rt. pose proof (sh_preds s S t) as Pt.
  pose proof (sh_start s S t (or_introl Epc)) as Ut. pose proof (sh_null s S t (or_intror Epc)) as Nt.
  rewrite Epc in Rt, Pt. cbn in Rt, Pt. assert (c_mtx s <> Some t) as Hm.
  { intros E. pose proof (refs_word s t E). lia. }
  assert (forall r, queued (c_pc s r) = true -> c_next s r <> Some t) as Hn.
  { intros r Hr E. eapply shape_no_pred; [done..|]. by rewrite Epc. }
  destruct (c_mtx s) as [p0|] eqn:Em; shape_split S t t Epc.
Qed.

Lemma shape_link s t p0 : shape s -> t ∈ tiles -> c_pc s t = CLink p0 ->
  shape (move t CLr (set_next p0 (Some t) s)).
Proof.
  intros S Ht Epc. destruct (shape_target s t p0 S) as (Q0 & N0 & R0 & _); [by rewrite Epc|].
  pose proof (queued_tiles s p0 S Q0) as Hp0.
  assert (c_unlocked s t = 0) as Ut by (apply (sh_start s S); right; by rewrite Epc).
  destruct (decide (p0 = t)) as [->|Hne]; [shape_split S t t Epc|shape_split S t p0 Epc; by_pc p0 S].
Qed.

Lemma shape_pass s t n : shape s -> t ∈ tiles -> c_pc s t = RPass n ->
  shape (move t CIdle (set_unlocked n 1 s)).
Proof.
  intros S Ht Epc. pose proof (sh_next s S t) as Nt. rewrite Epc in Nt.
  destruct (shape_next s t n S) as (Wn & Ln & Un & Pn); [by rewrite Epc|done|].
  assert (n <> t) by (intros ->; by rewrite Epc in Wn).
  shape_split S t n Epc. by_pc n S.
Qed.

Lemma shape_join s t u n : shape s -> t ∈ tiles -> c_pc s t = RJoin u n ->
  shape (move t CIdle (set_next u (Some n) s)).
Proof.
  intros S Ht Epc. pose proof (sh_next s S t) as Nt. rewrite Epc in Nt.
  destruct (shape_next s t n S) as (Wn & Ln & Un & Pn); [by rewrite Epc|done|].
  destruct (shape_target s t u S) as (Q0 & N0 & R0 & _); [by rewrite Epc|].
  pose proof (queued_tiles s u S Q0) as Hu. assert (u <> t) by congruence.
  shape_split S t u Epc; by_pc u S.
Qed.

Lemma shape_swap_out s t : shape s -> t ∈ tiles -> c_pc s t = RSwapOut ->
  shape (move t (if decide (c_mtx s = Some t) then CIdle else RSwapBack (c_mtx s)) (set_mtx None s)).
Proof.
  intros S Ht Epc. assert (forall r, queued (c_pc s r) = true -> c_next s r <> Some t) as Hn.
  { intros r Hr E. eapply shape_no_pred; [done..|]. by rewrite Epc. }
  destruct (decide (c_mtx s = Some t)) as [Em|Em].
  - destruct (shape_word s t S Em) as (Q0 & N0 & R0). shape_split S t t Epc.
  - shape_split S t t Epc.
Qed.

Lemma shape_swap_back s t o : shape s -> t ∈ tiles -> c_pc s t = RSwapBack o ->
  shape (move t (RPoll (c_mtx s)) (set_mtx o s)).
Proof. intros S Ht Epc. shape_split S t t Epc. Qed.

(** The steps that leave the lock word and the nodes alone. *)
Lemma shape_step s t s' : shape s -> mcs_step t s = Some s' -> shape s'.
Proof.
  intros S E. unfold mcs_step in E. destruct (decide (t ∈ tiles)) as [Ht|]; [|done].
  pose proof (sh_preds s S t) as Pt. pose proof (sh_flag s S t) as Ft.
  pose proof (sh_start s S t) as St. pose proof (sh_null s S t) as Nt.
  unfold bsg_mcs_mutex_acquire, bsg_mcs_mutex_release in E.
  destruct (c_pc s t) as [| | | |p0| | | |v| | |n| |o|u|u|u n] eqn:Epc; cbn in Pt, Ft, St, Nt.
  - destruct (0 <? c_todo s t); [|done]. injection E as <-. shape_split S t t Epc.
  - injection E as <-. shape_split S t t Epc.
  - injection E as <-. shape_split S t t Epc.
  - injection E as <-. pose proof (shape_swap s t S Ht Epc) as S'. by destruct (c_mtx s).
  - injection E as <-. by apply shape_link.
  - injection E as <-. destruct (Z.eqb_spec (c_unlocked s t) 1); shape_split S t t Epc.
  - destruct (c_resv s t); [done|]. injection E as <-.
    destruct (Z.eqb_spec (c_unlocked s t) 1); shape_split S t t Epc.
  - injection E as <-. shape_split S t t Epc.
  - injection E as <-. shape_split S t t Epc.
  - injection E as <-. destruct (c_next s t) eqn:En; shape_split S t t Epc.
  - destruct (c_next s t) eqn:En; [|done]. injection E as <-. shape_split S t t Epc.
  - injection E as <-. by apply shape_pass.
  - injection E as <-. by apply shape_swap_out.
  - injection E as <-. by apply shape_swap_back.
  - destruct (c_next s t) eqn:En; [destruct u|]; injection E as <-; shape_split S t t Epc.
  - destruct (c_next s t) eqn:En; [|done]. injection E as <-. shape_split S t t Epc.
  - injection E as <-. by apply shape_join.
Qed.

(** ** Who has the lock *)

(** The tile is inside the lock, or gives it up: from the end of the acquisition to the store or
    swap that passes the lock on. *)
Definition holding (pc : mcs_pc Tid) : bool :=
  match pc with
  | CLoad | CStore _ | RTest | RReload | RPass _ | RSwapOut | RPoll None => true
  | _ => false
  end.

(** The tile has the lock, or has been signalled that it has. *)
Definition token s t : Z :=
  ind (holding (c_pc s t) || (waiting (c_pc s t) && (c_unlocked s t =? 1))).

(** There is one, unless the word is null; and what is swapped back is not null. *)
Record one_token s : Prop := {
  ot_sum : sum_over (token s) tiles = ind (bool_decide (c_mtx s <> None));
  ot_victims : forall t, c_pc s t <> RSwapBack None;
}.

Lemma token_range s t : 0 <= token s t <= 1.
Proof. unfold token. by destruct (_ || _). Qed.

(** One tile moves. *)
Lemma token_update s s' t :
  t ∈ tiles -> (forall x, x <> t -> token s' x = token s x) ->
  sum_over (token s') tiles = sum_over (token s) tiles + (token s' t - token s t).
Proof. intros Ht E. apply sum_over_update; [done|done|]. auto. Qed.

(** A tile passes its token to another. *)
Lemma token_passed s s' t n :
  t ∈ tiles -> n ∈ tiles -> t <> n ->
  (forall x, x <> t -> x <> n -> token s' x = token s x) ->
  token s t = 1 -> token s' t = 0 -> token s n = 0 -> token s' n = 1 ->
  sum_over (token s') tiles = sum_over (token s) tiles.
Proof.
  intros Ht Hn Htn Hx E1 E2 E3 E4.
  pose proof (sum_over_update (token s) (<[t := 0]> (token s)) tiles t tiles_nodup Ht) as U1.
  pose proof (sum_over_update (<[t := 0]> (token s)) (token s') tiles n tiles_nodup Hn) as U2.
  rewrite U2, U1, fn_lookup_insert, fn_lookup_insert_ne; [lia|done|..].
  - intros b _ Hb. by rewrite fn_lookup_insert_ne.
  - intros b _ Hb. destruct (decide (b = t)) as [->|?];
      [by rewrite fn_lookup_insert|rewrite fn_lookup_insert_ne by done; auto].
Qed.

Lemma token_word s t : one_token s -> t ∈ tiles -> token s t = 1 -> c_mtx s <> None.
Proof.
  intros [H1 _] Ht E Em. rewrite bool_decide_false in H1 by (intros H; by apply H).
  pose proof (sum_over_one (token s) tiles t (fun _ _ => proj1 (token_range s _)) Ht). simpl in *. lia.
Qed.

Lemma token_unique s t t' : one_token s -> t ∈ tiles -> t' ∈ tiles ->
  token s t = 1 -> token s t' = 1 -> t = t'.
Proof.
  intros [H1 _] Ht Ht' E E'. destruct (decide (t = t')) as [|Hne]; [done|].
  pose proof (sum_over_two (token s) tiles t t' (fun _ _ => proj1 (token_range s _)) Ht Ht' Hne).
  destruct (bool_decide _); simpl in *; lia.
Qed.

(** Splits [one_token] after a step of [t] that changes no other tile's token. *)
Ltac token_split O t Epc :=
  split;
  [ erewrite (token_update _ _ t); [|done|intros x Hx; unfold token; cbn;
      rewrite ?fn_lookup_insert_ne by done; reflexivity];
    rewrite (ot_sum _ O); unfold token; cbn; rewrite ?fn_lookup_insert, ?Epc; cbn;
    repeat match goal with H : (_ =? _) = _ |- _ => rewrite H end;
    cbn; repeat case_bool_decide; simplify_eq/=; try done; try lia; try tauto
  | intros x; cbn; pose proof (ot_victims _ O x); destruct (decide (x = t)) as [->|?];
    rewrite ?fn_lookup_insert, ?fn_lookup_insert_ne by done; rewrite ?Epc in *; try congruence ].

Lemma token_pass s t n : shape s -> one_token s -> t ∈ tiles -> c_pc s t = RPass n ->
  one_token (move t CIdle (set_unlocked n 1 s)).
Proof.
  intros S O Ht Epc. pose proof (sh_next s S t) as Nt. rewrite Epc in Nt.
  destruct (shape_next s t n S) as (Wn & Ln & Un & Pn); [by rewrite Epc|done|].
  assert (n <> t) by (intros ->; by rewrite Epc in Wn).
  assert (n ∈ tiles) by (apply (sh_tiles s S); intros E; by rewrite E in Wn).
  split.
  - rewrite (token_passed s _ t n); [apply O|done|done|done|..]; unfold token; cbn.
    + intros x ? ?. by rewrite !fn_lookup_insert_ne by done.
    + by rewrite Epc.
    + by rewrite fn_lookup_insert.
    + rewrite Un. destruct (c_pc s n); done.
    + rewrite fn_lookup_insert, fn_lookup_insert_ne, Wn by done. by destruct (holding _).
  - intros x. cbn. pose proof (ot_victims s O x). destruct (decide (x = t)) as [->|?];
      [by rewrite fn_lookup_insert|by rewrite fn_lookup_insert_ne].
Qed.

Lemma token_step s t s' : shape s -> one_token s -> mcs_step t s = Some s' -> one_token s'.
Proof.
  intros S O E. unfold mcs_step in E. destruct (decide (t ∈ tiles)) as [Ht|]; [|done].
  pose proof (token_word s t O Ht) as Hw. pose proof (sh_start s S t) as St.
  pose proof (ot_victims s O t) as Vt.
  unfold bsg_mcs_mutex_acquire, bsg_mcs_mutex_release in E.
  destruct (c_pc s t) as [| | | |p0| | | |v| | |n| |o|u|u|u n] eqn:Epc; cbn in St;
    unfold token in Hw; rewrite Epc in Hw; cbn in Hw.
  - destruct (0 <? c_todo s t); [|done]. injection E as <-. token_split O t Epc.
  - injection E as <-. token_split O t Epc.
  - injection E as <-. token_split O t Epc.
  - specialize (St (or_introl eq_refl)). apply Z.eqb_eq in St as St'.
    assert ((c_unlocked s t =? 1) = false) as Eu by lia.
    injection E as <-. destruct (c_mtx s) eqn:Em; token_split O t Epc.
  - injection E as <-. token_split O t Epc.
  - injection E as <-. destruct (c_unlocked s t =? 1) eqn:Eu; token_split O t Epc.
  - destruct (c_resv s t); [done|]. injection E as <-.
    destruct (c_unlocked s t =? 1) eqn:Eu; token_split O t Epc.
  - injection E as <-. token_split O t Epc.
  - injection E as <-. token_split O t Epc.
  - injection E as <-. destruct (c_next s t) eqn:En; token_split O t Epc.
  - destruct (c_next s t) eqn:En; [|done]. injection E as <-. token_split O t Epc.
  - injection E as <-. by apply token_pass.
  - injection E as <-. specialize (Hw eq_refl). destruct (decide (c_mtx s = Some t)); token_split O t Epc.
  - injection E as <-. destruct o as [o|]; [|done]. destruct (c_mtx s) eqn:Em; token_split O t Epc.
  - destruct (c_next s t) eqn:En; [destruct u|]; injection E as <-; token_split O t Epc.
  - destruct (c_next s t) eqn:En; [|done]. injection E as <-. token_split O t Epc.
  - injection E as <-. token_split O t Epc.
Qed.

(** ** The order of the queue *)

(** The tile will write its own node, or that of its victims, behind the node it points at. *)
Definition link_target (pc : mcs_pc Tid) : option Tid :=
  match pc with
  | CLink p | RVictims p | RJoin p _ => Some p
  | RPoll o => o
  | _ => None
  end.

(** [q] comes after [p], or will once its tile (or the tile that releases before it) has said so. *)
Definition edge s p q : Prop :=
  queued (c_pc s p) = true /\ c_next s p = Some q \/ link_target (c_pc s q) = Some p.

(** The queue ends at [p]: in the lock word, or as the victims of [r]. *)
Definition ends s (e : option Tid) p : Prop :=
  match e with None => c_mtx s = Some p | Some r => c_pc s r = RSwapBack (Some p) end.

Inductive leads s (e : option Tid) : Tid -> Prop :=
| leads_end p : ends s e p -> leads s e p
| leads_edge p q : edge s p q -> leads s e q -> leads s e p.

(** Between the swap that took the victims out and the end of the wait for the first of them. *)
Definition swapped (pc : mcs_pc Tid) : bool :=
  match pc with RSwapBack _ | RPoll _ => true | _ => false end.

(** Every tile in line gets somewhere: the one with the lock to the lock word, one with victims to
    the last of them; and a tile that took victims out is no longer at the end of anything. *)
Record ordered s : Prop := {
  or_queued : forall p, queued (c_pc s p) = true -> exists e, leads s e p;
  or_token : forall t, token s t = 1 -> leads s None t;
  or_victims : forall r o, c_pc s r = RSwapBack o -> leads s (Some r) r;
  or_swapped : forall r, swapped (c_pc s r) = true ->
    c_mtx s <> Some r /\ forall t, c_pc s t <> RSwapBack (Some r);
}.

Lemma token_queued s t : token s t = 1 -> queued (c_pc s t) = true.
Proof. unfold token. by destruct (c_pc s t). Qed.

Lemma link_target_target pc p : link_target pc = Some p -> target pc = Some p.
Proof. by destruct pc. Qed.

(** A tile whose [next] is known is followed by that tile only. *)
Lemma edge_next s p n q : shape s -> queued (c_pc s p) = true -> c_next s p = Some n ->
  edge s p q -> q = n.
Proof.
  intros S Hq E [[_ E']|E']; [congruence|].
  destruct (shape_target s q p S) as (_ & N & _); [by apply link_target_target|congruence].
Qed.

Lemma leads_next s e p n : shape s -> queued (c_pc s p) = true -> c_next s p = Some n ->
  leads s e p -> leads s e n.
Proof.
  intros S Hq E HL. destruct HL as [p He|p q Hpq HL].
  - exfalso. destruct e as [r|]; simpl in He.
    + destruct (shape_target s r p S) as (_ & N & _); [by rewrite He|congruence].
    + destruct (shape_word s p S He) as (_ & N & _). congruence.
  - by rewrite <-(edge_next s p n q).
Qed.

(** Nothing leads into a tile that neither waits nor points at a node. *)
Lemma no_edge_into s p t : shape s -> waiting (c_pc s t) = false -> link_target (c_pc s t) = None ->
  ~ edge s p t.
Proof. intros S Hw Hl [[Hq E]|E]; [by eapply shape_no_pred|congruence]. Qed.

(** A step of [t] that changes neither the word, nor the links, nor the victims. *)
Lemma ordered_quiet s s' t :
  c_mtx s' = c_mtx s ->
  (forall x, x <> t -> c_pc s' x = c_pc s x) ->
  (forall p, queued (c_pc s p) = true -> c_next s' p = c_next s p) ->
  queued (c_pc s' t) = queued (c_pc s t) -> link_target (c_pc s' t) = link_target (c_pc s t) ->
  (forall o, c_pc s t <> RSwapBack o) -> (forall o, c_pc s' t <> RSwapBack o) ->
  (swapped (c_pc s' t) = true -> swapped (c_pc s t) = true) ->
  (forall x, token s' x = 1 -> token s x = 1) ->
  ordered s -> ordered s'.
Proof.
  intros Hm Hpc Hn Hq Hl Hb Hb' Hsw Htok O.
  assert (forall x, queued (c_pc s' x) = queued (c_pc s x)) as Hq'.
  { intros x. destruct (decide (x = t)) as [->|?]; [done|by rewrite Hpc]. }
  assert (forall x, link_target (c_pc s' x) = link_target (c_pc s x)) as Hl'.
  { intros x. destruct (decide (x = t)) as [->|?]; [done|by rewrite Hpc]. }
  assert (forall r o, c_pc s' r = RSwapBack o <-> c_pc s r = RSwapBack o) as Hv.
  { intros r o. destruct (decide (r = t)) as [->|?]; [naive_solver|by rewrite Hpc]. }
  assert (forall e p, leads s e p -> leads s' e p) as HL.
  { intros e p HL. induction HL as [p He|p q Hpq _ IH].
    - apply leads_end. destruct e as [r|]; simpl in *; [by apply Hv|congruence].
    - apply leads_edge with q; [|done]. destruct Hpq as [[Q N]|L]; [left|right].
      + by rewrite Hq', Hn.
      + by rewrite Hl'. }
  split.
  - intros p Hp. rewrite Hq' in Hp. destruct (or_queued s O p Hp) as [e He]. eauto.
  - intros x Hx. apply HL, (or_token s O). auto.
  - intros r o Hr. apply Hv in Hr. apply HL. by eapply or_victims.
  - intros r Hr. rewrite Hm. assert (swapped (c_pc s r) = true) as Hr'.
    { destruct (decide (r = t)) as [->|?]; [auto|by rewrite <-Hpc]. }
    destruct (or_swapped s O r Hr') as [Hw Hx]. split; [done|]. intros x Hx'. by apply Hv, Hx in Hx'.
Qed.

Lemma leads_mono s s' e e' p :
  (forall p q, edge s p q -> edge s' p q) -> (forall p, ends s e p -> leads s' e' p) ->
  leads s e p -> leads s' e' p.
Proof. intros Hedge Hend. induction 1 as [p He|p q Hpq _ IH]; [auto|]. eapply leads_edge; eauto. Qed.

Lemma move_same t pc s : c_pc (move t pc s) t = pc.
Proof. apply fn_lookup_insert. Qed.

Lemma move_other t pc s x : x <> t -> c_pc (move t pc s) x = c_pc s x.
Proof. intros Hx. by apply fn_lookup_insert_ne. Qed.

(** Edges survive when the links and places of a tile do. *)
Lemma edge_move s s0 t pc p q :
  c_pc s0 = c_pc s -> c_next s0 = c_next s ->
  (queued (c_pc s t) = true -> queued pc = true) ->
  (forall o, link_target (c_pc s t) = Some o -> link_target pc = Some o) ->
  edge s p q -> edge (move t pc s0) p q.
Proof.
  intros Epc En Hq Hl [[Q N]|L].
  - left. cbn. rewrite En, Epc. split; [|done].
    destruct (decide (p = t)) as [->|?]; [rewrite fn_lookup_insert; auto|by rewrite fn_lookup_insert_ne].
  - right. cbn. rewrite Epc.
    destruct (decide (q = t)) as [->|?]; [rewrite fn_lookup_insert; auto|by rewrite fn_lookup_insert_ne].
Qed.

(** The token of a tile that the step does not touch. *)
Lemma token_other s s' x :
  c_pc s' x = c_pc s x -> c_unlocked s' x = c_unlocked s x -> token s' x = token s x.
Proof. unfold token. by intros -> ->. Qed.

Lemma ordered_swap s t : shape s -> one_token s -> ordered s -> c_pc s t = CSwap ->
  ordered (move t (match c_mtx s with Some p => CLink p | None => CLoad end) (set_mtx (Some t) s)).
Proof.
  intros S T O Epc. set (pc := match c_mtx s with Some p => CLink p | None => CLoad end).
  set (s' := move t pc (set_mtx (Some t) s)).
  assert (leads s' None t) as Lt by (by apply leads_end).
  assert (forall p q, edge s p q -> edge s' p q) as Hedge.
  { intros p q. apply edge_move; [done|done|by rewrite Epc..]. }
  assert (forall e p, leads s e p -> leads s' e p) as HL.
  { intros e p. apply leads_mono; [done|]. clear p. intros p He. destruct e as [r|]; simpl in He.
    - apply leads_end. simpl. rewrite fn_lookup_insert_ne; [done|]. intros ->. congruence.
    - apply leads_edge with t; [|done]. right. subst s' pc. by rewrite move_same, He. }
  assert (forall x, x <> t -> token s' x = token s x) as Htok
    by (intros x Hx; apply token_other; [by apply fn_lookup_insert_ne|done]).
  assert (c_unlocked s t = 0) as Ut by (apply (sh_start s S); auto).
  split.
  - intros p Hp. destruct (decide (p = t)) as [->|Hne]; [by exists None|].
    unfold s' in Hp. rewrite move_other in Hp by done. destruct (or_queued s O p Hp) as [e He]. eauto.
  - intros x Hx. destruct (decide (x = t)) as [->|Hne]; [done|].
    rewrite Htok in Hx by done. by apply HL, (or_token s O).
  - intros r o Hr. destruct (decide (r = t)) as [->|Hne].
    + unfold s', pc in Hr. rewrite move_same in Hr. by destruct (c_mtx s).
    + unfold s' in Hr. rewrite move_other in Hr by done. by eapply HL, or_victims.
  - intros r Hr. destruct (decide (r = t)) as [->|Hne].
    + unfold s', pc in Hr. rewrite move_same in Hr. by destruct (c_mtx s).
    + unfold s' in Hr. rewrite move_other in Hr by done. split; [cbn; congruence|].
      intros x. destruct (decide (x = t)) as [->|Hx].
      * unfold s', pc. rewrite move_same. by destruct (c_mtx s).
      * unfold s'. rewrite move_other by done. by apply (or_swapped s O r Hr).
Qed.

Lemma ordered_link s t p0 : shape s -> ordered s -> c_pc s t = CLink p0 ->
  ordered (move t CLr (set_next p0 (Some t) s)).
Proof.
  intros S O Epc. set (s' := move t CLr (set_next p0 (Some t) s)).
  destruct (shape_target s t p0 S) as (Q0 & N0 & _); [by rewrite Epc|].
  assert (forall x, x <> t -> c_pc s' x = c_pc s x) as Hpc by (intros; by apply fn_lookup_insert_ne).
  assert (c_pc s' t = CLr) as Epc' by apply fn_lookup_insert.
  assert (forall x, queued (c_pc s' x) = queued (c_pc s x)) as Hq.
  { intros x. destruct (decide (x = t)) as [->|?]; [by rewrite Epc', Epc|by rewrite Hpc]. }
  assert (forall x o, c_pc s' x = RSwapBack o <-> c_pc s x = RSwapBack o) as Hv.
  { intros x o. destruct (decide (x = t)) as [->|?]; [by rewrite Epc', Epc|by rewrite Hpc]. }
  assert (forall e p, leads s e p -> leads s' e p) as HL.
  { intros e p. apply leads_mono; clear p.
    - intros p q [[Q N]|L].
      + left. rewrite Hq. split; [done|]. cbn. rewrite fn_lookup_insert_ne; [done|congruence].
      + destruct (decide (q = t)) as [->|Hne]; [|right; by rewrite Hpc].
        rewrite Epc in L. injection L as <-. left. rewrite Hq. split; [done|apply fn_lookup_insert].
    - intros p He. apply leads_end. destruct e as [r|]; [by apply Hv|done]. }
  assert (forall x, token s' x = token s x) as Htok.
  { intros x. destruct (decide (x = t)) as [->|?]; [|by apply token_other; [apply Hpc|]].
    unfold token. by rewrite Epc', Epc. }
  split.
  - intros p Hp. rewrite Hq in Hp. destruct (or_queued s O p Hp) as [e He]. eauto.
  - intros x Hx. rewrite Htok in Hx. by apply HL, (or_token s O).
  - intros r o Hr%Hv. by eapply HL, or_victims.
  - intros r Hr. assert (swapped (c_pc s r) = true) as Hr'.
    { destruct (decide (r = t)) as [->|?]; [by rewrite Epc' in Hr|by rewrite <-Hpc]. }
    destruct (or_swapped s O r Hr') as [Hw Hx]. split; [done|]. intros x E%Hv. by apply Hx in E.
Qed.

(** What leads to the lock word from a tile with the lock follows its successor. *)
Lemma ordered_pass s t n : shape s -> one_token s -> ordered s -> t ∈ tiles -> c_pc s t = RPass n ->
  ordered (move t CIdle (set_unlocked n 1 s)).
Proof.
  intros S T O Ht Epc. set (s' := move t CIdle (set_unlocked n 1 s)).
  pose proof (sh_next s S t) as Nt. rewrite Epc in Nt.
  assert (queued (c_pc s t) = true) as Qt by (by rewrite Epc).
  destruct (shape_next s t n S Qt Nt) as (Wn & _).
  assert (n <> t) as Hnt by (intros ->; by rewrite Epc in Wn).
  assert (forall x, x <> t -> c_pc s' x = c_pc s x) as Hpc by (intros; by apply fn_lookup_insert_ne).
  assert (c_pc s' t = CIdle) as Epc' by apply fn_lookup_insert.
  assert (forall e p, leads s e p -> p <> t -> leads s' e p) as HL.
  { intros e p. induction 1 as [p He|p q Hpq _ IH]; intros Hp.
    - apply leads_end. destruct e as [r|]; [|done]. simpl in *. rewrite Hpc; [done|congruence].
    - destruct (decide (q = t)) as [->|Hq];
        [destruct (no_edge_into s p t S); [by rewrite Epc..|done]|].
      apply leads_edge with q; [|auto]. unfold edge. rewrite !Hpc by done. exact Hpq. }
  split.
  - intros p Hp. destruct (decide (p = t)) as [->|Hne]; [by rewrite Epc' in Hp|].
    rewrite Hpc in Hp by done. destruct (or_queued s O p Hp) as [e He]. eauto.
  - intros x Hx. destruct (decide (x = t)) as [->|Hne]; [apply token_queued in Hx; by rewrite Epc' in Hx|].
    destruct (decide (x = n)) as [->|Hn].
    + apply HL; [|done]. eapply leads_next; [done|exact Qt|done|].
      apply (or_token s O). unfold token. by rewrite Epc.
    + apply HL; [|done]. apply (or_token s O). rewrite <-Hx. symmetry. apply token_other; [by apply Hpc|].
      cbn. by rewrite fn_lookup_insert_ne.
  - intros r o Hr. destruct (decide (r = t)) as [->|Hne]; [by rewrite Epc' in Hr|].
    rewrite Hpc in Hr by done. apply HL; [|done]. by eapply or_victims.
  - intros r Hr. destruct (decide (r = t)) as [->|Hne]; [by rewrite Epc' in Hr|].
    rewrite Hpc in Hr by done. destruct (or_swapped s O r Hr) as [Hw Hx]. split; [done|].
    intros x E. destruct (decide (x = t)) as [->|?]; [by rewrite Epc' in E|].
    rewrite Hpc in E by done. by apply Hx in E.
Qed.

(** The last tile leaves: nobody else is in line for the word. *)
Lemma ordered_leave s t : shape s -> one_token s -> ordered s -> t ∈ tiles ->
  c_pc s t = RSwapOut -> c_mtx s = Some t -> ordered (move t CIdle (set_mtx None s)).
Proof.
  intros S T O Ht Epc Em. set (s' := move t CIdle (set_mtx None s)).
  assert (forall x, x <> t -> c_pc s' x = c_pc s x) as Hpc by (intros; by apply fn_lookup_insert_ne).
  assert (c_pc s' t = CIdle) as Epc' by apply fn_lookup_insert.
  assert (forall e p, leads s e p -> p <> t -> leads s' e p) as HL.
  { intros e p. induction 1 as [p He|p q Hpq _ IH]; intros Hp.
    - destruct e as [r|]; simpl in He; [|congruence]. apply leads_end. cbn [ends]. rewrite Hpc; [done|congruence].
    - destruct (decide (q = t)) as [->|Hq];
        [destruct (no_edge_into s p t S); [by rewrite Epc..|done]|].
      apply leads_edge with q; [|auto]. unfold edge. rewrite !Hpc by done. exact Hpq. }
  split.
  - intros p Hp. destruct (decide (p = t)) as [->|Hne]; [by rewrite Epc' in Hp|].
    rewrite Hpc in Hp by done. destruct (or_queued s O p Hp) as [e He]. eauto.
  - intros x Hx. destruct (decide (x = t)) as [->|Hne]; [apply token_queued in Hx; by rewrite Epc' in Hx|].
    assert (token s x = 1) as Hx' by (rewrite <-Hx; symmetry; by apply token_other; [apply Hpc|]).
    destruct Hne. apply (token_unique s); [done| |done|done|unfold token; by rewrite Epc].
    by apply (queued_tiles s x S), token_queued.
  - intros r o Hr. destruct (decide (r = t)) as [->|Hne]; [by rewrite Epc' in Hr|].
    rewrite Hpc in Hr by done. apply HL; [|done]. by eapply or_victims.
  - intros r Hr. destruct (decide (r = t)) as [->|Hne]; [by rewrite Epc' in Hr|].
    rewrite Hpc in Hr by done. split; [done|]. destruct (or_swapped s O r Hr) as [_ Hx].
    intros x E. destruct (decide (x = t)) as [->|?]; [by rewrite Epc' in E|].
    rewrite Hpc in E by done. by apply Hx in E.
Qed.

(** Only one tile points at a node. *)
Lemma target_inj s t t' p : shape s ->
  target (c_pc s t) = Some p -> target (c_pc s t') = Some p -> t = t'.
Proof.
  intros S E E'. destruct (decide (t = t')) as [|Hne]; [done|].
  destruct (shape_target s t p S E) as (_ & _ & R1 & _).
  pose proof (sum_over_two (fun x => points (target (c_pc s x)) p) tiles t t'
    (fun _ _ => proj1 (points_range _ _))) as H2. cbv beta in H2. rewrite E, E', points_self in H2.
  pose proof (points_range (c_mtx s) p). unfold refs in R1.
  assert (1 + 1 <= sum_over (fun t => points (target (c_pc s t)) p) tiles); [|lia].
  apply H2; [..|done]; apply (sh_tiles s S); intros Ei; by rewrite Ei in *.
Qed.

(** The tile with the lock is not the last of anybody's victims. *)
Lemma token_not_victim s t x : shape s -> ordered s -> token s t = 1 ->
  c_pc s x <> RSwapBack (Some t).
Proof.
  intros S O Tt E. pose proof (or_token s O t Tt) as HLt.
  destruct (shape_target s x t S) as (_ & N & _ & M); [by rewrite E|].
  destruct HLt as [p He|p q Hpq _]; [done|]. destruct Hpq as [[_ Np]|L]; [congruence|].
  assert (x = q) as -> by (apply (target_inj s x q p S); [by rewrite E|by apply link_target_target]).
  by rewrite E in L.
Qed.

(** The steps that take the victims out and put them back. *)
Lemma ordered_swap_out s t v : shape s -> one_token s -> ordered s -> t ∈ tiles ->
  c_pc s t = RSwapOut -> c_mtx s = Some v -> v <> t ->
  ordered (move t (RSwapBack (Some v)) (set_mtx None s)).
Proof.
  intros S T O Ht Epc Em Hv. set (s' := move t (RSwapBack (Some v)) (set_mtx None s)).
  assert (forall x, x <> t -> c_pc s' x = c_pc s x) as Hpc by (intros; by apply fn_lookup_insert_ne).
  assert (c_pc s' t = RSwapBack (Some v)) as Epc' by apply fn_lookup_insert.
  assert (token s t = 1) as Tt by (unfold token; by rewrite Epc).
  assert (forall p q, edge s p q -> edge s' p q) as Hedge.
  { intros p q. apply edge_move; [done|done|done|by rewrite Epc]. }
  assert (forall p, leads s None p -> leads s' (Some t) p) as HL.
  { intros p. apply leads_mono; [done|]. clear p. intros p He. apply leads_end. cbn [ends] in *.
    rewrite Epc'. congruence. }
  assert (forall r p, leads s (Some r) p -> leads s' (Some r) p) as HLr.
  { intros r p. apply leads_mono; [done|]. clear p. intros p He. apply leads_end. cbn [ends] in *.
    rewrite Hpc; congruence. }
  pose proof (fun x => token_not_victim s t x S O Tt) as Hlast.
  split.
  - intros p Hp. assert (queued (c_pc s p) = true) as Hp'.
    { destruct (decide (p = t)) as [->|?]; [by rewrite Epc|by rewrite <-Hpc]. }
    destruct (or_queued s O p Hp') as [ [r|] He]; eauto.
  - intros x Hx. destruct (decide (x = t)) as [->|Hne]; [unfold token in Hx; by rewrite Epc' in Hx|].
    assert (token s x = 1) as Hx' by (rewrite <-Hx; symmetry; by apply token_other; [apply Hpc|]).
    destruct Hne. apply (token_unique s); [done| |done|done|done].
    by apply (queued_tiles s x S), token_queued.
  - intros r o Hr. destruct (decide (r = t)) as [->|Hne]; [by apply HL, (or_token s O)|].
    rewrite Hpc in Hr by done. by eapply HLr, or_victims.
  - intros r Hr. split; [done|]. intros x E. destruct (decide (x = t)) as [->|Hx].
    + rewrite Epc' in E. injection E as ->. destruct (decide (r = t)) as [->|Hne]; [done|].
      rewrite Hpc in Hr by done. by apply (or_swapped s O r Hr).
    + rewrite Hpc in E by done. destruct (decide (r = t)) as [->|Hne]; [by apply Hlast in E|].
      rewrite Hpc in Hr by done. by apply (or_swapped s O r Hr) in E.
Qed.

Lemma ordered_swap_back s t v : shape s -> one_token s -> ordered s -> t ∈ tiles ->
  c_pc s t = RSwapBack (Some v) -> ordered (move t (RPoll (c_mtx s)) (set_mtx (Some v) s)).
Proof.
  intros S T O Ht Epc. set (s' := move t (RPoll (c_mtx s)) (set_mtx (Some v) s)).
  assert (forall x, x <> t -> c_pc s' x = c_pc s x) as Hpc by (intros; by apply fn_lookup_insert_ne).
  assert (c_pc s' t = RPoll (c_mtx s)) as Epc' by apply fn_lookup_insert.
  assert (forall p q, edge s p q -> edge s' p q) as Hedge.
  { intros p q. apply edge_move; [done|done|done|by rewrite Epc]. }
  assert (forall p, leads s (Some t) p -> leads s' None p) as HLt.
  { intros p. apply leads_mono; [done|]. clear p. intros p He. apply leads_end. cbn [ends] in *.
    rewrite Epc in He. by injection He as ->. }
  assert (leads s' None t) as Lt by (by eapply HLt, or_victims).
  assert (forall p, leads s None p -> leads s' None p) as HL.
  { intros p. apply leads_mono; [done|]. clear p. intros p He. cbn [ends] in He.
    apply leads_edge with t; [|done]. right. by rewrite Epc', He. }
  assert (forall r p, r <> t -> leads s (Some r) p -> leads s' (Some r) p) as HLr.
  { intros r p Hr. apply leads_mono; [done|]. clear p. intros p He. apply leads_end. cbn [ends] in *.
    by rewrite Hpc. }
  split.
  - intros p Hp. assert (queued (c_pc s p) = true) as Hp'.
    { destruct (decide (p = t)) as [->|?]; [by rewrite Epc|by rewrite <-Hpc]. }
    destruct (or_queued s O p Hp') as [ [r|] He]; [|eauto].
    destruct (decide (r = t)) as [->|?]; eauto.
  - intros x Hx. destruct (decide (x = t)) as [->|Hne]; [done|].
    apply HL, (or_token s O). rewrite <-Hx. symmetry. by apply token_other; [apply Hpc|].
  - intros r o Hr. destruct (decide (r = t)) as [->|Hne]; [by rewrite Epc' in Hr|].
    rewrite Hpc in Hr by done. apply HLr; [done|]. by eapply or_victims.
  - intros r Hr. assert (swapped (c_pc s r) = true) as Hr'.
    { destruct (decide (r = t)) as [->|?]; [by rewrite Epc|by rewrite <-Hpc]. }
    destruct (or_swapped s O r Hr') as [_ Hx]. split; [intros [= ->]; by apply (Hx t)|].
    intros x E. destruct (decide (x = t)) as [->|?]; [by rewrite Epc' in E|].
    rewrite Hpc in E by done. by apply Hx in E.
Qed.

(** The victims are hung behind the usurper, and the tile between them leaves. *)
Lemma ordered_join s t u n : shape s -> one_token s -> ordered s -> c_pc s t = RJoin u n ->
  ordered (move t CIdle (set_next u (Some n) s)).
Proof.
  intros S T O Epc. set (s' := move t CIdle (set_next u (Some n) s)).
  pose proof (sh_next s S t) as Nt. rewrite Epc in Nt.
  assert (queued (c_pc s t) = true) as Qt by (by rewrite Epc).
  destruct (shape_next s t n S Qt Nt) as (Wn & _).
  assert (n <> t) as Hnt by (intros ->; by rewrite Epc in Wn).
  destruct (shape_target s t u S) as (Q0 & N0 & _); [by rewrite Epc|].
  assert (u <> t) as Hut by congruence.
  assert (forall x, x <> t -> c_pc s' x = c_pc s x) as Hpc by (intros; by apply fn_lookup_insert_ne).
  assert (c_pc s' t = CIdle) as Epc' by apply fn_lookup_insert.
  assert (forall e p, leads s e p -> (p <> t -> leads s' e p) /\ (p = t -> leads s' e n)) as HL'.
  { intros e p. induction 1 as [p He|p q Hpq HL [IH1 IH2]]; split; intros Hp.
    - apply leads_end. destruct e as [r|]; [|done]. cbn [ends] in *. rewrite Hpc; [done|congruence].
    - subst p. exfalso. destruct e as [r|]; cbn [ends] in He.
      + destruct (shape_target s r t S) as (_ & N & _); [by rewrite He|congruence].
      + destruct (shape_word s t S He) as (_ & N & _). congruence.
    - destruct (decide (q = t)) as [->|Hq].
      + destruct Hpq as [[Q N]|L]; [exfalso; eapply (shape_no_pred s p t S Q N); by rewrite Epc|].
        rewrite Epc in L. injection L as <-. apply leads_edge with n; [|by apply IH2].
        left. rewrite Hpc by done. split; [done|apply fn_lookup_insert].
      + apply leads_edge with q; [|by apply IH1]. destruct Hpq as [[Q N]|L].
        * left. rewrite Hpc by done. split; [done|]. cbn. rewrite fn_lookup_insert_ne; [done|congruence].
        * right. by rewrite Hpc.
    - subst p. rewrite (edge_next s t n q S Qt Nt Hpq) in IH1. by apply IH1. }
  assert (forall e p, p <> t -> leads s e p -> leads s' e p) as HL by (intros e p Hp H; by apply HL').
  split.
  - intros p Hp. destruct (decide (p = t)) as [->|Hne]; [by rewrite Epc' in Hp|].
    rewrite Hpc in Hp by done. destruct (or_queued s O p Hp) as [e He]. eauto.
  - intros x Hx. destruct (decide (x = t)) as [->|Hne]; [apply token_queued in Hx; by rewrite Epc' in Hx|].
    apply HL; [done|]. apply (or_token s O). rewrite <-Hx. symmetry. by apply token_other; [apply Hpc|].
  - intros r o Hr. destruct (decide (r = t)) as [->|Hne]; [by rewrite Epc' in Hr|].
    rewrite Hpc in Hr by done. apply HL; [done|]. by eapply or_victims.
  - intros r Hr. destruct (decide (r = t)) as [->|Hne]; [by rewrite Epc' in Hr|].
    rewrite Hpc in Hr by done. destruct (or_swapped s O r Hr) as [Hw Hx]. split; [done|].
    intros x E. destruct (decide (x = t)) as [->|?]; [by rewrite Epc' in E|].
    rewrite Hpc in E by done. by apply Hx in E.
Qed.

(** The quiet steps: [ordered_quiet] with its conditions evaluated. *)
Ltac quiet s t Epc :=
  apply (ordered_quiet s _ t); cbn; rewrite ?fn_lookup_insert, ?Epc; try done;
  [ intros x Hx; by rewrite fn_lookup_insert_ne
  | try (intros p Hp; rewrite fn_lookup_insert_ne; [done|intros <-; by rewrite Epc in Hp]) ..
  | intros x; unfold token; cbn; destruct (decide (x = t)) as [->|Hx];
    [rewrite fn_lookup_insert, ?Epc; cbn; rewrite ?fn_lookup_insert; try done
    |rewrite ?fn_lookup_insert_ne by done; try done] ].

Lemma ordered_step s t s' :
  shape s -> one_token s -> ordered s -> mcs_step t s = Some s' -> ordered s'.
Proof.
  intros S T O E. unfold mcs_step in E. destruct (decide (t ∈ tiles)) as [Ht|]; [|done].
  unfold bsg_mcs_mutex_acquire, bsg_mcs_mutex_release in E.
  destruct (c_pc s t) as [| | | |p0| | | |v| | |n| |o|u|u|u n] eqn:Epc.
  - destruct (0 <? c_todo s t); [|done]. injection E as <-. quiet s t Epc.
  - injection E as <-. quiet s t Epc.
  - injection E as <-. quiet s t Epc.
  - injection E as <-. pose proof (ordered_swap s t S T O Epc) as O'. by destruct (c_mtx s).
  - injection E as <-. by apply ordered_link.
  - injection E as <-. destruct (c_unlocked s t =? 1) eqn:Eu; quiet s t Epc. by rewrite Eu.
  - destruct (c_resv s t); [done|]. injection E as <-.
    destruct (c_unlocked s t =? 1) eqn:Eu; quiet s t Epc. by rewrite Eu.
  - injection E as <-. quiet s t Epc.
  - injection E as <-. quiet s t Epc.
  - injection E as <-. destruct (c_next s t) eqn:En; quiet s t Epc.
  - destruct (c_next s t) eqn:En; [|done]. injection E as <-. quiet s t Epc.
  - injection E as <-. by apply ordered_pass.
  - injection E as <-. assert (token s t = 1) as Tt by (unfold token; by rewrite Epc).
    destruct (decide (c_mtx s = Some t)) as [Em|Em]; [by apply ordered_leave|].
    destruct (c_mtx s) as [v|] eqn:Ev; [|by destruct (token_word s t T Ht Tt)].
    apply ordered_swap_out; [done..|congruence].
  - injection E as <-. destruct o as [v|]; [by apply ordered_swap_back|by apply (ot_victims s T) in Epc].
  - destruct (c_next s t) eqn:En; [destruct u|]; injection E as <-; quiet s t Epc.
  - destruct (c_next s t) eqn:En; [|done]. injection E as <-. quiet s t Epc.
  - injection E as <-. by apply ordered_join.
Qed.

(** ** Progress *)

(** [lr] reserves the flag it finds unset, and setting the flag clears the reservation. *)
Definition awake s : Prop := forall t, c_pc s t = CLrAq -> c_unlocked s t = 1 -> c_resv s t = false.

Lemma awake_move s s0 t pc : awake s ->
  c_resv s0 = c_resv s -> c_unlocked s0 = c_unlocked s -> c_pc s0 = c_pc s -> pc <> CLrAq ->
  awake (move t pc s0).
Proof.
  intros A E1 E2 E3 Hpc x. cbn. rewrite E1, E2, E3.
  destruct (decide (x = t)) as [->|?]; [by rewrite fn_lookup_insert|].
  rewrite fn_lookup_insert_ne by done. apply A.
Qed.

Lemma awake_step s t s' : awake s -> mcs_step t s = Some s' -> awake s'.
Proof.
  intros A E. unfold mcs_step in E. destruct (decide (t ∈ tiles)) as [Ht|]; [|done].
  unfold bsg_mcs_mutex_acquire, bsg_mcs_mutex_release in E.
  destruct (c_pc s t) as [| | | |p0| | | |v| | |n| |o|u|u|u n] eqn:Epc;
    try (destruct (c_next s t) eqn:En); repeat case_match; simplify_eq/=;
    try (by apply (awake_move s)); intros x; cbn.
  all: destruct (decide (x = t)) as [->|?]; [try (by rewrite fn_lookup_insert); intros _ E1; lia
    |rewrite !(fn_lookup_insert_ne _ t) by done; try apply A].
  all: destruct (decide (x = n)) as [->|?];
    [by rewrite !fn_lookup_insert|rewrite !fn_lookup_insert_ne by done; apply A].
Qed.

(** The tile would make headway: it is not waiting for anything. *)
Definition can_move s t : bool :=
  match c_pc s t with
  | CIdle => 0 <? c_todo s t
  | CLr | CLrAq => c_unlocked s t =? 1
  | RPoll _ => bool_decide (c_next s t <> None)
  | _ => true
  end.

Definition mcs_rank (pc : mcs_pc Tid) : Z :=
  match pc with
  | CIdle => 0 | CNext => 14 | CUnlocked => 13 | CSwap => 12 | CLink _ => 11 | CLr | CLrAq => 10
  | CLoad => 9 | CStore _ => 8 | RTest => 7 | RSwapOut => 6 | RSwapBack _ => 5 | RPoll _ => 4
  | RReload | RVictims _ => 3 | RPass _ | RJoin _ _ => 2
  end.

Definition mcs_measure s : Z := sum_over (fun t => 15 * c_todo s t + mcs_rank (c_pc s t)) tiles.

Lemma can_move_step s t : shape s -> awake s -> t ∈ tiles -> can_move s t = true ->
  exists s', mcs_step t s = Some s' /\ mcs_measure s' < mcs_measure s.
Proof.
  intros S A Ht Hm. unfold can_move in Hm. unfold mcs_step. rewrite decide_True by done.
  pose proof (sh_next s S t) as Nt. pose proof (A t) as At.
  unfold bsg_mcs_mutex_acquire, bsg_mcs_mutex_release.
  destruct (c_pc s t) as [| | | |p0| | | |v| | |n| |o|u|u|u n] eqn:Epc; cbn in Hm, Nt;
    try apply bool_decide_eq_true in Hm;
    repeat match goal with
    | |- context [c_next s t] => destruct (c_next s t) eqn:En
    | |- context [if c_resv s t then _ else _] => rewrite (At eq_refl) by lia
    end; try done; try (rewrite Hm); cbn.
  all: eexists; (split; [reflexivity|]); unfold mcs_measure;
    rewrite (sum_over_update (fun t => 15 * c_todo s t + mcs_rank (c_pc s t)) _ tiles t tiles_nodup Ht);
    [|intros x _ Hx; repeat case_match; cbn; rewrite ?fn_lookup_insert_ne by done; reflexivity].
  all: cbn beta; rewrite Epc; repeat case_match; cbn; rewrite ?fn_lookup_insert; cbn; try lia.
Qed.

Definition all_done s : Prop := forall t, t ∈ tiles -> c_pc s t = CIdle /\ c_todo s t <= 0.

(** If nobody can move, nobody polls: what a polling tile waits for would end with a tile that
    can. *)
Lemma no_poller s e r u : shape s -> ordered s -> (forall t, t ∈ tiles -> can_move s t = false) ->
  c_pc s r = RPoll u -> ~ leads s e r.
Proof.
  intros S O Hno Epc HL. revert u Epc. induction HL as [r He|r q Hrq _ IH]; intros u Epc.
  - destruct (or_swapped s O r) as [Hw Hx]; [by rewrite Epc|]. destruct e as [r'|]; cbn in He; [|done].
    by apply Hx in He.
  - pose proof (Hno r (sh_tiles s S r ltac:(congruence))) as Hr. unfold can_move in Hr. rewrite Epc in Hr.
    apply bool_decide_eq_false in Hr. destruct Hrq as [[_ Nr]|L]; [apply Hr; congruence|].
    assert (can_move s q = false) as Hq
      by (apply Hno, (sh_tiles s S); intros E; by rewrite E in L).
    unfold can_move in Hq. destruct (c_pc s q) eqn:Eq; try done. by eapply IH.
Qed.

(** If nobody can move, the lock word is null, and nobody is in line. *)
Lemma stuck_empty s t : shape s -> one_token s -> ordered s ->
  (forall t, t ∈ tiles -> can_move s t = false) -> queued (c_pc s t) = true -> False.
Proof.
  intros S T O Hno Hq. destruct (or_queued s O t Hq) as [e HL].
  assert (exists p, ends s e p) as [p He] by (clear -HL; induction HL; eauto).
  assert (forall x, queued (c_pc s x) = true -> can_move s x = false) as Hno'
    by (intros x Hx; by apply Hno, (queued_tiles s x S)).
  destruct e as [r|]; cbn in He.
  - pose proof (Hno' r) as Hr. unfold can_move in Hr. rewrite He in Hr. by discriminate Hr.
  - pose proof (ot_sum s T) as Hs. rewrite bool_decide_true in Hs by congruence.
    destruct (sum_over_pos (token s) tiles) as (h & Hh & Hp); [by rewrite Hs|].
    assert (token s h = 1) as Th by (pose proof (token_range s h); lia).
    pose proof (Hno h Hh) as Hm. pose proof (token_queued s h Th) as Qh.
    destruct (or_queued s O h Qh) as [e' HL'].
    unfold can_move in Hm. unfold token in Th. destruct (c_pc s h) eqn:Eh; try done.
    + cbn in Th. by rewrite Hm in Th.
    + cbn in Th. by rewrite Hm in Th.
    + by eapply (no_poller s e' h).
Qed.

Lemma mcs_progress s : shape s -> one_token s -> ordered s ->
  all_done s \/ exists t, t ∈ tiles /\ can_move s t = true.
Proof.
  intros S T O. destruct (decide (Exists (fun t => can_move s t = true) tiles)) as [HE|HE].
  - right. apply Exists_exists in HE as (t & Ht & Hm). eauto.
  - left. assert (forall t, t ∈ tiles -> can_move s t = false) as Hno.
    { intros t Ht. apply not_true_is_false. intros Hm. apply HE, Exists_exists. eauto. }
    intros t Ht. assert (queued (c_pc s t) <> true) as Hq by (intros Hq; by eapply stuck_empty).
    pose proof (Hno t Ht) as Hm. unfold can_move in Hm.
    destruct (c_pc s t); try done. split; [done|lia].
Qed.

(** ** The word incremented inside the lock *)

(** The call has not stored yet. *)
Definition pending (pc : mcs_pc Tid) : bool :=
  match pc with
  | CNext | CUnlocked | CSwap | CLink _ | CLr | CLrAq | CLoad | CStore _ => true
  | _ => false
  end.

(** The calls begun and not stored, and the calls not begun. *)
Definition to_store s : Z := sum_over (fun t => c_todo s t + ind (pending (c_pc s t))) tiles.

(** [data] and the stores to come add up to [all]. *)
Record counted (all : Z) s : Prop := {
  co_store : forall t v, c_pc s t = CStore v -> v = i32 (c_data s + 1);
  co_data : i32 (c_data s + to_store s) = i32 all;
  co_todo : forall t, t ∈ tiles -> 0 <= c_todo s t;
  co_range : is_i32 (c_data s);
}.

Lemma to_store_update s s' t : t ∈ tiles ->
  (forall x, x <> t -> c_pc s' x = c_pc s x /\ c_todo s' x = c_todo s x) ->
  to_store s' = to_store s + (c_todo s' t + ind (pending (c_pc s' t))) -
    (c_todo s t + ind (pending (c_pc s t))).
Proof.
  intros Ht Hx. unfold to_store.
  rewrite (sum_over_update (fun t => c_todo s t + ind (pending (c_pc s t))) _ tiles t); [lia|done|done|].
  intros x _ Hne. by destruct (Hx x Hne) as [-> ->].
Qed.

(** A step that leaves [data] and the count alone. *)
Lemma counted_move all s s0 t pc : t ∈ tiles -> counted all s ->
  c_pc s0 = c_pc s -> c_data s0 = c_data s -> (forall x, x <> t -> c_todo s0 x = c_todo s x) ->
  c_todo s0 t + ind (pending pc) = c_todo s t + ind (pending (c_pc s t)) -> 0 <= c_todo s0 t ->
  (forall v, pc = CStore v -> v = i32 (c_data s + 1)) ->
  counted all (move t pc s0).
Proof.
  intros Ht C E1 E2 E3 E4 Hpos Hv. split.
  - intros x v. cbn. rewrite E1, E2. destruct (decide (x = t)) as [->|?];
      [rewrite fn_lookup_insert; apply Hv|rewrite fn_lookup_insert_ne by done; apply (co_store _ _ C)].
  - rewrite (to_store_update s _ t), <-(co_data _ _ C); cbn; [|done|].
    + rewrite fn_lookup_insert, E2. f_equal. lia.
    + intros x Hx. by rewrite E1, E3, fn_lookup_insert_ne.
  - intros x Hx. cbn. destruct (decide (x = t)) as [->|?]; [done|]. rewrite E3 by done. by apply (co_todo _ _ C).
  - cbn. rewrite E2. apply C.
Qed.

(** The store of the tile inside the lock. *)
Lemma counted_store all s t v : shape s -> one_token s -> counted all s -> t ∈ tiles -> c_pc s t = CStore v ->
  counted all (move t RTest (set_data v s)).
Proof.
  intros S T C Ht Epc. pose proof (co_store _ _ C t v Epc) as ->. split.
  - intros x w. cbn. destruct (decide (x = t)) as [->|Hx]; [by rewrite fn_lookup_insert|].
    rewrite fn_lookup_insert_ne by done. intros E. destruct Hx.
    destruct (decide (x ∈ tiles)) as [Hin|Hin].
    + apply (token_unique s); unfold token; rewrite ?E, ?Epc; done.
    + by destruct Hin; apply (sh_tiles s S); rewrite E.
  - rewrite (to_store_update s _ t); cbn; [|done|].
    + rewrite fn_lookup_insert, Epc, <-(co_data _ _ C), i32_add_l. f_equal. cbn. lia.
    + intros x Hx. by rewrite fn_lookup_insert_ne.
  - intros x Hx. by apply (co_todo _ _ C).
  - apply i32_range.
Qed.

Lemma counted_step all s t s' : shape s -> one_token s -> counted all s -> mcs_step t s = Some s' -> counted all s'.
Proof.
  intros S T C E. unfold mcs_step in E. destruct (decide (t ∈ tiles)) as [Ht|]; [|done].
  pose proof (co_todo _ _ C t Ht) as Pt.
  unfold bsg_mcs_mutex_acquire, bsg_mcs_mutex_release in E.
  destruct (c_pc s t) as [| | | |p0| | | |v| | |n| |o|u|u|u n] eqn:Epc;
    try (destruct (c_next s t) eqn:En); repeat case_match; simplify_eq/=;
    try (by apply counted_store);
    try (apply (counted_move all s); cbn; rewrite ?fn_lookup_insert, ?Epc; cbn; try done; try lia;
         try (intros; by rewrite fn_lookup_insert_ne)).
  all: intros ? [= <-]; done.
Qed.
End invariant.

(** ** The system *)

Variable total : Tid -> Z.    (* the calls each tile makes *)
Variable data0 : Z.           (* the initial value of [data] *)

(** The word starts null; what the nodes hold before the first call is arbitrary. *)
Definition mcs_init s : Prop :=
  c_mtx s = None /\ c_data s = data0 /\ is_i32 data0 /\
  (forall t, c_pc s t = CIdle /\ c_todo s t = total t) /\ (forall t, t ∈ tiles -> 0 <= total t).

#[local] Instance mcs_lts : Lts state Tid := { lts_init := mcs_init; lts_step := mcs_step }.

(** The lock is held: from the end of [bsg_mcs_mutex_acquire] to the store or swap of
    [bsg_mcs_mutex_release] that gives it up. *)
Definition in_lock s t : Prop := t ∈ tiles /\ holding (c_pc s t) = true.

Record mcs_inv s : Prop := {
  mi_shape : shape s;
  mi_token : one_token s;
  mi_order : ordered s;
  mi_awake : awake s;
  mi_count : counted (data0 + sum_over total tiles) s;
}.

Lemma mcs_inv_init s : mcs_init s -> mcs_inv s.
Proof.
  intros (Hm & Hd & Hr & Hpc & Htot). assert (forall t, c_pc s t = CIdle) as Hi by (intros t; apply Hpc).
  assert (forall p, refs s p = 0) as Hrefs.
  { intros p. unfold refs. rewrite Hm, sum_over_zero; [done|]. intros t _. by rewrite Hi. }
  split.
  - split; intros x; rewrite ?Hi, ?Hrefs; try done; [|by intros [|]..].
    unfold preds. rewrite Hi, sum_over_zero; [done|]. intros t _. by rewrite Hi.
  - split; [|intros x; by rewrite Hi]. rewrite Hm, bool_decide_false, sum_over_zero; [done| |by intros H; apply H].
    intros t _. unfold token. by rewrite Hi.
  - split; [intros x|intros x|intros x o|intros x]; unfold token; rewrite Hi; done.
  - intros x. by rewrite Hi.
  - split; [intros t v; by rewrite Hi| |intros t Ht; rewrite (proj2 (Hpc t)); auto|by rewrite Hd].
    rewrite Hd. unfold to_store. do 2 f_equal. apply sum_over_ext. intros t _.
    destruct (Hpc t) as [-> ->]. simpl. lia.
Qed.

Section facts.
Hypothesis tiles_nodup : NoDup tiles.

Lemma mcs_inv_step s t s' : mcs_inv s -> mcs_step t s = Some s' -> mcs_inv s'.
Proof.
  intros [S T O A C] E. split.
  - by eapply shape_step.
  - by eapply token_step.
  - by eapply ordered_step.
  - by eapply awake_step.
  - by eapply counted_step.
Qed.

Lemma mcs_reachable_inv s : reachable s -> mcs_inv s.
Proof. apply invariant_reachable; [apply mcs_inv_init|intros; by eapply mcs_inv_step]. Qed.

Lemma mcs_data s : reachable s -> all_done s -> c_data s = i32 (data0 + sum_over total tiles).
Proof.
  intros Hs Hd. pose proof (mi_count s (mcs_reachable_inv s Hs)) as C.
  rewrite <-(co_data _ _ C), <-(i32_id (c_data s)) at 1 by apply C. f_equal.
  unfold to_store. rewrite sum_over_zero; [lia|]. intros t Ht. destruct (Hd t Ht) as [-> Hz].
  pose proof (co_todo _ _ C t Ht). simpl. lia.
Qed.
End facts.

(** In every interleaving at most one tile is inside. *)
Lemma mcs_exclusion s t t' :
  NoDup tiles -> reachable s -> in_lock s t -> in_lock s t' -> t = t'.
Proof.
  intros Hnd Hs [Ht H] [Ht' H']. pose proof (mi_token s (mcs_reachable_inv Hnd s Hs)) as T.
  apply (token_unique s); [done..| |]; unfold token; by rewrite ?H, ?H'.
Qed.

(** No deadlock: from every reachable state, whatever has been swapped out and
    whoever waits for whom, some continuation lets every tile acquire and release the lock as
    often as it wants to. *)
Lemma mcs_can_finish s :
  NoDup tiles -> reachable s -> can_reach (fun t => t ∈ tiles) s all_done.
Proof.
  intros Hnd Hs. apply (can_reach_measure _ mcs_inv _ mcs_measure); [| |by apply mcs_reachable_inv].
  - intros s' I. apply sum_over_nonneg. intros t Ht. pose proof (co_todo _ _ (mi_count s' I) t Ht).
    destruct (c_pc s' t); simpl; lia.
  - intros s' I. destruct (mcs_progress s') as [Hd|(t & Ht & Hm)]; [apply I..|by left|right].
    destruct (can_move_step Hnd s' t (mi_shape s' I) (mi_awake s' I) Ht Hm) as (s'' & E & Hlt).
    exists t, s''. split_and!; [done..|by eapply mcs_inv_step|done].
Qed.
End mcs.

(** ** [bsg_mcs_mutex_test] *)

(** The check of [main]: [data != ITERS * bsg_tiles_X * bsg_tiles_Y]. *)
Definition mcs_test_fails (c : config) (iters data : Z) : bool :=
  negb (data =? (iters *i bsg_tiles_X c *i bsg_tiles_Y c)%c).

Lemma length_group_tiles c : wf_config c -> Z.of_nat (length (group_tiles c)) = bsg_num_tiles c.
Proof.
  intros wf. pose proof (group_ids c wf) as HP. apply Permutation_length in HP.
  rewrite length_fmap in HP. rewrite HP, length_range. destruct wf as (? & ? & _).
  unfold bsg_num_tiles in *. nia.
Qed.

(** C21 (safety).  Mutual exclusion of the queue lock: in every interleaving at most one tile is
    inside it, also while a releasing tile has swapped the queue out of the lock word and the word
    is up for grabs.  Hence the mutex test passes: when all tiles of a group have been through the
    lock [iters] times, in whatever order, the word they incremented without an atomic passes the
    check.  And from every reachable state, whatever has been swapped out and whoever waits for
    whom, every tile can acquire and release the lock as often as it wants to. *)
Theorem mcs_mutex_correct {Tid} `{EqDecision Tid} (tiles : list Tid) total data0 s :
  NoDup tiles -> @reachable _ _ (mcs_lts tiles total data0) s ->
  (forall t t', in_lock tiles s t -> in_lock tiles s t' -> t = t') /\
  (all_done tiles s -> c_data s = i32 (data0 + sum_over total tiles)) /\
  (all_done tiles s -> forall c iters, wf_config c ->
     length tiles = length (group_tiles c) -> data0 = 0 -> total = (fun _ => iters) ->
     mcs_test_fails c iters (c_data s) = false) /\
  @can_reach _ _ (mcs_lts tiles total data0) (fun t => t ∈ tiles) s (all_done tiles).
Proof.
  intros Hnd Hs. split; [intros t t'; by eapply mcs_exclusion|].
  assert (all_done tiles s -> c_data s = i32 (data0 + sum_over total tiles)) as Hdata by (by apply mcs_data).
  split; [done|]. split; [|by apply mcs_can_finish].
  intros Hd c iters wf Hlen -> ->. unfold mcs_test_fails. rewrite Hdata by done.
  rewrite sum_over_const, Hlen, length_group_tiles, Z.add_0_l by done. apply negb_false_iff, Z.eqb_eq.
  unfold bsg_num_tiles. rewrite i32_mul_l. f_equal. lia.
Qed.

(** *** Witnesses: three tiles, two of which swap the queue out *)

Definition mcs_example : mcs_state Z :=
  Build_mcs_state None (fun _ => 7) (fun _ => Some 0) 0 (fun _ => false) (fun _ => CIdle) (fun _ => 1).

#[local] Instance example_lts : Lts (mcs_state Z) Z := mcs_lts [0; 1; 2] (fun _ => 1) 0.

Lemma mcs_example_init : mcs_init [0; 1; 2] (fun _ => 1) 0 mcs_example.
Proof. repeat split; unfold is_i32; simpl; lia. Qed.

Lemma example_nodup : NoDup [0; 1; 2].
Proof. apply NoDup_ListNoDup. repeat constructor; simpl; lia. Qed.

(** Tile 0 takes the lock, sees no successor; tile 1 joins; tile 0 swaps the word out; tile 2
    finds it null and takes the lock; tile 0 swaps tile 1 back in. *)
Definition usurp : list Z := [0; 0; 0; 0; 0; 0; 0; 1; 1; 1; 1; 0; 2; 2; 2; 2; 0; 0].

Example usurped :
  let s := run_skip usurp mcs_example in
  c_pc s 0 = RPoll (Some 2) /\ c_pc s 1 = CLink 0 /\ c_pc s 2 = CLoad /\ c_mtx s = Some 1.
Proof. vm_compute. done. Qed.

(** Two tiles, two rounds each, to the end. *)
Definition config_2x1 : config :=
  {| bsg_tiles_X := 2; bsg_tiles_Y := 1; bsg_global_X := 16; bsg_global_Y := 8;
     IO_X_INDEX := 16; IO_Y_INDEX := 0 |}.

Definition mcs_test_start : mcs_state (Z * Z) :=
  Build_mcs_state None (fun _ => 0) (fun _ => None) 0 (fun _ => false) (fun _ => CIdle) (fun _ => 2).

Definition mcs_test_end : mcs_state (Z * Z) :=
  @run_skip _ _ (mcs_lts (group_tiles config_2x1) (fun _ => 2) 0)
    (mjoin (replicate 60%nat [(0, 0); (1, 0)])) mcs_test_start.

(** Tile 2 is inside while the queue of tile 1 is being put back behind it; two tiles of a group
    end with the count. *)
Lemma mcs_mutex_correct_witness :
  (let s := run_skip usurp mcs_example in
   in_lock [0; 1; 2] s 2 /\ forall t, in_lock [0; 1; 2] s t -> t = 2) /\
  mcs_test_fails config_2x1 2 (c_data mcs_test_end) = false /\ c_data mcs_test_end = 4 /\
  can_reach (fun t => t ∈ [0; 1; 2]) (run_skip usurp mcs_example) (all_done [0; 1; 2]).
Proof.
  split; [|split; [|split; [vm_compute; reflexivity|]]].
  - assert (in_lock [0; 1; 2] (run_skip usurp mcs_example) 2) as H2
      by (split; [right; right; left|reflexivity]).
    split; [exact H2|]. intros t Ht.
    apply (mcs_mutex_correct [0; 1; 2] (fun _ => 1) 0 (run_skip usurp mcs_example));
      [apply example_nodup|apply run_skip_reachable; constructor; apply mcs_example_init|exact Ht|exact H2].
  - apply (mcs_mutex_correct (group_tiles config_2x1) (fun _ => 2) 0 mcs_test_end);
      [apply NoDup_group_tiles| | |unfold wf_config, bsg_num_tiles; simpl; lia|reflexivity..].
    + apply run_skip_reachable. constructor. repeat split; unfold is_i32; simpl; lia.
    + assert (Forall (fun t => c_pc mcs_test_end t = CIdle /\ c_todo mcs_test_end t <= 0)
        (group_tiles config_2x1)) as H by (vm_compute; repeat constructor; done).
      rewrite Forall_forall in H. exact H.
  - apply (mcs_mutex_correct [0; 1; 2] (fun _ => 1) 0 (run_skip usurp mcs_example));
      [apply example_nodup|apply run_skip_reachable; constructor; apply mcs_example_init].
Defined.
