(* ===== verification/HwBarrier.v ===== *)
(** * The hardware-barrier configuration of [bsg_hw_barrier_config_init.h]

    [bsg_hw_barrier_config_init] computes, for each tile of a [tx] by [ty] group, the word that
    programs its node of the barrier network: a mask of the inputs the node waits for (bit 0 is
    the tile itself) and, at [OUTDIR_OFFSET], the direction of its output.  The theorems say
    that the words describe a spanning tree rooted at the centre tile: every input of a node is
    some neighbour's output and conversely, and every tile's signal reaches the root inside the
    group.  [BARRIER_RUCHE_FACTOR_X] is a macro of the build, here [ruche]. *)

From S2P Require Import Prelude.
Local Open Scope Z_scope.

Definition OUTDIR_OFFSET : Z := 16.

(** The directions, with the numbers of the output field and of the input mask. *)
Inductive dir : Type := DirP | DirW | DirE | DirN | DirS | DirRW | DirRE.

Definition dir_num (d : dir) : Z :=
  match d with
  | DirP => 0 | DirW => 1 | DirE => 2 | DirN => 3 | DirS => 4 | DirRW => 5 | DirRE => 6
  end.

Definition ROOT : Z := 7.

Section config.
Variable ruche : Z.    (* BARRIER_RUCHE_FACTOR_X *)
Variables tx ty : Z.

Definition center_x : Z := Z.quot tx 2.
Definition center_y : Z := Z.quot ty 2.

(** The chain of [else if]s that sets the output. *)
Definition outdir (x y : Z) : Z :=
  if x <=? center_x - ruche then 6
  else if (x <? center_x) && (x >? center_x - ruche) then 2
  else if x =? center_x then
    if y <? center_y then 4 else if y =? center_y then 7 else 3
  else if (x >? center_x) && (x <? center_x + ruche) then 1
  else 5.

(** [if (cond) val |= (1 << k);] *)
Definition set_bit (cond : bool) (k val : Z) : Z :=
  if cond then Z.lor val (Z.shiftl 1 k) else val.

(** The body of the two loops. *)
Definition config_val (x y : Z) : Z :=
  let val := 1 in
  let val := Z.lor val (Z.shiftl (outdir x y) OUTDIR_OFFSET) in
  let val := set_bit ((center_x - x <? ruche - 1) && (x <=? center_x) && (x >? 0)) 1 val in
  let val := set_bit ((x - ruche >=? 0) && (x <=? center_x)) 5 val in
  let val := set_bit ((x - center_x <? ruche - 1) && (x >=? center_x) && (x <? tx - 1)) 2 val in
  let val := set_bit ((x + ruche <? tx) && (x >=? center_x)) 6 val in
  if x =? center_x then
    let val := set_bit ((y >? 0) && (y <=? center_y)) 3 val in
    set_bit ((y <? ty - 1) && (y >=? center_y)) 4 val
  else val.

(** The stores of the two loops, in order. *)
Definition bsg_hw_barrier_config_init (arr : Z -> Z) : Z -> Z :=
  fold_left (fun arr xy => <[xy.1 + xy.2 * tx := config_val xy.1 xy.2]> arr) (grid 0 tx 0 ty) arr.

(** What a node does with its word. *)
Definition waits_for (val : Z) (d : dir) : bool := Z.testbit val (dir_num d).

Definition output_of (val : Z) : Z := slice val OUTDIR_OFFSET 3.

(** The neighbour in a direction, and the direction in which it sees this node. *)
Definition neighbour (d : dir) (x y : Z) : Z * Z :=
  match d with
  | DirP => (x, y)
  | DirW => (x - 1, y) | DirE => (x + 1, y)
  | DirN => (x, y - 1) | DirS => (x, y + 1)
  | DirRW => (x - ruche, y) | DirRE => (x + ruche, y)
  end.

Definition opposite (d : dir) : dir :=
  match d with
  | DirP => DirP | DirW => DirE | DirE => DirW | DirN => DirS | DirS => DirN
  | DirRW => DirRE | DirRE => DirRW
  end.

Definition in_group (x y : Z) : bool := (0 <=? x) && (x <? tx) && (0 <=? y) && (y <? ty).

(** Where the output of a node goes: [None] at the root. *)
Definition dir_of_num (n : Z) : option dir :=
  match n with
  | 1 => Some DirW | 2 => Some DirE | 3 => Some DirN | 4 => Some DirS
  | 5 => Some DirRW | 6 => Some DirRE | _ => None
  end.

Definition next_hop (p : Z * Z) : option (Z * Z) :=
  d ← dir_of_num (output_of (config_val p.1 p.2)); Some (neighbour d p.1 p.2).

(** The path of a signal, at most [fuel] hops. *)
Fixpoint route (fuel : nat) (p : Z * Z) : list (Z * Z) :=
  p :: match fuel with
       | O => []
       | S fuel => match next_hop p with Some q => route fuel q | None => [] end
       end.

#[local] Arguments config_val : simpl never.
#[local] Arguments output_of : simpl never.
#[local] Arguments next_hop : simpl never.

(** ** The fields of the word *)

Lemma set_bit_testbit c k v i :
  0 <= k -> 0 <= i -> Z.testbit (set_bit c k v) i = Z.testbit v i || (c && (i =? k)).
Proof.
  intros Hk Hi. unfold set_bit. destruct c; simpl; [|by rewrite orb_false_r].
  rewrite Z.lor_spec. f_equal. rewrite Z.shiftl_1_l, Z.pow2_bits_eqb by done. apply Z.eqb_sym.
Qed.

Lemma outdir_range x y : 1 <= outdir x y <= 7.
Proof. unfold outdir. repeat case_match; lia. Qed.

(** The word before the input bits. *)
Lemma base_testbit x y i :
  0 <= i < 16 -> Z.testbit (Z.lor 1 (Z.shiftl (outdir x y) OUTDIR_OFFSET)) i = (i =? 0).
Proof.
  intros Hi. rewrite Z.lor_spec, Z.shiftl_spec_low, orb_false_r by (unfold OUTDIR_OFFSET; lia).
  change 1 with (2 ^ 0). rewrite Z.pow2_bits_eqb by lia. apply Z.eqb_sym.
Qed.

(** The input bit of each direction is the condition that sets it. *)
Definition input_cond (d : dir) (x y : Z) : bool :=
  match d with
  | DirP => true
  | DirW => (center_x - x <? ruche - 1) && (x <=? center_x) && (x >? 0)
  | DirRW => (x - ruche >=? 0) && (x <=? center_x)
  | DirE => (x - center_x <? ruche - 1) && (x >=? center_x) && (x <? tx - 1)
  | DirRE => (x + ruche <? tx) && (x >=? center_x)
  | DirN => (x =? center_x) && ((y >? 0) && (y <=? center_y))
  | DirS => (x =? center_x) && ((y <? ty - 1) && (y >=? center_y))
  end.

Lemma waits_for_spec d x y : waits_for (config_val x y) d = input_cond d x y.
Proof.
  unfold waits_for, config_val. assert (0 <= dir_num d < 16) by (destruct d; simpl; lia).
  destruct (x =? center_x) eqn:Ex;
    rewrite !set_bit_testbit, base_testbit by lia;
    destruct d; simpl; rewrite ?Ex, ?andb_false_r, ?andb_true_r, ?orb_false_r; done.
Qed.

(** The bits above the mask are those of the output. *)
Lemma output_of_spec x y : output_of (config_val x y) = outdir x y.
Proof.
  pose proof (outdir_range x y) as Ho. unfold output_of, slice.
  apply Z.bits_inj'. intros i Hi. rewrite Z.land_spec, Z.shiftr_spec, Z.testbit_ones_nonneg by lia.
  destruct (Z.ltb_spec i 3) as [H3|H3].
  - rewrite andb_true_r. unfold config_val, OUTDIR_OFFSET.
    assert (forall k, k < 16 -> (i + 16 =? k) = false) as Hk by (intros k ?; apply Z.eqb_neq; lia).
    destruct (x =? center_x); rewrite !set_bit_testbit, !Hk, !andb_false_r, !orb_false_r by lia;
      rewrite Z.lor_spec, Z.shiftl_spec by lia; change 1 with (2 ^ 0);
      rewrite Z.pow2_bits_eqb by lia; (destruct (Z.eqb_spec 0 (i + 16)); [lia|]);
      simpl; f_equal; lia.
  - rewrite andb_false_r. symmetry. apply (testbit_small _ 3); lia.
Qed.
Hypothesis ruche_pos : 1 <= ruche.
Hypothesis tx_pos : 0 < tx.
Hypothesis ty_pos : 0 < ty.

Lemma center_in : 0 <= center_x < tx /\ 0 <= center_y < ty.
Proof using tx_pos ty_pos.
  clear - tx_pos ty_pos. unfold center_x, center_y. Z.to_euclidean_division_equations. lia.
Qed.

(** Which tiles send in a direction. *)
Lemma outdir_cases x y :
  (outdir x y = 6 /\ x <= center_x - ruche) \/
  (outdir x y = 2 /\ center_x - ruche < x < center_x) \/
  (outdir x y = 4 /\ x = center_x /\ y < center_y) \/
  (outdir x y = 7 /\ x = center_x /\ y = center_y) \/
  (outdir x y = 3 /\ x = center_x /\ center_y < y) \/
  (outdir x y = 1 /\ center_x < x < center_x + ruche) \/
  (outdir x y = 5 /\ center_x + ruche <= x).
Proof.
  unfold outdir. rewrite !Z.gtb_ltb.
  destruct (Z.leb_spec x (center_x - ruche)); [lia|].
  destruct (Z.ltb_spec x center_x), (Z.ltb_spec (center_x - ruche) x); simpl; try lia.
  destruct (Z.eqb_spec x center_x);
    [destruct (Z.ltb_spec y center_y), (Z.eqb_spec y center_y)
    |destruct (Z.ltb_spec center_x x), (Z.ltb_spec x (center_x + ruche))]; simpl; lia.
Qed.

Lemma link_cond d x y :
  d <> DirP -> in_group x y = true ->
  input_cond d x y =
    let '(x', y') := neighbour d x y in
    in_group x' y' && (outdir x' y' =? dir_num (opposite d)).
Proof.
  pose proof center_in as [Hcx Hcy]. intros Hd Hg. unfold in_group in Hg. bprop.
  destruct d; simpl; [done|..];
    match goal with |- context [outdir ?x ?y] => pose proof (outdir_cases x y) end;
    apply eq_true_iff_eq; unfold in_group; rewrite ?Z.gtb_ltb, ?Z.geb_leb;
    rewrite ?andb_true_iff, ?Z.ltb_lt, ?Z.leb_le, ?Z.eqb_eq; lia.
Qed.

(** The next hop stays in the group and comes closer to the centre. *)
Definition distance (p : Z * Z) : Z := Z.abs (p.1 - center_x) + Z.abs (p.2 - center_y).

Lemma next_hop_closer p :
  in_group p.1 p.2 = true ->
  match next_hop p with
  | Some q => in_group q.1 q.2 = true /\ 0 <= distance q < distance p
  | None => p = (center_x, center_y)
  end.
Proof.
  pose proof center_in as [Hcx Hcy]. destruct p as [x y]. cbn [fst snd]. intros Hg.
  unfold in_group in Hg. bprop. unfold next_hop. cbn [fst snd]. rewrite output_of_spec. unfold outdir.
  rewrite !Z.gtb_ltb.
  destruct (Z.leb_spec x (center_x - ruche)); simpl.
  { split; [|unfold distance; simpl; lia]. unfold in_group. simpl. bcase; simpl; lia. }
  destruct (Z.ltb_spec x center_x), (Z.ltb_spec (center_x - ruche) x); simpl; try lia.
  { split; [|unfold distance; simpl; lia]. unfold in_group. simpl. bcase; simpl; lia. }
  destruct (Z.eqb_spec x center_x).
  - destruct (Z.ltb_spec y center_y); simpl.
    { split; [|unfold distance; simpl; lia]. unfold in_group. simpl. bcase; simpl; lia. }
    destruct (Z.eqb_spec y center_y); simpl; [congruence|].
    split; [|unfold distance; simpl; lia]. unfold in_group. simpl. bcase; simpl; lia.
  - destruct (Z.ltb_spec center_x x), (Z.ltb_spec x (center_x + ruche)); simpl; try lia;
      (split; [|unfold distance; simpl; lia]); unfold in_group; simpl; bcase; simpl; lia.
Qed.

Lemma route_spec fuel p :
  in_group p.1 p.2 = true -> distance p <= Z.of_nat fuel ->
  last (route fuel p) = Some (center_x, center_y) /\
  Forall (fun q => in_group q.1 q.2 = true) (route fuel p).
Proof.
  revert p. induction fuel as [|fuel IH]; intros p Hg Hd; cbn [route].
  - assert (p = (center_x, center_y)) as ->.
    { unfold distance in Hd. destruct p as [x y]. simpl in Hd. f_equal; lia. }
    repeat constructor. done.
  - pose proof (next_hop_closer p Hg) as Hn. destruct (next_hop p) as [q|].
    + destruct Hn as [Hq Hlt]. destruct (IH q Hq) as [Hl HF]; [lia|].
      split; [|by constructor]. rewrite last_cons, Hl. done.
    + subst p. repeat constructor. done.
Qed.

Lemma distance_bound p : in_group p.1 p.2 = true -> distance p <= Z.of_nat (Z.to_nat (tx + ty)).
Proof.
  pose proof center_in as [Hcx Hcy]. intros Hg. unfold in_group in Hg. bprop.
  unfold distance. lia.
Qed.

Lemma config_array_spec arr x y :
  in_group x y = true ->
  bsg_hw_barrier_config_init arr (x + y * tx) = config_val x y.
Proof.
  intros Hg. unfold in_group in Hg. bprop. unfold bsg_hw_barrier_config_init.
  apply (fold_insert_lookup (fun xy => xy.1 + xy.2 * tx) (fun xy => config_val xy.1 xy.2)
    (grid 0 tx 0 ty) arr (x, y)).
  - apply elem_of_grid. lia.
  - intros [x' y'] Hin E. apply elem_of_grid in Hin. simpl in *.
    assert (y' = y) as -> by nia. f_equal. lia.
Qed.
End config.

(** The links of the barrier network agree: a node waits for the input from a
    direction exactly when the neighbour in that direction is in the group and sends its
    output to this node. *)
Lemma barrier_links_agree ruche tx ty d x y :
  1 <= ruche -> 0 < tx -> 0 < ty -> d <> DirP -> in_group tx ty x y = true ->
  waits_for (config_val ruche tx ty x y) d =
    let '(x', y') := neighbour ruche d x y in
    in_group tx ty x' y' &&
    (output_of (config_val ruche tx ty x' y') =? dir_num (opposite d)).
Proof.
  intros Hr Htx Hty Hd Hg. rewrite waits_for_spec, link_cond by done.
  destruct (neighbour ruche d x y) as [x' y']. by rewrite output_of_spec.
Qed.

(** The outputs form a tree: following them from any tile of the group leads,
    without leaving the group and in at most [tx + ty] hops, to the centre tile, whose output
    is the root. *)
Lemma barrier_routes_reach_root ruche tx ty p :
  1 <= ruche -> 0 < tx -> 0 < ty -> in_group tx ty p.1 p.2 = true ->
  let path := route ruche tx ty (Z.to_nat (tx + ty)) p in
  last path = Some (center_x tx, center_y ty) /\
  Forall (fun q => in_group tx ty q.1 q.2 = true) path /\
  output_of (config_val ruche tx ty (center_x tx) (center_y ty)) = ROOT.
Proof.
  intros Hr Htx Hty Hg path.
  destruct (route_spec ruche tx ty Hr Htx Hty (Z.to_nat (tx + ty)) p Hg) as [Hl HF].
  { by apply distance_bound. }
  split; [done|]. split; [done|]. rewrite output_of_spec. unfold outdir, ROOT.
  rewrite Z.gtb_ltb, !Z.ltb_irrefl, !Z.eqb_refl. simpl.
  destruct (Z.leb_spec (center_x tx) (center_x tx - ruche)); [lia|done].
Qed.

(** C36 (invariant).  The configuration words of a group make one network: a node waits for the input
    from a direction exactly when the neighbour in that direction is in the group and sends its
    output to this node; and following the outputs from any tile of the group leads, without
    leaving the group and in at most [tx + ty] hops, to the centre tile, whose output is the
    root. *)
Theorem barrier_network_correct ruche tx ty :
  1 <= ruche -> 0 < tx -> 0 < ty ->
  (forall d x y, d <> DirP -> in_group tx ty x y = true ->
     waits_for (config_val ruche tx ty x y) d =
       let '(x', y') := neighbour ruche d x y in
       in_group tx ty x' y' &&
       (output_of (config_val ruche tx ty x' y') =? dir_num (opposite d))) /\
  (forall p, in_group tx ty p.1 p.2 = true ->
     let path := route ruche tx ty (Z.to_nat (tx + ty)) p in
     last path = Some (center_x tx, center_y ty) /\
     Forall (fun q => in_group tx ty q.1 q.2 = true) path /\
     output_of (config_val ruche tx ty (center_x tx) (center_y ty)) = ROOT).
Proof.
  intros Hr Hx Hy.
  split; [intros d x y; by apply barrier_links_agree|intros p; by apply barrier_routes_reach_root].
Qed.

Lemma barrier_network_correct_witness :
  waits_for (config_val 3 16 8 8 4) DirRW =
    (in_group 16 8 5 4 && (output_of (config_val 3 16 8 5 4) =? dir_num DirRE)) /\
  let path := route 3 16 8 (Z.to_nat (16 + 8)) (15, 0) in
  last path = Some (center_x 16, center_y 8) /\
  Forall (fun q => in_group 16 8 q.1 q.2 = true) path /\
  output_of (config_val 3 16 8 (center_x 16) (center_y 8)) = ROOT.
Proof.
  destruct (barrier_network_correct 3 16 8) as [Hl Hp]; [lia..|].
  split; [by apply (Hl DirRW 8 4)|by apply (Hp (15, 0))].
Defined.

(** The loops store every tile's word at its own index [x + y*tx], and
    nothing outside the array of [tx*ty] words. *)
Theorem barrier_config_array ruche tx ty arr x y i :
  0 < tx -> 0 < ty -> in_group tx ty x y = true -> ~ (0 <= i < tx * ty) ->
  bsg_hw_barrier_config_init ruche tx ty arr (x + y * tx) = config_val ruche tx ty x y /\
  bsg_hw_barrier_config_init ruche tx ty arr i = arr i.
Proof.
  intros Htx Hty Hg Hi. split; [by apply config_array_spec|].
  unfold bsg_hw_barrier_config_init.
  apply (fold_insert_other (fun xy => xy.1 + xy.2 * tx)
    (fun xy => config_val ruche tx ty xy.1 xy.2)).
  intros [x' y'] Hin E. apply elem_of_grid in Hin. simpl in E. apply Hi. nia.
Qed.

Lemma barrier_config_array_witness :
  bsg_hw_barrier_config_init 3 4 4 (fun _ => 0) (1 + 2 * 4) = config_val 3 4 4 1 2 /\
  bsg_hw_barrier_config_init 3 4 4 (fun _ => 0) 16 = 0.
Proof.
  apply (barrier_config_array 3 4 4 (fun _ => 0) 1 2 16); [lia|lia|reflexivity|lia].
Defined.
