(* ===== verification/ChaseData.v ===== *)
(** * The linked lists of the pointer-chasing tests

    The initial values of [data] in [network_test_pointer_chasing] (which
    [network_test_bandwidth] sums up) and [network_test_pointer_chasing2]. *)

From S2P Require Import Prelude.
Local Open Scope Z_scope.

(** Entry [i] is the index after [i]. *)
Definition chase_data : list Z :=
  [ 778; 129; 296; 99; 779; 958; 914; 773; 7; 174; 523; 208; 697; 581; 634; 303; 434; 16; 713; 148; 74; 889; 374; 55; 192; 797; 194; 1009; 430; 291; 907; 717;
   172; 860; 98; 766; 283; 883; 909; 613; 163; 37; 873; 623; 638; 373; 384; 173; 247; 401; 9; 799; 870; 186; 205; 118; 768; 995; 243; 165; 814; 177; 964; 130;
   263; 695; 963; 491; 183; 187; 524; 837; 230; 803; 693; 723; 735; 104; 17; 69; 902; 396; 698; 494; 109; 522; 349; 679; 56; 829; 193; 798; 1021; 571; 96; 114;
   946; 726; 304; 452; 830; 722; 1010; 372; 912; 246; 887; 159; 50; 876; 77; 219; 233; 557; 672; 286; 1016; 411; 633; 222; 544; 314; 882; 767; 195; 917; 596; 164;
   911; 151; 716; 270; 869; 944; 940; 669; 549; 423; 921; 298; 663; 707; 319; 78; 474; 761; 254; 750; 12; 886; 480; 379; 572; 724; 775; 107; 478; 84; 631; 719;
   60; 15; 600; 935; 583; 899; 701; 533; 157; 950; 284; 375; 28; 180; 848; 806; 632; 20; 450; 841; 67; 447; 619; 772; 991; 58; 142; 144; 346; 738; 548; 997;
   495; 320; 489; 166; 603; 179; 403; 916; 650; 800; 400; 259; 101; 388; 743; 108; 451; 531; 110; 546; 538; 539; 30; 888; 426; 733; 579; 266; 731; 14; 690; 281;
   2; 128; 200; 787; 694; 974; 753; 202; 94; 1005; 1; 714; 801; 290; 550; 331; 892; 265; 354; 595; 1006; 943; 261; 580; 120; 239; 836; 575; 704; 827; 745; 386;
   627; 874; 317; 503; 242; 333; 345; 680; 661; 40; 473; 589; 594; 885; 578; 467; 545; 851; 700; 730; 338; 718; 87; 307; 214; 518; 4; 410; 465; 10; 994; 515;
   640; 471; 670; 282; 106; 353; 853; 496; 795; 709; 835; 485; 897; 454; 569; 859; 146; 169; 985; 115; 930; 526; 124; 990; 207; 905; 979; 926; 13; 414; 933; 702;
   691; 103; 674; 288; 705; 736; 241; 951; 637; 327; 275; 609; 182; 689; 699; 237; 201; 389; 184; 76; 3; 425; 381; 953; 810; 420; 132; 399; 998; 391; 732; 438;
   765; 43; 316; 547; 352; 416; 441; 922; 5; 363; 390; 793; 82; 121; 213; 643; 85; 328; 271; 749; 746; 960; 507; 764; 927; 178; 554; 191; 687; 88; 675; 133;
   1019; 879; 802; 34; 591; 744; 90; 6; 429; 646; 645; 520; 823; 31; 747; 79; 469; 574; 238; 260; 272; 302; 368; 925; 455; 989; 404; 458; 629; 1022; 794; 468;
   1014; 492; 896; 819; 326; 666; 708; 138; 293; 366; 855; 542; 167; 312; 652; 809; 788; 134; 607; 978; 44; 506; 140; 644; 849; 443; 1002; 651; 817; 562; 551; 769;
   424; 552; 821; 362; 75; 662; 185; 334; 342; 536; 516; 38; 23; 786; 292; 831; 232; 466; 878; 83; 741; 63; 614; 906; 513; 969; 348; 32; 405; 325; 664; 313;
   982; 51; 1020; 739; 116; 59; 654; 517; 903; 528; 206; 428; 593; 755; 863; 822; 947; 582; 585; 329; 1012; 1015; 397; 590; 227; 70; 555; 789; 965; 460; 487; 11;
   323; 196; 1001; 783; 612; 586; 22; 408; 145; 890; 543; 223; 942; 453; 86; 949; 477; 866; 688; 355; 406; 93; 521; 339; 175; 52; 630; 152; 277; 1023; 790; 27;
   824; 269; 759; 683; 235; 904; 1003; 46; 336; 807; 611; 784; 588; 154; 240; 934; 295; 422; 980; 322; 617; 525; 1017; 19; 535; 901; 448; 948; 459; 676; 359; 407;
   681; 857; 734; 656; 412; 758; 725; 212; 123; 838; 48; 684; 653; 791; 868; 847; 53; 100; 190; 510; 975; 402; 481; 153; 988; 658; 939; 250; 751; 685; 932; 137;
   665; 351; 156; 508; 490; 464; 567; 340; 881; 842; 24; 61; 72; 245; 62; 311; 606; 226; 125; 502; 126; 677; 556; 197; 332; 720; 537; 211; 419; 601; 710; 210;
   559; 532; 392; 900; 514; 748; 781; 983; 476; 530; 446; 893; 721; 977; 343; 417; 923; 560; 584; 981; 752; 256; 344; 570; 161; 636; 264; 248; 147; 534; 616; 395;
   762; 385; 808; 774; 21; 780; 564; 36; 678; 936; 957; 95; 47; 309; 68; 387; 604; 987; 639; 463; 136; 540; 872; 382; 895; 792; 642; 621; 267; 815; 337; 973;
   117; 449; 968; 421; 216; 357; 919; 162; 692; 756; 509; 967; 39; 249; 962; 573; 160; 461; 199; 1018; 620; 828; 367; 220; 1013; 785; 341; 398; 335; 972; 377; 635;
   941; 577; 262; 565; 871; 244; 413; 648; 813; 938; 475; 42; 378; 659; 826; 880; 850; 655; 361; 920; 727; 209; 257; 92; 796; 867; 833; 221; 66; 1008; 189; 563;
   176; 289; 945; 484; 432; 360; 445; 456; 999; 811; 321; 493; 105; 884; 393; 924; 143; 812; 81; 706; 816; 278; 782; 599; 35; 294; 820; 57; 686; 956; 231; 394;
   804; 862; 908; 198; 488; 65; 376; 712; 970; 770; 910; 297; 894; 371; 846; 234; 80; 301; 71; 625; 844; 737; 504; 102; 597; 649; 498; 25; 273; 929; 236; 865;
   668; 45; 280; 155; 330; 856; 618; 168; 251; 347; 188; 435; 279; 760; 971; 149; 41; 805; 984; 33; 891; 861; 818; 113; 409; 1004; 418; 854; 364; 440; 500; 439;
   64; 541; 433; 350; 558; 771; 318; 315; 158; 839; 89; 119; 224; 127; 8; 915; 300; 203; 641; 171; 628; 624; 843; 479; 287; 610; 1011; 258; 742; 299; 511; 937;
   931; 499; 505; 776; 961; 976; 370; 728; 497; 356; 73; 587; 519; 864; 992; 986; 553; 97; 483; 111; 141; 442; 845; 358; 918; 457; 602; 757; 26; 431; 954; 626;
   566; 996; 512; 472; 268; 462; 622; 217; 1007; 527; 215; 660; 285; 955; 229; 673; 253; 49; 754; 993; 615; 667; 840; 501; 608; 576; 657; 218; 696; 592; 529; 858;
   18; 150; 54; 308; 852; 763; 777; 305; 605; 131; 729; 436; 415; 122; 877; 647; 427; 832; 913; 928; 274; 306; 959; 310; 369; 170; 324; 139; 29; 966; 834; 444;
   561; 682; 383; 365; 91; 482; 255; 486; 898; 671; 740; 825; 703; 204; 711; 598; 181; 1000; 228; 380; 276; 470; 252; 135; 437; 112; 715; 568; 952; 225; 875; 0].

(** [network_test_bandwidth] has the same numbers. *)
Definition bandwidth_data : list Z := chase_data.

(** The nodes, each [(next, key)]. *)
Definition chase2_nodes : list (Z * Z) :=
  [ (0x81001b68, -1); (0x81006e58, -1); (0x81004a80, -1); (0x81007998, -1); (0x810061e8, -1); (0x81006bf8, -1); (0x810032d0, -1); (0x81000868, -1); (0x81001d40, -1); (0x810007f0, -1); (0x81000cd8, -1); (0x81003c70, -1); (0x81005710, -1); (0x81002ce0, -1); (0x810065c8, -1); (0x810016d8, -1);
   (0x81007cb0, -1); (0x81004d68, -1); (0x81004148, -1); (0x81005aa0, -1); (0x81002300, 35); (0x81002960, -1); (0x810061b8, -1); (0x81000920, -1); (0x810056b8, -1); (0x81002640, -1); (0x81002f10, -1); (0x81002048, -1); (0x810012f0, -1); (0x81004a08, -1); (0x81007118, -1); (0x81003700, 55);
   (0x81000788, -1); (0x81001670, -1); (0x81003b98, -1); (0x81001620, -1); (0x81000068, -1); (0x81005d30, -1); (0x81005950, -1); (0x81004278, -1); (0x81003ac0, -1); (0x81004be0, -1); (0x81000ae0, -1); (0x81000dc8, -1); (0x810069d8, -1); (0x81004b70, -1); (0x81006778, -1); (0x810060d8, -1);
   (0x81005820, -1); (0x81007d98, -1); (0x81007748, -1); (0x810063d8, -1); (0x81001f38, -1); (0x81004798, -1); (0x81002998, -1); (0x81002ca0, -1); (0x81003d80, -1); (0x810039b0, -1); (0x81003d50, -1); (0x81004eb8, -1); (0x810037e0, -1); (0x81000d40, -1); (0x81004fb8, -1); (0x81001680, -1);
   (0x81006128, -1); (0x81001058, -1); (0x810002d8, -1); (0x810031d8, -1); (0x81006ce8, -1); (0x81007410, -1); (0x81001880, -1); (0x81001490, -1); (0x81004a48, -1); (0x810009a0, -1); (0x81004e10, -1); (0x810076a8, -1); (0x81000560, -1); (0x81006740, -1); (0x81002638, -1); (0x81005768, -1);
   (0x81000b68, -1); (0x81006328, -1); (0x81000628, -1); (0x81006e08, -1); (0x81001118, -1); (0x810068d8, -1); (0x810058b0, -1); (0x81004da0, -1); (0x81002f90, -1); (0x810035a0, -1); (0x81006d70, -1); (0x81006090, -1); (0x81000818, -1); (0x810031a0, -1); (0x81005b78, -1); (0x81006e68, -1);
   (0x81000f28, -1); (0x81003500, 53); (0x81007860, -1); (0x81006100, 97); (0x81000b70, -1); (0x81007128, -1); (0x81000f78, -1); (0x810045d8, -1); (0x81003908, -1); (0x81003a48, -1); (0x810064b0, -1); (0x81000c98, -1); (0x81006710, -1); (0x81005f38, -1); (0x81001308, -1); (0x81003488, -1);
   (0x81005c90, -1); (0x81007dc0, -1); (0x810007e8, -1); (0x81007a28, -1); (0x81004dc8, -1); (0x81001f78, -1); (0x81002778, -1); (0x810027f0, -1); (0x81004168, -1); (0x81003468, -1); (0x81001558, -1); (0x81004280, -1); (0x81006f68, -1); (0x81004b38, -1); (0x81004058, -1); (0x81000468, -1);
   (0x81002678, -1); (0x81001ba0, -1); (0x81001208, -1); (0x81003ed8, -1); (0x81005eb8, -1); (0x810039d0, -1); (0x81005c00, 92); (0x81003f38, -1); (0x81002cf8, -1); (0x81007560, -1); (0x81003718, -1); (0x81002088, -1); (0x81006df8, -1); (0x81001120, -1); (0x81000800, 8); (0x81002cc0, -1);
   (0x81003398, -1); (0x810039f8, -1); (0x810045d0, -1); (0x81004128, -1); (0x81003c08, -1); (0x81002e10, -1); (0x81003368, -1); (0x810043b0, -1); (0x810037b0, -1); (0x81001970, -1); (0x81001808, -1); (0x81000998, -1); (0x81002208, -1); (0x81002b38, -1); (0x81002670, -1); (0x81004c40, -1);
   (0x81003508, -1); (0x81003a40, -1); (0x81003f98, -1); (0x81001278, -1); (0x81004430, -1); (0x81005460, -1); (0x81004478, -1); (0x81005718, -1); (0x81003528, -1); (0x81007850, -1); (0x810055b0, -1); (0x81001488, -1); (0x81001690, -1); (0x81003ad0, -1); (0x81001710, -1); (0x81004bf0, -1);
   (0x81006768, -1); (0x810067b0, -1); (0x81006440, -1); (0x81002b58, -1); (0x81005c88, -1); (0x810022d8, -1); (0x81006108, -1); (0x81002c60, -1); (0x81001818, -1); (0x81006aa8, -1); (0x81003bf0, -1); (0x81004248, -1); (0x81000768, -1); (0x81005268, -1); (0x81000280, -1); (0x81003710, -1);
   (0x81001bd0, -1); (0x81006200, 98); (0x810011d8, -1); (0x810004f8, -1); (0x81004510, -1); (0x81001d20, -1); (0x81003c40, -1); (0x81001250, -1); (0x81002610, -1); (0x81003938, -1); (0x81002d18, -1); (0x810022f8, -1); (0x81005ee0, -1); (0x810034a8, -1); (0x810055e0, -1); (0x81001850, -1);
   (0x81000af0, -1); (0x81001fb0, -1); (0x810013a8, -1); (0x81001268, -1); (0x81006b18, -1); (0x81001a28, -1); (0x810044b0, -1); (0x810008b0, -1); (0x81000c00, 12); (0x81007f00, 127); (0x810050f0, -1); (0x81002da8, -1); (0x810060a8, -1); (0x81000180, -1); (0x810016a8, -1); (0x81001d38, -1);
   (0x81005720, -1); (0x81005b88, -1); (0x81000178, -1); (0x81003d98, -1); (0x81003650, -1); (0x81005308, -1); (0x81004e50, -1); (0x81007778, -1); (0x81001cc0, -1); (0x81005e60, -1); (0x810012b8, -1); (0x81003da0, -1); (0x81007660, -1); (0x81004a40, -1); (0x81004dc0, -1); (0x81006268, -1);
   (0x81006178, -1); (0x81003920, -1); (0x810058d0, -1); (0x810051f0, -1); (0x81001300, 19); (0x810015e0, -1); (0x81002768, -1); (0x81000dd0, -1); (0x81000380, -1); (0x81004270, -1); (0x810019d0, -1); (0x81001c40, -1); (0x810052e0, -1); (0x810022c8, -1); (0x81004e48, -1); (0x81003640, -1);
   (0x810030a0, -1); (0x81007248, -1); (0x81003378, -1); (0x81002ae8, -1); (0x81002ff8, -1); (0x81004290, -1); (0x81003540, -1); (0x81004770, -1); (0x81002ec8, -1); (0x81006f98, -1); (0x81004b40, -1); (0x81002dc0, -1); (0x81004e18, -1); (0x81003258, -1); (0x81003db8, -1); (0x81002098, -1);
   (0x81000a30, -1); (0x81004240, -1); (0x81006678, -1); (0x81000118, -1); (0x810032e8, -1); (0x810028d0, -1); (0x81006ad0, -1); (0x810008e0, -1); (0x81001f28, -1); (0x81005540, -1); (0x81007530, -1); (0x81006ec8, -1); (0x810004d0, -1); (0x810047d8, -1); (0x810045e8, -1); (0x810032a0, -1);
   (0x81005670, -1); (0x81006040, -1); (0x81005a98, -1); (0x810024b8, -1); (0x810016d0, -1); (0x81003608, -1); (0x81002918, -1); (0x810075e8, -1); (0x810044e8, -1); (0x810035f0, -1); (0x81005970, -1); (0x81007df0, -1); (0x81007da0, -1); (0x81005d20, -1); (0x81007078, -1); (0x81003208, -1);
   (0x81001040, -1); (0x81001f60, -1); (0x810029e8, -1); (0x81000f20, -1); (0x81004b90, -1); (0x810076c0, -1); (0x81007440, -1); (0x81000310, -1); (0x81003c10, -1); (0x81004528, -1); (0x81002108, -1); (0x81005860, -1); (0x81001840, -1); (0x81002b90, -1); (0x810024b0, -1); (0x81002a68, -1);
   (0x81004000, 64); (0x810038d8, -1); (0x81000f98, -1); (0x810013c8, -1); (0x81001b38, -1); (0x81000c30, -1); (0x81003d40, -1); (0x810067e0, -1); (0x81001f20, -1); (0x81005130, -1); (0x810074b0, -1); (0x810065f0, -1); (0x810010e0, -1); (0x810019e8, -1); (0x810021f8, -1); (0x81004348, -1);
   (0x81006e70, -1); (0x810029c8, -1); (0x810065b8, -1); (0x81003858, -1); (0x81006618, -1); (0x81002c90, -1); (0x810022e0, -1); (0x81000350, -1); (0x81007ef0, -1); (0x810034f0, -1); (0x81000858, -1); (0x81007898, -1); (0x81002d68, -1); (0x81000038, -1); (0x81002b30, -1); (0x81007bc8, -1);
   (0x810054e8, -1); (0x810029b8, -1); (0x81007ed0, -1); (0x81001b08, -1); (0x81005040, -1); (0x81001e80, -1); (0x81004df0, -1); (0x81006888, -1); (0x81001220, -1); (0x81004d90, -1); (0x81003490, -1); (0x810002c0, -1); (0x81000e70, -1); (0x81006f88, -1); (0x81000ff8, -1); (0x810037d0, -1);
   (0x810020f8, -1); (0x81003548, -1); (0x81001678, -1); (0x810022e8, -1); (0x81002a00, 42); (0x810019a0, -1); (0x810041c8, -1); (0x810026e8, -1); (0x81000320, -1); (0x810006f0, -1); (0x810045e0, -1); (0x81004d50, -1); (0x81004a90, -1); (0x81006c88, -1); (0x81000a90, -1); (0x81007ad0, -1);
   (0x81007fd0, -1); (0x81005b30, -1); (0x81003790, -1); (0x81007e48, -1); (0x81005650, -1); (0x81005050, -1); (0x81001470, -1); (0x810051a8, -1); (0x81006960, -1); (0x81001310, -1); (0x810006a0, -1); (0x81005508, -1); (0x810060e0, -1); (0x81003f70, -1); (0x81000020, -1); (0x81007d90, -1);
   (0x810011b8, -1); (0x81003198, -1); (0x81000300, 3); (0x81001260, -1); (0x81000e60, -1); (0x810044b8, -1); (0x810021f0, -1); (0x81007600, 118); (0x81007558, -1); (0x81006270, -1); (0x81004140, -1); (0x81005b00, 91); (0x81005168, -1); (0x81007408, -1); (0x81004bf8, -1); (0x81000060, -1);
   (0x81002680, -1); (0x81001570, -1); (0x81004968, -1); (0x81007ec0, -1); (0x81001ca0, -1); (0x81007ee8, -1); (0x81005d38, -1); (0x81002c18, -1); (0x81007db0, -1); (0x81004868, -1); (0x81002388, -1); (0x810017e8, -1); (0x81004390, -1); (0x81003370, -1); (0x810064d8, -1); (0x81002ba0, -1);
   (0x810038a0, -1); (0x810005e0, -1); (0x81002c40, -1); (0x81007260, -1); (0x810033d8, -1); (0x81002de8, -1); (0x81006ca0, -1); (0x81006020, -1); (0x810023d8, -1); (0x81004bc8, -1); (0x81000200, 2); (0x810025c0, -1); (0x81000c68, -1); (0x81004668, -1); (0x81003ef8, -1); (0x81002b80, -1);
   (0x810077a8, -1); (0x81002090, -1); (0x81007a20, -1); (0x81000590, -1); (0x81005380, -1); (0x81000d08, -1); (0x81003df0, -1); (0x81007b00, 123); (0x810074b8, -1); (0x810025b8, -1); (0x81004cd0, -1); (0x81000770, -1); (0x81004be8, -1); (0x81003b20, -1); (0x810004b0, -1); (0x81002790, -1);
   (0x81001fc8, -1); (0x81005388, -1); (0x81005ed8, -1); (0x810045a8, -1); (0x81004330, -1); (0x81004c68, -1); (0x81004878, -1); (0x81000140, -1); (0x81001f40, -1); (0x81000ec0, -1); (0x81005530, -1); (0x810028f0, -1); (0x81002ad0, -1); (0x81002288, -1); (0x81003cf0, -1); (0x81004d60, -1);
   (0x81003ff8, -1); (0x81004688, -1); (0x81007310, -1); (0x81005600, 86); (0x810074f0, -1); (0x81001238, -1); (0x81001b60, -1); (0x81003e58, -1); (0x81005eb0, -1); (0x81006420, -1); (0x81001148, -1); (0x81001ef0, -1); (0x81007808, -1); (0x81006718, -1); (0x81000a60, -1); (0x810054a0, -1);
   (0x81005218, -1); (0x810049c0, -1); (0x810035c0, -1); (0x81004410, -1); (0x810037b8, -1); (0x810016a0, -1); (0x810008a0, -1); (0x810042c0, -1); (0x81002748, -1); (0x81002d40, -1); (0x81002958, -1); (0x81005e38, -1); (0x81007bb8, -1); (0x81001948, -1); (0x81007518, -1); (0x810066c8, -1);
   (0x81001da0, -1); (0x81000688, -1); (0x810040c0, -1); (0x81003510, -1); (0x81004690, -1); (0x810048a0, -1); (0x81007d20, -1); (0x810078f0, -1); (0x81004070, -1); (0x810033d0, -1); (0x81001518, -1); (0x81000460, -1); (0x810059c8, -1); (0x810015c8, -1); (0x810034c8, -1); (0x81005d98, -1);
   (0x81004340, -1); (0x81002948, -1); (0x81005610, -1); (0x81007e10, -1); (0x810014d0, -1); (0x81003ee0, -1); (0x81005ce0, -1); (0x81007170, -1); (0x81003fb8, -1); (0x81007000, 112); (0x81007fd8, -1); (0x81005fa8, -1); (0x81001938, -1); (0x81005420, -1); (0x81003698, -1); (0x810041d0, -1);
   (0x81003bb0, -1); (0x81005638, -1); (0x81003db0, -1); (0x81004988, -1); (0x810019e0, -1); (0x810000c0, -1); (0x810034e8, -1); (0x810074f8, -1); (0x81007020, -1); (0x810026b0, -1); (0x810047a8, -1); (0x81004698, -1); (0x810064a8, -1); (0x81000f00, 15); (0x81002ae0, -1); (0x81004c78, -1);
   (0x81002de0, -1); (0x81002490, -1); (0x81006a40, -1); (0x810070b8, -1); (0x810003f0, -1); (0x81005338, -1); (0x81003438, -1); (0x810068e8, -1); (0x81007458, -1); (0x810048f8, -1); (0x81000e10, -1); (0x810032c8, -1); (0x810043f0, -1); (0x81000e50, -1); (0x81004318, -1); (0x810025d0, -1);
   (0x810015a0, -1); (0x81003f90, -1); (0x81006b08, -1); (0x810007d8, -1); (0x81002988, -1); (0x810012a8, -1); (0x81007b68, -1); (0x81006988, -1); (0x81007140, -1); (0x81005da8, -1); (0x810052a0, -1); (0x81004c98, -1); (0x81005b90, -1); (0x81004b28, -1); (0x810071b8, -1); (0x810079f0, -1);
   (0x81005ef0, -1); (0x81006b28, -1); (0x81003b08, -1); (0x81000a40, -1); (0x81007ea8, -1); (0x81006d88, -1); (0x810036d0, -1); (0x810005d8, -1); (0x81007f78, -1); (0x81000740, -1); (0x81003780, -1); (0x81000e80, -1); (0x81007358, -1); (0x810046d0, -1); (0x81003f00, 63); (0x810025f0, -1);
   (0x810030f8, -1); (0x81000ee8, -1); (0x81007470, -1); (0x810044f8, -1); (0x81004040, -1); (0x810046c0, -1); (0x81000ec8, -1); (0x81006aa0, -1); (0x810004c0, -1); (0x81004828, -1); (0x81001c58, -1); (0x81003c48, -1); (0x810007a0, -1); (0x81004d18, -1); (0x81007960, -1); (0x81005920, -1);
   (0x81000d00, 13); (0x81003960, -1); (0x81002858, -1); (0x81003de8, -1); (0x81004910, -1); (0x810044c0, -1); (0x810028c0, -1); (0x81003450, -1); (0x81007048, -1); (0x81000c28, -1); (0x81002440, -1); (0x810040f8, -1); (0x81006858, -1); (0x810001e0, -1); (0x81003678, -1); (0x81000810, -1);
   (0x81005800, 88); (0x81005aa8, -1); (0x81000c18, -1); (0x81005bf8, -1); (0x81004398, -1); (0x81002ba8, -1); (0x81003178, -1); (0x81004c28, -1); (0x81007678, -1); (0x81005448, -1); (0x810027b0, -1); (0x81002340, -1); (0x81001068, -1); (0x810078d0, -1); (0x81000370, -1); (0x81003aa8, -1);
   (0x81001f88, -1); (0x810030b8, -1); (0x81000288, -1); (0x81007090, -1); (0x81004b08, -1); (0x81000508, -1); (0x81006370, -1); (0x81004d88, -1); (0x81001500, 21); (0x810050b0, -1); (0x81006dc8, -1); (0x810012f8, -1); (0x81007060, -1); (0x81006170, -1); (0x810051c0, -1); (0x81005e98, -1);
   (0x81001be8, -1); (0x810002a8, -1); (0x81006b68, -1); (0x81005618, -1); (0x81004308, -1); (0x81002178, -1); (0x81001ff0, -1); (0x810075a8, -1); (0x81003108, -1); (0x81007088, -1); (0x81002788, -1); (0x81001088, -1); (0x81002528, -1); (0x81001ce0, -1); (0x81007710, -1); (0x81000ad0, -1);
   (0x81004848, -1); (0x810020a8, -1); (0x81000580, -1); (0x81005b20, -1); (0x81002130, -1); (0x810023c8, -1); (0x81006208, -1); (0x81003638, -1); (0x81006d38, -1); (0x81001d08, -1); (0x81006e00, 110); (0x81004e58, -1); (0x81004b58, -1); (0x81002a58, -1); (0x810071f8, -1); (0x81006070, -1);
   (0x81001c50, -1); (0x810069b0, -1); (0x81000188, -1); (0x81003778, -1); (0x81004008, -1); (0x81007f58, -1); (0x810033a8, -1); (0x81001d90, -1); (0x81002ff0, -1); (0x81007658, -1); (0x81003b48, -1); (0x81005930, -1); (0x81006670, -1); (0x81006460, -1); (0x810016c0, -1); (0x81007030, -1);
   (0x81003498, -1); (0x81007f20, -1); (0x81004d20, -1); (0x81007f08, -1); (0x81000458, -1); (0x810026c0, -1); (0x81003a28, -1); (0x81004068, -1); (0x81001628, -1); (0x81003808, -1); (0x81003b68, -1); (0x81004b48, -1); (0x81004a68, -1); (0x81003940, -1); (0x81006c90, -1); (0x81007c18, -1);
   (0x810047b8, -1); (0x81005ed0, -1); (0x810042e0, -1); (0x81000ab8, -1); (0x810043c8, -1); (0x81003e40, -1); (0x81001388, -1); (0x81002c10, -1); (0x81005fd8, -1); (0x81006598, -1); (0x81003f08, -1); (0x81006ed0, -1); (0x81006a90, -1); (0x81005438, -1); (0x81003ac8, -1); (0x81001618, -1);
   (0x810009b0, -1); (0x81002458, -1); (0x810046e8, -1); (0x81002848, -1); (0x81001810, -1); (0x81004dd8, -1); (0x81003e28, -1); (0x810043e0, -1); (0x810014a0, -1); (0x81003768, -1); (0x81007780, -1); (0x81004060, -1); (0x81006368, -1); (0x81005190, -1); (0x81000ab0, -1); (0x81002470, -1);
   (0x81003c60, -1); (0x81005098, -1); (0x81005fd0, -1); (0x81000b50, -1); (0x810000f8, -1); (0x81002100, 33); (0x810067d8, -1); (0x81000bc0, -1); (0x81000980, -1); (0x81005730, -1); (0x81006a80, -1); (0x81007a18, -1); (0x810018f8, -1); (0x81005e40, -1); (0x810004f0, -1); (0x810077b0, -1);
   (0x81004aa0, -1); (0x81004da8, -1); (0x81003470, -1); (0x81003838, -1); (0x810015f8, -1); (0x81007f48, -1); (0x81006608, -1); (0x81002290, -1); (0x81007bd0, -1); (0x81002738, -1); (0x81003a38, -1); (0x81005858, -1); (0x81007398, -1); (0x81007520, -1); (0x810041d8, -1); (0x810056d0, -1);
   (0x81000640, -1); (0x81002f18, -1); (0x81006db8, -1); (0x81002a88, -1); (0x81003598, -1); (0x81005a10, -1); (0x81001568, -1); (0x81000e30, -1); (0x81000bc8, -1); (0x81007680, -1); (0x81003d30, -1); (0x81006de0, -1); (0x81001dc0, -1); (0x810059a0, -1); (0x81000c78, -1); (0x810065b0, -1);
   (0x810055c8, -1); (0x81006800, 104); (0x81003080, -1); (0x81006320, -1); (0x810031b8, -1); (0x81003b58, -1); (0x810071d0, -1); (0x81006ac0, -1); (0x81005910, -1); (0x810018c0, -1); (0x81006478, -1); (0x81000400, 4); (0x810063c0, -1); (0x81001000, 16); (0x81007e20, -1); (0x81002f78, -1);
   (0x81007148, -1); (0x81002f30, -1); (0x81006240, -1); (0x81002510, -1); (0x81003948, -1); (0x81007eb8, -1); (0x81001ac8, -1); (0x81002200, 34); (0x810035d8, -1); (0x810023c0, -1); (0x810077c8, -1); (0x81006570, -1); (0x81006910, -1); (0x81002bb8, -1); (0x81002578, -1); (0x810033b8, -1);
   (0x81004ce8, -1); (0x81007c58, -1); (0x810071e0, -1); (0x81005640, -1); (0x81006578, -1); (0x810037d8, -1); (0x81003de0, -1); (0x810031b0, -1); (0x81007cf0, -1); (0x81000d90, -1); (0x81005d70, -1); (0x81003880, -1); (0x810029e0, -1); (0x81001c30, -1); (0x81006150, -1); (0x81004970, -1);
   (0x81005d48, -1); (0x81002aa8, -1); (0x81003230, -1); (0x81001750, -1); (0x81000cc0, -1); (0x81007bb0, -1); (0x810044a0, -1); (0x81005538, -1); (0x81003218, -1); (0x81007b40, -1); (0x810018b8, -1); (0x81007508, -1); (0x81006548, -1); (0x81006d98, -1); (0x81001210, -1); (0x81007908, -1);
   (0x810051e0, -1); (0x81007ae8, -1); (0x81000f60, -1); (0x81001010, -1); (0x81005ff0, -1); (0x810002b0, -1); (0x81007fc0, -1); (0x81007a68, -1); (0x81003fb0, -1); (0x81000720, -1); (0x81000268, -1); (0x81001a08, -1); (0x81006980, -1); (0x81002080, -1); (0x81002c08, -1); (0x810018a8, -1);
   (0x810004c8, -1); (0x81007648, -1); (0x81006bb0, -1); (0x810008e8, -1); (0x81007608, -1); (0x810007b8, -1); (0x81006dd0, -1); (0x81003d08, -1); (0x81004ce0, -1); (0x810032b0, -1); (0x81004b88, -1); (0x81007ad8, -1); (0x81005a00, 90); (0x81004f90, -1); (0x81001398, -1); (0x81001478, -1);
   (0x810058d8, -1); (0x81003f58, -1); (0x81003b50, -1); (0x81003578, -1); (0x81004d08, -1); (0x81006ec0, -1); (0x81005320, -1); (0x81007640, -1); (0x81002d90, -1); (0x810024e0, -1); (0x81004808, -1); (0x81004888, -1); (0x81006010, -1); (0x81001f48, -1); (0x81006a70, -1); (0x81006a08, -1);
   (0x81004d10, -1); (0x810002b8, -1); (0x81004138, -1); (0x81007ea0, -1); (0x810061d8, -1); (0x81005a28, -1); (0x81006fb8, -1); (0x81004328, -1); (0x81001248, -1); (0x81002b78, -1); (0x81003670, -1); (0x81007d88, -1); (0x810068c0, -1); (0x810045a0, -1); (0x81002c98, -1); (0x81004b68, -1);
   (0x81003348, -1); (0x81007c98, -1); (0x81002e08, -1); (0x810052b8, -1); (0x81007250, -1); (0x81001788, -1); (0x81007420, -1); (0x81002588, -1); (0x81002eb8, -1); (0x810072b0, -1); (0x81006df0, -1); (0x810061c8, -1); (0x810061e0, -1); (0x81006920, -1); (0x81002028, -1); (0x81007688, -1);
   (0x81004f60, -1); (0x81001080, -1); (0x81001418, -1); (0x810037a0, -1); (0x81007588, -1); (0x81007f40, -1); (0x81000130, -1); (0x81002438, -1); (0x81003f88, -1); (0x81003e70, -1); (0x81001d00, 29); (0x81006fd8, -1); (0x81004a78, -1); (0x810012a0, -1); (0x810058b8, -1); (0x81007ef8, -1);
   (0x810047b0, -1); (0x81006a58, -1); (0x810024d0, -1); (0x810049a0, -1); (0x81005fb8, -1); (0x810057b0, -1); (0x81000028, -1); (0x810033b0, -1); (0x81007e18, -1); (0x81006c58, -1); (0x81001820, -1); (0x81002420, -1); (0x810043f8, -1); (0x81006640, -1); (0x810064b8, -1); (0x810005e8, -1);
   (0x81007c80, -1); (0x81000a78, -1); (0x81002570, -1); (0x81006d08, -1); (0x81002a18, -1); (0x81002008, -1); (0x81003130, -1); (0x81000600, 6); (0x81004300, 67); (0x81005520, -1); (0x810039d8, -1); (0x81006d60, -1); (0x81000578, -1); (0x810051d8, -1); (0x81005178, -1); (0x81000990, -1);
   (0x810010e8, -1); (0x81005090, -1); (0x81004918, -1); (0x81000710, -1); (0x810036b0, -1); (0x81002950, -1); (0x81001588, -1); (0x810036f8, -1); (0x81005088, -1); (0x81003690, -1); (0x81000748, -1); (0x810053e8, -1); (0x81001eb0, -1); (0x81002d20, -1); (0x81003058, -1); (0x81006720, -1);
   (0x810002d0, -1); (0x81004570, -1); (0x81004940, -1); (0x810073a0, -1); (0x81005850, -1); (0x81003158, -1); (0x81003308, -1); (0x810040d8, -1); (0x81007ee0, -1); (0x81002ec0, -1); (0x81006498, -1); (0x81006f38, -1); (0x810001e8, -1); (0x81005cc0, -1); (0x81006770, -1); (0x81003148, -1);
   (0x81005230, -1); (0x81006250, -1); (0x81003970, -1); (0x810033f8, -1); (0x81004200, 66); (0x81005e28, -1); (0x81003c50, -1); (0x81005510, -1); (0x81007390, -1); (0x81001db0, -1); (0x81005080, -1); (0x810051b8, -1); (0x81006728, -1); (0x81001fa0, -1); (0x81001600, 22); (0x81004750, -1);
   (0x81005958, -1); (0x81002168, -1); (0x81003570, -1); (0x810054b0, -1); (0x81000bb0, -1); (0x81000808, -1); (0x81002eb0, -1); (0x81004618, -1); (0x810055d8, -1); (0x81003600, 54); (0x81002350, -1); (0x810003c0, -1); (0x81001b58, -1); (0x81005de0, -1); (0x81006a50, -1); (0x81007308, -1);
   (0x81001108, -1); (0x810023d0, -1); (0x81000260, -1); (0x81007fc8, -1); (0x81005e90, -1); (0x81006948, -1); (0x81003088, -1); (0x81006e80, -1); (0x81003cd8, -1); (0x81001af0, -1); (0x810000b8, -1); (0x81007ec8, -1); (0x81001858, -1); (0x81006030, -1); (0x81000e68, -1); (0x810004d8, -1);
   (0x81002038, -1); (0x81004e70, -1); (0x81000b60, -1); (0x81005020, -1); (0x81004488, -1); (0x81001070, -1); (0x81003f60, -1); (0x810003d8, -1); (0x81007290, -1); (0x81005738, -1); (0x81004800, 72); (0x81005f40, -1); (0x810001c8, -1); (0x81001610, -1); (0x81002620, -1); (0x810022c0, -1);
   (0x810065c0, -1); (0x810008f8, -1); (0x810044d0, -1); (0x81004ab8, -1); (0x81000d68, -1); (0x81007ce0, -1); (0x81003568, -1); (0x81002428, -1); (0x81001648, -1); (0x81006c60, -1); (0x81001130, -1); (0x810013e0, -1); (0x81002d08, -1); (0x810047d0, -1); (0x810057c8, -1); (0x81005dd8, -1);
   (0x81002030, -1); (0x81007858, -1); (0x81005a20, -1); (0x81007328, -1); (0x810012e8, -1); (0x81006cf0, -1); (0x81005478, -1); (0x81000f68, -1); (0x81004188, -1); (0x81004450, -1); (0x81000f30, -1); (0x81006a78, -1); (0x81006dc0, -1); (0x81000b18, -1); (0x81003828, -1); (0x81004e40, -1);
   (0x81004460, -1); (0x81001bf0, -1); (0x81007f70, -1); (0x810019c0, -1); (0x81003330, -1); (0x810021a0, -1); (0x81006c38, -1); (0x81007b98, -1); (0x81005af0, -1); (0x81006cc0, -1); (0x81003be0, -1); (0x81000ce0, -1); (0x81007548, -1); (0x81006a38, -1); (0x810054b8, -1); (0x81003070, -1);
   (0x81007720, -1); (0x81006850, -1); (0x81004b00, 75); (0x810064c8, -1); (0x81000198, -1); (0x81000da0, -1); (0x810052d0, -1); (0x81007d80, -1); (0x81001658, -1); (0x81004b18, -1); (0x81007f90, -1); (0x810001d0, -1); (0x81005be8, -1); (0x81006098, -1); (0x81003800, 56); (0x81002500, 37);
   (0x81006978, -1); (0x81001288, -1); (0x81005ba0, -1); (0x81005350, -1); (0x81005940, -1); (0x81006e90, -1); (0x81003990, -1); (0x81006cd8, -1); (0x81006a48, -1); (0x81006470, -1); (0x81005be0, -1); (0x81002360, -1); (0x81006338, -1); (0x81007a98, -1); (0x810053b0, -1); (0x810001c0, -1);
   (0x81003048, -1); (0x81005140, -1); (0x810073a8, -1); (0x81004498, -1); (0x81004f88, -1); (0x81003418, -1); (0x810038d0, -1); (0x810009c0, -1); (0x81002730, -1); (0x81000750, -1); (0x81001f08, -1); (0x810048b0, -1); (0x81005cd0, -1); (0x810068e0, -1); (0x81006180, -1); (0x81000638, -1);
   (0x81003ec8, -1); (0x810055c0, -1); (0x81000760, -1); (0x81007490, -1); (0x81003ae8, -1); (0x81002228, -1); (0x81007a08, -1); (0x81001650, -1); (0x81002478, -1); (0x81001d80, -1); (0x810003a0, -1); (0x81000cf8, -1); (0x81000318, -1); (0x81002398, -1); (0x81006340, -1); (0x81005c08, -1);
   (0x81001380, -1); (0x810026b8, -1); (0x81005340, -1); (0x81007208, -1); (0x81004130, -1); (0x81000298, -1); (0x81005ea0, -1); (0x81002a50, -1); (0x81007bd8, -1); (0x81000f38, -1); (0x81007158, -1); (0x81003980, -1); (0x81001cd0, -1); (0x81006bc8, -1); (0x81004590, -1); (0x81000828, -1);
   (0x810021a8, -1); (0x81001e40, -1); (0x81006938, -1); (0x81002230, -1); (0x81006408, -1); (0x81006928, -1); (0x810065e8, -1); (0x81001a00, 26); (0x81007cd8, -1); (0x810028f8, -1); (0x81003358, -1); (0x81007768, -1); (0x81006d80, -1); (0x81004e08, -1); (0x810000e0, -1); (0x81000098, -1);
   (0x81000f58, -1); (0x81001fe8, -1); (0x810079b0, -1); (0x810013f0, -1); (0x81004f68, -1); (0x810047e8, -1); (0x81002190, -1); (0x810060b8, -1); (0x81005ab0, -1); (0x81001fd8, -1); (0x81001030, -1); (0x81000eb8, -1); (0x810036b8, -1); (0x81003150, -1); (0x81006568, -1); (0x81001170, -1);
   (0x81001f70, -1); (0x81003a70, -1); (0x81007c00, 124); (0x81006600, 102); (0x810011f0, -1); (0x810062a8, -1); (0x810029f0, -1); (0x81000058, -1); (0x810040e8, -1); (0x81004358, -1); (0x81000620, -1); (0x81006da0, -1); (0x81002138, -1); (0x810040f0, -1); (0x81005110, -1); (0x81000338, -1);
   (0x810006e0, -1); (0x810078c8, -1); (0x81002dd8, -1); (0x810066f0, -1); (0x810074d8, -1); (0x810019a8, -1); (0x81004788, -1); (0x81004258, -1); (0x81005300, 83); (0x81004238, -1); (0x810008c8, -1); (0x81002808, -1); (0x81002430, -1); (0x81004628, -1); (0x810022f0, -1); (0x81001660, -1);
   (0x81002ee0, -1); (0x81004780, -1); (0x81007758, -1); (0x810015d0, -1); (0x81001c98, -1); (0x810003a8, -1); (0x81006e10, -1); (0x81002dc8, -1); (0x81007e50, -1); (0x810027d0, -1); (0x810000a8, -1); (0x81001d60, -1); (0x810056a8, -1); (0x810001a8, -1); (0x810060e8, -1); (0x81002cb8, -1);
   (0x81006058, -1); (0x81007cd0, -1); (0x810046f0, -1); (0x810060f0, -1); (0x81002928, -1); (0x810034d0, -1); (0x81001798, -1); (0x81007510, -1); (0x81003dd0, -1); (0x81005210, -1); (0x810023a8, -1); (0x810055e8, -1); (0x81003890, -1); (0x81003840, -1); (0x81000fc0, -1); (0x81005c48, -1);
   (0x81000110, -1); (0x810017d8, -1); (0x81001480, -1); (0x81006fe8, -1); (0x81002d50, -1); (0x810012d0, -1); (0x81002fa0, -1); (0x810036c8, -1); (0x81000358, -1); (0x81002310, -1); (0x810009d8, -1); (0x81007b50, -1); (0x81002e48, -1); (0x81007dd0, -1); (0x81007e80, -1); (0x81001e08, -1);
   (0x81000428, -1); (0x810061a0, -1); (0x81003248, -1); (0x81003bc0, -1); (0x81004c60, -1); (0x81006820, -1); (0x81003390, -1); (0x81004bb0, -1); (0x81002280, -1); (0x81001b90, -1); (0x81002fa8, -1); (0x81003170, -1); (0x81002f80, -1); (0x81007f98, -1); (0x810058c8, -1); (0x81005ec0, -1);
   (0x81001cc8, -1); (0x81000bf8, -1); (0x81002800, 40); (0x81007c90, -1); (0x81005358, -1); (0x81001ee0, -1); (0x81005120, -1); (0x81005a50, -1); (0x81005ff8, -1); (0x81002e28, -1); (0x81001270, -1); (0x81004338, -1); (0x81004cf8, -1); (0x81001cf0, -1); (0x81004500, 69); (0x81006558, -1);
   (0x81003e48, -1); (0x81001868, -1); (0x810056c0, -1); (0x81004f18, -1); (0x81007af8, -1); (0x810030a8, -1); (0x81004228, -1); (0x81001a58, -1); (0x81001fe0, -1); (0x81006500, 101); (0x810008c0, -1); (0x81003b40, -1); (0x810044d8, -1); (0x81001530, -1); (0x81004c08, -1); (0x81004648, -1);
   (0x810056a0, -1); (0x81003560, -1); (0x81006398, -1); (0x81001a68, -1); (0x81007cc8, -1); (0x81005408, -1); (0x81004748, -1); (0x81003410, -1); (0x81001cf8, -1); (0x81006160, -1); (0x81007430, -1); (0x81007d00, 125); (0x81007270, -1); (0x81001520, -1); (0x81003110, -1); (0x81001e60, -1);
   (0x810016f8, -1); (0x81000658, -1); (0x81004118, -1); (0x810005a8, -1); (0x81006680, -1); (0x81006d30, -1); (0x81002e70, -1); (0x81004080, -1); (0x810074a0, -1); (0x810039c0, -1); (0x81007178, -1); (0x81003ee8, -1); (0x81007100, 113); (0x810010a8, -1); (0x81002780, -1); (0x81007068, -1);
   (0x81000930, -1); (0x81005060, -1); (0x81004368, -1); (0x81002ed0, -1); (0x81002b08, -1); (0x810063e8, -1); (0x81000e20, -1); (0x81003a50, -1); (0x81005dd0, -1); (0x81000fe0, -1); (0x810071d8, -1); (0x81004ef0, -1); (0x810062e0, -1); (0x81000160, -1); (0x81004418, -1); (0x810021c0, -1);
   (0x810014c8, -1); (0x810058f8, -1); (0x81001b10, -1); (0x810079d0, -1); (0x81005a48, -1); (0x81003078, -1); (0x81000340, -1); (0x810016c8, -1); (0x81002f00, 47); (0x81005108, -1); (0x81005550, -1); (0x81005e78, -1); (0x810003f8, -1); (0x810062e8, -1); (0x81004ed8, -1); (0x81001910, -1);
   (0x810018b0, -1); (0x81007050, -1); (0x81002c68, -1); (0x810038f8, -1); (0x81001df8, -1); (0x81005bd8, -1); (0x81005180, -1); (0x81004158, -1); (0x81007b20, -1); (0x81003280, -1); (0x81003ba8, -1); (0x81004a70, -1); (0x81001878, -1); (0x81005e80, -1); (0x81007318, -1); (0x81006188, -1);
   (0x810028e0, -1); (0x81007418, -1); (0x81000c20, -1); (0x81006ef0, -1); (0x81007848, -1); (0x810048c0, -1); (0x810038b0, -1); (0x81007c10, -1); (0x81003f18, -1); (0x81003f28, -1); (0x81002910, -1); (0x810032e0, -1); (0x810070f8, -1); (0x81006f58, -1); (0x81004458, -1); (0x81007258, -1);
   (0x81001640, -1); (0x81002bc8, -1); (0x81000b20, -1); (0x81002838, -1); (0x810067b8, -1); (0x810062a0, -1); (0x810017c0, -1); (0x810050f8, -1); (0x81006e50, -1); (0x81004178, -1); (0x81002930, -1); (0x81006068, -1); (0x81007830, -1); (0x81005978, -1); (0x81004b78, -1); (0x81001b00, 27);
   (0x81007198, -1); (0x810050d8, -1); (0x81000480, -1); (0x81002710, -1); (0x81003b38, -1); (0x810050c8, -1); (0x81005d28, -1); (0x81001d30, -1); (0x81005d90, -1); (0x81005fc0, -1); (0x81005c80, -1); (0x81004190, -1); (0x81007278, -1); (0x81005e48, -1); (0x810053f8, -1); (0x81003400, 52);
   (0x81001020, -1); (0x81000f18, -1); (0x81004ea0, -1); (0x81003988, -1); (0x81001d48, -1); (0x81000e38, -1); (0x81005310, -1); (0x81003d18, -1); (0x81003910, -1); (0x81006d78, -1); (0x81006458, -1); (0x81001b48, -1); (0x81006950, -1); (0x810016b0, -1); (0x81006bc0, -1); (0x810033c0, -1);
   (0x81001ce8, -1); (0x810017d0, -1); (0x81004af8, -1); (0x81000910, -1); (0x81005798, -1); (0x810026f0, -1); (0x81000b88, -1); (0x81001d88, -1); (0x810057b8, -1); (0x81000b38, -1); (0x810045f0, -1); (0x81007870, -1); (0x810041a8, -1); (0x81003168, -1); (0x810059f0, -1); (0x810066a8, -1);
   (0x81005288, -1); (0x81005390, -1); (0x81006078, -1); (0x81002880, -1); (0x810051e8, -1); (0x810070f0, -1); (0x81003a10, -1); (0x81005ee8, -1); (0x81000408, -1); (0x81006738, -1); (0x81007168, -1); (0x810073d8, -1); (0x81004de0, -1); (0x81001830, -1); (0x81000af8, -1); (0x81005b70, -1);
   (0x81004370, -1); (0x81005598, -1); (0x81001280, -1); (0x81005e10, -1); (0x81002798, -1); (0x81002600, 38); (0x81002758, -1); (0x810063b8, -1); (0x81001180, -1); (0x81006fc0, -1); (0x810017f8, -1); (0x81007878, -1); (0x81000e58, -1); (0x81001ab8, -1); (0x810035f8, -1); (0x81000e48, -1);
   (0x81001a60, -1); (0x81002368, -1); (0x81003b88, -1); (0x810047a0, -1); (0x810077b8, -1); (0x81001160, -1); (0x81001178, -1); (0x81006580, -1); (0x81005330, -1); (0x81005458, -1); (0x81004bb8, -1); (0x810059c0, -1); (0x81000090, -1); (0x81003558, -1); (0x81002f70, -1); (0x81003770, -1);
   (0x81001ba8, -1); (0x81004198, -1); (0x81000be8, -1); (0x81005708, -1); (0x81001988, -1); (0x81000df0, -1); (0x810024c8, -1); (0x81006028, -1); (0x81000ef8, -1); (0x81006f28, -1); (0x810010a0, -1); (0x81005608, -1); (0x81000f48, -1); (0x81004ca0, -1); (0x81000b00, 11); (0x810013e8, -1);
   (0x81002920, -1); (0x810072f0, -1); (0x81000490, -1); (0x81005270, -1); (0x81007218, -1); (0x810066d0, -1); (0x810037a8, -1); (0x81001768, -1); (0x810078e0, -1); (0x81000e98, -1); (0x81000328, -1); (0x81005b80, -1); (0x810059d0, -1); (0x81000ca0, -1); (0x81003d48, -1); (0x81000d88, -1);
   (0x81005828, -1); (0x81006de8, -1); (0x81007bc0, -1); (0x81001e98, -1); (0x81006148, -1); (0x81007500, 117); (0x810042e8, -1); (0x810021d8, -1); (0x81005898, -1); (0x81007cb8, -1); (0x81007ca8, -1); (0x81001720, -1); (0x81004908, -1); (0x81001098, -1); (0x81003118, -1); (0x81002608, -1);
   (0x810070d8, -1); (0x81004b98, -1); (0x81002cd0, -1); (0x81003f30, -1); (0x81002a08, -1); (0x81006050, -1); (0x81001438, -1); (0x81007be0, -1); (0x810025d8, -1); (0x810029a8, -1); (0x810044e0, -1); (0x81001978, -1); (0x810052c0, -1); (0x810017f0, -1); (0x81000fb8, -1); (0x81003ce0, -1);
   (0x81001c88, -1); (0x810061c0, -1); (0x810014e0, -1); (0x81004448, -1); (0x81003748, -1); (0x810003e0, -1); (0x81003fe8, -1); (0x81002708, -1); (0x810067a8, -1); (0x81005278, -1); (0x81000b58, -1); (0x81001368, -1); (0x81003a80, -1); (0x81003618, -1); (0x81004f28, -1); (0x81000d50, -1);
   (0x81003a00, 58); (0x81000678, -1); (0x81003ba0, -1); (0x81007d78, -1); (0x81001e38, -1); (0x81001a50, -1); (0x810043b8, -1); (0x810014b0, -1); (0x810076d8, -1); (0x81001d58, -1); (0x81001908, -1); (0x81004678, -1); (0x81006660, -1); (0x81003be8, -1); (0x81006930, -1); (0x81006210, -1);
   (0x81000618, -1); (0x810061d0, -1); (0x810079e8, -1); (0x81000f08, -1); (0x81005030, -1); (0x81002070, -1); (0x810054a8, -1); (0x81000588, -1); (0x81000b80, -1); (0x81002d78, -1); (0x81005c10, -1); (0x81002380, -1); (0x81004e00, 78); (0x81005bb8, -1); (0x81004ae8, -1); (0x81006c98, -1);
   (0x81000ca8, -1); (0x81000478, -1); (0x81000d80, -1); (0x810057e8, -1); (0x81007bf0, -1); (0x81006490, -1); (0x810031e0, -1); (0x81006628, -1); (0x81005918, -1); (0x81003b90, -1); (0x810067c0, -1); (0x81000d20, -1); (0x81007b88, -1); (0x81004760, -1); (0x810020c0, -1); (0x81001870, -1);
   (0x81000308, -1); (0x81006590, -1); (0x81007fb8, -1); (0x81000de8, -1); (0x81004bd0, -1); (0x81007e00, 126); (0x81007a40, -1); (0x81002320, -1); (0x81007af0, -1); (0x81005688, -1); (0x81007ac8, -1); (0x81006d90, -1); (0x810014e8, -1); (0x81000050, -1); (0x81006c48, -1); (0x81003f10, -1);
   (0x81003010, -1); (0x810073b0, -1); (0x81003220, -1); (0x81001aa0, -1); (0x81005c38, -1); (0x81006428, -1); (0x810027d8, -1); (0x81002648, -1); (0x81000a70, -1); (0x81002cc8, -1); (0x810007c0, -1); (0x810006d0, -1); (0x810057e0, -1); (0x810064f0, -1); (0x810055f0, -1); (0x81000b98, -1);
   (0x81005f18, -1); (0x81003d10, -1); (0x81003ab0, -1); (0x810017b8, -1); (0x81007230, -1); (0x810005c0, -1); (0x81003310, -1); (0x81006120, -1); (0x81005200, 82); (0x81002238, -1); (0x810009e0, -1); (0x81007d70, -1); (0x81002260, -1); (0x81002068, -1); (0x81006c00, 108); (0x81002908, -1);
   (0x81002ca8, -1); (0x81004010, -1); (0x810056f8, -1); (0x810015b8, -1); (0x81004a58, -1); (0x81002e90, -1); (0x81004cd8, -1); (0x81000780, -1); (0x81007eb0, -1); (0x81000360, -1); (0x81004230, -1); (0x81001920, -1); (0x81001050, -1); (0x81005df0, -1); (0x81000ff0, -1); (0x810060c0, -1);
   (0x81003d60, -1); (0x81007a88, -1); (0x81003630, -1); (0x810061f0, -1); (0x81003bb8, -1); (0x81004700, 71); (0x810048e8, -1); (0x81003d78, -1); (0x810034c0, -1); (0x81003e30, -1); (0x81001fd0, -1); (0x81002b28, -1); (0x810003b8, -1); (0x81006f30, -1); (0x810009a8, -1); (0x81004b10, -1);
   (0x810055d0, -1); (0x81001e88, -1); (0x81005a18, -1); (0x81006698, -1); (0x81000680, -1); (0x810069e0, -1); (0x81001218, -1); (0x81003380, -1); (0x810039b8, -1); (0x81001e50, -1); (0x81000a00, 10); (0x81000ae8, -1); (0x81000630, -1); (0x810011d0, -1); (0x81006a60, -1); (0x81000610, -1);
   (0x81005ea8, -1); (0x81000e40, -1); (0x81004768, -1); (0x81005a58, -1); (0x81002298, -1); (0x81004d38, -1); (0x81005f78, -1); (0x810045b8, -1); (0x81005170, -1); (0x81007280, -1); (0x81005d78, -1); (0x81002e30, -1); (0x810072d0, -1); (0x81002c80, -1); (0x81004ef8, -1); (0x810018a0, -1);
   (0x810072c8, -1); (0x81003138, -1); (0x81005cf8, -1); (0x81002c28, -1); (0x81004c38, -1); (0x81007c50, -1); (0x81007288, -1); (0x81005ce8, -1); (0x81007480, -1); (0x810047f8, -1); (0x81003a78, -1); (0x81006508, -1); (0x81002688, -1); (0x810014f8, -1); (0x810052b0, -1); (0x81007840, -1);
   (0x810060c8, -1); (0x81002e20, -1); (0x81004810, -1); (0x810013f8, -1); (0x81001aa8, -1); (0x81005a08, -1); (0x810009c8, -1); (0x81002bb0, -1); (0x81005e18, -1); (0x810029b0, -1); (0x810062b8, -1); (0x81004038, -1); (0x81006f20, -1); (0x81007d18, -1); (0x81000cb8, -1); (0x81007220, -1);
   (0x81006ea0, -1); (0x81000790, -1); (0x81003c78, -1); (0x81007e30, -1); (0x81006f80, -1); (0x81000538, -1); (0x81007a90, -1); (0x81004778, -1); (0x81007b58, -1); (0x810047c8, -1); (0x81004d58, -1); (0x81005848, -1); (0x810050e0, -1); (0x81002f60, -1); (0x81000d10, -1); (0x81002590, -1);
   (0x81007190, -1); (0x81003c18, -1); (0x81007070, -1); (0x81001468, -1); (0x810042f8, -1); (0x81005b28, -1); (0x81007188, -1); (0x810059f8, -1); (0x81001ed0, -1); (0x810011c0, -1); (0x810033f0, -1); (0x81000f90, -1); (0x81003050, -1); (0x81004928, -1); (0x81004950, -1); (0x81002d60, -1);
   (0x81000c80, -1); (0x810079c8, -1); (0x810024f8, -1); (0x81002c38, -1); (0x81003518, -1); (0x81000450, -1); (0x81006ce0, -1); (0x81004958, -1); (0x81004730, -1); (0x810069f8, -1); (0x81006300, 99); (0x81004af0, -1); (0x81004d98, -1); (0x810062d0, -1); (0x810065a8, -1); (0x81002b48, -1);
   (0x810027c0, -1); (0x81002270, -1); (0x81001ee8, -1); (0x81007120, -1); (0x81007598, -1); (0x81007098, -1); (0x81003a18, -1); (0x810075c0, -1); (0x81000018, -1); (0x810010d8, -1); (0x81002618, -1); (0x81005418, -1); (0x81006158, -1); (0x81006d00, 109); (0x81004ec0, -1); (0x81000c70, -1);
   (0x81001890, -1); (0x810068b0, -1); (0x81004538, -1); (0x81006a68, -1); (0x81002538, -1); (0x81003e80, -1); (0x81000df8, -1); (0x81001638, -1); (0x810010c0, -1); (0x81000b08, -1); (0x81000d30, -1); (0x81005fa0, -1); (0x81002be8, -1); (0x81000048, -1); (0x81006f08, -1); (0x81000968, -1);
   (0x810026a0, -1); (0x81007de0, -1); (0x81005628, -1); (0x81007c48, -1); (0x81007d40, -1); (0x81007108, -1); (0x81007e40, -1); (0x81002410, -1); (0x81000a20, -1); (0x81007638, -1); (0x81000ba8, -1); (0x810028c8, -1); (0x810075e0, -1); (0x81002f08, -1); (0x81004c58, -1); (0x81004310, -1);
   (0x81004de8, -1); (0x810051d0, -1); (0x81004f98, -1); (0x81001258, -1); (0x81002120, -1); (0x81003228, -1); (0x81002740, -1); (0x810061a8, -1); (0x81006998, -1); (0x81005258, -1); (0x81007aa0, -1); (0x810038c8, -1); (0x81002598, -1); (0x81000bf0, -1); (0x81003590, -1); (0x810046a8, -1);
   (0x81004c10, -1); (0x81004e60, -1); (0x81003338, -1); (0x81001df0, -1); (0x81001ad8, -1); (0x81002f50, -1); (0x81000568, -1); (0x810051a0, -1); (0x81002210, -1); (0x81000de0, -1); (0x81000008, -1); (0x810053f0, -1); (0x810049a8, -1); (0x810047c0, -1); (0x81004288, -1); (0x81004388, -1);
   (0x81001968, -1); (0x81005000, 80); (0x81003d28, -1); (0x81004e78, -1); (0x81004208, -1); (0x81001060, -1); (0x810024a0, -1); (0x81002cf0, -1); (0x81004d80, -1); (0x810079b8, -1); (0x81005660, -1); (0x810053b8, -1); (0x81003e00, 62); (0x81007a60, -1); (0x81002718, -1); (0x81003350, -1);
   (0x81000598, -1); (0x810070e0, -1); (0x81000e08, -1); (0x810051f8, -1); (0x81004c30, -1); (0x810019b0, -1); (0x81003648, -1); (0x81004820, -1); (0x81005ec8, -1); (0x810026d8, -1); (0x81004ab0, -1); (0x81005f70, -1); (0x810004e8, -1); (0x81005dc8, -1); (0x81001918, -1); (0x81007238, -1);
   (0x81001758, -1); (0x81003cf8, -1); (0x81000520, -1); (0x81003128, -1); (0x810000f0, -1); (0x81001990, -1); (0x810069a8, -1); (0x81006298, -1); (0x81003120, -1); (0x81001190, -1); (0x81007180, -1); (0x81001b80, -1); (0x81003798, -1); (0x81005038, -1); (0x810062c0, -1); (0x81005a80, -1);
   (0x81006898, -1); (0x81003bd0, -1); (0x810040b8, -1); (0x81004480, -1); (0x810008a8, -1); (0x81007d28, -1); (0x81000570, -1); (0x81002750, -1); (0x81000bd8, -1); (0x81002c48, -1); (0x81005d68, -1); (0x81007130, -1); (0x81006ca8, -1); (0x81000668, -1); (0x81001298, -1); (0x810000c8, -1);
   (0x81006330, -1); (0x81002aa0, -1); (0x81006fa0, -1); (0x81004bc0, -1); (0x81003a30, -1); (0x81001168, -1); (0x81001328, -1); (0x810053a0, -1); (0x81004758, -1); (0x81001538, -1); (0x81000230, -1); (0x810060b0, -1); (0x81006918, -1); (0x810070a0, -1); (0x81006c20, -1); (0x81003680, -1);
   (0x81006288, -1); (0x81003340, -1); (0x81002548, -1); (0x810066d8, -1); (0x81001848, -1); (0x81002558, -1); (0x81006b78, -1); (0x81006cb0, -1); (0x81003b18, -1); (0x810007b0, -1); (0x81006958, -1); (0x81007be8, -1); (0x81007c70, -1); (0x81004c20, -1); (0x810027e0, -1); (0x810056f0, -1);
   (0x810025b0, -1); (0x810078b8, -1); (0x810067c8, -1); (0x810029d8, -1); (0x81000870, -1); (0x81007e68, -1); (0x81000158, -1); (0x81003788, -1); (0x81002b20, -1); (0x81000550, -1); (0x810002a0, -1); (0x81006378, -1); (0x81005750, -1); (0x81002978, -1); (0x81002e80, -1); (0x81000840, -1);
   (0x81005e00, 94); (0x81002f38, -1); (0x81004438, -1); (0x81002c30, -1); (0x810063c8, -1); (0x81000f88, -1); (0x81006168, -1); (0x81002148, -1); (0x81006e60, -1); (0x81006538, -1); (0x81007dc8, -1); (0x810031f0, -1); (0x81005bc8, -1); (0x81003da8, -1); (0x81003ae0, -1); (0x81005f68, -1);
   (0x81001c80, -1); (0x81002ef0, -1); (0x81002b68, -1); (0x81005cf0, -1); (0x81004e88, -1); (0x810063f0, -1); (0x81001dd8, -1); (0x81006c18, -1); (0x81003af8, -1); (0x81000128, -1); (0x81001338, -1); (0x81006e28, -1); (0x81004400, 68); (0x81006bb8, -1); (0x810070e8, -1); (0x81006dd8, -1);
   (0x810068a8, -1); (0x81007890, -1); (0x81001ae0, -1); (0x81001508, -1); (0x810017b0, -1); (0x81007730, -1); (0x81005070, -1); (0x81004548, -1); (0x81003dc0, -1); (0x81003e10, -1); (0x81001708, -1); (0x81002560, -1); (0x81002e00, 46); (0x81007d58, -1); (0x81003eb8, -1); (0x81006d48, -1);
   (0x81007cc0, -1); (0x810045f8, -1); (0x81006bd0, -1); (0x81007c60, -1); (0x81002450, -1); (0x81004a98, -1); (0x810010b8, -1); (0x81004ad8, -1); (0x810039c8, -1); (0x81005d58, -1); (0x81007ae0, -1); (0x81006638, -1); (0x81001de0, -1); (0x810011b0, -1); (0x810006e8, -1); (0x810063b0, -1);
   (0x81005d10, -1); (0x81002a80, -1); (0x81001dd0, -1); (0x810025f8, -1); (0x81005bc0, -1); (0x810041f0, -1); (0x81001698, -1); (0x81002a10, -1); (0x81003d20, -1); (0x81006308, -1); (0x81003538, -1); (0x81004a20, -1); (0x810073e0, -1); (0x81003c30, -1); (0x810023b0, -1); (0x81006e38, -1);
   (0x810065a0, -1); (0x81002050, -1); (0x81007e88, -1); (0x81001e68, -1); (0x81001b40, -1); (0x81003d38, -1); (0x81004db8, -1); (0x81006488, -1); (0x81002078, -1); (0x81002a60, -1); (0x81007750, -1); (0x81003520, -1); (0x810040e0, -1); (0x81001e20, -1); (0x810069b8, -1); (0x81005058, -1);
   (0x81003448, -1); (0x81006a20, -1); (0x81001110, -1); (0x81005ab8, -1); (0x81001998, -1); (0x81006018, -1); (0x81005b68, -1); (0x81002378, -1); (0x810039f0, -1); (0x81007590, -1); (0x81006790, -1); (0x81002f88, -1); (0x81003848, -1); (0x810067e8, -1); (0x81004938, -1); (0x810002f0, -1);
   (0x81005c58, -1); (0x81002980, -1); (0x810018d0, -1); (0x81005298, -1); (0x81006b60, -1); (0x81004d48, -1); (0x81002d48, -1); (0x81003ff0, -1); (0x81004ac0, -1); (0x81006f90, -1); (0x810038c0, -1); (0x81006f60, -1); (0x81005238, -1); (0x81003b78, -1); (0x81004ff8, -1); (0x81002348, -1);
   (0x81003968, -1); (0x81007610, -1); (0x810018c8, -1); (0x81007540, -1); (0x81002fd0, -1); (0x810073e8, -1); (0x81007de8, -1); (0x81003260, -1); (0x81003458, -1); (0x81007528, -1); (0x81003c80, -1); (0x810039a8, -1); (0x81002df8, -1); (0x810006f8, -1); (0x81007a10, -1); (0x81007940, -1);
   (0x81001008, -1); (0x81000470, -1); (0x81006cf8, -1); (0x81001e70, -1); (0x810072a0, -1); (0x81007930, -1); (0x81004c18, -1); (0x810057c0, -1); (0x81006f78, -1); (0x81007160, -1); (0x81005158, -1); (0x81005748, -1); (0x81003068, -1); (0x81005df8, -1); (0x810042a8, -1); (0x81005c20, -1);
   (0x810076d0, -1); (0x81007818, -1); (0x81004180, -1); (0x81005368, -1); (0x81006810, -1); (0x81006ae8, -1); (0x810073c0, -1); (0x81004568, -1); (0x81004c70, -1); (0x81003090, -1); (0x810031c8, -1); (0x81006f40, -1); (0x810041a0, -1); (0x81002040, -1); (0x81004fa0, -1); (0x81001d28, -1);
   (0x810053e0, -1); (0x81007228, -1); (0x81000ac0, -1); (0x81005990, -1); (0x81001ff8, -1); (0x81000108, -1); (0x810016f0, -1); (0x81001c18, -1); (0x81006e40, -1); (0x810024a8, -1); (0x810023f8, -1); (0x810052f0, -1); (0x81007d60, -1); (0x81001360, -1); (0x81003328, -1); (0x81004998, -1);
   (0x810033e8, -1); (0x810002c8, -1); (0x81006a00, 106); (0x81001a18, -1); (0x81004d28, -1); (0x810035e8, -1); (0x81003460, -1); (0x81001eb8, -1); (0x810043d0, -1); (0x81000b10, -1); (0x81000d70, -1); (0x81005a38, -1); (0x81006290, -1); (0x810008f0, -1); (0x810074a8, -1); (0x81001c10, -1);
   (0x81006780, -1); (0x81007b08, -1); (0x81003d88, -1); (0x81003760, -1); (0x810028a0, -1); (0x81001bb8, -1); (0x81001930, -1); (0x81007ac0, -1); (0x81001f98, -1); (0x81005568, -1); (0x81006000, 96); (0x81007ca0, -1); (0x81005558, -1); (0x81000b90, -1); (0x81002d10, -1); (0x81001ca8, -1);
   (0x81000db8, -1); (0x81004978, -1); (0x81004930, -1); (0x81000ed8, -1); (0x81000758, -1); (0x81005100, 81); (0x81002150, -1); (0x810066b8, -1); (0x81004050, -1); (0x810066b0, -1); (0x81007ba8, -1); (0x81002bd8, -1); (0x810017c8, -1); (0x81000940, -1); (0x810034f8, -1); (0x810071a8, -1);
   (0x81007880, -1); (0x81005b18, -1); (0x81003b60, -1); (0x81004fc8, -1); (0x81005648, -1); (0x81001e00, 30); (0x81001780, -1); (0x81006708, -1); (0x81001b28, -1); (0x81003ea0, -1); (0x810074e8, -1); (0x81000a98, -1); (0x81002ac8, -1); (0x81002ce8, -1); (0x81000b30, -1); (0x81003628, -1);
   (0x81005c70, -1); (0x810049b0, -1); (0x81000e90, -1); (0x810066f8, -1); (0x81000b40, -1); (0x81004090, -1); (0x81000418, -1); (0x81007b70, -1); (0x81003140, -1); (0x81002a30, -1); (0x81003888, -1); (0x81004cf0, -1); (0x81004e90, -1); (0x81004ba8, -1); (0x81004108, -1); (0x81002a90, -1);
   (0x810041b0, -1); (0x81005428, -1); (0x81003388, -1); (0x810024f0, -1); (0x81003550, -1); (0x81001f00, 31); (0x81007498, -1); (0x810034e0, -1); (0x810077f0, -1); (0x81000a48, -1); (0x810047e0, -1); (0x810045c8, -1); (0x81004b50, -1); (0x810006c0, -1); (0x81000898, -1); (0x81001838, -1);
   (0x810065d0, -1); (0x81000120, -1); (0x81004580, -1); (0x81007798, -1); (0x81000fd8, -1); (0x81003bd8, -1); (0x81005ac8, -1); (0x81000820, -1); (0x810022a8, -1); (0x81007e90, -1); (0x81004b20, -1); (0x81002328, -1); (0x81006890, -1); (0x81003ed0, -1); (0x81000540, -1); (0x81006390, -1);
   (0x81006658, -1); (0x81005208, -1); (0x81004d40, -1); (0x81007fa0, -1); (0x81000708, -1); (0x81005a68, -1); (0x81003ea8, -1); (0x81000a88, -1); (0x81007058, -1); (0x81006c70, -1); (0x81000500, 5); (0x810025a8, -1); (0x81002248, -1); (0x810077e0, -1); (0x81002cd8, -1); (0x81003c38, -1);
   (0x81001d70, -1); (0x81006ba8, -1); (0x810066e8, -1); (0x81007690, -1); (0x81002ee8, -1); (0x81006da8, -1); (0x81005ca8, -1); (0x81001548, -1); (0x81004048, -1); (0x810068f8, -1); (0x810048d8, -1); (0x81001b78, -1); (0x81007d08, -1); (0x81000558, -1); (0x810030c8, -1); (0x810073c8, -1);
   (0x810047f0, -1); (0x81007080, -1); (0x81004840, -1); (0x81002c78, -1); (0x81007f38, -1); (0x81002c70, -1); (0x81007760, -1); (0x810038f0, -1); (0x810008b8, -1); (0x810011e0, -1); (0x81003868, -1); (0x810050a8, -1); (0x81006ba0, -1); (0x81001748, -1); (0x81000170, -1); (0x810015c0, -1);
   (0x81002d98, -1); (0x81006a10, -1); (0x81004880, -1); (0x81004dd0, -1); (0x81002250, -1); (0x81005010, -1); (0x81004608, -1); (0x810005d0, -1); (0x81001f58, -1); (0x81006d20, -1); (0x81004408, -1); (0x81003e50, -1); (0x81002408, -1); (0x81004738, -1); (0x81003e08, -1); (0x81005148, -1);
   (0x81005570, -1); (0x81006870, -1); (0x81005838, -1); (0x81003d00, 61); (0x81006008, -1); (0x81004490, -1); (0x81005e20, -1); (0x81000c08, -1); (0x81003e20, -1); (0x810003e8, -1); (0x81007fe8, -1); (0x81006828, -1); (0x81007df8, -1); (0x81001898, -1); (0x81003098, -1); (0x810030e0, -1);
   (0x81006350, -1); (0x810032f0, -1); (0x81002628, -1); (0x81002be0, -1); (0x81005c40, -1); (0x810017e0, -1); (0x810018f0, -1); (0x81000d38, -1); (0x81000fe8, -1); (0x81005af8, -1); (0x81002ed8, -1); (0x810075b0, -1); (0x81003b28, -1); (0x810057a8, -1); (0x81001608, -1); (0x81002390, -1);
   (0x81005ef8, -1); (0x81001ae8, -1); (0x81002198, -1); (0x81000c10, -1); (0x81006e30, -1); (0x81006af8, -1); (0x81000fb0, -1); (0x81007948, -1); (0x810014f0, -1); (0x81004f70, -1); (0x81001bb0, -1); (0x810026c8, -1); (0x810040b0, -1); (0x810042b0, -1); (0x81005ac0, -1); (0x81005d08, -1);
   (0x81005f08, -1); (0x810064f8, -1); (0x81007550, -1); (0x81000860, -1); (0x81006788, -1); (0x810026f8, -1); (0x810042b8, -1); (0x81007378, -1); (0x81000fc8, -1); (0x810003b0, -1); (0x810027a8, -1); (0x81002370, -1); (0x81001718, -1); (0x81001430, -1); (0x81005590, -1); (0x81004078, -1);
   (0x81001b30, -1); (0x81003d68, -1); (0x81002180, -1); (0x81004c90, -1); (0x81004fb0, -1); (0x81001510, -1); (0x81006840, -1); (0x810023e8, -1); (0x810032f8, -1); (0x81004320, -1); (0x81003c28, -1); (0x81000b48, -1); (0x810031d0, -1); (0x81000ef0, -1); (0x81007fa8, -1); (0x810025a0, -1);
   (0x81000900, 9); (0x81004470, -1); (0x81002010, -1); (0x81001cb8, -1); (0x810002e0, -1); (0x81000238, -1); (0x81006650, -1); (0x81003c90, -1); (0x810025c8, -1); (0x81001de8, -1); (0x81002170, -1); (0x81004e98, -1); (0x81005430, -1); (0x81005008, -1); (0x81005578, -1); (0x81003ca0, -1);
   (0x81005808, -1); (0x81005250, -1); (0x81000ea0, -1); (0x810052d8, -1); (0x81005500, 85); (0x81004708, -1); (0x81003f80, -1); (0x810042a0, -1); (0x81007b80, -1); (0x81005980, -1); (0x81002518, -1); (0x810063d0, -1); (0x810020b0, -1); (0x81004f08, -1); (0x81005870, -1); (0x81002da0, -1);
   (0x81005398, -1); (0x81003180, -1); (0x81004cc0, -1); (0x81002af0, -1); (0x810020a0, -1); (0x81006ad8, -1); (0x810039a0, -1); (0x81002000, 32); (0x81001f50, -1); (0x81001700, 23); (0x81005bf0, -1); (0x81001e58, -1); (0x81002b00, 43); (0x81006b70, -1); (0x81007740, -1); (0x81006ff0, -1);
   (0x81000368, -1); (0x810030b0, -1); (0x81001c78, -1); (0x810077d8, -1); (0x81007918, -1); (0x81003008, -1); (0x81002a48, -1); (0x81003af0, -1); (0x81000d78, -1); (0x81004110, -1); (0x81000010, -1); (0x81005698, -1); (0x81000ed0, -1); (0x81005778, -1); (0x81001340, -1); (0x81002118, -1);
   (0x81003288, -1); (0x81001a40, -1); (0x810009b8, -1); (0x81002f20, -1); (0x810035b0, -1); (0x81007888, -1); (0x81003708, -1); (0x81005318, -1); (0x81001590, -1); (0x81002668, -1); (0x81005e68, -1); (0x81006c80, -1); (0x81007670, -1); (0x81003200, 50); (0x810015f0, -1); (0x810022b8, -1);
   (0x81004ad0, -1); (0x81000f70, -1); (0x81000c90, -1); (0x810052a8, -1); (0x81007f60, -1); (0x81003028, -1); (0x81001158, -1); (0x81007f10, -1); (0x810048b8, -1); (0x81003100, 49); (0x81004d70, -1); (0x810046c8, -1); (0x81007348, -1); (0x81004e30, -1); (0x81005fb0, -1); (0x81000db0, -1);
   (0x810045c0, -1); (0x81002338, -1); (0x810041f8, -1); (0x81006f50, -1); (0x81003bc8, -1); (0x81001a78, -1); (0x81001668, -1); (0x81006630, -1); (0x81004cc8, -1); (0x81004380, -1); (0x81007b78, -1); (0x810070d0, -1); (0x810054e0, -1); (0x81007630, -1); (0x81005a78, -1); (0x810058e8, -1);
   (0x81005f80, -1); (0x81001900, 25); (0x81004790, -1); (0x81004170, -1); (0x81001240, -1); (0x810078f8, -1); (0x81003658, -1); (0x81004018, -1); (0x81005360, -1); (0x81002970, -1); (0x81007a58, -1); (0x81001688, -1); (0x81004680, -1); (0x81001ed8, -1); (0x81002ea8, -1); (0x810076f0, -1);
   (0x81007f50, -1); (0x81007f30, -1); (0x81002460, -1); (0x81001c00, 28); (0x81001370, -1); (0x81007400, 116); (0x810045b0, -1); (0x810018d8, -1); (0x81006b80, -1); (0x810053d8, -1); (0x81000dc0, -1); (0x81001bf8, -1); (0x81000080, -1); (0x81007ab0, -1); (0x81003c58, -1); (0x81007d50, -1);
   (0x81002990, -1); (0x81006b40, -1); (0x810018e0, -1); (0x81006ff8, -1); (0x81006450, -1); (0x81005c60, -1); (0x81003958, -1); (0x810049e8, -1); (0x81000f10, -1); (0x81002870, -1); (0x81000548, -1); (0x810005f8, -1); (0x81004e68, -1); (0x81006278, -1); (0x81002330, -1); (0x81000168, -1);
   (0x81006cb8, -1); (0x81007368, -1); (0x81006528, -1); (0x81002d58, -1); (0x810016b8, -1); (0x81005280, -1); (0x81001b98, -1); (0x810039e0, -1); (0x81002bd0, -1); (0x81006d28, -1); (0x81006878, -1); (0x810023a0, -1); (0x810036d8, -1); (0x810049e0, -1); (0x81006248, -1); (0x81006fe0, -1);
   (0x810054d8, -1); (0x81004350, -1); (0x810046b8, -1); (0x81002e50, -1); (0x81005810, -1); (0x81007910, -1); (0x81002110, -1); (0x81000fa0, -1); (0x810017a8, -1); (0x810046d8, -1); (0x81001528, -1); (0x81007f68, -1); (0x81002e38, -1); (0x81006510, -1); (0x81006868, -1); (0x810004a0, -1);
   (0x81001bc8, -1); (0x810027a0, -1); (0x810067a0, -1); (0x810028e8, -1); (0x81004f38, -1); (0x81002e98, -1); (0x810060a0, -1); (0x81004b80, -1); (0x810038e8, -1); (0x81002448, -1); (0x81004f78, -1); (0x81000218, -1); (0x81005b40, -1); (0x81006430, -1); (0x81006380, -1); (0x81007c30, -1);
   (0x810046b0, -1); (0x81001790, -1); (0x810030e8, -1); (0x81005328, -1); (0x81000378, -1); (0x81000528, -1); (0x81000190, -1); (0x81003e38, -1); (0x810030f0, -1); (0x81002018, -1); (0x81005c78, -1); (0x81000f40, -1); (0x81007b30, -1); (0x81007980, -1); (0x81000608, -1); (0x810054d0, -1);
   (0x810075c8, -1); (0x81000928, -1); (0x81007838, -1); (0x81005938, -1); (0x81002698, -1); (0x81003fc8, -1); (0x810071c0, -1); (0x81002f40, -1); (0x810065f8, -1); (0x81007338, -1); (0x81002c88, -1); (0x81005528, -1); (0x810076a0, -1); (0x81002890, -1); (0x81005760, -1); (0x810034a0, -1);
   (0x81004720, -1); (0x81001458, -1); (0x81005228, -1); (0x81003000, 48); (0x81000c88, -1); (0x81007e60, -1); (0x81003a68, -1); (0x81003250, -1); (0x810056c8, -1); (0x81005e50, -1); (0x81003a20, -1); (0x81001888, -1); (0x81003ec0, -1); (0x81005f30, -1); (0x81005b60, -1); (0x81006048, -1);
   (0x81000440, -1); (0x81004890, -1); (0x81003a60, -1); (0x81007aa8, -1); (0x810076b8, -1); (0x81000a50, -1); (0x81002770, -1); (0x81002f98, -1); (0x81003270, -1); (0x81000fa8, -1); (0x810042f0, -1); (0x81004098, -1); (0x81001e30, -1); (0x81005818, -1); (0x810028d8, -1); (0x81005b98, -1);
   (0x81001928, -1); (0x810035a8, -1); (0x81007330, -1); (0x81006b50, -1); (0x810066e0, -1); (0x81003758, -1); (0x81002158, -1); (0x81006560, -1); (0x810035b8, -1); (0x81007038, -1); (0x81007dd8, -1); (0x81005de8, -1); (0x810049f0, -1); (0x81002508, -1); (0x81005ae0, -1); (0x810010f0, -1);
   (0x810051b0, -1); (0x810001f8, -1); (0x81002278, -1); (0x81002660, -1); (0x81004100, 65); (0x81002a40, -1); (0x81006238, -1); (0x810033a0, -1); (0x81001760, -1); (0x81005758, -1); (0x81005c18, -1); (0x810037f8, -1); (0x810022b0, -1); (0x810049c8, -1); (0x810012b0, -1); (0x81006038, -1);
   (0x81005d50, -1); (0x810043d8, -1); (0x810033e0, -1); (0x81004728, -1); (0x81003430, -1); (0x81002728, -1); (0x81000088, -1); (0x81000150, -1); (0x810078e8, -1); (0x810005c8, -1); (0x810018e8, -1); (0x810019d8, -1); (0x81004f50, -1); (0x81005770, -1); (0x810041b8, -1); (0x81002020, -1);
   (0x810015a8, -1); (0x810049d0, -1); (0x810027f8, -1); (0x810020d8, -1); (0x81007db8, -1); (0x81004a60, -1); (0x81001b20, -1); (0x810030c0, -1); (0x81006b98, -1); (0x81002db0, -1); (0x81002fb8, -1); (0x81007110, -1); (0x810061f8, -1); (0x81001d18, -1); (0x81007c78, -1); (0x81005348, -1);
   (0x810032b8, -1); (0x81000da8, -1); (0x81006260, -1); (0x81001550, -1); (0x81005e08, -1); (0x81001c28, -1); (0x81000958, -1); (0x810057f8, -1); (0x81000270, -1); (0x810020e0, -1); (0x810000a0, -1); (0x81002058, -1); (0x81003588, -1); (0x81001410, -1); (0x81007618, -1); (0x81007900, 121);
   (0x810040c8, -1); (0x81004e28, -1); (0x810019f8, -1); (0x810052f8, -1); (0x81002630, -1); (0x81002140, -1); (0x81002d80, -1); (0x810014b8, -1); (0x810028a8, -1); (0x81004a50, -1); (0x81007f28, -1); (0x810044f0, -1); (0x810007f8, -1); (0x81000430, -1); (0x81003fd0, -1); (0x81007268, -1);
   (0x81005e30, -1); (0x81002488, -1); (0x810051c8, -1); (0x81000448, -1); (0x81004a18, -1); (0x810021c8, -1); (0x81006b38, -1); (0x810031c0, -1); (0x81000ba0, -1); (0x81002ad8, -1); (0x81001200, 18); (0x81004f00, 79); (0x810046e0, -1); (0x81005138, -1); (0x810000d0, -1); (0x81007ba0, -1);
   (0x81001f80, -1); (0x81000390, -1); (0x81000978, -1); (0x81004a88, -1); (0x810028b0, -1); (0x81006480, -1); (0x81005d60, -1); (0x81003f20, -1); (0x81007460, -1); (0x81007138, -1); (0x81002530, -1); (0x81007210, -1); (0x810003c8, -1); (0x81004638, -1); (0x810054c8, -1); (0x810057d8, -1);
   (0x810078a0, -1); (0x81001290, -1); (0x81000410, -1); (0x810013d0, -1); (0x81000a58, -1); (0x81002580, -1); (0x81007c68, -1); (0x81000290, -1); (0x810036e8, -1); (0x81001400, 20); (0x81005878, -1); (0x81004948, -1); (0x810031e8, -1); (0x81006b58, -1); (0x81007ab8, -1); (0x81003fe0, -1);
   (0x81002418, -1); (0x81005f60, -1); (0x810027e8, -1); (0x810072d8, -1); (0x810058a8, -1); (0x81002468, -1); (0x81003440, -1); (0x810070a8, -1); (0x81005fe8, -1); (0x81000a38, -1); (0x81006970, -1); (0x81006750, -1); (0x81000420, -1); (0x810059e0, -1); (0x81001960, -1); (0x81002f48, -1);
   (0x81005a30, -1); (0x81007790, -1); (0x810038e0, -1); (0x81005028, -1); (0x81000c40, -1); (0x810040d0, -1); (0x81006940, -1); (0x81006140, -1); (0x81002308, -1); (0x810069c8, -1); (0x810079a8, -1); (0x81000718, -1); (0x81005890, -1); (0x810055a8, -1); (0x81006310, -1); (0x81001d68, -1);
   (0x810059a8, -1); (0x81006588, -1); (0x81003188, -1); (0x81001ab0, -1); (0x81004508, -1); (0x810005a0, -1); (0x810000e8, -1); (0x810063f8, -1); (0x810020c8, -1); (0x81004420, -1); (0x81005d88, -1); (0x810058e0, -1); (0x81004aa8, -1); (0x81003040, -1); (0x81002e58, -1); (0x81001ea8, -1);
   (0x81000dd8, -1); (0x810007c8, -1); (0x81006808, -1); (0x81004f30, -1); (0x81007320, -1); (0x81004020, -1); (0x81005f10, -1); (0x81005548, -1); (0x810069c0, -1); (0x81004268, -1); (0x810063a0, -1); (0x810068b8, -1); (0x81006bd8, -1); (0x81001c60, -1); (0x810011a0, -1); (0x81001b88, -1);
   (0x81002888, -1); (0x81006e18, -1); (0x81005260, -1); (0x810034b8, -1); (0x81006e98, -1); (0x81003300, 51); (0x81007990, -1); (0x81005048, -1); (0x81007538, -1); (0x81005900, 89); (0x810067d0, -1); (0x81002b40, -1); (0x81000938, -1); (0x810009f8, -1); (0x81000ac8, -1); (0x81002e68, -1);
   (0x810050c0, -1); (0x81002b50, -1); (0x810005f0, -1); (0x81004360, -1); (0x81003918, -1); (0x810028b8, -1); (0x81006ed8, -1); (0x810013d8, -1); (0x810013a0, -1); (0x810014d8, -1); (0x810015d8, -1); (0x81000348, -1); (0x810070c0, -1); (0x81005ad8, -1); (0x810024d8, -1); (0x81003f68, -1);
   (0x81003870, -1); (0x81005400, 84); (0x81007b38, -1); (0x81005c68, -1); (0x81006d40, -1); (0x81004530, -1); (0x81003320, -1); (0x81001390, -1); (0x81004600, 70); (0x81003c20, -1); (0x81003a98, -1); (0x81004ae0, -1); (0x81004830, -1); (0x81001c90, -1); (0x81006f18, -1); (0x81007d48, -1);
   (0x81002ab8, -1); (0x81005198, -1); (0x81004818, -1); (0x81007820, -1); (0x81000d58, -1); (0x81006d68, -1); (0x810048e0, -1); (0x81004630, -1); (0x810065d8, -1); (0x81004428, -1); (0x81006a30, -1); (0x81007b60, -1); (0x81006c78, -1); (0x81001bc0, -1); (0x810025e0, -1); (0x81005620, -1);
   (0x81001cb0, -1); (0x81006c40, -1); (0x81003cb0, -1); (0x81001378, -1); (0x81002818, -1); (0x810023e0, -1); (0x81007da8, -1); (0x810021b8, -1); (0x810034b0, -1); (0x81001a88, -1); (0x81001448, -1); (0x81007478, -1); (0x81007a38, -1); (0x81004e38, -1); (0x81006908, -1); (0x81005220, -1);
   (0x81007668, -1); (0x81007e70, -1); (0x81001e28, -1); (0x810006b0, -1); (0x810029f8, -1); (0x810064d0, -1); (0x81005580, -1); (0x81001330, -1); (0x810030d8, -1); (0x81003898, -1); (0x81006830, -1); (0x81006880, -1); (0x81003740, -1); (0x810061b0, -1); (0x81006760, -1); (0x810059b8, -1);
   (0x81002c00, 44); (0x81005f00, 95); (0x81002520, -1); (0x81005118, -1); (0x81006690, -1); (0x810040a0, -1); (0x81005db8, -1); (0x81004660, -1); (0x81004e20, -1); (0x81005410, -1); (0x810053a8, -1); (0x81002db8, -1); (0x810021b0, -1); (0x81005968, -1); (0x81007c38, -1); (0x81002d28, -1);
   (0x81007e78, -1); (0x81006360, -1); (0x81001198, -1); (0x81005450, -1); (0x81000948, -1); (0x81003a58, -1); (0x81005560, -1); (0x81001d50, -1); (0x81005378, -1); (0x81003d70, -1); (0x81007938, -1); (0x81007150, -1); (0x81004718, -1); (0x81002a28, -1); (0x810014c0, -1); (0x81002af8, -1);
   (0x81007450, -1); (0x81006818, -1); (0x81006838, -1); (0x81006968, -1); (0x81002c50, -1); (0x81006798, -1); (0x81004088, -1); (0x81005db0, -1); (0x81004b30, -1); (0x81002fb0, -1); (0x810039e8, -1); (0x810072a8, -1); (0x81000918, -1); (0x81004ba0, -1); (0x810054f0, -1); (0x81003928, -1);
   (0x810076c8, -1); (0x810073f0, -1); (0x81002e40, -1); (0x81004378, -1); (0x81005ca0, -1); (0x81001f30, -1); (0x81003978, -1); (0x81003b30, -1); (0x81003360, -1); (0x81007f80, -1); (0x81001150, -1); (0x81005468, -1); (0x810016e8, -1); (0x81006130, -1); (0x81006198, -1); (0x81001e48, -1);
   (0x81007988, -1); (0x81004578, -1); (0x81001940, -1); (0x810036a8, -1); (0x81000c38, -1); (0x81006388, -1); (0x81004558, -1); (0x81000b78, -1); (0x81006b30, -1); (0x810056b0, -1); (0x81006060, -1); (0x810013b0, -1); (0x81003730, -1); (0x81003738, -1); (0x810071e8, -1); (0x81003030, -1);
   (0x81000850, -1); (0x81007580, -1); (0x81004658, -1); (0x81004fc0, -1); (0x810077a0, -1); (0x810077e8, -1); (0x81004598, -1); (0x81003dd8, -1); (0x81005a60, -1); (0x81003b70, -1); (0x81006358, -1); (0x81003720, -1); (0x81007920, -1); (0x81004a10, -1); (0x81007ed8, -1); (0x81007650, -1);
   (0x81006230, -1); (0x81004fd0, -1); (0x810022a0, -1); (0x810064c0, -1); (0x81003df8, -1); (0x81006f00, 111); (0x81005150, -1); (0x81006620, -1); (0x81004900, 73); (0x81002e88, -1); (0x81007a48, -1); (0x810019f0, -1); (0x81004710, -1); (0x81005cc8, -1); (0x81000b28, -1); (0x81005da0, -1);
   (0x81005240, -1); (0x81006748, -1); (0x81005d80, -1); (0x81004860, -1); (0x81006eb0, -1); (0x81005cb0, -1); (0x81004f80, -1); (0x81007568, -1); (0x81000278, -1); (0x81001dc8, -1); (0x81005960, -1); (0x81007928, -1); (0x81005e70, -1); (0x81004850, -1); (0x810009e8, -1); (0x810073f8, -1);
   (0x81004ee8, -1); (0x810057d0, -1); (0x81006758, -1); (0x81000878, -1); (0x81006190, -1); (0x810075a0, -1); (0x810029c0, -1); (0x81003318, -1); (0x81002e18, -1); (0x810029a0, -1); (0x81007b48, -1); (0x81004ed0, -1); (0x81004e80, -1); (0x81000330, -1); (0x810057f0, -1); (0x81006518, -1);
   (0x810008d0, -1); (0x81006118, -1); (0x81005a90, -1); (0x81006c30, -1); (0x81000bb8, -1); (0x810064e8, -1); (0x81000a18, -1); (0x810066a0, -1); (0x810023f0, -1); (0x81000890, -1); (0x81006be8, -1); (0x81002b98, -1); (0x810036e0, -1); (0x81005998, -1); (0x81007738, -1); (0x81005068, -1);
   (0x81006468, -1); (0x810013b8, -1); (0x810049b8, -1); (0x81002690, -1); (0x810011a8, -1); (0x810062f0, -1); (0x810004b8, -1); (0x810016e0, -1); (0x81001230, -1); (0x81002830, -1); (0x81005fc8, -1); (0x81003b00, 59); (0x81006700, 103); (0x810004e0, -1); (0x810015e8, -1); (0x81007628, -1);
   (0x81004160, -1); (0x81005128, -1); (0x81003830, -1); (0x810048a8, -1); (0x81001e10, -1); (0x81002188, -1); (0x81006ee0, -1); (0x81007c08, -1); (0x81007b18, -1); (0x81007700, 119); (0x81002bf8, -1); (0x81002860, -1); (0x81004ff0, -1); (0x81000030, -1); (0x81004c00, 76); (0x81000738, -1);
   (0x81002b18, -1); (0x81005928, -1); (0x810073b8, -1); (0x81000e88, -1); (0x81005840, -1); (0x810069d0, -1); (0x81000220, -1); (0x81000070, -1); (0x81006848, -1); (0x81006400, 100); (0x81005b50, -1); (0x810064a0, -1); (0x81007810, -1); (0x81003298, -1); (0x81001c68, -1); (0x81005ba8, -1);
   (0x81001e90, -1); (0x81005b08, -1); (0x81005c98, -1); (0x81006088, -1); (0x81007200, 114); (0x810041e8, -1); (0x81003428, -1); (0x81003cd0, -1); (0x81003668, -1); (0x810074c0, -1); (0x81004468, -1); (0x81006db0, -1); (0x81003ca8, -1); (0x81004210, -1); (0x81004d00, 77); (0x81001e78, -1);
   (0x81005f20, -1); (0x81004150, -1); (0x81006860, -1); (0x810042d8, -1); (0x810056e0, -1); (0x81003860, -1); (0x810006c8, -1); (0x81002218, -1); (0x81007b90, -1); (0x81007d30, -1); (0x81002f58, -1); (0x810010f8, -1); (0x81004fa8, -1); (0x81000e00, 14); (0x81001ec0, -1); (0x810053c0, -1);
   (0x81001460, -1); (0x81005b38, -1); (0x81004ee0, -1); (0x81003e60, -1); (0x81007800, 120); (0x810069a0, -1); (0x810055f8, -1); (0x81007e08, -1); (0x81005cd8, -1); (0x810027c8, -1); (0x81003fa0, -1); (0x81006410, -1); (0x81000cc8, -1); (0x810064e0, -1); (0x81003060, -1); (0x810032a8, -1);
   (0x810069e8, -1); (0x81005cb8, -1); (0x81002720, -1); (0x810065e0, -1); (0x81000c58, -1); (0x81004740, -1); (0x81006b20, -1); (0x81002c20, -1); (0x810012d8, -1); (0x81005790, -1); (0x810038b8, -1); (0x81002bc0, -1); (0x81004f10, -1); (0x81003c00, 60); (0x81004f40, -1); (0x81001598, -1);
   (0x81007010, -1); (0x81001db8, -1); (0x81004ca8, -1); (0x81005658, -1); (0x810059e8, -1); (0x81007978, -1); (0x81005830, -1); (0x81001d10, -1); (0x81003f48, -1); (0x81001cd8, -1); (0x81004f58, -1); (0x810071c8, -1); (0x81002240, -1); (0x81006f10, -1); (0x81000e18, -1); (0x810056e8, -1);
   (0x81007428, -1); (0x810026a8, -1); (0x81004d78, -1); (0x810077f8, -1); (0x810037c0, -1); (0x81001100, 17); (0x81001860, -1); (0x81007350, -1); (0x81002d70, -1); (0x81004560, -1); (0x81000700, 7); (0x810063e0, -1); (0x810002f8, -1); (0x81003530, -1); (0x81001c08, -1); (0x81000498, -1);
   (0x810036f0, -1); (0x81000148, -1); (0x810005b0, -1); (0x81000ad8, -1); (0x81000798, -1); (0x810006a8, -1); (0x81006d58, -1); (0x81001348, -1); (0x81005700, 87); (0x81000c60, -1); (0x810038a8, -1); (0x81004eb0, -1); (0x81002fc8, -1); (0x81000a28, -1); (0x81004a30, -1); (0x81000250, -1);
   (0x81007018, -1); (0x81002fe0, -1); (0x81002b70, -1); (0x810079c0, -1); (0x81004960, -1); (0x810030d0, -1); (0x81007cf8, -1); (0x81007a80, -1); (0x81006668, -1); (0x81002fd8, -1); (0x81001450, -1); (0x810021e8, -1); (0x81007040, -1); (0x81007340, -1); (0x810004a8, -1); (0x81003bf8, -1);
   (0x81003e18, -1); (0x81007c40, -1); (0x81004ec8, -1); (0x81003c98, -1); (0x81002060, -1); (0x810024e8, -1); (0x81002820, -1); (0x81004250, -1); (0x81007ce8, -1); (0x81007c28, -1); (0x810066c0, -1); (0x81000210, -1); (0x81001090, -1); (0x81004990, -1); (0x810041c0, -1); (0x810071a0, -1);
   (0x81000888, -1); (0x81002df0, -1); (0x810036a0, -1); (0x81003e90, -1); (0x81000650, -1); (0x81004c48, -1); (0x81000398, -1); (0x81003878, -1); (0x810001b8, -1); (0x81001a38, -1); (0x81002498, -1); (0x810070b0, -1); (0x81007718, -1); (0x810014a8, -1); (0x81007620, -1); (0x81003850, -1);
   (0x81006b88, -1); (0x810074e0, -1); (0x810032d8, -1); (0x81004898, -1); (0x81006348, -1); (0x810025e8, -1); (0x81004030, -1); (0x81006af0, -1); (0x81006a98, -1); (0x81003c68, -1); (0x81001018, -1); (0x81006e48, -1); (0x81005370, -1); (0x81002f28, -1); (0x81001af8, -1); (0x81003210, -1);
   (0x81006d50, -1); (0x81002d38, -1); (0x81005480, -1); (0x810070c8, -1); (0x81007a50, -1); (0x810005b8, -1); (0x81005668, -1); (0x81003268, -1); (0x81002a20, -1); (0x81000a08, -1); (0x81005888, -1); (0x810031f8, -1); (0x81006fa8, -1); (0x81000838, -1); (0x81007f18, -1); (0x81003408, -1);
   (0x81005780, -1); (0x810000d8, -1); (0x81002b60, -1); (0x81005f48, -1); (0x81005bb0, -1); (0x81003e88, -1); (0x81004c80, -1); (0x810011e8, -1); (0x81003660, -1); (0x810072e8, -1); (0x81001580, -1); (0x81003dc8, -1); (0x810052c8, -1); (0x81003f40, -1); (0x81000be0, -1); (0x810034d8, -1);
   (0x81005a40, -1); (0x810043e8, -1); (0x810057a0, -1); (0x81006bf0, -1); (0x81001a10, -1); (0x81000d48, -1); (0x81001828, -1); (0x810029d0, -1); (0x81001a70, -1); (0x810076e0, -1); (0x81005908, -1); (0x810072f8, -1); (0x81007728, -1); (0x81004b60, -1); (0x81004518, -1); (0x810041e0, -1);
   (0x810059d8, -1); (0x81005290, -1); (0x81003278, -1); (0x81000880, -1); (0x81002938, -1); (0x81004fe8, -1); (0x81006318, -1); (0x81005488, -1); (0x81003750, -1); (0x81002a70, -1); (0x81006110, -1); (0x810026e0, -1); (0x810050b8, -1); (0x81003cb8, -1); (0x81001800, 24); (0x810049d8, -1);
   (0x81004cb0, -1); (0x810001f0, -1); (0x81003a88, -1); (0x81005078, -1); (0x81002760, -1); (0x81003020, -1); (0x81006c08, -1); (0x81002f68, -1); (0x81003fa8, -1); (0x81001f10, -1); (0x81002e78, -1); (0x810012c0, -1); (0x810043a8, -1); (0x81005f28, -1); (0x81006d18, -1); (0x81002968, -1);
   (0x81000fd0, -1); (0x81007e38, -1); (0x81000908, -1); (0x81006228, -1); (0x81004fd8, -1); (0x81000ce8, -1); (0x810068f0, -1); (0x81000cf0, -1); (0x81000a68, -1); (0x81005880, -1); (0x810075f0, -1); (0x81003420, -1); (0x81006438, -1); (0x81000438, -1); (0x81004a00, 74); (0x81007300, 115);
   (0x81006c68, -1); (0x81000240, -1); (0x810068d0, -1); (0x81005ae8, -1); (0x81002a98, -1); (0x81000cd0, -1); (0x810012e0, -1); (0x81001630, -1); (0x810054c0, -1); (0x81005490, -1); (0x810007e0, -1); (0x81000d18, -1); (0x81002e60, -1); (0x810079a0, -1); (0x81005680, -1); (0x810060f8, -1);
   (0x810062d8, -1); (0x81005498, -1); (0x81005c30, -1); (0x81006448, -1); (0x81006b90, -1); (0x81004120, -1); (0x81007950, -1); (0x81002358, -1); (0x810000b0, -1); (0x810021d0, -1); (0x81004028, -1); (0x81004fe0, -1); (0x81001e18, -1); (0x81006ee8, -1); (0x81001740, -1); (0x81000970, -1);
   (0x81000c50, -1); (0x81003610, -1); (0x81003190, -1); (0x81000ea8, -1); (0x810067f0, -1); (0x81001fc0, -1); (0x81002658, -1); (0x810076b0, -1); (0x81004640, -1); (0x81007770, -1); (0x81003a08, -1); (0x81007008, -1); (0x81005fe0, -1); (0x81005f58, -1); (0x81005188, -1); (0x81007698, -1);
   (0x81006b00, 107); (0x81003ce8, -1); (0x81002ac0, -1); (0x81004f20, -1); (0x810010d0, -1); (0x81002fc0, -1); (0x81001b18, -1); (0x81003998, -1); (0x81007578, -1); (0x810055a0, -1); (0x81006ab0, -1); (0x81006b48, -1); (0x81000488, -1); (0x810071f0, -1); (0x81000bd0, -1); (0x81001c38, -1);
   (0x81004550, -1); (0x81005b48, -1); (0x81007298, -1); (0x81003e98, -1); (0x81000648, -1); (0x810007a8, -1); (0x81005a88, -1); (0x81001ec8, -1); (0x81007ff8, -1); (0x81002868, -1); (0x81004218, -1); (0x810015b0, -1); (0x81007d10, -1); (0x810046f8, -1); (0x81002b10, -1); (0x81006d10, -1);
   (0x81001d98, -1); (0x81002810, -1); (0x81006218, -1); (0x81007370, -1); (0x810019c8, -1); (0x81000138, -1); (0x81000848, -1); (0x81007e58, -1); (0x81002ea0, -1); (0x81001778, -1); (0x810043c0, -1); (0x81005c50, -1); (0x810027b8, -1); (0x81001318, -1); (0x810048c8, -1); (0x81001078, -1);
   (0x81003f50, -1); (0x81003cc8, -1); (0x81000778, -1); (0x810074d0, -1); (0x81007fb0, -1); (0x810078d8, -1); (0x810003d0, -1); (0x81000670, -1); (0x81006eb8, -1); (0x81007a70, -1); (0x810020d0, -1); (0x81000c48, -1); (0x81001498, -1); (0x81006220, -1); (0x810059b0, -1); (0x81005160, -1);
   (0x810020f0, -1); (0x81003a90, -1); (0x81001188, -1); (0x810073d0, -1); (0x81000388, -1); (0x810079d8, -1); (0x81004520, -1); (0x81004bd8, -1); (0x810002e8, -1); (0x81004c50, -1); (0x810076e8, -1); (0x81003e78, -1); (0x81001f68, -1); (0x810075d0, -1); (0x81005630, -1); (0x810068a0, -1);
   (0x81002a78, -1); (0x810068c8, -1); (0x810036c0, -1); (0x81006e88, -1); (0x81005868, -1); (0x810062b0, -1); (0x81000eb0, -1); (0x81003ad8, -1); (0x810054f8, -1); (0x81005470, -1); (0x81001560, -1); (0x81001428, -1); (0x81001028, -1); (0x810013c0, -1); (0x810006b8, -1); (0x81000aa0, -1);
   (0x81004220, -1); (0x810050d0, -1); (0x81007788, -1); (0x81006fd0, -1); (0x81006e78, -1); (0x810044c8, -1); (0x81000078, -1); (0x81000208, -1); (0x81003160, -1); (0x81000d60, -1); (0x81001980, -1); (0x81001a90, -1); (0x810035c8, -1); (0x810020b8, -1); (0x81004440, -1); (0x81005518, -1);
   (0x81000f50, -1); (0x81001b50, -1); (0x81007448, -1); (0x810079f8, -1); (0x81005dc0, -1); (0x810035e0, -1); (0x81003e68, -1); (0x81005b10, -1); (0x81004f48, -1); (0x81006ea8, -1); (0x810020e8, -1); (0x81004650, -1); (0x81003820, -1); (0x81005678, -1); (0x81007828, -1); (0x81003480, -1);
   (0x81001bd8, -1); (0x81004838, -1); (0x81004260, -1); (0x81003aa0, -1); (0x81001ef8, -1); (0x81003fc0, -1); (0x81004a38, -1); (0x810035d0, -1); (0x81005f90, -1); (0x81005bd0, -1); (0x81007360, -1); (0x810037f0, -1); (0x81007b10, -1); (0x810049f8, -1); (0x81001728, -1); (0x81007468, -1);
   (0x810074c8, -1); (0x810032c0, -1); (0x81007d38, -1); (0x810075f8, -1); (0x81006540, -1); (0x81001a30, -1); (0x81003d58, -1); (0x81002878, -1); (0x810037e8, -1); (0x81003620, -1); (0x81000690, -1); (0x81002160, -1); (0x81006688, -1); (0x81000698, -1); (0x81002268, -1); (0x810076f8, -1);
   (0x81001730, -1); (0x81006c10, -1); (0x81000d98, -1); (0x81005690, -1); (0x810042c8, -1); (0x81006ab8, -1); (0x810053d0, -1); (0x81006990, -1); (0x810062c8, -1); (0x81001320, -1); (0x81003d90, -1); (0x810008d8, -1); (0x810078c0, -1); (0x810062f8, -1); (0x81000830, -1); (0x81007488, -1);
   (0x81001b70, -1); (0x81002898, -1); (0x81000cb0, -1); (0x81001d78, -1); (0x81002940, -1); (0x81002fe8, -1); (0x810063a8, -1); (0x81006ac8, -1); (0x81006fc8, -1); (0x810006d8, -1); (0x81006550, -1); (0x81002700, 39); (0x81004610, -1); (0x810017a0, -1); (0x81001fb8, -1); (0x81007388, -1);
   (0x81006280, -1); (0x81004670, -1); (0x81002cb0, -1); (0x81006ef8, -1); (0x81005b58, -1); (0x81007028, -1); (0x81003b10, -1); (0x81001128, -1); (0x810031a8, -1); (0x81001358, -1); (0x81001578, -1); (0x81002128, -1); (0x81003810, -1); (0x81005728, -1); (0x81007438, -1); (0x810042d0, -1);
   (0x81000258, -1); (0x81003018, -1); (0x810019b8, -1); (0x81006fb0, -1); (0x81003900, 57); (0x81007e28, -1); (0x81001f90, -1); (0x810050e8, -1); (0x81003688, -1); (0x810009d0, -1); (0x81005740, -1); (0x810056d8, -1); (0x81005d40, -1); (0x81000aa8, -1); (0x810009f0, -1); (0x81005248, -1);
   (0x810033c8, -1); (0x81005ad0, -1); (0x81004980, -1); (0x81006ae0, -1); (0x81007b28, -1); (0x81001950, -1); (0x81003240, -1); (0x81001ea0, -1); (0x81002d00, 45); (0x810077c0, -1); (0x810058a0, -1); (0x81001ad0, -1); (0x810040a8, -1); (0x81002900, 41); (0x81001350, -1); (0x81000a10, -1);
   (0x81003238, -1); (0x81007958, -1); (0x81004920, -1); (0x81001a20, -1); (0x81006b10, -1); (0x81001958, -1); (0x81001540, -1); (0x81002840, -1); (0x81001a98, -1); (0x81000660, -1); (0x81004588, -1); (0x81000988, -1); (0x81001048, -1); (0x810072c0, -1); (0x81002568, -1); (0x81005c28, -1);
   (0x810037c8, -1); (0x81001fa8, -1); (0x81002540, -1); (0x810050a0, -1); (0x81007a30, -1); (0x81001c20, -1); (0x81002a38, -1); (0x81001140, -1); (0x81003ef0, -1); (0x81000228, -1); (0x81007240, -1); (0x81003930, -1); (0x81000100, 1); (0x81000518, -1); (0x810075b8, -1); (0x81000ee0, -1);
   (0x81003290, -1); (0x810072e0, -1); (0x810048d0, -1); (0x81000e78, -1); (0x81005e58, -1); (0x81006a18, -1); (0x81004540, -1); (0x81003cc0, -1); (0x810001a0, -1); (0x81002400, 36); (0x81000950, -1); (0x81000728, -1); (0x81007a00, 122); (0x81000a80, -1); (0x81004ea8, -1); (0x810048f0, -1);
   (0x810011f8, -1); (0x81007bf8, -1); (0x81006648, -1); (0x81006730, -1); (0x81005f50, -1); (0x810078b0, -1); (0x810011c8, -1); (0x81006be0, -1); (0x81006080, -1); (0x81006cd0, -1); (0x81006f48, -1); (0x81006a88, -1); (0x81007d68, -1); (0x810078a8, -1); (0x81004298, -1); (0x81006138, -1);
   (0x81002b88, -1); (0x81003b80, -1); (0x81002480, -1); (0x81001c48, -1); (0x81002318, -1); (0x81001be0, -1); (0x810069f0, -1); (0x81006418, -1); (0x81003c88, -1); (0x81004ac8, -1); (0x810058f0, -1); (0x81006900, 105); (0x810044a8, -1); (0x81002650, -1); (0x81006258, -1); (0x81007f88, -1);
   (0x81003818, -1); (0x810046a0, -1); (0x81002258, -1); (0x81005f98, -1); (0x81000730, -1); (0x810007d0, -1); (0x81000530, -1); (0x81004a28, -1); (0x81002dd0, -1); (0x81002bf0, -1); (0x81005440, -1); (0x81002220, -1); (0x81006cc8, -1); (0x810043a0, -1); (0x81007968, -1); (0x81007c20, -1);
   (0x81001c70, -1); (0x81005d00, 93); (0x810052e8, -1); (0x81000d28, -1); (0x810012c8, -1); (0x81007970, -1); (0x81004870, -1); (0x81005018, -1); (0x81004d30, -1); (0x81000040, -1); (0x81006610, -1); (0x81006a28, -1); (0x81003038, -1); (0x81002850, -1); (0x81003478, -1); (0x81002c58, -1);
   (0x81002d88, -1); (0x81001a48, -1); (0x81004df8, -1); (0x81001da8, -1); (0x81001738, -1); (0x810023b8, -1); (0x810071b0, -1); (0x81005948, -1); (0x810010b0, -1); (0x81003950, -1); (0x81006c28, -1); (0x81007570, -1); (0x81006e20, -1); (0x81005d18, -1); (0x81007a78, -1); (0x81006f70, -1);
   (0x81007fe0, -1); (0x81001420, -1); (0x81000f80, -1); (0x81001138, -1); (0x810022d0, -1); (0x81001a80, -1); (0x810075d8, -1); (0x81002ab0, -1); (0x810067f8, -1); (0x81003f78, -1); (0x81003728, -1); (0x810060d0, -1); (0x810001d8, -1); (0x81001ac0, -1); (0x81007e98, -1); (0x81007380, -1);
   (0x81005588, -1); (0x810077d0, -1); (0x81004620, -1); (0x810001b0, -1); (0x81002ef8, -1); (0x81005f88, -1); (0x81007868, -1); (0x81001038, -1); (0x81003ab8, -1); (0x81001f18, -1); (0x81002550, -1); (0x810024c0, -1); (0x810058c0, -1); (0x81001770, -1); (0x810010c8, -1); (0x81005988, -1);
   (0x81004c88, -1); (0x810021e0, -1); (0x81005e88, -1); (0x810053c8, -1); (0x810079e0, -1); (0x81000e28, -1); (0x81005788, -1); (0x81004db0, -1); (0x81007c88, -1); (0x810026d0, -1); (0x81001228, -1); (0x81002828, -1); (0x81004858, -1); (0x81007ff0, -1); (0x81003580, -1); (0x81003eb0, -1);
   (0x81005a70, -1); (0x810072b8, -1); (0x81006530, -1); (0x81000510, -1); (0x81006c50, -1); (0x81003fd8, -1); (0x81002d30, -1); (0x81007708, -1); (0x81004cb8, -1); (0x81000248, -1); (0x81001408, -1); (0x81006520, -1); (0x81000960, -1); (0x81001440, -1); (0x810055b8, -1); (0x81000000, 0)].
