(* ===== verification/Network.v ===== *)
(** * The network tests

    [network_test_pointer_chasing], [network_test_pointer_chasing2] and [network_test_bandwidth]
    only read: every tile walks a list, or sums up an array, in DRAM.
    [network_test_all_to_all] has every tile write to every data memory, and
    [network_test_all_to_cache] to DRAM, between hardware barriers.  The hardware barrier is the
    barrier of [Spmd]; the tile with id 0 first computes its configuration with
    [bsg_hw_barrier_config_init]. *)

From stdpp Require Import sorting.
From S2P Require Import Prelude Lts Arch Eva Console Spmd SpmdLogic HwBarrier ChaseData.
Local Open Scope Z_scope.

(** ** The programs *)

Section network.
Variable c : config.
Variable data : Z.

(** The end of the tests: the tile with id 0 reports, the others spin. *)
Definition report (id : Z) (p : prog) : prog := if id =? 0 then p else Done.

(** *** [network_test_pointer_chasing] *)

Definition chase_N : Z := 1024.

(** [while (curr_idx != 0)]; a walk that is not back after [fuel] steps is a program that [safe]
    rejects. *)
Fixpoint chase_loop (fuel : nat) (curr_idx count sum : Z) (k : Z -> Z -> prog) : prog :=
  match fuel with
  | O => Wait Done
  | S fuel =>
      if negb (curr_idx =? 0) then
        Load (elem data curr_idx) (fun next =>
        chase_loop fuel next (count +i 1)%c (sum +i next)%c k)
      else k count sum
  end.

Definition stat_if_origin (id stat : Z) (k : prog) : prog :=
  if id =? 0 then Send (PrintStat stat) k else k.

Definition chase_main (t : Z * Z) : prog :=
  let id := tile_id c t in
  stat_if_origin id 0
  (Load (elem data 0) (fun curr_idx =>
  chase_loop (Z.to_nat chase_N) curr_idx 1 curr_idx (fun count sum =>
  if negb (count =? chase_N) then fail
  else if negb (sum =? 523776) then fail
  else Sync (report id (Send (PrintStat 1) finish))))).

(** *** [network_test_pointer_chasing2] *)

Definition chase2_N : Z := 4096.

(** A node at [p]: [p->next] (a word that holds a pointer) and [p->key]. *)
Definition node_next (p : Z) : loc := Dram (u32 p).
Definition node_key (p : Z) : loc := Dram (u32 (p + 4)).

(** [do ... while ((key1 != my_id) && (key2 != my_id));]. *)
Fixpoint chase2_loop (fuel : nat) (my_id ptr : Z) (k : prog) : prog :=
  match fuel with
  | O => Wait Done
  | S fuel =>
      Load (node_next ptr) (fun next => let next := u32 next in
      Load (node_key ptr) (fun key1 =>
      Load (node_key next) (fun key2 =>
      Load (node_next next) (fun ptr => let ptr := u32 ptr in
      if negb (key1 =? my_id) && negb (key2 =? my_id) then chase2_loop fuel my_id ptr k else k))))
  end.

(** [&data[(my_id*(N/NUM_TILES))%N]]. *)
Definition chase2_start (id : Z) : Z :=
  u32 (data + 8 * Z.rem (id *i Z.quot chase2_N (bsg_tiles_X c *i bsg_tiles_Y c))%c chase2_N).

Definition chase2_main (t : Z * Z) : prog :=
  let id := tile_id c t in
  stat_if_origin id 0
  (chase2_loop (Z.to_nat (chase2_N / 2)) id (chase2_start id)
  (Sync (report id (Send (PrintStat 1) finish)))).

(** *** [network_test_bandwidth] *)

Definition bandwidth_N : Z := 1024.

(** [data0 + data1 + ... + data7]. *)
Definition sum8 (ds : list Z) : Z :=
  match ds with d :: ds => fold_left (fun a b => (a +i b)%c) ds d | [] => 0 end.

Definition bandwidth_idx (curr_idx i : Z) : Z := Z.rem (curr_idx +i 8 * i)%c bandwidth_N.

Definition bandwidth_main (t : Z * Z) : prog :=
  let id := tile_id c t in
  let curr_idx := (id *i 8)%c in
  fold_ (range 0 (Z.quot bandwidth_N 8)) (fun i sum k =>
    load_list ((fun j => elem data (bandwidth_idx curr_idx i + j)) <$> seqZ 0 8) (fun ds =>
    k (sum +i sum8 ds)%c)) 0 (fun sum =>
  if negb (sum =? 523776) then fail
  else Sync (report id finish)).

(** *** [network_test_all_to_all] and [network_test_all_to_cache] *)

Variable u : eva_unit.
Variable ruche : Z.        (* BARRIER_RUCHE_FACTOR_X *)
Variable barcfg : Z.

(** [bsg_hw_barrier_config_init(barcfg, bsg_tiles_X, bsg_tiles_Y);]. *)
Definition store_barcfg (k : prog) : prog :=
  for_ (grid 0 (bsg_tiles_X c) 0 (bsg_tiles_Y c)) (fun xy k =>
    Store (elem barcfg (xy.1 + xy.2 * bsg_tiles_X c))
      (config_val ruche (bsg_tiles_X c) (bsg_tiles_Y c) xy.1 xy.2) k) k.

(** The common start: configure the barrier network, join the [amoadd] barrier, read the own
    configuration word into the CSR, and join the hardware barrier. *)
Definition setup_hw_barrier (id : Z) (k : prog) : prog :=
  let configure := Sync (Load (elem barcfg id) (fun _ => Sync k)) in
  if id =? 0 then store_barcfg configure else configure.

(** Word [i] of [data] in tile (x,y), through a remote pointer, and in the tile's own memory. *)
Definition remote_word (x y i : Z) : loc := deref u (bsg_remote_ptr x y (u32 (data + 4 * i))).
Definition local_word (t : Z * Z) (i : Z) : loc :=
  Dmem (pod_x u * 2 ^ x_subcord_width u + (tgo_x u + t.1))
       (pod_y u * 2 ^ y_subcord_width u + (tgo_y u + t.2)) (data + 4 * i).

Definition all_to_all_main (t : Z * Z) : prog :=
  let id := tile_id c t in
  setup_hw_barrier id
  (for_ (range 0 (bsg_tiles_X c)) (fun x k => for_ (range 0 (bsg_tiles_Y c)) (fun y k =>
     Store (remote_word x y id) id k) k)
  (Sync
  (for_ (range 0 id) (fun i k => check (local_word t i) i k)
  (Sync
  (report id finish))))).

Definition all_to_cache_M : Z := 64.

Definition cache_idx (id i : Z) : Z := ((bsg_tiles_X c *i bsg_tiles_Y c) *i i +i id)%c.

Definition all_to_cache_main (t : Z * Z) : prog :=
  let id := tile_id c t in
  setup_hw_barrier id
  (for_ (range 0 all_to_cache_M) (fun i k =>
     Store (elem data (cache_idx id i)) (cache_idx id i) k)
  (Sync
  (report id
    (for_ (range 0 (bsg_tiles_X c *i bsg_tiles_Y c *i all_to_cache_M)%c) (fun i k =>
       check (elem data i) i k) finish)))).
End network.

(** ** Plans for programs without sums *)

(** Memory that nobody writes. *)
Definition read_plan {Tid} (m0 : loc -> Z) (last : nat) (finishers : Tid -> Prop) : plan Tid :=
  {| roles := fun _ _ => Fixed; contents := fun _ => m0; share := fun _ _ => no_adds;
     last_phase := last; post := reports finishers |}.

Lemma read_plan_ok {Tid} (tiles : list Tid) m0 last finishers :
  plan_ok tiles (read_plan m0 last finishers).
Proof. intros n a. done. Qed.

Lemma read_sync {Tid} m0 last (finishers : Tid -> Prop) n t k m o :
  safely (read_plan m0 last finishers) (S n) t k m0 o ->
  safely (read_plan m0 last finishers) n t (Sync k) m o.
Proof. intros Hk. by apply safely_sync. Qed.

(** The end: the tile with id 0 reports. *)
Lemma report_safe c pl n t p m o : wf_config c ->
  post pl = reports (.= (0, 0)) -> n = last_phase pl -> t ∈ group_tiles c -> Failed ∉ o ->
  safely pl n (0, 0) p m o -> safely pl n t (report (tile_id c t) p) m o.
Proof.
  intros wf Hpost Hn Ht Ho Hk. unfold report. destruct (Z.eqb_spec (tile_id c t) 0) as [E|E].
  - assert (t = (0, 0)) as ->; [|done].
    apply (tile_id_inj c wf); [done|by apply origin_in_group|].
    rewrite E. unfold tile_id, bsg_x_y_to_id. simpl. lia.
  - apply (safely_spin _ (.= (0, 0))); [done|done|done|]. intros ->. apply E.
    unfold tile_id, bsg_x_y_to_id. simpl. lia.
Qed.

Lemma stat_safe {Tid} (pl : plan Tid) n t id stat k m o :
  Failed ∉ o -> (forall o', Failed ∉ o' -> safely pl n t k m o') ->
  safely pl n t (stat_if_origin id stat k) m o.
Proof.
  intros Ho Hk. unfold stat_if_origin. destruct (id =? 0); [|by apply Hk].
  apply safely_send, Hk. rewrite elem_of_app, list_elem_of_singleton. by intros [|].
Qed.

(** ** The tests that only read *)

Section reading.
Variable c : config.
Variable m0 : loc -> Z.
Hypothesis wf : wf_config c.
#[local] Abbreviation pl := (read_plan m0 1 (.= ((0, 0) : Z * Z))).

Lemma finish_with_stat_safe t o : t ∈ group_tiles c -> Failed ∉ o ->
  safely pl 1 t (report (tile_id c t) (Send (PrintStat 1) finish)) m0 o.
Proof using wf.
  intros Ht Ho. apply report_safe; [done..|]. apply safely_send, safely_finish with (.= (0, 0));
    [done|done|]. rewrite elem_of_app, list_elem_of_singleton. by intros [|].
Qed.

(** An array in memory. *)
Definition holds (data : Z) (l : list Z) : Prop :=
  forall i v, 0 <= i -> l !! Z.to_nat i = Some v -> m0 (elem data i) = v.

(** *** The walk of [network_test_pointer_chasing] *)

Fixpoint chase_result (fuel : nat) (curr_idx count sum : Z) : option (Z * Z) :=
  match fuel with
  | O => None
  | S fuel =>
      if negb (curr_idx =? 0) then
        if 0 <=? curr_idx then
          next ← chase_data !! Z.to_nat curr_idx;
          chase_result fuel next (i32 (count + 1)) (i32 (sum + next))
        else None
      else Some (count, sum)
  end.

Lemma chase_loop_safe data t fuel curr count sum count' sum' k o :
  holds data chase_data -> chase_result fuel curr count sum = Some (count', sum') ->
  safely pl 0 t (k count' sum') m0 o ->
  safely pl 0 t (chase_loop data fuel curr count sum k) m0 o.
Proof.
  intros Hd. revert curr count sum. induction fuel as [|fuel IH]; intros curr count sum E Hk; [done|].
  simpl in *. destruct (negb (curr =? 0)).
  - destruct (Z.leb_spec 0 curr); [|done]. destruct (chase_data !! _) as [next|] eqn:En; [|done].
    apply safely_load; [by left|]. rewrite (Hd curr next) by done. by apply IH.
  - by injection E as -> ->.
Qed.

Lemma chase_safe data t : holds data chase_data -> t ∈ group_tiles c ->
  safely pl 0 t (chase_main c data t) m0 [].
Proof using wf.
  intros Hd Ht. unfold chase_main. cbv zeta.
  apply stat_safe; [apply not_elem_of_nil|]. intros o Ho. apply safely_load; [by left|].
  rewrite (Hd 0 778) by done.
  apply (chase_loop_safe _ _ _ _ _ _ 1024 523776); [done|vm_compute; reflexivity|].
  change (negb (1024 =? chase_N)) with false. cbv iota. rewrite Z.eqb_refl. simpl negb. cbv iota.
  apply read_sync. by apply finish_with_stat_safe.
Qed.

(** *** [network_test_bandwidth] *)

Definition block_sum (b : Z) : Z :=
  sum8 ((fun j => default 0 (bandwidth_data !! Z.to_nat (8 * b + j))) <$> seqZ 0 8).

(** The sum after the iterations [l], starting at block [r]. *)
Definition partial_sum (r : Z) (l : list Z) : Z :=
  fold_left (fun s i => i32 (s + block_sum ((r + i) mod 128))) l 0.

Lemma partial_sum_snoc r l i :
  partial_sum r (l ++ [i]) = i32 (partial_sum r l + block_sum ((r + i) mod 128)).
Proof. unfold partial_sum. by rewrite fold_left_app. Qed.

Lemma partial_sum_eq r l :
  partial_sum r l = i32 (sum_over (fun i => block_sum ((r + i) mod 128)) l).
Proof.
  induction l as [|i l IH] using rev_ind; [done|].
  rewrite partial_sum_snoc, IH, i32_add_l, sum_over_app. cbn [sum_over]. by rewrite Z.add_0_r.
Qed.

Lemma rotated_sum_eq r : 0 <= r < 128 -> partial_sum r (range 0 128) = 523776.
Proof.
  intros Hr. rewrite partial_sum_eq. unfold range. rewrite sum_over_rotate by lia.
  vm_compute. reflexivity.
Qed.

Lemma bandwidth_length : length bandwidth_data = 1024%nat.
Proof. vm_compute. reflexivity. Qed.

#[local] Opaque bandwidth_data sum8.

Lemma bandwidth_idx_eq id i : 0 <= id < 2048 -> 0 <= i < 128 ->
  bandwidth_idx (i32 (id * 8)) i = 8 * ((id mod 128 + i) mod 128).
Proof.
  intros Hid Hi. unfold bandwidth_idx, bandwidth_N.
  rewrite (i32_id (id * 8)), i32_id by (unfold is_i32; lia). Z.to_euclidean_division_equations. lia.
Qed.

(** One iteration: eight loads. *)
Lemma block_safe data t idx b k o : holds data bandwidth_data -> 0 <= b < 128 -> idx = 8 * b ->
  safely pl 0 t (k (block_sum b)) m0 o ->
  safely pl 0 t (load_list ((fun j => elem data (idx + j)) <$> seqZ 0 8) (fun ds => k (sum8 ds))) m0 o.
Proof.
  intros Hd Hb -> Hk. apply safely_load_list; [by left|]. rewrite <-list_fmap_compose. unfold compose.
  rewrite (list_fmap_ext _ (fun j => default 0 (bandwidth_data !! Z.to_nat (8 * b + j))));
    [unfold block_sum in Hk; exact Hk|]. intros i' j Hj. apply lookup_seqZ in Hj.
  destruct (bandwidth_data !! Z.to_nat (8 * b + j)) as [v|] eqn:Ev; [apply Hd; [lia|done]|].
  apply lookup_ge_None in Ev. rewrite bandwidth_length in Ev. lia.
Qed.

Lemma bandwidth_safe data t : holds data bandwidth_data -> t ∈ group_tiles c ->
  safely pl 0 t (bandwidth_main c data t) m0 [].
Proof using wf.
  intros Hd Ht. unfold bandwidth_main. cbv zeta.
  assert (Z.quot bandwidth_N 8 = 128) as -> by done.
  assert (0 <= tile_id c t < 2048) as Hid.
  { pose proof (tile_id_range c wf t Ht). destruct wf as (? & ? & _). unfold bsg_num_tiles in *. nia. }
  pose proof (Z.mod_pos_bound (tile_id c t) 128 ltac:(lia)) as Hr.
  apply (safely_fold _ _ _ _ _ _ _ _ _ (fun done sum m o => m = m0 /\ o = [] /\
    sum = partial_sum (tile_id c t mod 128) done)).
  - done.
  - intros done i rest sum m o kk E (-> & -> & ->) Hkk.
    assert (0 <= i < 128) as Hi.
    { apply elem_of_range. rewrite E. apply elem_of_app. right. by left. }
    apply (block_safe data t _ ((tile_id c t mod 128 + i) mod 128)
      (fun s => kk (i32 (partial_sum (tile_id c t mod 128) done + s))));
      [done|apply Z.mod_pos_bound; lia|by apply bandwidth_idx_eq|].
    apply Hkk. split; [done|]. split; [done|]. by rewrite partial_sum_snoc.
  - intros sum m o (-> & -> & ->).
    rewrite rotated_sum_eq, Z.eqb_refl by done. simpl negb. cbv iota. apply read_sync.
    apply report_safe; [done|done|done|done|apply not_elem_of_nil|].
    apply safely_finish with (.= (0, 0)); [done|done|apply not_elem_of_nil].
Qed.
End reading.

(** *** The walk of [network_test_pointer_chasing2] *)

Definition dram_base : Z := 0x81000000.

Definition node (i : Z) : Z * Z := default (0, 0) (chase2_nodes !! Z.to_nat i).

(** The nodes in the order of the list, from node 0. *)
Fixpoint walk_from (n : nat) (i : Z) : list Z :=
  match n with O => [] | S n => i :: walk_from n (((node i).1 - dram_base) / 8) end.

Definition walk : list Z := Eval vm_compute in walk_from 4096 0.

(** Node number [p] of the walk, which goes round. *)
Definition at_step (p : Z) : Z := default 0 (walk !! Z.to_nat (p mod 4096)).

(** The walk passes every node once and comes back, and every key below 128 is on some node. *)
Lemma walk_links :
  forallb (fun ab => ((node ab.1).1 =? dram_base + 8 * ab.2) && (0 <=? ab.1) && (ab.1 <? 4096))
    (zip walk (tail walk ++ [0])) = true.
Proof. vm_compute. reflexivity. Qed.

Lemma walk_length : length walk = 4096%nat.
Proof. vm_compute. reflexivity. Qed.

Lemma walk_sorts : merge_sort Z.le walk = seqZ 0 4096.
Proof. vm_compute. reflexivity. Qed.

Lemma keys_present :
  let keys := snd <$> chase2_nodes in forallb (fun id => existsb (Z.eqb id) keys) (seqZ 0 128) = true.
Proof. vm_compute. reflexivity. Qed.

#[local] Opaque walk chase2_nodes.

Lemma at_step_lookup p : walk !! Z.to_nat (p mod 4096) = Some (at_step p).
Proof.
  unfold at_step. pose proof (Z.mod_pos_bound p 4096 ltac:(lia)).
  destruct (lookup_lt_is_Some_2 walk (Z.to_nat (p mod 4096))) as [i ->]; [|done].
  rewrite walk_length. lia.
Qed.

(** What follows a node of the walk. *)
Lemma at_step_next p : (node (at_step p)).1 = dram_base + 8 * at_step (p + 1) /\
  0 <= at_step p < 4096.
Proof.
  pose proof (Z.mod_pos_bound p 4096 ltac:(lia)) as Hp.
  assert ((at_step p, at_step (p + 1)) ∈ zip walk (tail walk ++ [0])) as Hin.
  { apply list_elem_of_lookup. exists (Z.to_nat (p mod 4096)). apply lookup_zip_Some.
    split; [apply at_step_lookup|].
    assert (length (tail walk) = 4095%nat) as Hl by (vm_compute; reflexivity).
    destruct (decide (p mod 4096 = 4095)) as [E|E].
    - rewrite lookup_app_r, Hl by lia. assert ((p + 1) mod 4096 = 0) as E'
        by (Z.to_euclidean_division_equations; lia).
      pose proof (at_step_lookup (p + 1)) as H. rewrite E' in H. rewrite E.
      assert (walk !! 0%nat = Some 0) as H0 by (vm_compute; reflexivity).
      change (Z.to_nat 0) with 0%nat in H. rewrite H0 in H. rewrite <-H. reflexivity.
    - rewrite lookup_app_l, lookup_tail by lia. assert ((p + 1) mod 4096 = p mod 4096 + 1) as E'
        by (Z.to_euclidean_division_equations; lia).
      rewrite <-(at_step_lookup (p + 1)), E'. f_equal. lia. }
  pose proof walk_links as H. rewrite forallb_elem in H. apply H in Hin. cbn [fst snd] in Hin.
  bprop. lia.
Qed.

Lemma walk_onto i : 0 <= i < 4096 -> exists p, 0 <= p < 4096 /\ at_step p = i.
Proof.
  intros Hi. assert (i ∈ walk) as [k Hk]%list_elem_of_lookup.
  { rewrite <-(merge_sort_Permutation Z.le walk), walk_sorts, elem_of_seqZ. lia. }
  pose proof (lookup_lt_Some _ _ _ Hk) as Hlen. rewrite walk_length in Hlen.
  exists (Z.of_nat k). split; [lia|]. unfold at_step. rewrite Z.mod_small by lia.
  by rewrite Nat2Z.id, Hk.
Qed.

Lemma nodes_length : length chase2_nodes = 4096%nat.
Proof. vm_compute. reflexivity. Qed.

(** The node with a key. *)
Lemma key_node id : 0 <= id < 128 -> exists q, 0 <= q < 4096 /\ (node (at_step q)).2 = id.
Proof.
  intros Hid. pose proof keys_present as H. cbv zeta in H. rewrite forallb_elem in H.
  specialize (H id). rewrite elem_of_seqZ in H. specialize (H ltac:(lia)).
  apply existsb_exists in H as (k & Hk & E). apply Z.eqb_eq in E as <-.
  apply list_elem_of_In, list_elem_of_fmap in Hk as (nd & -> & Hnd).
  apply list_elem_of_lookup in Hnd as [i Hi]. pose proof (lookup_lt_Some _ _ _ Hi) as Hlen.
  rewrite nodes_length in Hlen. destruct (walk_onto (Z.of_nat i)) as (q & Hq & E); [lia|].
  exists q. split; [done|]. unfold node. by rewrite E, Nat2Z.id, Hi.
Qed.

Section walking.
Variable c : config.
Variable m0 : loc -> Z.
Hypothesis wf : wf_config c.
#[local] Abbreviation pl := (read_plan m0 1 (.= ((0, 0) : Z * Z))).

(** The nodes in memory, from the start of the DRAM section. *)
Definition holds_nodes : Prop :=
  forall i, 0 <= i < 4096 ->
    m0 (node_next (dram_base + 8 * i)) = i32 (node i).1 /\
    m0 (node_key (dram_base + 8 * i)) = (node i).2.
Hypothesis Hn : holds_nodes.

Lemma loaded_next p : u32 (m0 (node_next (dram_base + 8 * at_step p))) =
  dram_base + 8 * at_step (p + 1).
Proof using Hn.
  destruct (at_step_next p) as [E H]. destruct (at_step_next (p + 1)) as [_ H'].
  destruct (Hn _ H) as [-> _]. rewrite u32_i32, E. apply u32_id. unfold is_u32, dram_base. lia.
Qed.

(** Two steps per iteration, until one of the two nodes has the key. *)
Lemma chase2_loop_safe t id fuel p k o :
  (exists j, 0 <= j < 2 * Z.of_nat fuel /\ (node (at_step (p + j))).2 = id) ->
  safely pl 0 t k m0 o ->
  safely pl 0 t (chase2_loop fuel id (dram_base + 8 * at_step p) k) m0 o.
Proof using Hn.
  revert p. induction fuel as [|fuel IH]; intros p (j & Hj & Ej) Hk; [lia|]. cbn [chase2_loop].
  do 4 (apply safely_load; [by left|]). cbv zeta. rewrite !loaded_next, <-Z.add_assoc.
  destruct (Hn (at_step p)) as [_ ->]; [apply at_step_next|].
  destruct (Hn (at_step (p + 1))) as [_ ->]; [apply at_step_next|].
  destruct (Z.eqb_spec (node (at_step p)).2 id) as [|N1]; [done|].
  destruct (Z.eqb_spec (node (at_step (p + 1))).2 id) as [|N2]; [done|]. simpl andb. cbv iota.
  apply IH; [|done]. exists (j - 2).
  assert (j <> 0) by (intros ->; by rewrite Z.add_0_r in Ej). assert (j <> 1) by (by intros ->).
  split; [lia|]. by replace (_ + (j - 2)) with (p + j) by lia.
Qed.

Lemma at_step_period p j : at_step (p + 4096 * j) = at_step p.
Proof. unfold at_step. by rewrite (Z.mul_comm 4096), Z.mod_add by lia. Qed.

(** From any node, any key is at most 4095 nodes away. *)
Lemma key_ahead id p : 0 <= id < 128 ->
  exists j, 0 <= j < 4096 /\ (node (at_step (p + j))).2 = id.
Proof.
  intros Hid. destruct (key_node id Hid) as (q & Hq & E). exists ((q - p) mod 4096).
  split; [by apply Z.mod_pos_bound|]. pose proof (Z.div_mod (q - p) 4096 ltac:(lia)) as Ed.
  replace (p + (q - p) mod 4096) with (q + 4096 * (- ((q - p) / 4096))) by lia.
  by rewrite at_step_period.
Qed.

Lemma chase2_safe t : bsg_num_tiles c <= 128 -> t ∈ group_tiles c ->
  safely pl 0 t (chase2_main c dram_base t) m0 [].
Proof using wf Hn.
  intros H128 Ht. unfold chase2_main. cbv zeta.
  pose proof (tile_id_range c wf t Ht) as Hid. unfold bsg_num_tiles in *.
  apply stat_safe; [apply not_elem_of_nil|]. intros o Ho.
  assert (exists p, chase2_start c dram_base (tile_id c t) = dram_base + 8 * at_step p) as [p ->].
  { unfold chase2_start, chase2_N. set (s := Z.rem _ _).
    assert (0 <= s < 4096) as Hs.
    { apply Z.rem_bound_pos; [|lia]. destruct wf as (? & ? & _).
      set (n := bsg_tiles_X c * bsg_tiles_Y c) in *.
      rewrite (i32_id n), Z.quot_div_nonneg by (unfold is_i32; lia).
      assert (0 <= 4096 / n) by (apply Z.div_pos; lia).
      assert (n * (4096 / n) <= 4096) by (apply Z.mul_div_le; lia).
      assert (0 <= tile_id c t * (4096 / n) <= n * (4096 / n)) by nia.
      rewrite i32_id by (unfold is_i32; lia). lia. }
    destruct (walk_onto s Hs) as (p & _ & E). exists p. rewrite E. apply u32_id.
    unfold is_u32, dram_base. lia. }
  apply chase2_loop_safe.
  - change (2 * Z.of_nat (Z.to_nat (chase2_N / 2))) with 4096. apply key_ahead. lia.
  - apply read_sync. by apply finish_with_stat_safe.
Qed.
End walking.

(** ** The tests that write to each other *)

Section writing.
Variable c : config.
Variable u : eva_unit.
Variables ruche barcfg data : Z.
Variable m0 : loc -> Z.
Hypothesis wf : wf_config c.

(** The stores that compute the configuration of the barrier network. *)
Definition barcfg_writes (t : Z * Z) : list (loc * Z) :=
  if tile_id c t =? 0 then
    (fun xy => (elem barcfg (xy.1 + xy.2 * bsg_tiles_X c),
                config_val ruche (bsg_tiles_X c) (bsg_tiles_Y c) xy.1 xy.2)) <$>
      grid 0 (bsg_tiles_X c) 0 (bsg_tiles_Y c)
  else [].

(** The configuration is written in phase 0; the stores of the test itself, [own], are in
    phase 2. *)
Definition test_writes (own : Z * Z -> list (loc * Z)) (n : nat) (t : Z * Z) : list (loc * Z) :=
  match n with 0%nat => barcfg_writes t | 2%nat => own t | _ => [] end.

Lemma test_writes_disjoint own :
  (forall t t' w w', t ∈ group_tiles c -> t' ∈ group_tiles c -> w ∈ own t -> w' ∈ own t' ->
     w.1 = w'.1 -> t = t' /\ w = w') ->
  forall n t t' w w', t ∈ group_tiles c -> t' ∈ group_tiles c ->
    w ∈ test_writes own n t -> w' ∈ test_writes own n t' -> w.1 = w'.1 -> t = t' /\ w = w'.
Proof using wf.
  intros Hown n t t' w w' Ht Ht' Hw Hw' E. destruct n as [|[|[|n]]];
    [|by apply not_elem_of_nil in Hw|by apply (Hown t t')|by apply not_elem_of_nil in Hw].
  simpl in Hw, Hw'. unfold barcfg_writes in *.
  destruct (Z.eqb_spec (tile_id c t) 0); [|by apply not_elem_of_nil in Hw].
  destruct (Z.eqb_spec (tile_id c t') 0); [|by apply not_elem_of_nil in Hw'].
  apply list_elem_of_fmap in Hw as ([x y] & -> & Hxy), Hw' as ([x' y'] & -> & Hxy').
  apply elem_of_grid in Hxy, Hxy'. destruct wf as (? & ? & _). cbn [fst snd] in *.
  split; [by apply (tile_id_inj c wf); [..|lia]|].
  apply elem_inj in E; [|norm_pow2; nia].
  assert (y = y' /\ x = x') as [-> ->]; [|done].
  apply (Z.div_mod_unique (bsg_tiles_X c)); lia.
Qed.

Variable own : Z * Z -> list (loc * Z).
Variable last : nat.
Hypothesis own_disjoint : forall t t' w w', t ∈ group_tiles c -> t' ∈ group_tiles c ->
  w ∈ own t -> w' ∈ own t' -> w.1 = w'.1 -> t = t' /\ w = w'.

Definition test_plan : plan (Z * Z) :=
  write_plan (group_tiles c) (test_writes own) m0 last (reports (.= (0, 0))).

(** The set-up, which ends in phase 2. *)
Lemma setup_safe t k m : t ∈ group_tiles c ->
  safely test_plan 2 t k (contents test_plan 2) [] ->
  safely test_plan 0 t (setup_hw_barrier c ruche barcfg (tile_id c t) k) m [].
Proof using wf own_disjoint.
  intros Ht Hk. pose proof (test_writes_disjoint own own_disjoint) as Hdis. unfold setup_hw_barrier.
  assert (safely test_plan 1 t (Load (elem barcfg (tile_id c t)) (fun _ => Sync k))
    (contents test_plan 1) []) as H1.
  { apply safely_load.
    - left. apply write_fixed. intros t' _. apply not_elem_of_nil.
    - by apply (safely_quiet _ _ m0 last (reports (.= (0, 0))) Hdis 1). }
  cbv zeta. destruct (Z.eqb_spec (tile_id c t) 0) as [E|E].
  - unfold store_barcfg.
    pose proof (safely_phase (group_tiles c) (test_writes own) m0 last (reports (.= (0, 0))) Hdis 0 t
      ((fun xy => (elem barcfg (xy.1 + xy.2 * bsg_tiles_X c),
          config_val ruche (bsg_tiles_X c) (bsg_tiles_Y c) xy.1 xy.2)) <$>
        grid 0 (bsg_tiles_X c) 0 (bsg_tiles_Y c))
      (Load (elem barcfg (tile_id c t)) (fun _ => Sync k)) m [] Ht) as H.
    rewrite for_fmap in H. apply H; [|done]. simpl. unfold barcfg_writes. by rewrite E.
  - apply (safely_quiet _ _ m0 last (reports (.= (0, 0))) Hdis 0); [done| |done].
    simpl. unfold barcfg_writes. by destruct (Z.eqb_spec (tile_id c t) 0).
Qed.
End writing.

(** *** [network_test_all_to_all] *)

Section all_to_all.
Variable c : config.
Variable u : eva_unit.
Variables ruche barcfg data : Z.
Variable m0 : loc -> Z.
Hypothesis wf : wf_config c.
Hypothesis data_ok : 0 <= data /\ data mod 4 = 0 /\ data + 4 * bsg_num_tiles c <= 2 ^ 18.
Hypothesis group_ok : 0 <= tgo_x u /\ bsg_tiles_X c + tgo_x u <= 2 ^ x_subcord_width u /\
  0 <= tgo_y u /\ bsg_tiles_Y c + tgo_y u <= 2 ^ y_subcord_width u.

(** A remote pointer names the word it should. *)
Lemma remote_is_local x y i : 0 <= x < bsg_tiles_X c -> 0 <= y < bsg_tiles_Y c ->
  0 <= i < bsg_num_tiles c -> remote_word data u x y i = local_word data u (x, y) i.
Proof using wf data_ok group_ok.
  intros Hx Hy Hi. destruct wf as (? & ? & _), data_ok as (? & Hm & Hd), group_ok as (? & ? & ? & ?).
  revert Hd. norm_pow2. intros Hd. unfold remote_word, local_word, deref.
  rewrite u32_id by (unfold is_u32; lia). rewrite eva_to_npa_remote_ptr by (norm_pow2; lia).
  cbn [x_cord y_cord epa fst snd]. f_equal. Z.to_euclidean_division_equations. lia.
Qed.

Definition all_to_all_writes (t : Z * Z) : list (loc * Z) :=
  (fun xy => (remote_word data u xy.1 xy.2 (tile_id c t), tile_id c t)) <$>
    pairs (range 0 (bsg_tiles_X c)) (range 0 (bsg_tiles_Y c)).

Lemma all_to_all_disjoint t t' w w' : t ∈ group_tiles c -> t' ∈ group_tiles c ->
  w ∈ all_to_all_writes t -> w' ∈ all_to_all_writes t' -> w.1 = w'.1 -> t = t' /\ w = w'.
Proof using wf data_ok group_ok.
  intros Ht Ht' Hw Hw' E.
  apply list_elem_of_fmap in Hw as ([x y] & -> & Hxy), Hw' as ([x' y'] & -> & Hxy').
  rewrite elem_of_pairs, !elem_of_range in Hxy, Hxy'. cbn [fst snd] in *.
  pose proof (tile_id_range c wf t Ht). pose proof (tile_id_range c wf t' Ht').
  rewrite !remote_is_local in E by lia. injection E as E1 E2 E3.
  assert (x = x' /\ y = y') as [-> ->] by lia.
  assert (t = t') as -> by (apply (tile_id_inj c wf); [done|done|lia]). done.
Qed.

#[local] Abbreviation pl := (test_plan c ruche barcfg m0 all_to_all_writes 4).

(** Before the last barrier but one, word [i] of every tile holds [i]. *)
Lemma all_to_all_word t i : t ∈ group_tiles c -> 0 <= i < bsg_num_tiles c ->
  contents pl 3 (local_word data u t i) = i /\ roles pl 3 (local_word data u t i) = Fixed.
Proof using wf data_ok group_ok.
  intros Ht Hi. destruct t as [x y]. pose proof Ht as Hxy. apply elem_of_group in Hxy.
  pose proof (test_writes_disjoint c ruche barcfg wf _ all_to_all_disjoint) as Hdis.
  rewrite <-remote_is_local by lia. split.
  - apply (write_next (group_tiles c) _ m0 4 (reports (.= (0, 0))) Hdis 2 (id_tile c i)
      (remote_word data u x y i, i)); [by apply id_tile_in|].
    apply list_elem_of_fmap. exists (x, y). rewrite tile_id_tile by (done || lia).
    split; [done|]. rewrite elem_of_pairs, !elem_of_range. lia.
  - apply write_fixed. intros t' _. apply not_elem_of_nil.
Qed.

Lemma all_to_all_safe t : t ∈ group_tiles c ->
  safely pl 0 t (all_to_all_main c data u ruche barcfg t) m0 [].
Proof using wf data_ok group_ok.
  intros Ht. pose proof (tile_id_range c wf t Ht) as Hid.
  pose proof (test_writes_disjoint c ruche barcfg wf _ all_to_all_disjoint) as Hdis.
  unfold all_to_all_main. cbv zeta.
  apply (setup_safe c ruche barcfg m0 wf _ 4 all_to_all_disjoint); [done|].
  set (check_words := for_ (range 0 (tile_id c t)) _ _).
  pose proof (safely_phase (group_tiles c) _ m0 4 (reports (.= (0, 0))) Hdis 2 t
    ((fun xy => (remote_word data u xy.1 xy.2 (tile_id c t), tile_id c t)) <$>
       pairs (range 0 (bsg_tiles_X c)) (range 0 (bsg_tiles_Y c))) check_words
    (contents pl 2) [] Ht eq_refl) as H.
  rewrite for_fmap, for_pairs in H. apply H. clear H. subst check_words. apply safely_for_check.
  - intros i Hi%elem_of_range. destruct (all_to_all_word t i Ht) as [E1 E2]; [lia|].
    split; [by left|exact E1].
  - apply (safely_quiet _ _ m0 4 (reports (.= (0, 0))) Hdis 3); [done|done|].
    apply report_safe; [done|done|done|done|apply not_elem_of_nil|].
    apply safely_finish with (.= (0, 0)); [done|done|apply not_elem_of_nil].
Qed.
End all_to_all.

(** *** [network_test_all_to_cache] *)

Section all_to_cache.
Variable c : config.
Variables ruche barcfg data : Z.
Variable m0 : loc -> Z.
Hypothesis wf : wf_config c.

Definition all_to_cache_writes (t : Z * Z) : list (loc * Z) :=
  (fun i => (elem data (cache_idx c (tile_id c t) i), cache_idx c (tile_id c t) i)) <$>
    range 0 all_to_cache_M.

Lemma cache_idx_eq id i : 0 <= id < bsg_num_tiles c -> 0 <= i < all_to_cache_M ->
  cache_idx c id i = bsg_num_tiles c * i + id /\ 0 <= cache_idx c id i < 131072.
Proof using wf.
  intros Hid Hi. destruct wf as (? & ? & _). unfold cache_idx, bsg_num_tiles, all_to_cache_M in *.
  rewrite (i32_id (bsg_tiles_X c * _)) by (unfold is_i32; nia).
  rewrite (i32_id (_ * i)) by (unfold is_i32; nia). rewrite i32_id by (unfold is_i32; nia). nia.
Qed.

Lemma all_to_cache_disjoint t t' w w' : t ∈ group_tiles c -> t' ∈ group_tiles c ->
  w ∈ all_to_cache_writes t -> w' ∈ all_to_cache_writes t' -> w.1 = w'.1 -> t = t' /\ w = w'.
Proof using wf.
  intros Ht Ht' Hw Hw' E.
  apply list_elem_of_fmap in Hw as (i & -> & Hi%elem_of_range), Hw' as (i' & -> & Hi'%elem_of_range).
  cbn [fst snd] in *.
  pose proof (tile_id_range c wf t Ht). pose proof (tile_id_range c wf t' Ht').
  destruct (cache_idx_eq (tile_id c t) i) as [E1 B1]; [done|done|].
  destruct (cache_idx_eq (tile_id c t') i') as [E2 B2]; [done|done|].
  apply elem_inj in E; [|norm_pow2; lia].
  assert (i = i' /\ tile_id c t = tile_id c t') as [-> Eid]
    by (apply (Z.div_mod_unique (bsg_num_tiles c)); lia).
  by apply (tile_id_inj c wf) in Eid as ->.
Qed.

#[local] Abbreviation pl := (test_plan c ruche barcfg m0 all_to_cache_writes 3).

Lemma all_to_cache_word i : 0 <= i < bsg_num_tiles c * all_to_cache_M ->
  contents pl 3 (elem data i) = i.
Proof using wf.
  intros Hi. pose proof (test_writes_disjoint c ruche barcfg wf _ all_to_cache_disjoint) as Hdis.
  assert (0 < bsg_num_tiles c) as Hn by (destruct wf as (? & ? & _); unfold bsg_num_tiles; nia).
  pose proof (Z.mod_pos_bound i (bsg_num_tiles c) Hn) as Hid.
  pose proof (Z.div_mod i (bsg_num_tiles c) ltac:(lia)) as Ed.
  assert (0 <= i / bsg_num_tiles c < all_to_cache_M) as Hq.
  { split; [apply Z.div_pos; lia|apply Z.div_lt_upper_bound; lia]. }
  destruct (cache_idx_eq (i mod bsg_num_tiles c) (i / bsg_num_tiles c)) as [E _]; [done|done|].
  apply (write_next (group_tiles c) _ m0 3 (reports (.= (0, 0))) Hdis 2 (id_tile c (i mod bsg_num_tiles c))
    (elem data i, i)); [by apply id_tile_in|].
  apply list_elem_of_fmap. exists (i / bsg_num_tiles c). rewrite tile_id_tile by (done || lia).
  split; [f_equal; [f_equal|]; lia|by apply elem_of_range].
Qed.

Lemma all_to_cache_safe t : t ∈ group_tiles c ->
  safely pl 0 t (all_to_cache_main c data ruche barcfg t) m0 [].
Proof using wf.
  intros Ht. pose proof (tile_id_range c wf t Ht) as Hid.
  pose proof (test_writes_disjoint c ruche barcfg wf _ all_to_cache_disjoint) as Hdis.
  unfold all_to_cache_main. cbv zeta.
  apply (setup_safe c ruche barcfg m0 wf _ 3 all_to_cache_disjoint); [done|].
  set (validate := report _ _).
  pose proof (safely_phase (group_tiles c) _ m0 3 (reports (.= (0, 0))) Hdis 2 t
    ((fun i => (elem data (cache_idx c (tile_id c t) i), cache_idx c (tile_id c t) i)) <$>
       range 0 all_to_cache_M) validate (contents pl 2) [] Ht eq_refl) as H.
  rewrite for_fmap in H. apply H. clear H. subst validate.
  apply report_safe; [done|done|done|done|apply not_elem_of_nil|]. apply safely_for_check.
  - intros i Hi%elem_of_range. destruct wf as (? & ? & _).
    assert (0 <= i < bsg_num_tiles c * all_to_cache_M) as Hi'.
    { unfold bsg_num_tiles, all_to_cache_M in *. rewrite (i32_id (_ * bsg_tiles_Y c)) in Hi
        by (unfold is_i32; nia). rewrite i32_id in Hi by (unfold is_i32; nia). done. }
    split; [left; apply write_fixed; intros t' _; apply not_elem_of_nil|].
    by apply all_to_cache_word.
  - apply safely_finish with (.= (0, 0)); [done|done|apply not_elem_of_nil].
Qed.
End all_to_cache.

(** ** The tests pass *)

(** C32 (functional).  The network tests.  In every interleaving the walks over the two linked
    lists and the sum over the array come to their end with the right count and sum, for any
    group ([network_test_pointer_chasing2]: of at most 128 tiles, and its loop ends within half
    the nodes), and what the tiles write to each other's memories and to DRAM between the
    barriers is what is read back: no failure is reported, the tile with id 0 reports success,
    and nobody waits for ever. *)
Theorem network_tests_pass c u ruche barcfg data m0 :
  wf_config c ->
  (holds m0 data chase_data ->
     test_passes (group_tiles c) (chase_main c data) m0 (.= (0, 0))) /\
  (holds_nodes m0 -> bsg_num_tiles c <= 128 ->
     test_passes (group_tiles c) (chase2_main c dram_base) m0 (.= (0, 0))) /\
  (holds m0 data bandwidth_data ->
     test_passes (group_tiles c) (bandwidth_main c data) m0 (.= (0, 0))) /\
  (0 <= data /\ data mod 4 = 0 /\ data + 4 * bsg_num_tiles c <= 2 ^ 18 ->
   0 <= tgo_x u /\ bsg_tiles_X c + tgo_x u <= 2 ^ x_subcord_width u /\
   0 <= tgo_y u /\ bsg_tiles_Y c + tgo_y u <= 2 ^ y_subcord_width u ->
     test_passes (group_tiles c) (all_to_all_main c data u ruche barcfg) m0 (.= (0, 0))) /\
  test_passes (group_tiles c) (all_to_cache_main c data ruche barcfg) m0 (.= (0, 0)).
Proof.
  intros wf. split_and!; intros.
  - apply (safe_test_passes _ _ (read_plan m0 1 (.= (0, 0)))); [apply read_plan_ok|done|].
    intros t Ht. by apply chase_safe.
  - apply (safe_test_passes _ _ (read_plan m0 1 (.= (0, 0)))); [apply read_plan_ok|done|].
    intros t Ht. by apply chase2_safe.
  - apply (safe_test_passes _ _ (read_plan m0 1 (.= (0, 0)))); [apply read_plan_ok|done|].
    intros t Ht. by apply bandwidth_safe.
  - apply (safe_test_passes _ _ (test_plan c ruche barcfg m0 (all_to_all_writes c u data) 4));
      [apply write_plan_ok|done|]. intros t Ht. by apply all_to_all_safe.
  - apply (safe_test_passes _ _ (test_plan c ruche barcfg m0 (all_to_cache_writes c data) 3));
      [apply write_plan_ok|done|]. intros t Ht. by apply all_to_cache_safe.
Qed.

(** A 4x4 group, with an array of words in DRAM. *)
Definition array_memory (l : list Z) (a : loc) : Z :=
  match a with Dram a => default 0 (l !! Z.to_nat ((a - 0x80000000) / 4)) | _ => 0 end.

Definition node_memory (a : loc) : Z :=
  match a with
  | Dram a => let nd := node ((a - dram_base) / 8) in
              if (a - dram_base) mod 8 =? 0 then i32 nd.1 else nd.2
  | _ => 0
  end.

Lemma array_memory_holds l : (length l <= 1024)%nat -> holds (array_memory l) 0x80000000 l.
Proof.
  intros Hl i v Hi Hv. pose proof (lookup_lt_Some _ _ _ Hv). unfold array_memory, elem.
  rewrite u32_id by (unfold is_u32; lia).
  replace ((0x80000000 + 4 * i - 0x80000000) / 4) with i by (Z.to_euclidean_division_equations; lia).
  by rewrite Hv.
Qed.

Lemma node_memory_holds : holds_nodes node_memory.
Proof.
  intros i Hi. unfold node_memory, node_next, node_key, dram_base. 
  rewrite !u32_id by (unfold is_u32; lia). split.
  - replace ((0x81000000 + 8 * i - 0x81000000) mod 8) with 0 by (Z.to_euclidean_division_equations; lia).
    replace ((0x81000000 + 8 * i - 0x81000000) / 8) with i by (Z.to_euclidean_division_equations; lia).
    done.
  - replace ((0x81000000 + 8 * i + 4 - 0x81000000) mod 8) with 4
      by (Z.to_euclidean_division_equations; lia).
    replace ((0x81000000 + 8 * i + 4 - 0x81000000) / 8) with i
      by (Z.to_euclidean_division_equations; lia).
    done.
Qed.

Lemma network_tests_pass_witness :
  test_passes (group_tiles config_4x4) (chase_main config_4x4 0x80000000)
    (array_memory chase_data) (.= (0, 0)) /\
  test_passes (group_tiles config_4x4) (chase2_main config_4x4 dram_base) node_memory (.= (0, 0)) /\
  test_passes (group_tiles config_4x4) (bandwidth_main config_4x4 0x80000000)
    (array_memory bandwidth_data) (.= (0, 0)) /\
  test_passes (group_tiles config_4x4) (all_to_all_main config_4x4 0x1000 unit_16x8 3 0x80000000)
    (fun _ => 0) (.= (0, 0)).
Proof.
  assert (wf_config config_4x4) as wf by (unfold wf_config; simpl; lia). split_and!.
  - apply (network_tests_pass config_4x4 unit_16x8 3 0 0x80000000 (array_memory chase_data));
      [done|]. apply array_memory_holds. apply Nat.leb_le. vm_compute. reflexivity.
  - apply (network_tests_pass config_4x4 unit_16x8 3 0 0 node_memory);
      [done|apply node_memory_holds|by vm_compute].
  - apply (network_tests_pass config_4x4 unit_16x8 3 0 0x80000000 (array_memory bandwidth_data));
      [done|]. apply array_memory_holds. apply Nat.leb_le. vm_compute. reflexivity.
  - apply (network_tests_pass config_4x4 unit_16x8 3 0x80000000 0x1000 (fun _ => 0)); [done| |];
      vm_compute; split_and!; done.
Defined.
