(* ===== verification/GroupTests.v ===== *)
(** * Tests of barriers and shared memory on a group of tiles

    [hw_barrier_NxN_test], [bsg_barrier], [bsg_tile_group_barrier], [bsg_tile_group_mem],
    [bsg_transpose] and [bsg_simple_mutex_test]: tiles fill and read each other's memories, or
    DRAM, between barriers.  Most of these programs print what they found instead of testing
    it, so what is proved is what they print. *)

From Stdlib Require Import Ascii String.
From S2P Require Import Prelude Lts Arch Eva Console Spmd SpmdLogic HwBarrier Printf Vsprintf Atomics TileBarrier Network.
Local Open Scope string_scope.
Local Open Scope list_scope.
Local Open Scope Z_scope.

(** ** The programs *)

Section programs.
Variable c : config.
Variable u : eva_unit.
Variable data : Z.         (* the array of the program *)

(** *** [hw_barrier_NxN_test] *)

Definition nxn_N : Z := 4.
Definition NUM_WORDS : Z := 16.

Section hw_barrier_NxN.
Variable ruche : Z.        (* BARRIER_RUCHE_FACTOR_X *)
Variable barcfg : Z.

(** The configuration, computed and printed. *)
Definition print_barcfg (k : prog) : prog :=
  for_ (range 0 (bsg_tiles_Y c)) (fun y k =>
    for_ (range 0 (bsg_tiles_X c)) (fun x k =>
      Load (elem barcfg (y * bsg_tiles_X c + x)) (fun v =>
      bsg_printf c u (chars "%0x,") [AInt v] k))
    (bsg_printf c u [10] [] k)) k.

(** One iteration: the words of another tile are loaded, and, after the barrier, stored back. *)
Definition nxn_round (t : Z * Z) (n : Z) (k : prog) : prog :=
  let tx := Z.rem (t.1 +i n)%c (bsg_tiles_X c) in
  let ty := Z.rem (t.2 +i n)%c (bsg_tiles_Y c) in
  load_list ((fun i => remote_word data u tx ty i) <$> range 0 NUM_WORDS) (fun temp =>
  let temp := (fun v => (v +i 1)%c) <$> temp in
  Sync
  (for_ (zip (range 0 NUM_WORDS) temp) (fun iv k => Store (remote_word data u tx ty iv.1) iv.2 k)
  (Sync k))).

Definition nxn_main (t : Z * Z) : prog :=
  let id := tile_id c t in
  let rest :=
    Sync (Load (elem barcfg id) (fun my_barcfg =>
    for_ (range 0 nxn_N) (nxn_round t)
    (for_ (range 0 NUM_WORDS) (fun i k => check (local_word data u t i) nxn_N k)
    (Sync (report id finish))))) in
  if id =? 0 then store_barcfg c ruche barcfg (print_barcfg rest) else rest.
End hw_barrier_NxN.

(** *** [bsg_barrier] and [bsg_tile_group_barrier] *)

(** [data[i][j]] of [int data[bsg_tiles_X][bsg_tiles_Y]]. *)
Definition matrix_word (i j : Z) : loc := elem data (i * bsg_tiles_Y c + j).

Definition print_matrix (fmt : list Z) (k : prog) : prog :=
  for_ (range 0 (bsg_tiles_X c)) (fun i k => for_ (range 0 (bsg_tiles_Y c)) (fun j k =>
    Load (matrix_word i j) (fun v => bsg_printf c u fmt [AInt i; AInt j; AInt v] k)) k) k.

(** ["data[%d][%d]=%08x\n"] and ["data[%d][%d]=%d\n"]. *)
Definition fmt_hex : list Z := chars "data[%d][%d]=%08x" ++ [10].
Definition fmt_dec : list Z := chars "data[%d][%d]=%d" ++ [10].

Definition print_time (t : Z * Z) (k : prog) : prog :=
  if (t.1 =? 0) && (t.2 =? 0) then Send PrintTime k else k.

Definition bsg_barrier_main (t : Z * Z) : prog :=
  let id := bsg_x_y_to_id c t.1 t.2 in
  let mine := matrix_word (bsg_id_to_x c id) (bsg_id_to_y c id) in
  Store mine id
  (print_time t
  (Sync
  (print_time t
  (let rest := Sync (Store mine 0 (Sync (if id =? 0 then print_matrix fmt_dec finish else Done))) in
   if id =? 0 then print_matrix fmt_hex rest else rest)))).

Definition bsg_tile_group_barrier_main (t : Z * Z) : prog :=
  let id := bsg_x_y_to_id c t.1 t.2 in
  let mine := matrix_word (bsg_id_to_x c id) (bsg_id_to_y c id) in
  Store mine id
  (Sync
  (let rest := Sync (Store mine 0 (Sync (if id =? 0 then print_matrix fmt_dec finish else Done))) in
   if id =? 0 then print_matrix fmt_hex rest else rest)).

(** *** [bsg_tile_group_mem]: [data] is the local part of [shared_mem] *)

Definition shared_word (index : Z) : loc := deref u (bsg_tile_group_shared_ptr c 4 data index).

(** ["Check Print:\tsh_mem[%d] = %d\n"]. *)
Definition fmt_check : list Z := chars "Check Print:" ++ [9] ++ chars "sh_mem[%d] = %d" ++ [10].

(** [bsg_tile_group_barrier] with [BSG_BARRIER_DEBUG]: what the centre tiles send before and after
    all tiles have arrived. *)
Definition debug_range : tb_range :=
  {| tx_start := 0; tx_end := bsg_tiles_X c - 1; ty_start := 0; ty_end := bsg_tiles_Y c - 1 |}.

Definition debug_before (t : Z * Z) : list packet :=
  let row_centre := t.1 =? center_x_cord debug_range in
  let centre := row_centre && (t.2 =? center_y_cord debug_range) in
  (if centre then [PrintTime] else []) ++ (if row_centre then [IoStore 0 t.2] else []).

Definition debug_after (t : Z * Z) : list packet :=
  let row_centre := t.1 =? center_x_cord debug_range in
  let centre := row_centre && (t.2 =? center_y_cord debug_range) in
  (if centre then [IoStore 4 t.2] else []) ++ (if row_centre then [IoStore 8 t.2] else []) ++
  (if centre then [PrintTime] else []).

Definition debug_sync (t : Z * Z) (k : prog) : prog :=
  for_ (debug_before t) Send (Sync (for_ (debug_after t) Send k)).

Definition tile_group_mem_main (t : Z * Z) : prog :=
  let id := bsg_x_y_to_id c t.1 t.2 in
  Store (shared_word (Z.rem (id +i 2)%c 16)) id
  (debug_sync t
  (load_list (shared_word <$> range 0 16) (fun local_var =>
  debug_sync t
  (let rest := debug_sync t (if id =? 0 then finish else Done) in
   if id =? 0 then
     for_ (zip (range 0 16) local_var) (fun iv k =>
       bsg_printf c u fmt_check [AInt iv.1; AInt iv.2] k) rest
   else rest)))).

(** *** [bsg_transpose]: [data] is [local_source] *)

Variable dest : Z.         (* [local_dest] *)

Definition SUB_ROW_NUM : Z := 2.
Definition SUB_COL_NUM : Z := 3.
Definition TILE_DIM : Z := 4.
Definition MATRIX_ROWS : Z := SUB_ROW_NUM * TILE_DIM.
Definition MATRIX_COLS : Z := SUB_COL_NUM * TILE_DIM.

(** The elements of a tile's part, in the order of the loops. *)
Definition sub_indices : list (Z * Z) := pairs (range 0 SUB_ROW_NUM) (range 0 SUB_COL_NUM).

Definition source_value (t : Z * Z) (i j : Z) : Z :=
  (((i +i t.2 *i SUB_ROW_NUM) <<i 16) .| (j +i t.1 *i SUB_COL_NUM))%c.

Definition init_source (t : Z * Z) (k : prog) : prog :=
  for_ sub_indices (fun ij k =>
    Store (local_word data u t (ij.1 * SUB_COL_NUM + ij.2)) (source_value t ij.1 ij.2) k) k.

Definition transpose (t : Z * Z) (k : prog) : prog :=
  for_ sub_indices (fun ij k =>
    Load (remote_word data u t.2 t.1 (ij.1 * SUB_COL_NUM + ij.2)) (fun v =>
    Store (local_word dest u t (ij.2 * SUB_ROW_NUM + ij.1)) v k)) k.

Definition print_result (k : prog) : prog :=
  for_ (pairs (range 0 MATRIX_ROWS) (range 0 MATRIX_COLS)) (fun ij k =>
    let y_cord := Z.quot ij.2 SUB_COL_NUM in
    let x_cord := Z.quot ij.1 SUB_ROW_NUM in
    let row_id := Z.rem ij.2 SUB_COL_NUM in
    let col_id := Z.rem ij.1 SUB_ROW_NUM in
    Load (remote_word dest u x_cord y_cord (row_id * SUB_ROW_NUM + col_id)) (fun data =>
    Send (IoStore 0 data) k)) k.

Definition transpose_main (t : Z * Z) : prog :=
  let id := bsg_x_y_to_id c t.1 t.2 in
  if (t.1 <? TILE_DIM) && (t.2 <? TILE_DIM) then
    init_source t
    (Sync
    (let rest := transpose t
       (Sync (if id =? 0 then Send (IoStore 0 0xcab1) (print_result finish) else Done)) in
     if id =? 0 then Send (IoStore 0 0xcab0) rest else rest))
  else Done.

(** *** [bsg_simple_mutex_test] *)

Variable mtx : Z.
Variable ITERS : Z.        (* a define of the Makefile *)

Definition simple_mutex_main (t : Z * Z) : prog :=
  for_ (range 0 ITERS) (fun i k =>
    Acquire (elem mtx 0)
    (Load (elem data 0) (fun v => Store (elem data 0) (v +i 1)%c
    (unlock (elem mtx 0) k))))
  (Sync
  (if (t.1 =? 0) && (t.2 =? 0) then
     Load (elem data 0) (fun d => Send (PrintInt d)
     (Load (elem data 0) (fun d =>
      if negb (d =? (ITERS *i bsg_tiles_X c *i bsg_tiles_Y c)%c) then fail else finish)))
   else Done)).
End programs.

(** ** Shared facts *)

Section facts.
Variable c : config.
Variable u : eva_unit.
Hypothesis wf : wf_config c.

(** The group lies within the pod. *)
Definition group_fits : Prop :=
  0 <= tgo_x u /\ bsg_tiles_X c + tgo_x u <= 2 ^ x_subcord_width u /\
  0 <= tgo_y u /\ bsg_tiles_Y c + tgo_y u <= 2 ^ y_subcord_width u.

(** [n] words at [p] in every data memory. *)
Definition dmem_array (p n : Z) : Prop := 0 <= p /\ p mod 4 = 0 /\ p + 4 * n <= 2 ^ 18.

Lemma remote_word_local p n x y i :
  group_fits -> dmem_array p n -> 0 <= i < n -> 0 <= x < bsg_tiles_X c -> 0 <= y < bsg_tiles_Y c ->
  remote_word p u x y i = local_word p u (x, y) i.
Proof using wf.
  intros (? & ? & ? & ?) (Hp & Hm & Hn) Hi Hx Hy. destruct wf as (? & ? & _).
  revert Hn. norm_pow2. intros Hn. unfold remote_word, local_word, deref.
  rewrite u32_id by (unfold is_u32; lia). rewrite eva_to_npa_remote_ptr by (norm_pow2; lia).
  cbn [x_cord y_cord epa fst snd]. f_equal. Z.to_euclidean_division_equations. lia.
Qed.

Lemma local_word_inj p p' t t' i i' : local_word p u t i = local_word p' u t' i' ->
  t = t' /\ p + 4 * i = p' + 4 * i'.
Proof using.
  intros [= E1 E2 E3]. destruct t as [x y], t' as [x' y']. simpl in *. split; [f_equal; lia|lia].
Qed.

(** The I/O node is not a tile of the group. *)
Definition io_apart : Prop :=
  forall p t i, t ∈ group_tiles c -> local_word p u t i <> io_mutex c u.

Lemma elem_not_io p i : elem p i <> io_mutex c u.
Proof using. unfold elem, io_mutex, deref. by destruct (eva_to_npa u _). Qed.

(** [id = bsg_x_y_to_id(bsg_x, bsg_y)] is 0 on one tile only. *)
Lemma tile_id_zero t : t ∈ group_tiles c -> tile_id c t = 0 -> t = (0, 0).
Proof using wf.
  intros Ht E. apply (tile_id_inj c wf); [done|by apply origin_in_group|]. rewrite E.
  unfold tile_id, bsg_x_y_to_id. simpl. lia.
Qed.

Lemma tile_id_origin : tile_id c (0, 0) = 0.
Proof using. unfold tile_id, bsg_x_y_to_id. simpl. lia. Qed.

(** A text that fits is sent character by character, under the mutex. *)
Lemma printf_safe {Tid} (pl : plan Tid) n t fmt args s k m o :
  ee_vsprintf fmt args = Ok s -> zlen s < 256 ->
  roles pl n (io_mutex c u) = Private t -> m (io_mutex c u) = 0 ->
  (forall m', (forall a, m' a = m a) -> safely pl n t k m' (o ++ (Putchar <$> s))) ->
  safely pl n t (bsg_printf c u fmt args k) m o.
Proof using.
  intros Es Hlen Hr Hm Hk. unfold bsg_printf. rewrite Es.
  rewrite (proj2 (Nat.ltb_lt (length s) 256)) by (unfold zlen in Hlen; lia).
  apply safely_acquire; [done|done|].
  apply (safely_for _ _ _ _ _ _ _ _ (fun l m' o' => m' = <[io_mutex c u := 1]> m /\ o' = o ++ (Putchar <$> l))).
  - split; [done|]. by rewrite app_nil_r.
  - intros done ch rest m' o' kk _ (-> & ->) Hkk. apply safely_send, Hkk. split; [reflexivity|].
    by rewrite fmap_app, app_assoc.
  - intros m' o' (-> & ->). apply safely_amo; [done|]. apply Hk. intros a.
    destruct (decide (a = io_mutex c u)) as [->|Hne]; [by rewrite fn_lookup_insert|].
    by rewrite !fn_lookup_insert_ne.
Qed.

Lemma putchars_no_failure s o : Failed ∉ o -> Failed ∉ o ++ (Putchar <$> s).
Proof using.
  intros Ho [H|H]%elem_of_app; [done|]. apply list_elem_of_fmap in H as (ch & H & _). done.
Qed.
End facts.

(** ** [hw_barrier_NxN_test] *)

Section nxn.
Variable c : config.
Variable u : eva_unit.
Variables data ruche barcfg : Z.
Variable m0 : loc -> Z.
Hypothesis wf : wf_config c.
Hypothesis fits : group_fits c u.
Hypothesis data_ok : dmem_array data NUM_WORDS.
Hypothesis data_zero : forall t i, t ∈ group_tiles c -> 0 <= i < NUM_WORDS -> m0 (local_word data u t i) = 0.
Hypothesis io_ok : io_apart c u.
Hypothesis io_free : m0 (io_mutex c u) = 0.

(** The tile whose words tile [t] increments in round [n]. *)
Definition nxn_target (t : Z * Z) (n : Z) : Z * Z :=
  ((t.1 + n) mod bsg_tiles_X c, (t.2 + n) mod bsg_tiles_Y c).

Lemma nxn_target_in t n : nxn_target t n ∈ group_tiles c.
Proof using wf. destruct wf as (? & ? & _). apply elem_of_group. split; apply Z.mod_pos_bound; lia. Qed.

Lemma mod_shift_inj a b n k : 0 <= a < k -> 0 <= b < k -> (a + n) mod k = (b + n) mod k -> a = b.
Proof using.
  intros Ha Hb E. pose proof (Z.div_mod (a + n) k ltac:(lia)) as E1.
  pose proof (Z.div_mod (b + n) k ltac:(lia)) as E2. rewrite E in E1.
  assert ((a + n) / k = (b + n) / k) by nia. nia.
Qed.

Lemma nxn_target_inj t t' n : t ∈ group_tiles c -> t' ∈ group_tiles c -> nxn_target t n = nxn_target t' n -> t = t'.
Proof using.
  destruct t as [x y], t' as [x' y']. rewrite !elem_of_group. intros [] [] [= E1 E2]. simpl in *.
  f_equal; by eapply mod_shift_inj.
Qed.

Lemma nxn_target_of t n : t ∈ group_tiles c -> nxn_target (nxn_target t (- n)) n = t.
Proof using wf.
  destruct t as [x y]. rewrite elem_of_group. intros [Hx Hy]. unfold nxn_target. simpl.
  rewrite !Z.add_mod_idemp_l by (destruct wf as (? & ? & _); lia). f_equal.
  - replace (x + - n + n) with x by lia. by apply Z.mod_small.
  - replace (y + - n + n) with y by lia. by apply Z.mod_small.
Qed.

Definition nxn_words (t : Z * Z) (n : Z) : list (loc * Z) :=
  (fun i => (local_word data u (nxn_target t n) i, n + 1)) <$> range 0 NUM_WORDS.

(** Phase 0 ends with the [amoadd] barrier; rounds take two phases each. *)
Definition nxn_writes (n : nat) (t : Z * Z) : list (loc * Z) :=
  match n with
  | O => if tile_id c t =? 0 then barcfg_writes c ruche barcfg t ++ [(io_mutex c u, 0)] else []
  | S m => if Nat.odd m && (m <=? 7)%nat then nxn_words t (Z.of_nat (m / 2)) else []
  end.

Lemma nxn_disjoint n t t' w w' : t ∈ group_tiles c -> t' ∈ group_tiles c ->
  w ∈ nxn_writes n t -> w' ∈ nxn_writes n t' -> w.1 = w'.1 -> t = t' /\ w = w'.
Proof using wf.
  intros Ht Ht' Hw Hw' E. destruct n as [|m]; cbn [nxn_writes] in Hw, Hw'.
  - destruct (Z.eqb_spec (tile_id c t) 0) as [E0|]; [|by apply not_elem_of_nil in Hw].
    destruct (Z.eqb_spec (tile_id c t') 0) as [E0'|]; [|by apply not_elem_of_nil in Hw'].
    assert (t = t') as <- by (apply (tile_id_inj c wf); [done|done|lia]). split; [done|].
    apply elem_of_app in Hw as [Hw|Hw%list_elem_of_singleton], Hw' as [Hw'|Hw'%list_elem_of_singleton]; subst.
    + apply (test_writes_disjoint c ruche barcfg wf (fun _ => []) ltac:(by intros ? ? ? ? _ _ ?%not_elem_of_nil)
        0%nat t t); done.
    + exfalso. unfold barcfg_writes in Hw. rewrite E0 in Hw. apply list_elem_of_fmap in Hw as (xy & -> & _).
      by apply elem_not_io in E.
    + exfalso. unfold barcfg_writes in Hw'. rewrite E0 in Hw'. apply list_elem_of_fmap in Hw' as (xy & -> & _).
      symmetry in E. by apply elem_not_io in E.
    + done.
  - destruct (_ && _); [|by apply not_elem_of_nil in Hw].
    apply list_elem_of_fmap in Hw as (i & -> & _), Hw' as (i' & -> & _). cbn [fst] in E.
    apply local_word_inj in E as [E Ei]. apply nxn_target_inj in E as <-; [|done|done].
    split; [done|]. by replace i' with i by lia.
Qed.

#[local] Abbreviation pl :=
  (write_plan (group_tiles c) nxn_writes m0 10 (reports (.= ((0, 0) : Z * Z)))).

(** The phase of the loads of round [n], and of its stores. *)
Definition loads_at (n : Z) : nat := Z.to_nat (1 + 2 * n).

Lemma nxn_quiet n t : 0 <= n -> nxn_writes (loads_at n) t = [].
Proof using.
  intros Hn. unfold loads_at. replace (Z.to_nat (1 + 2 * n)) with (S (2 * Z.to_nat n)) by lia.
  cbn [nxn_writes]. by rewrite Nat.odd_even.
Qed.

Lemma nxn_stores n t : 0 <= n < nxn_N -> nxn_writes (S (loads_at n)) t = nxn_words t n.
Proof using.
  intros Hn. unfold nxn_N, loads_at in *.
  assert (n = 0 \/ n = 1 \/ n = 2 \/ n = 3) as [->|[->|[->| ->]]] by lia; done.
Qed.

(** Before round [n] all words hold [n], and nobody writes them. *)
Lemma nxn_before n t i : 0 <= n <= nxn_N -> t ∈ group_tiles c -> 0 <= i < NUM_WORDS ->
  roles pl (loads_at n) (local_word data u t i) = Fixed /\ contents pl (loads_at n) (local_word data u t i) = n.
Proof using wf data_zero io_ok.
  intros Hn Ht Hi. split.
  { apply write_fixed. intros t' _. rewrite nxn_quiet by lia. apply not_elem_of_nil. }
  destruct Hn as [Hn Hn']. revert n Hn Hn' t Ht.
  apply (natlike_ind (fun n => n <= nxn_N -> forall t, t ∈ group_tiles c -> _)).
  - intros _ t Ht. destruct (write_fixed (group_tiles c) nxn_writes m0 10 (reports (.= (0, 0))) 0
      (local_word data u t i)) as [_ E].
    + intros t' _ H. cbn [nxn_writes] in H. destruct (Z.eqb_spec (tile_id c t') 0) as [E0|]; [|by apply not_elem_of_nil in H].
      rewrite fmap_app in H. apply elem_of_app in H as [H|H%list_elem_of_singleton]; [|by apply (io_ok data t i)].
      unfold barcfg_writes in H. rewrite E0 in H. by apply list_elem_of_fmap in H as (w & E & (xy & -> & _)%list_elem_of_fmap).
    + change (loads_at 0) with 1%nat. rewrite E. by apply data_zero.
  - intros n Hn IH Hn' t Ht. pose proof (nxn_target_of t n Ht) as Et.
    assert (loads_at (Z.succ n) = S (S (loads_at n))) as -> by (unfold loads_at; lia).
    apply (write_next (group_tiles c) nxn_writes m0 10 (reports (.= (0, 0))) nxn_disjoint (S (loads_at n))
      (nxn_target t (- n)) (local_word data u t i, Z.succ n)); [by apply nxn_target_in|].
    rewrite nxn_stores by lia. apply list_elem_of_fmap. exists i. rewrite Et. split; [|by apply elem_of_range].
    by rewrite <-Z.add_1_r.
Qed.

Lemma nxn_round_safe t n k o : 0 <= n < nxn_N -> t ∈ group_tiles c ->
  safely pl (loads_at (n + 1)) t k (contents pl (loads_at (n + 1))) o ->
  safely pl (loads_at n) t (nxn_round c u data t n k) (contents pl (loads_at n)) o.
Proof using wf fits data_ok data_zero io_ok.
  intros Hn Ht Hk. pose proof Ht as Hxy. destruct t as [x y]. apply elem_of_group in Hxy. unfold nxn_round.
  pose proof wf as (HX & HY & _). cbn [fst snd].
  assert (Z.rem (x +i n)%c (bsg_tiles_X c) = (x + n) mod bsg_tiles_X c /\
    Z.rem (y +i n)%c (bsg_tiles_Y c) = (y + n) mod bsg_tiles_Y c) as [-> ->].
  { unfold nxn_N in Hn. rewrite !i32_id by (unfold is_i32; lia). rewrite !Z.rem_mod_nonneg by lia. done. }
  pose proof (nxn_target_in (x, y) n) as Htar. pose proof Htar as Hr.
  unfold nxn_target in Hr. cbn [fst snd] in Hr. apply elem_of_group in Hr as [Hrx Hry].
  assert ((fun i => remote_word data u ((x + n) mod bsg_tiles_X c) ((y + n) mod bsg_tiles_Y c) i) <$> range 0 NUM_WORDS =
    (fun i => local_word data u (nxn_target (x, y) n) i) <$> range 0 NUM_WORDS) as ->.
  { apply list_fmap_ext. intros ? i Hi%list_elem_of_lookup_2%elem_of_range.
    apply (remote_word_local c u wf data NUM_WORDS); [exact fits|exact data_ok|exact Hi|exact Hrx|exact Hry]. }
  apply safely_load_list.
  { intros a Ha. apply list_elem_of_fmap in Ha as (i & -> & Hi%elem_of_range). left. apply nxn_before; [lia|done|done]. }
  assert ((fun v => (v +i 1)%c) <$> (contents pl (loads_at n) <$>
    ((fun i => local_word data u (nxn_target (x, y) n) i) <$> range 0 NUM_WORDS)) =
    (fun _ => n + 1) <$> range 0 NUM_WORDS) as ->.
  { rewrite <-!list_fmap_compose. apply list_fmap_ext. intros ? i Hi%list_elem_of_lookup_2%elem_of_range. simpl.
    destruct (nxn_before n (nxn_target (x, y) n) i) as [_ E]; [lia|done|done|].
    cbn [write_plan contents] in E. rewrite E. apply i32_id. unfold is_i32, nxn_N in *. lia. }
  apply safely_quiet; [apply nxn_disjoint|done|apply nxn_quiet; lia|].
  pose proof (safely_phase (group_tiles c) nxn_writes m0 10 (reports (.= (0, 0))) nxn_disjoint (S (loads_at n)) (x, y)
    (nxn_words (x, y) n) k (contents pl (S (loads_at n))) o Ht (nxn_stores n (x, y) Hn)) as H.
  replace (zip (range 0 NUM_WORDS) ((fun _ => n + 1) <$> range 0 NUM_WORDS))
    with ((fun i => (i, n + 1)) <$> range 0 NUM_WORDS) by (by rewrite <-(zip_with_fmap pair id), list_fmap_id).
  rewrite for_fmap. unfold nxn_words in H. rewrite for_fmap in H.
  assert (for_ (range 0 NUM_WORDS) (fun i k => Store (remote_word data u ((x + n) mod bsg_tiles_X c)
      ((y + n) mod bsg_tiles_Y c) (i, n + 1).1) (i, n + 1).2 k) (Sync k) =
    for_ (range 0 NUM_WORDS) (fun i k => Store (local_word data u (nxn_target (x, y) n) i, n + 1).1
      (local_word data u (nxn_target (x, y) n) i, n + 1).2 k) (Sync k)) as ->.
  { apply for_ext_in. intros i k' Hi%elem_of_range. cbn [fst snd]. f_equal.
    apply (remote_word_local c u wf data NUM_WORDS); [exact fits|exact data_ok|exact Hi|exact Hrx|exact Hry]. }
  apply H. by replace (S (S (loads_at n))) with (loads_at (n + 1)) by (unfold loads_at; lia).
Qed.

(** After the [amoadd] barrier. *)
Lemma nxn_rounds_safe t o : t ∈ group_tiles c -> Failed ∉ o ->
  safely pl 1 t (Load (elem barcfg (tile_id c t)) (fun _ =>
    for_ (range 0 nxn_N) (nxn_round c u data t)
    (for_ (range 0 NUM_WORDS) (fun i k => check (local_word data u t i) nxn_N k)
    (Sync (report (tile_id c t) finish))))) (contents pl 1) o.
Proof using wf fits data_ok data_zero io_ok.
  intros Ht Ho. apply safely_load; [left; apply write_fixed; intros; apply not_elem_of_nil|].
  apply (safely_for_phases _ _ _ _ _ _ _ _ (fun l n m o' =>
    n = loads_at (Z.of_nat (length l)) /\ m = contents pl n /\ o' = o)).
  - done.
  - intros l n rest ph m o' kk El (-> & -> & ->) Hkk. pose proof (range_at _ _ _ _ _ El) as En.
    rewrite Z.add_0_l in En. rewrite <-En. assert (n ∈ range 0 nxn_N) as Hn%elem_of_range
      by (rewrite El; apply elem_of_app; right; by left).
    apply nxn_round_safe; [done|done|]. apply Hkk. split; [|done]. rewrite length_app. simpl. f_equal. lia.
  - intros n m o' (-> & -> & ->). change (Z.of_nat (length (range 0 nxn_N))) with nxn_N.
    apply safely_for_check.
    + intros i Hi%elem_of_range. destruct (nxn_before nxn_N t i) as [Hr Hv]; [done|done|done|].
      split; [by left|exact Hv].
    + apply safely_quiet; [apply nxn_disjoint|done|by apply nxn_quiet|].
      apply report_safe; [done..|]. by apply safely_finish with (.= (0, 0)).
Qed.

Lemma print_barcfg_safe k m o :
  m (io_mutex c u) = 0 -> Failed ∉ o ->
  (forall a i, (exists xy, xy ∈ grid 0 (bsg_tiles_X c) 0 (bsg_tiles_Y c) /\
      i = xy.1 + xy.2 * bsg_tiles_X c /\ a = elem barcfg i) -> roles pl 0 a = Private (0, 0)) ->
  (forall m' o', (forall a, m' a = m a) -> Failed ∉ o' -> safely pl 0 (0, 0) k m' o') ->
  safely pl 0 (0, 0) (print_barcfg c u barcfg k) m o.
Proof using wf.
  intros Hm Ho Hr Hk. assert (roles pl 0 (io_mutex c u) = Private (0, 0)) as Hio.
  { apply (write_role (group_tiles c) nxn_writes m0 10 (reports (.= (0, 0))) nxn_disjoint 0 (0, 0) (io_mutex c u, 0));
      [by apply origin_in_group|]. cbn [nxn_writes]. rewrite tile_id_origin. apply elem_of_app. right. by left. }
  pose (I := fun (m' : loc -> Z) (o' : list packet) => (forall a, m' a = m a) /\ Failed ∉ o').
  apply (safely_for _ _ _ _ _ _ _ _ (fun _ => I)); [done| |intros m' o' []; auto].
  intros l y rest m1 o1 kk El [Hm1 Ho1] Hkk. assert (y ∈ range 0 (bsg_tiles_Y c)) as Hy%elem_of_range
    by (rewrite El; apply elem_of_app; right; by left).
  apply (safely_for _ _ _ _ _ _ _ _ (fun _ => I)); [done| |].
  - intros l' x rest' m2 o2 kk' El' [Hm2 Ho2] Hkk'. assert (x ∈ range 0 (bsg_tiles_X c)) as Hx%elem_of_range
      by (rewrite El'; apply elem_of_app; right; by left).
    apply safely_load.
    { right. apply (Hr _ (y * bsg_tiles_X c + x)). exists (x, y). rewrite elem_of_grid. simpl.
      split_and!; [lia..|lia|done]. }
    destruct (ee_vsprintf_fits [Conv [FZero] WNone PNone false (CHex false (m2 (elem barcfg (y * bsg_tiles_X c + x))));
      Lit 44]) as (s & Es & Hs); [by repeat constructor|by repeat constructor|].
    apply (printf_safe c u _ _ _ _ _ s); [exact Es|simpl in Hs; lia|done|by rewrite Hm2|].
    intros m3 Hm3. apply Hkk'. split; [intros a; by rewrite Hm3|by apply putchars_no_failure].
  - intros m2 o2 [Hm2 Ho2]. apply (printf_safe c u _ _ _ _ _ [10]); [done|done|done|by rewrite Hm2|].
    intros m3 Hm3. apply Hkk. split; [intros a; by rewrite Hm3|by apply putchars_no_failure].
Qed.

Lemma nxn_safe t : t ∈ group_tiles c -> safely pl 0 t (nxn_main c u data ruche barcfg t) m0 [].
Proof using wf fits data_ok data_zero io_ok io_free.
  intros Ht. unfold nxn_main. cbv zeta. set (rest := Sync _).
  assert (forall m o, (forall w, w ∈ nxn_writes 0 t -> m w.1 = w.2) -> Failed ∉ o -> safely pl 0 t rest m o) as Hrest.
  { intros m o Hm Ho. apply safely_sync; [| |by apply nxn_rounds_safe].
    - intros a (w & Hw & ->)%write_private. rewrite Hm by done. symmetry.
      by apply (write_next (group_tiles c) nxn_writes m0 10 _ nxn_disjoint 0 t).
    - intros a l Ha. cbn [write_plan roles] in Ha. by case_match. }
  destruct (Z.eqb_spec (tile_id c t) 0) as [E|E].
  - assert (t = (0, 0)) as -> by (by apply (tile_id_zero c wf)). unfold store_barcfg.
    assert (forall xy, xy ∈ grid 0 (bsg_tiles_X c) 0 (bsg_tiles_Y c) ->
      (elem barcfg (xy.1 + xy.2 * bsg_tiles_X c), config_val ruche (bsg_tiles_X c) (bsg_tiles_Y c) xy.1 xy.2)
        ∈ nxn_writes 0 (0, 0)) as Hw.
    { intros xy Hxy. cbn [nxn_writes]. rewrite E. apply elem_of_app. left. unfold barcfg_writes. rewrite E.
      apply list_elem_of_fmap. by exists xy. }
    apply (safely_fill _ _ _ _ (fun xy => elem barcfg (xy.1 + xy.2 * bsg_tiles_X c))
      (fun xy => config_val ruche (bsg_tiles_X c) (bsg_tiles_Y c) xy.1 xy.2)).
    + intros xy Hxy. exact (write_role _ _ m0 10 _ nxn_disjoint 0 (0, 0) _ Ht (Hw xy Hxy)).
    + intros xy xy' Hxy Hxy' Exy.
      destruct (nxn_disjoint 0 (0, 0) (0, 0) _ _ Ht Ht (Hw xy Hxy) (Hw xy' Hxy') Exy) as [_ [= _ Ev]]. done.
    + intros m Hm Hoth. apply print_barcfg_safe; [|apply not_elem_of_nil| |].
      * rewrite Hoth; [done|]. intros xy _. apply elem_not_io.
      * intros a i (xy & Hxy & -> & ->). exact (write_role _ _ m0 10 _ nxn_disjoint 0 (0, 0) _ Ht (Hw xy Hxy)).
      * intros m' o' Hm' Ho'. apply Hrest; [|done]. intros w Hin. rewrite Hm'. cbn [nxn_writes] in Hin.
        rewrite E in Hin. apply elem_of_app in Hin as [Hin|Hin%list_elem_of_singleton].
        -- unfold barcfg_writes in Hin. rewrite E in Hin. apply list_elem_of_fmap in Hin as (xy & -> & Hxy). by apply Hm.
        -- subst w. simpl. rewrite Hoth; [done|]. intros xy _. apply elem_not_io.
  - apply Hrest; [|apply not_elem_of_nil]. intros w Hw. cbn [nxn_writes] in Hw.
    destruct (Z.eqb_spec (tile_id c t) 0); [done|]. by apply not_elem_of_nil in Hw.
Qed.
End nxn.

(** ** [bsg_barrier] and [bsg_tile_group_barrier] *)

(** The characters of a formatted text. *)
Definition text (fmt : list Z) (args : list arg) : list packet :=
  Putchar <$> match ee_vsprintf fmt args with Ok s => s | _ => [] end.

Lemma printf_text {Tid} c u (pl : plan Tid) n t fmt items args k m o :
  Forall wf_item items -> Forall plain_item items -> fold_right Z.add 0 (map item_room items) < 256 ->
  List.concat (map show_item items) = fmt -> List.concat (map item_args items) = args ->
  roles pl n (io_mutex c u) = Private t -> m (io_mutex c u) = 0 ->
  (forall m', (forall a, m' a = m a) -> safely pl n t k m' (o ++ text fmt args)) ->
  safely pl n t (bsg_printf c u fmt args k) m o.
Proof.
  intros Hwf Hpl Hroom <- <- Hr Hm Hk. destruct (ee_vsprintf_fits items Hwf Hpl) as (s & Es & Hs).
  apply (printf_safe c u _ _ _ _ _ s); [done|lia|done|done|]. unfold text in Hk. by rewrite Es in Hk.
Qed.

(** ["data[%d][%d]="], and the conversion of the value. *)
Definition matrix_items (i j : Z) (last : item) : list item :=
  map Lit (chars "data[") ++ [Conv [] WNone PNone false (CDec false i)] ++ map Lit (chars "][") ++
  [Conv [] WNone PNone false (CDec false j)] ++ map Lit (chars "]=") ++ [last; Lit 10].

Section matrix.
Variable c : config.
Variable u : eva_unit.
Variable data : Z.
Variable m0 : loc -> Z.
Variable out : Z * Z -> list packet.
Hypothesis wf : wf_config c.
Hypothesis io_free : m0 (io_mutex c u) = 0.

Definition mine (t : Z * Z) : loc := matrix_word c data t.1 t.2.

Lemma mine_id t : t ∈ group_tiles c ->
  matrix_word c data (bsg_id_to_x c (tile_id c t)) (bsg_id_to_y c (tile_id c t)) = mine t.
Proof using wf.
  intros Ht. pose proof (id_tile_id c wf t Ht) as E. pose proof (tile_id_range c wf t Ht). destruct wf as (? & ? & _).
  unfold mine, bsg_id_to_x, bsg_id_to_y. rewrite <-E at 3 4. unfold id_tile. simpl.
  by rewrite Z.rem_mod_nonneg, Z.quot_div_nonneg by lia.
Qed.

Lemma mine_inj t t' : t ∈ group_tiles c -> t' ∈ group_tiles c -> mine t = mine t' -> t = t'.
Proof using wf.
  destruct t as [x y], t' as [x' y']. rewrite !elem_of_group. intros [Hx Hy] [Hx' Hy'] E.
  destruct wf as (? & ? & _). apply elem_inj in E; [|norm_pow2; simpl; nia]. simpl in E.
  assert (x = x' /\ y = y') as [-> ->]; [|done]. apply (Z.div_mod_unique (bsg_tiles_Y c)); lia.
Qed.

Definition matrix_writes (n : nat) (t : Z * Z) : list (loc * Z) :=
  match n with
  | 0%nat => [(mine t, tile_id c t)]
  | 2%nat => [(mine t, 0)]
  | 1%nat | 3%nat => if tile_id c t =? 0 then [(io_mutex c u, 0)] else []
  | _ => []
  end.

Lemma matrix_disjoint n t t' w w' : t ∈ group_tiles c -> t' ∈ group_tiles c ->
  w ∈ matrix_writes n t -> w' ∈ matrix_writes n t' -> w.1 = w'.1 -> t = t' /\ w = w'.
Proof using wf.
  intros Ht Ht' Hw Hw' E. destruct n as [|[|[|[|n]]]]; cbn [matrix_writes] in *;
    try (by apply not_elem_of_nil in Hw).
  1,3: apply list_elem_of_singleton in Hw as ->; apply list_elem_of_singleton in Hw' as ->;
    apply mine_inj in E as ->; done.
  all: destruct (Z.eqb_spec (tile_id c t) 0) as [E0|]; [|by apply not_elem_of_nil in Hw];
    destruct (Z.eqb_spec (tile_id c t') 0) as [E0'|]; [|by apply not_elem_of_nil in Hw'];
    apply list_elem_of_singleton in Hw as ->; apply list_elem_of_singleton in Hw' as ->;
    rewrite (tile_id_zero c wf t Ht E0), (tile_id_zero c wf t' Ht' E0'); done.
Qed.

#[local] Abbreviation pl := (write_plan (group_tiles c) matrix_writes m0 3 (has_sent out)).

Definition matrix_text (fmt : list Z) (v : Z * Z -> Z) : list packet :=
  pairs (range 0 (bsg_tiles_X c)) (range 0 (bsg_tiles_Y c)) ≫= fun ij =>
    text fmt [AInt ij.1; AInt ij.2; AInt (v ij)].

(** The I/O mutex while tile (0,0) prints, and the matrix it prints. *)
Lemma print_phase n : n = 1%nat \/ n = 3%nat ->
  roles pl n (io_mutex c u) = Private (0, 0) /\ contents pl n (io_mutex c u) = 0 /\
  forall t, t ∈ group_tiles c -> legible pl n (0, 0) (mine t) /\
    contents pl n (mine t) = if decide (n = 1%nat) then tile_id c t else 0.
Proof using wf io_free.
  intros Hn. pose proof (origin_in_group c wf) as H0.
  assert (forall t j, mine t <> io_mutex c u /\ (j = 0%nat \/ j = 2%nat ->
    contents pl (S j) (io_mutex c u) = contents pl j (io_mutex c u))) as Hio.
  { intros t j. split; [apply elem_not_io|]. intros Hj. apply write_fixed. intros t' _ H.
    destruct Hj as [-> | ->]; apply list_elem_of_singleton in H; symmetry in H; by apply elem_not_io in H. }
  assert ((io_mutex c u, 0) ∈ matrix_writes 1 (0, 0) /\ (io_mutex c u, 0) ∈ matrix_writes 3 (0, 0)) as [W1 W3]
    by (cbn [matrix_writes]; rewrite tile_id_origin; split; by left).
  assert (contents pl 1 (io_mutex c u) = 0) as E1 by (rewrite (proj2 (Hio (0, 0) 0%nat)); [done|by left]).
  assert (contents pl 3 (io_mutex c u) = 0) as E3.
  { rewrite (proj2 (Hio (0, 0) 2%nat)) by (by right).
    exact (write_next (group_tiles c) matrix_writes m0 3 (has_sent out) matrix_disjoint 1 (0, 0) _ H0 W1). }
  split_and!.
  - destruct Hn as [-> | ->]; by apply (write_role (group_tiles c) matrix_writes m0 3 (has_sent out) matrix_disjoint _ (0, 0) (io_mutex c u, 0)).
  - by destruct Hn as [-> | ->].
  - intros t Ht. split.
    + left. apply write_fixed. intros t' _ H.
      destruct Hn as [-> | ->]; cbn [matrix_writes] in H; destruct (tile_id c t' =? 0);
        try (by apply not_elem_of_nil in H); apply list_elem_of_singleton in H; exact (proj1 (Hio t 0%nat) H).
    + destruct Hn as [-> | ->];
        [apply (write_next _ matrix_writes m0 3 (has_sent out) matrix_disjoint 0 t (mine t, tile_id c t) Ht)
        |apply (write_next _ matrix_writes m0 3 (has_sent out) matrix_disjoint 2 t (mine t, 0) Ht)]; by left.
Qed.

Lemma print_matrix_safe n fmt last v k o :
  n = 1%nat \/ n = 3%nat ->
  (forall i j z, List.concat (map show_item (matrix_items i j (last z))) = fmt /\ wf_item (last z) /\
     plain_item (last z) /\ item_room (last z) = 35 /\ item_args (last z) = [AInt z]) ->
  (forall t, t ∈ group_tiles c -> contents pl n (mine t) = v t) ->
  (forall m, (forall a, m a = contents pl n a) -> safely pl n (0, 0) k m (o ++ matrix_text fmt v)) ->
  safely pl n (0, 0) (print_matrix c u data fmt k) (contents pl n) o.
Proof using wf io_free.
  intros Hn Hfmt Hv Hk. destruct (print_phase n Hn) as (Hr & Hio & Hmine). unfold print_matrix.
  rewrite <-(for_pairs _ _ (fun ij k => Load (matrix_word c data ij.1 ij.2) (fun z =>
    bsg_printf c u fmt [AInt ij.1; AInt ij.2; AInt z] k))).
  apply (safely_for _ _ _ _ _ _ _ _ (fun l m' o' => (forall a, m' a = contents pl n a) /\
    o' = o ++ (l ≫= fun ij => text fmt [AInt ij.1; AInt ij.2; AInt (v ij)]))).
  - split; [done|]. by rewrite app_nil_r.
  - intros l [i j] rest m1 o1 kk El [Hm1 ->] Hkk.
    assert ((i, j) ∈ group_tiles c) as Hij.
    { apply elem_of_group. assert ((i, j) ∈ pairs (range 0 (bsg_tiles_X c)) (range 0 (bsg_tiles_Y c))) as H
        by (rewrite El; apply elem_of_app; right; by left).
      by rewrite elem_of_pairs, !elem_of_range in H. }
    destruct (Hmine (i, j) Hij) as [Hleg Hval]. apply safely_load; [exact Hleg|].
    change (matrix_word c data (i, j).1 (i, j).2) with (mine (i, j)). rewrite Hm1, (Hv (i, j)) by done.
    destruct (Hfmt i j (v (i, j))) as (Ef & Hw & Hp & Hroom & Harg).
    apply (printf_text c u _ _ _ _ (matrix_items i j (last (v (i, j))))).
    + unfold matrix_items. repeat first [constructor|done|apply Forall_app; split].
    + unfold matrix_items. repeat first [constructor|done|apply Forall_app; split].
    + unfold matrix_items. simpl. rewrite Hroom. lia.
    + exact Ef.
    + unfold matrix_items. simpl. by rewrite Harg.
    + done.
    + by rewrite Hm1.
    + intros m2 Hm2. apply Hkk. split; [intros a; by rewrite Hm2|].
      rewrite bind_app, bind_cons. cbn [mbind list_bind]. by rewrite app_nil_r, app_assoc.
  - intros m' o' [Hm' ->]. by apply Hk.
Qed.

(** What follows the first barrier, the same in both programs. *)
Definition barrier_rest (t : Z * Z) : prog :=
  let id := tile_id c t in
  let rest := Sync (Store (mine t) 0 (Sync (if id =? 0 then print_matrix c u data fmt_dec finish else Done))) in
  if id =? 0 then print_matrix c u data fmt_hex rest else rest.

Definition rest_out (t : Z * Z) : list packet :=
  if tile_id c t =? 0
  then matrix_text fmt_hex (tile_id c) ++ matrix_text fmt_dec (fun _ => 0) ++ [Finished] else [].

Lemma last_phase_safe t o : t ∈ group_tiles c ->
  out t = o ++ (if tile_id c t =? 0 then matrix_text fmt_dec (fun _ => 0) ++ [Finished] else []) ->
  safely pl 2 t (Store (mine t) 0 (Sync (if tile_id c t =? 0 then print_matrix c u data fmt_dec finish else Done)))
    (contents pl 2) o.
Proof using wf io_free.
  intros Ht Ho. apply (safely_phase (group_tiles c) matrix_writes m0 3 (has_sent out) matrix_disjoint 2 t
    [(mine t, 0)] _ _ _ Ht eq_refl). destruct (Z.eqb_spec (tile_id c t) 0) as [E|E].
  - assert (t = (0, 0)) as -> by (by apply (tile_id_zero c wf)).
    apply (print_matrix_safe 3 _ (fun z => Conv [] WNone PNone false (CDec false z)) (fun _ => 0)); [by right| | |].
    + intros i j z. split_and!; try done; by repeat constructor.
    + intros t' Ht'. by destruct (print_phase 3 ltac:(by right)) as (_ & _ & H); apply H.
    + intros m Hm. apply safely_send, safely_done; [done|]. cbn [write_plan post]. unfold has_sent.
      by rewrite Ho, app_assoc.
  - apply safely_done; [done|]. cbn [write_plan post]. unfold has_sent. by rewrite Ho, app_nil_r.
Qed.

Lemma barrier_rest_safe t o : t ∈ group_tiles c -> out t = o ++ rest_out t ->
  safely pl 1 t (barrier_rest t) (contents pl 1) o.
Proof using wf io_free.
  intros Ht Ho. unfold barrier_rest, rest_out in *. cbv zeta.
  pose proof (fun o Ho => last_phase_safe t o Ht Ho) as Hlast.
  destruct (Z.eqb_spec (tile_id c t) 0) as [E|E].
  - assert (t = (0, 0)) as -> by (by apply (tile_id_zero c wf)).
    destruct (print_phase 1 ltac:(by left)) as (_ & Hio & Hval).
    apply (print_matrix_safe 1 _ (fun z => Conv [FZero] (WNum 8) PNone false (CHex false z)) (tile_id c)); [by left| | |].
    + intros i j z. split_and!; try done; by repeat constructor.
    + intros t' Ht'. by apply Hval.
    + intros m Hm. apply safely_sync; [| |apply Hlast; by rewrite Ho, app_assoc].
      * intros a (w & Hw & ->)%write_private. rewrite Hm. pose proof Hw as Hw'. cbn [matrix_writes] in Hw'.
        rewrite tile_id_origin in Hw'. apply list_elem_of_singleton in Hw' as ->. simpl fst.
        rewrite Hio. symmetry. exact (write_next _ matrix_writes m0 3 (has_sent out) matrix_disjoint 1 (0, 0) _ Ht Hw).
      * intros a l Ha. cbn [write_plan roles] in Ha. by case_match.
  - apply safely_quiet; [apply matrix_disjoint|done| |apply Hlast; by rewrite Ho].
    cbn [matrix_writes]. by destruct (Z.eqb_spec (tile_id c t) 0).
Qed.

Lemma group_barrier_safe t : t ∈ group_tiles c -> out t = rest_out t ->
  safely pl 0 t (bsg_tile_group_barrier_main c u data t) m0 [].
Proof using wf io_free.
  intros Ht Ho. unfold bsg_tile_group_barrier_main. cbv zeta. change (bsg_x_y_to_id c t.1 t.2) with (tile_id c t).
  rewrite mine_id by done. apply (safely_phase (group_tiles c) matrix_writes m0 3 (has_sent out) matrix_disjoint 0 t
    [(mine t, tile_id c t)] _ _ _ Ht eq_refl). by apply barrier_rest_safe.
Qed.

Lemma barrier_main_safe t : t ∈ group_tiles c ->
  out t = (if tile_id c t =? 0 then [PrintTime; PrintTime] else []) ++ rest_out t ->
  safely pl 0 t (bsg_barrier_main c u data t) m0 [].
Proof using wf io_free.
  intros Ht Ho.
  assert (bsg_barrier_main c u data t =
    Store (mine t) (tile_id c t) (print_time t (Sync (print_time t (barrier_rest t))))) as ->.
  { unfold bsg_barrier_main, barrier_rest. cbv zeta. change (bsg_x_y_to_id c t.1 t.2) with (tile_id c t).
    by rewrite mine_id. }
  assert ((t.1 =? 0) && (t.2 =? 0) = (tile_id c t =? 0)) as Et.
  { destruct (Z.eqb_spec (tile_id c t) 0) as [E|E]; [by rewrite (tile_id_zero c wf t Ht E)|].
    destruct t as [x y]. simpl. destruct (Z.eqb_spec x 0) as [->|], (Z.eqb_spec y 0) as [->|]; try done.
    by rewrite tile_id_origin in E. }
  assert (forall m o, m (mine t) = tile_id c t ->
    safely pl 1 t (print_time t (barrier_rest t)) (contents pl 1) o ->
    safely pl 0 t (Sync (print_time t (barrier_rest t))) m o) as Hsync.
  { intros m o Hm Hk. apply safely_sync; [| |done].
    - intros a (w & Hw & ->)%write_private. pose proof Hw as Hw'. apply list_elem_of_singleton in Hw' as ->.
      simpl fst. rewrite Hm. symmetry.
      exact (write_next _ matrix_writes m0 3 (has_sent out) matrix_disjoint 0 t _ Ht Hw).
    - intros a l Ha. cbn [write_plan roles] in Ha. by case_match. }
  apply safely_store.
  { apply (write_role (group_tiles c) matrix_writes m0 3 (has_sent out) matrix_disjoint 0 t (mine t, tile_id c t) Ht).
    by left. }
  unfold print_time in *. rewrite Et in *. destruct (tile_id c t =? 0).
  - apply safely_send, Hsync; [by rewrite fn_lookup_insert|]. apply safely_send. by apply barrier_rest_safe.
  - apply Hsync; [by rewrite fn_lookup_insert|]. by apply barrier_rest_safe.
Qed.
End matrix.

(** ** [bsg_tile_group_mem] *)

Section shared_mem.
Variable c : config.
Variable u : eva_unit.
Variable data : Z.
Variable m0 : loc -> Z.
Hypothesis wf : wf_config c.
Hypothesis tiles_16 : bsg_num_tiles c = 16.
Hypothesis fits : group_fits c u.
Hypothesis data_ok : dmem_array data 1.
Hypothesis io_ok : io_apart c u.
Hypothesis io_free : m0 (io_mutex c u) = 0.

Lemma shared_word_tile i : 0 <= i < 16 -> shared_word c u data i = local_word data u (id_tile c i) 0.
Proof using wf tiles_16 fits data_ok.
  intros Hi. unfold shared_word. unfold bsg_num_tiles in tiles_16. destruct data_ok as (? & Hm & Hd).
  rewrite bsg_tile_group_shared_ptr_sum; [|done|lia..|].
  2: { rewrite tiles_16, (Z.div_small i) by lia. lia. }
  assert (id_tile c i ∈ group_tiles c) as Ht by (apply (id_tile_in c wf); unfold bsg_num_tiles; lia).
  unfold id_tile in *. apply elem_of_group in Ht as [Hx Hy].
  rewrite tiles_16, (Z.div_small i 16), Z.mul_0_r, Z.add_0_r, (Z.mod_small (i / _)) by lia.
  rewrite <-(remote_word_local c u wf data 1) by (done || lia). unfold remote_word.
  rewrite Z.mul_0_r, Z.add_0_r, u32_id by (unfold is_u32; lia). done.
Qed.

(** The element a tile writes, and the one that is written to it. *)
Definition written_by (id : Z) : Z := (id + 2) mod 16.
Definition writer_of (e : Z) : Z := (e - 2) mod 16.

Definition mem_writes (n : nat) (t : Z * Z) : list (loc * Z) :=
  match n with
  | 0%nat => [(local_word data u (id_tile c (written_by (tile_id c t))) 0, tile_id c t)]
  | 2%nat => if tile_id c t =? 0 then [(io_mutex c u, 0)] else []
  | _ => []
  end.

Lemma mem_disjoint n t t' w w' : t ∈ group_tiles c -> t' ∈ group_tiles c ->
  w ∈ mem_writes n t -> w' ∈ mem_writes n t' -> w.1 = w'.1 -> t = t' /\ w = w'.
Proof using wf tiles_16.
  intros Ht Ht' Hw Hw' E. pose proof (tile_id_range c wf t Ht). pose proof (tile_id_range c wf t' Ht').
  destruct n as [|[|[|n]]]; cbn [mem_writes] in *; try (by apply not_elem_of_nil in Hw).
  - apply list_elem_of_singleton in Hw as ->. apply list_elem_of_singleton in Hw' as ->.
    apply local_word_inj in E as [E _]. apply (f_equal (tile_id c)) in E. unfold written_by in E.
    rewrite !tile_id_tile in E by (done || (apply Z.mod_pos_bound; lia)).
    assert (tile_id c t = tile_id c t') as Eid by (apply (mod_shift_inj _ _ 2 16); lia).
    by apply (tile_id_inj c wf) in Eid as ->.
  - destruct (Z.eqb_spec (tile_id c t) 0) as [E0|]; [|by apply not_elem_of_nil in Hw].
    destruct (Z.eqb_spec (tile_id c t') 0) as [E0'|]; [|by apply not_elem_of_nil in Hw'].
    apply list_elem_of_singleton in Hw as ->. apply list_elem_of_singleton in Hw' as ->.
    by rewrite (tile_id_zero c wf t Ht E0), (tile_id_zero c wf t' Ht' E0').
Qed.

Definition debug_out (t : Z * Z) : list packet := debug_before c t ++ debug_after c t.

Definition mem_out (t : Z * Z) : list packet :=
  debug_out t ++ debug_out t ++
  (if tile_id c t =? 0 then range 0 16 ≫= fun i => text fmt_check [AInt i; AInt (writer_of i)] else []) ++
  debug_out t ++ (if tile_id c t =? 0 then [Finished] else []).

#[local] Abbreviation pl := (write_plan (group_tiles c) mem_writes m0 3 (has_sent mem_out)).

Lemma mem_word i : 0 <= i < 16 ->
  legible pl 1 (id_tile c i) (shared_word c u data i) /\ roles pl 1 (shared_word c u data i) = Fixed /\
  contents pl 1 (shared_word c u data i) = writer_of i.
Proof using wf tiles_16 fits data_ok.
  intros Hi. assert (roles pl 1 (shared_word c u data i) = Fixed) as Hr
    by (apply write_fixed; intros; apply not_elem_of_nil).
  split_and!; [by left|done|]. rewrite shared_word_tile by done.
  pose proof (Z.mod_pos_bound (i - 2) 16 ltac:(lia)) as Hw.
  apply (write_next _ mem_writes m0 3 (has_sent mem_out) mem_disjoint 0 (id_tile c (writer_of i))
    (local_word data u (id_tile c i) 0, writer_of i)); [apply (id_tile_in c wf); unfold writer_of; lia|].
  cbn [mem_writes]. rewrite tile_id_tile by (done || (unfold writer_of; lia)).
  assert (written_by (writer_of i) = i) as ->; [|by left].
  unfold written_by, writer_of. rewrite Z.add_mod_idemp_l by lia. rewrite Z.sub_add. by apply Z.mod_small.
Qed.

(** The barrier that sends, and a phase without stores before it. *)
Lemma safely_debug_sync n t k m o :
  (forall a, roles pl n a = Private t -> m a = contents pl (S n) a) ->
  safely pl (S n) t k (contents pl (S n)) (o ++ debug_out t) ->
  safely pl n t (debug_sync c t k) m o.
Proof using Type.
  intros Hm Hk. apply safely_sends, safely_sync; [done| |].
  - intros a l Ha. cbn [write_plan roles] in Ha. by case_match.
  - apply safely_sends. by rewrite <-app_assoc.
Qed.

Lemma safely_debug_quiet n t k m o : mem_writes n t = [] ->
  safely pl (S n) t k (contents pl (S n)) (o ++ debug_out t) ->
  safely pl n t (debug_sync c t k) m o.
Proof using Type.
  intros Hw Hk. apply safely_debug_sync; [|done]. intros a (w & Hin & _)%write_private.
  rewrite Hw in Hin. by apply not_elem_of_nil in Hin.
Qed.

Lemma group_mem_safe t : t ∈ group_tiles c -> safely pl 0 t (tile_group_mem_main c u data t) m0 [].
Proof using wf tiles_16 fits data_ok io_ok io_free.
  intros Ht. pose proof (tile_id_range c wf t Ht) as Hid. unfold tile_group_mem_main. cbv zeta.
  change (bsg_x_y_to_id c t.1 t.2) with (tile_id c t).
  rewrite (i32_id (tile_id c t + 2)), Z.rem_mod_nonneg by (unfold is_i32; lia).
  rewrite shared_word_tile by (apply Z.mod_pos_bound; lia).
  apply (safely_phase_sends _ mem_writes m0 3 (has_sent mem_out) mem_disjoint 0 t
    [(local_word data u (id_tile c (written_by (tile_id c t))) 0, tile_id c t)] _ _ _ _ Ht eq_refl).
  apply safely_sends. rewrite <-app_assoc. fold (debug_out t). rewrite app_nil_l. apply safely_load_list.
  { intros a Ha. apply list_elem_of_fmap in Ha as (i & -> & Hi%elem_of_range). left. by apply mem_word. }
  assert (contents pl 1 <$> (shared_word c u data <$> range 0 16) = writer_of <$> range 0 16) as ->.
  { rewrite <-list_fmap_compose. apply list_fmap_ext. intros ? i Hi%list_elem_of_lookup_2%elem_of_range.
    by apply mem_word. }
  apply safely_debug_quiet; [done|]. destruct (Z.eqb_spec (tile_id c t) 0) as [E|E].
  - assert (t = (0, 0)) as -> by (by apply (tile_id_zero c wf)).
    assert ((io_mutex c u, 0) ∈ mem_writes 2 (0, 0)) as Hw
      by (cbn [mem_writes]; rewrite tile_id_origin; by left).
    assert (contents pl 2 (io_mutex c u) = 0) as Hio.
    { transitivity (contents pl 1 (io_mutex c u)); [apply write_fixed; intros; apply not_elem_of_nil|].
      transitivity (m0 (io_mutex c u)); [|done]. apply write_fixed. intros t' _ H.
      apply list_elem_of_singleton in H. symmetry in H. apply io_ok in H; [done|].
      apply (id_tile_in c wf). rewrite tiles_16. apply Z.mod_pos_bound. lia. }
    replace (zip (range 0 16) (writer_of <$> range 0 16)) with ((fun i => (i, writer_of i)) <$> range 0 16)
      by (by rewrite <-(zip_with_fmap pair id), list_fmap_id).
    rewrite for_fmap.
    apply (safely_for _ _ _ _ _ _ _ _ (fun l m' o' => (forall a, m' a = contents pl 2 a) /\
      o' = (debug_out (0, 0) ++ debug_out (0, 0)) ++
             (l ≫= fun i => text fmt_check [AInt i; AInt (writer_of i)]))); [by rewrite app_nil_r| |].
    + intros l i rest m1 o1 kk El [Hm1 ->] Hkk.
      apply (printf_text c u _ _ _ _ (map Lit (chars "Check Print:" ++ [9] ++ chars "sh_mem[") ++
        [Conv [] WNone PNone false (CDec false i)] ++ map Lit (chars "] = ") ++
        [Conv [] WNone PNone false (CDec false (writer_of i)); Lit 10])).
      * by repeat first [constructor|done|apply Forall_app; split].
      * by repeat first [constructor|done|apply Forall_app; split].
      * done.
      * done.
      * done.
      * by apply (write_role _ mem_writes m0 3 (has_sent mem_out) mem_disjoint 2 (0, 0) (io_mutex c u, 0)).
      * by rewrite Hm1.
      * intros m2 Hm2. apply Hkk. split; [intros a; by rewrite Hm2|].
        rewrite bind_app, bind_cons. cbn [mbind list_bind]. by rewrite app_nil_r, <-!app_assoc.
    + intros m o [Hm ->]. apply safely_debug_sync.
      * intros a (w & Hin & ->)%write_private. rewrite Hm. pose proof Hin as Hin'. cbn [mem_writes] in Hin'.
        rewrite tile_id_origin in Hin'. apply list_elem_of_singleton in Hin' as ->. simpl fst. rewrite Hio. symmetry.
        exact (write_next _ mem_writes m0 3 (has_sent mem_out) mem_disjoint 2 (0, 0) _ Ht Hw).
      * apply safely_send, safely_done; [done|]. cbn [write_plan post]. unfold has_sent, mem_out.
        rewrite tile_id_origin. by rewrite <-!app_assoc.
  - apply safely_debug_quiet.
    + cbn [mem_writes]. by destruct (Z.eqb_spec (tile_id c t) 0).
    + apply safely_done; [done|]. cbn [write_plan post]. unfold has_sent, mem_out.
      destruct (Z.eqb_spec (tile_id c t) 0); [done|]. by rewrite !app_nil_r, app_assoc.
Qed.
End shared_mem.

(** ** [bsg_transpose] *)

Section transposing.
Variable c : config.
Variable u : eva_unit.
Variables data dest : Z.
Variable m0 : loc -> Z.
Hypothesis wf : wf_config c.
Hypothesis dims : bsg_tiles_X c = TILE_DIM /\ bsg_tiles_Y c = TILE_DIM.
Hypothesis fits : group_fits c u.
Hypothesis data_ok : dmem_array data (SUB_ROW_NUM * SUB_COL_NUM).
Hypothesis dest_ok : dmem_array dest (SUB_ROW_NUM * SUB_COL_NUM).
Hypothesis apart : data + 24 <= dest \/ dest + 24 <= data.

(** The element of the matrix in row [i] and column [j]. *)
Definition entry (i j : Z) : Z := i * 65536 + j.

Lemma source_entry t i j : t ∈ group_tiles c -> (i, j) ∈ sub_indices ->
  source_value t i j = entry (i + t.2 * SUB_ROW_NUM) (j + t.1 * SUB_COL_NUM) /\
  0 <= i < SUB_ROW_NUM /\ 0 <= j < SUB_COL_NUM.
Proof using dims.
  destruct t as [x y], dims as [EX EY]. rewrite elem_of_group, EX, EY.
  unfold sub_indices. rewrite elem_of_pairs, !elem_of_range. unfold TILE_DIM, SUB_ROW_NUM, SUB_COL_NUM.
  intros [Hx Hy] [Hi Hj]. split; [|done]. unfold source_value, entry, SUB_ROW_NUM, SUB_COL_NUM. simpl fst. simpl snd.
  rewrite (i32_id (y * 2)), (i32_id (i + y * 2)), (i32_id (x * 3)), (i32_id (j + x * 3)) by (unfold is_i32; lia).
  rewrite i32_id by (rewrite Z.shiftl_mul_pow2 by lia; unfold is_i32; lia).
  rewrite lor_shiftl_add by lia. lia.
Qed.

Definition source_word (t ij : Z * Z) : loc := local_word data u t (ij.1 * SUB_COL_NUM + ij.2).
Definition dest_word (t ij : Z * Z) : loc := local_word dest u t (ij.2 * SUB_ROW_NUM + ij.1).
Definition source_of (t ij : Z * Z) : Z := source_value t ij.1 ij.2.
Definition swap (t : Z * Z) : Z * Z := (t.2, t.1).

Definition transpose_writes (n : nat) (t : Z * Z) : list (loc * Z) :=
  match n with
  | 0%nat => (fun ij => (source_word t ij, source_of t ij)) <$> sub_indices
  | 1%nat => (fun ij => (dest_word t ij, source_of (swap t) ij)) <$> sub_indices
  | _ => []
  end.

Lemma sub_range ij : ij ∈ sub_indices <-> 0 <= ij.1 < SUB_ROW_NUM /\ 0 <= ij.2 < SUB_COL_NUM.
Proof using. destruct ij as [i j]. unfold sub_indices. by rewrite elem_of_pairs, !elem_of_range. Qed.

Lemma source_word_inj t t' ij ij' : ij ∈ sub_indices -> ij' ∈ sub_indices ->
  source_word t ij = source_word t' ij' -> t = t' /\ ij = ij'.
Proof using.
  destruct ij as [i j], ij' as [i' j']. rewrite !sub_range. unfold SUB_ROW_NUM, SUB_COL_NUM. simpl.
  intros Hij Hij' [-> E]%local_word_inj. unfold SUB_COL_NUM in E. simpl in E. split; [done|f_equal; lia].
Qed.

Lemma dest_word_inj t t' ij ij' : ij ∈ sub_indices -> ij' ∈ sub_indices ->
  dest_word t ij = dest_word t' ij' -> t = t' /\ ij = ij'.
Proof using.
  destruct ij as [i j], ij' as [i' j']. rewrite !sub_range. unfold SUB_ROW_NUM, SUB_COL_NUM. simpl.
  intros Hij Hij' [-> E]%local_word_inj. unfold SUB_ROW_NUM in E. simpl in E. split; [done|f_equal; lia].
Qed.

Lemma source_not_dest t t' ij ij' : ij ∈ sub_indices -> ij' ∈ sub_indices -> source_word t ij <> dest_word t' ij'.
Proof using apart.
  rewrite !sub_range. unfold SUB_ROW_NUM, SUB_COL_NUM. intros Hij Hij' [_ E]%local_word_inj.
  unfold SUB_ROW_NUM, SUB_COL_NUM in E. lia.
Qed.

Lemma transpose_disjoint n t t' w w' : t ∈ group_tiles c -> t' ∈ group_tiles c ->
  w ∈ transpose_writes n t -> w' ∈ transpose_writes n t' -> w.1 = w'.1 -> t = t' /\ w = w'.
Proof using.
  intros _ _ Hw Hw' E. destruct n as [|[|n]]; cbn [transpose_writes] in *; [..|by apply not_elem_of_nil in Hw];
    apply list_elem_of_fmap in Hw as (ij & -> & Hij), Hw' as (ij' & -> & Hij').
  - by apply source_word_inj in E as [-> ->].
  - by apply dest_word_inj in E as [-> ->].
Qed.

(** The matrix, row by row. *)
Definition transpose_out (t : Z * Z) : list packet :=
  if tile_id c t =? 0
  then [IoStore 0 0xcab0; IoStore 0 0xcab1] ++
       ((fun ij => IoStore 0 (entry ij.1 ij.2)) <$> pairs (range 0 MATRIX_ROWS) (range 0 MATRIX_COLS)) ++ [Finished]
  else [].

#[local] Abbreviation pl := (write_plan (group_tiles c) transpose_writes m0 2 (has_sent transpose_out)).

Lemma swap_in t : t ∈ group_tiles c -> swap t ∈ group_tiles c.
Proof using dims. destruct t as [x y], dims as [EX EY]. unfold swap. rewrite !elem_of_group, EX, EY. intros []; by split. Qed.

Lemma source_at t ij : t ∈ group_tiles c -> ij ∈ sub_indices ->
  roles pl 1 (source_word t ij) = Fixed /\ contents pl 1 (source_word t ij) = source_of t ij.
Proof using apart.
  intros Ht Hij. split.
  - apply write_fixed. intros t' _ H. apply list_elem_of_fmap in H as (w & E & Hw).
    apply list_elem_of_fmap in Hw as (ij' & -> & Hij'). by apply source_not_dest in E.
  - apply (write_next _ transpose_writes m0 2 (has_sent transpose_out) transpose_disjoint 0 t
      (source_word t ij, source_of t ij) Ht). apply list_elem_of_fmap. by exists ij.
Qed.

Lemma dest_in t ij : ij ∈ sub_indices -> (dest_word t ij, source_of (swap t) ij) ∈ transpose_writes 1 t.
Proof using. intros Hij. apply list_elem_of_fmap. by exists ij. Qed.

Lemma transpose_safe t k o : t ∈ group_tiles c ->
  safely pl 2 t k (contents pl 2) o ->
  safely pl 1 t (transpose u data dest t (Sync k)) (contents pl 1) o.
Proof using wf dims fits data_ok apart.
  intros Ht Hk. pose proof (swap_in t Ht) as Hs. unfold transpose.
  apply (safely_for _ _ _ _ _ _ _ _ (fun l m o' => o' = o /\
    (forall ij, ij ∈ l -> m (dest_word t ij) = source_of (swap t) ij) /\
    (forall a, (forall ij, ij ∈ sub_indices -> a <> dest_word t ij) -> m a = contents pl 1 a))).
  - split_and!; [done|intros ij H; by apply not_elem_of_nil in H|done].
  - intros l ij rest m o' kk El (-> & Hd & Hm) Hkk.
    assert (ij ∈ sub_indices) as Hij by (rewrite El; apply elem_of_app; right; by left).
    assert (remote_word data u t.2 t.1 (ij.1 * SUB_COL_NUM + ij.2) = source_word (swap t) ij) as ->.
    { destruct t as [x y]. apply elem_of_group in Hs. apply sub_range in Hij. revert Hij.
      unfold SUB_ROW_NUM, SUB_COL_NUM. intros Hij.
      apply (remote_word_local c u wf data (SUB_ROW_NUM * SUB_COL_NUM)); [done|done| |apply Hs..].
      unfold SUB_ROW_NUM, SUB_COL_NUM. lia. }
    destruct (source_at (swap t) ij Hs Hij) as [Hr Hv]. apply safely_load; [by left|].
    rewrite Hm, Hv by (intros ij' Hij'; by apply source_not_dest).
    apply safely_store.
    { exact (write_role _ transpose_writes m0 2 (has_sent transpose_out) transpose_disjoint 1 t _ Ht (dest_in t ij Hij)). }
    change (local_word dest u t (ij.2 * SUB_ROW_NUM + ij.1)) with (dest_word t ij).
    apply Hkk. split_and!; [done| |].
    + intros ij' [Hl|Hl%list_elem_of_singleton]%elem_of_app; [|subst ij'; by rewrite fn_lookup_insert].
      destruct (decide (ij' = ij)) as [->|Hne]; [by rewrite fn_lookup_insert|].
      rewrite fn_lookup_insert_ne; [by apply Hd|]. intros E. apply Hne.
      assert (ij' ∈ sub_indices) as Hij' by (rewrite El; apply elem_of_app; by left).
      by apply dest_word_inj in E as [_ ->].
    + intros a Ha. rewrite fn_lookup_insert_ne; [by apply Hm|]. intros E. by apply (Ha ij).
  - intros m o' (-> & Hd & _). apply safely_sync; [| |done].
    + intros a (w & Hw & ->)%write_private. rewrite (write_next _ transpose_writes m0 2 (has_sent transpose_out)
        transpose_disjoint 1 t w Ht Hw). apply list_elem_of_fmap in Hw as (ij & -> & Hij). by apply Hd.
    + intros a l Ha. cbn [write_plan roles] in Ha. by case_match.
Qed.

Lemma print_result_safe k o :
  (forall m, safely pl 2 (0, 0) k m (o ++ ((fun ij => IoStore 0 (entry ij.1 ij.2)) <$>
    pairs (range 0 MATRIX_ROWS) (range 0 MATRIX_COLS)))) ->
  safely pl 2 (0, 0) (print_result u dest k) (contents pl 2) o.
Proof using wf dims fits dest_ok.
  intros Hk. unfold print_result.
  apply (safely_for _ _ _ _ _ _ _ _ (fun l m o' => m = contents pl 2 /\
    o' = o ++ ((fun ij => IoStore 0 (entry ij.1 ij.2)) <$> l))).
  - split; [done|]. by rewrite app_nil_r.
  - intros l [i j] rest m o' kk El (-> & ->) Hkk.
    assert (0 <= i < MATRIX_ROWS /\ 0 <= j < MATRIX_COLS) as [Hi Hj].
    { assert ((i, j) ∈ pairs (range 0 MATRIX_ROWS) (range 0 MATRIX_COLS)) as H
        by (rewrite El; apply elem_of_app; right; by left). by rewrite elem_of_pairs, !elem_of_range in H. }
    cbv zeta. cbn [fst snd]. rewrite !Z.quot_div_nonneg, !Z.rem_mod_nonneg by (unfold SUB_ROW_NUM, SUB_COL_NUM; lia).
    revert Hi Hj. unfold MATRIX_ROWS, MATRIX_COLS, TILE_DIM. intros Hi Hj.
    set (tt := (i / SUB_ROW_NUM, j / SUB_COL_NUM)). set (ij := (i mod SUB_ROW_NUM, j mod SUB_COL_NUM)).
    assert (tt ∈ group_tiles c) as Htt.
    { destruct dims as [EX EY]. apply elem_of_group. rewrite EX, EY. unfold TILE_DIM, SUB_ROW_NUM, SUB_COL_NUM in *.
      Z.to_euclidean_division_equations. lia. }
    assert (ij ∈ sub_indices) as Hij by (apply sub_range; split; by apply Z.mod_pos_bound).
    assert (remote_word dest u (i / SUB_ROW_NUM) (j / SUB_COL_NUM)
      (j mod SUB_COL_NUM * SUB_ROW_NUM + i mod SUB_ROW_NUM) = dest_word tt ij) as ->.
    { apply elem_of_group in Htt. apply sub_range in Hij. unfold SUB_ROW_NUM, SUB_COL_NUM in *.
      apply (remote_word_local c u wf dest (2 * 3)); [done|done|simpl in Hij; lia|apply Htt..]. }
    apply safely_load; [left; apply write_fixed; intros; apply not_elem_of_nil|].
    assert (contents pl 2 (dest_word tt ij) = entry i j) as ->.
    { transitivity (source_of (swap tt) ij);
        [exact (write_next _ transpose_writes m0 2 (has_sent transpose_out) transpose_disjoint 1 tt _ Htt (dest_in tt ij Hij))|].
      unfold source_of. destruct (source_entry (swap tt) ij.1 ij.2) as [-> _];
        [by apply swap_in|done|]. unfold entry, swap, tt, ij. cbn [fst snd]. unfold SUB_ROW_NUM, SUB_COL_NUM.
      pose proof (Z.div_mod i 2 ltac:(lia)). pose proof (Z.div_mod j 3 ltac:(lia)). lia. }
    apply safely_send, Hkk. split; [done|]. by rewrite fmap_app, app_assoc.
  - intros m o' (-> & ->). apply Hk.
Qed.

Lemma transpose_main_safe t : t ∈ group_tiles c -> safely pl 0 t (transpose_main c u data dest t) m0 [].
Proof using wf dims fits data_ok dest_ok apart.
  intros Ht. unfold transpose_main. cbv zeta. change (bsg_x_y_to_id c t.1 t.2) with (tile_id c t).
  assert ((t.1 <? TILE_DIM) && (t.2 <? TILE_DIM) = true) as ->.
  { destruct t as [x y], dims as [EX EY]. apply elem_of_group in Ht. rewrite EX, EY in Ht. simpl.
    apply andb_true_iff. rewrite !Z.ltb_lt. lia. }
  unfold init_source. rewrite <-(for_fmap (fun ij => (source_word t ij, source_of t ij)) sub_indices (fun w k => Store w.1 w.2 k)).
  apply (safely_phase _ transpose_writes m0 2 (has_sent transpose_out) transpose_disjoint 0 t _ _ _ _ Ht eq_refl).
  destruct (Z.eqb_spec (tile_id c t) 0) as [E|E].
  - assert (t = (0, 0)) as -> by (by apply (tile_id_zero c wf)).
    apply safely_send, transpose_safe; [done|]. apply safely_send, print_result_safe.
    intros m. apply safely_send, safely_done; [done|]. cbn [write_plan post]. unfold has_sent, transpose_out.
    rewrite tile_id_origin. by rewrite <-!app_assoc.
  - apply transpose_safe; [done|]. apply safely_done; [done|]. cbn [write_plan post]. unfold has_sent, transpose_out.
    by destruct (Z.eqb_spec (tile_id c t) 0).
Qed.
End transposing.

(** ** [bsg_simple_mutex_test] *)

Section simple_mutex.
Variable c : config.
Variables data mtx ITERS : Z.
Variable m0 : loc -> Z.
Hypothesis wf : wf_config c.
Hypothesis iters_ok : 0 <= ITERS.
Hypothesis apart : elem mtx 0 <> elem data 0.
Hypothesis data_zero : m0 (elem data 0) = 0.
Hypothesis mtx_free : m0 (elem mtx 0) = 0.

Definition mutex_kind (a : loc) : role (Z * Z) :=
  if decide (a = elem data 0) then Sum (Some (elem mtx 0))
  else if decide (a = elem mtx 0) then Lock else Fixed.

#[local] Abbreviation pl := (sum_plan (group_tiles c) mutex_kind (fun _ _ => ITERS) m0 (.= ((0, 0) : Z * Z))).

Lemma mutex_data : mutex_kind (elem data 0) = Sum (Some (elem mtx 0)).
Proof using. unfold mutex_kind. by rewrite decide_True. Qed.

Lemma mutex_lock : mutex_kind (elem mtx 0) = Lock.
Proof using apart. unfold mutex_kind. by rewrite decide_False, decide_True. Qed.

Lemma mutex_sum_inv a l : mutex_kind a = Sum l -> a = elem data 0 /\ l = Some (elem mtx 0).
Proof using. unfold mutex_kind. repeat case_decide; try done. by intros [= <-]. Qed.

Lemma simple_mutex_plan_ok : plan_ok (group_tiles c) pl.
Proof using apart data_zero mtx_free.
  apply sum_plan_ok; [apply NoDup_grid|]. intros a. unfold mutex_kind at 1.
  destruct (decide (a = elem data 0)) as [->|]; [|by destruct (decide (a = elem mtx 0)) as [->|]].
  split; [intros l [= <-]; apply mutex_lock|]. rewrite data_zero. unfold is_i32. lia.
Qed.

Lemma simple_mutex_safe t : t ∈ group_tiles c ->
  safely pl 0 t (simple_mutex_main c data mtx ITERS t) m0 [].
Proof using wf iters_ok apart data_zero.
  intros Ht. unfold simple_mutex_main.
  apply (safe_for _ _ _ _ _ _ _ _ _ _ (fun done m d h o => h = None /\ o = [] /\
    d (elem data 0) = Z.of_nat (length done))); [done| |].
  - intros l i rest m d h o kk E (-> & -> & Hd) Hkk.
    apply safe_locked_add; [apply mutex_data|apply mutex_lock|]. intros m' Hm'. apply Hkk.
    split_and!; [done|done|]. rewrite fn_lookup_insert, Hd, length_app. simpl. lia.
  - intros m d h o (-> & -> & Hd). rewrite length_range in Hd. apply safe_sync.
    + intros a Ha. simpl in Ha. unfold mutex_kind in Ha. by repeat case_decide.
    + intros a l (-> & _)%mutex_sum_inv. rewrite Hd. simpl. lia.
    + destruct t as [x y]. cbn [fst snd].
      assert (contents pl 1 (elem data 0) = (ITERS *i bsg_tiles_X c *i bsg_tiles_Y c)%c) as E.
      { cbn [sum_plan contents]. rewrite mutex_data, data_zero, sum_over_const. destruct wf as (? & ? & _).
        unfold group_tiles. rewrite length_grid, i32_mul_l by lia. f_equal. lia. }
      destruct ((x =? 0) && (y =? 0)) eqn:Exy.
      * bprop. subst. apply safely_load; [by left|]. apply safely_send, safely_load; [by left|].
        rewrite E, Z.eqb_refl. apply safely_finish with (.= (0, 0)); [done|done|].
        by intros H%list_elem_of_singleton.
      * apply (safely_spin _ (.= (0, 0))); [done|done|apply not_elem_of_nil|]. intros [= -> ->]. done.
Qed.
End simple_mutex.

(** ** The tests *)

(** [hw_barrier_NxN_test] and [bsg_simple_mutex_test] report success in every
    interleaving, on every group and for every number of iterations: no tile finds a word with
    another count than the rounds made, no increment under the lock is lost, and nobody waits
    for ever. *)
Lemma group_tests_safe c u data ruche barcfg mtx ITERS m0 :
  wf_config c ->
  (group_fits c u -> dmem_array data NUM_WORDS -> io_apart c u -> m0 (io_mutex c u) = 0 ->
   (forall t i, t ∈ group_tiles c -> 0 <= i < NUM_WORDS -> m0 (local_word data u t i) = 0) ->
     test_passes (group_tiles c) (nxn_main c u data ruche barcfg) m0 (.= (0, 0))) /\
  (0 <= ITERS -> elem mtx 0 <> elem data 0 -> m0 (elem data 0) = 0 -> m0 (elem mtx 0) = 0 ->
     test_passes (group_tiles c) (simple_mutex_main c data mtx ITERS) m0 (.= (0, 0))).
Proof.
  intros wf. split; intros.
  - apply (safe_test_passes _ _ (write_plan (group_tiles c) (nxn_writes c u data ruche barcfg) m0 10
      (reports (.= (0, 0))))); [apply write_plan_ok|done|]. intros t Ht. by apply nxn_safe.
  - apply (safe_test_passes _ _ (sum_plan (group_tiles c) (mutex_kind data mtx) (fun _ _ => ITERS) m0 (.= (0, 0))));
      [by apply simple_mutex_plan_ok|done|]. intros t Ht. by apply simple_mutex_safe.
Qed.

(** What the others print. *)
Lemma group_programs_safe c u data dest m0 :
  wf_config c -> m0 (io_mutex c u) = 0 ->
  test_prints (group_tiles c) (bsg_barrier_main c u data) m0
    (fun t => (if tile_id c t =? 0 then [PrintTime; PrintTime] else []) ++ rest_out c t) /\
  test_prints (group_tiles c) (bsg_tile_group_barrier_main c u data) m0 (rest_out c) /\
  (bsg_num_tiles c = 16 -> group_fits c u -> dmem_array data 1 -> io_apart c u ->
     test_prints (group_tiles c) (tile_group_mem_main c u data) m0 (mem_out c)) /\
  (bsg_tiles_X c = TILE_DIM /\ bsg_tiles_Y c = TILE_DIM -> group_fits c u ->
   dmem_array data (SUB_ROW_NUM * SUB_COL_NUM) -> dmem_array dest (SUB_ROW_NUM * SUB_COL_NUM) ->
   data + 24 <= dest \/ dest + 24 <= data ->
     test_prints (group_tiles c) (transpose_main c u data dest) m0 (transpose_out c)).
Proof.
  intros wf Hio. split_and!; intros.
  - eapply (safe_test_prints _ _ (write_plan (group_tiles c) (matrix_writes c u data) m0 3 (has_sent _)));
      [apply write_plan_ok|done|]. intros t Ht. by apply barrier_main_safe.
  - eapply (safe_test_prints _ _ (write_plan (group_tiles c) (matrix_writes c u data) m0 3 (has_sent _)));
      [apply write_plan_ok|done|]. intros t Ht. by apply group_barrier_safe.
  - eapply (safe_test_prints _ _ (write_plan (group_tiles c) (mem_writes c u data) m0 3 (has_sent _)));
      [apply write_plan_ok|done|]. intros t Ht. by apply group_mem_safe.
  - eapply (safe_test_prints _ _ (write_plan (group_tiles c) (transpose_writes u data dest) m0 2 (has_sent _)));
      [apply write_plan_ok|done|]. intros t Ht. by apply transpose_main_safe.
Qed.

(** C14 (functional).  The tests of barriers and shared memory, in every interleaving.
    [hw_barrier_NxN_test] and [bsg_simple_mutex_test] report success, on every group and for every
    number of iterations: no tile finds a word with another count than the rounds made, no
    increment under the lock is lost, and nobody waits for ever.  The other programs print:
    [bsg_barrier] and [bsg_tile_group_barrier] the matrix of ids and then zeros,
    [bsg_tile_group_mem] the array in which every tile has put its id two places further on,
    between the packets that its barrier sends for debugging, and [bsg_transpose] the matrix in
    the order of its rows, which it can only read from the transposed one.  Each tile sends
    exactly its packets, in order, and all come to their end. *)
Theorem group_tests_correct c u data m0 :
  wf_config c -> m0 (io_mutex c u) = 0 ->
  (forall ruche barcfg, group_fits c u -> dmem_array data NUM_WORDS -> io_apart c u ->
   (forall t i, t ∈ group_tiles c -> 0 <= i < NUM_WORDS -> m0 (local_word data u t i) = 0) ->
     test_passes (group_tiles c) (nxn_main c u data ruche barcfg) m0 (.= (0, 0))) /\
  (forall mtx ITERS, 0 <= ITERS -> elem mtx 0 <> elem data 0 -> m0 (elem data 0) = 0 -> m0 (elem mtx 0) = 0 ->
     test_passes (group_tiles c) (simple_mutex_main c data mtx ITERS) m0 (.= (0, 0))) /\
  test_prints (group_tiles c) (bsg_barrier_main c u data) m0
    (fun t => (if tile_id c t =? 0 then [PrintTime; PrintTime] else []) ++ rest_out c t) /\
  test_prints (group_tiles c) (bsg_tile_group_barrier_main c u data) m0 (rest_out c) /\
  (bsg_num_tiles c = 16 -> group_fits c u -> dmem_array data 1 -> io_apart c u ->
     test_prints (group_tiles c) (tile_group_mem_main c u data) m0 (mem_out c)) /\
  (forall dest, bsg_tiles_X c = TILE_DIM /\ bsg_tiles_Y c = TILE_DIM -> group_fits c u ->
   dmem_array data (SUB_ROW_NUM * SUB_COL_NUM) -> dmem_array dest (SUB_ROW_NUM * SUB_COL_NUM) ->
   data + 24 <= dest \/ dest + 24 <= data ->
     test_prints (group_tiles c) (transpose_main c u data dest) m0 (transpose_out c)).
Proof.
  intros wf Hio. destruct (group_programs_safe c u data 0 m0 wf Hio) as (H1 & H2 & H3 & _).
  split_and!; [| |exact H1|exact H2|exact H3|].
  - intros. by apply (group_tests_safe c u data ruche barcfg 0 0).
  - intros. by apply (group_tests_safe c u data 0 0 mtx ITERS).
  - intros dest. by apply (group_programs_safe c u data dest m0).
Qed.

(** *** Witnesses: the 4x4 group at (2,1) of pod (1,2) *)

Lemma config_4x4_wf : wf_config config_4x4.
Proof. unfold wf_config. simpl. lia. Qed.

Lemma config_4x4_fits : group_fits config_4x4 unit_16x8.
Proof. unfold group_fits. simpl. lia. Qed.

Lemma config_4x4_io : io_apart config_4x4 unit_16x8.
Proof.
  intros p [x y] i Hxy%elem_of_group E. replace (io_mutex config_4x4 unit_16x8) with (Dmem 16 0 0) in E by done.
  injection E as _ E _. simpl in *. lia.
Qed.

(** Among others, the first lines of [bsg_barrier], and the second row of the transposed matrix. *)
Lemma group_tests_correct_witness :
  test_passes (group_tiles config_4x4) (nxn_main config_4x4 unit_16x8 0x1000 3 0x80000000) (fun _ => 0) (.= (0, 0)) /\
  test_passes (group_tiles config_4x4) (simple_mutex_main config_4x4 0x80000000 0x80000004 100) (fun _ => 0) (.= (0, 0)) /\
  test_prints (group_tiles config_4x4) (bsg_barrier_main config_4x4 unit_16x8 0x80000000) (fun _ => 0)
    (fun t => (if tile_id config_4x4 t =? 0 then [PrintTime; PrintTime] else []) ++ rest_out config_4x4 t) /\
  take 22 (drop 20 (rest_out config_4x4 (0, 0))) =
    Putchar <$> (chars "data[0][1]=00000004" ++ [10] ++ chars "da") /\
  test_prints (group_tiles config_4x4) (tile_group_mem_main config_4x4 unit_16x8 0x1000) (fun _ => 0)
    (mem_out config_4x4) /\
  test_prints (group_tiles config_4x4) (transpose_main config_4x4 unit_16x8 0x1000 0x2000) (fun _ => 0)
    (transpose_out config_4x4) /\
  take 2 (drop 14 (transpose_out config_4x4 (0, 0))) = [IoStore 0 0x10000; IoStore 0 0x10001].
Proof.
  pose proof (group_tests_correct config_4x4 unit_16x8 0x1000 (fun _ => 0) config_4x4_wf eq_refl)
    as (Hnxn & _ & _ & _ & Hmem & Htr).
  pose proof (group_tests_correct config_4x4 unit_16x8 0x80000000 (fun _ => 0) config_4x4_wf eq_refl)
    as (_ & Hmutex & Hbar & _).
  split_and!.
  - apply Hnxn; [exact config_4x4_fits| |exact config_4x4_io|intros; reflexivity].
    unfold dmem_array, NUM_WORDS. split_and!; [lia|reflexivity|lia].
  - apply Hmutex; [lia|discriminate|reflexivity|reflexivity].
  - exact Hbar.
  - vm_compute. reflexivity.
  - apply Hmem; [reflexivity|exact config_4x4_fits| |exact config_4x4_io].
    unfold dmem_array. split_and!; [lia|reflexivity|lia].
  - apply Htr; [split; reflexivity|exact config_4x4_fits| | |left; lia];
      unfold dmem_array, SUB_ROW_NUM, SUB_COL_NUM; (split_and!; [lia|reflexivity|lia]).
  - vm_compute. reflexivity.
Defined.
