(* ===== verification/SmallTests.v ===== *)
(** * Programs in which one tile computes, or all only meet

    [nprimes], [fib], [idiv_test], [mul_div], [count10000], [putchar_stream], [multi_vector_add],
    [bsg_dram_loopback_cache] and the three tests of the pod pointers are run by one tile;
    [bsg_barrier_time], [perf_test_barrier] and [perf_test_barrier_cpp] call barriers and tell the
    host.  What is proved is what they send, and of the functions of [nprimes] and [fib] that
    they compute primes and Fibonacci numbers. *)

From Stdlib Require Import Ascii String Znumtheory.
From stdpp Require Import sorting.
From S2P Require Import Prelude Lts Arch Eva Console Spmd SpmdLogic Printf Vsprintf MemTests Atomics Network GroupTests.
Local Open Scope string_scope.
Local Open Scope list_scope.
Local Open Scope Z_scope.

(** ** The programs *)

(** *** [nprimes] *)

Definition nprimes_N : Z := 20.
Definition nprimes_ANSWER : Z := 639.

(** The inner loop: trial division by the primes found, which stops at the square root of [curr]
    but not at the first divisor. *)
Fixpoint is_prime_loop (prime : list Z) (curr is_prime : Z) : Z :=
  match prime with
  | [] => is_prime
  | p :: prime =>
      if (p *i p)%c >? curr then is_prime
      else is_prime_loop prime curr (if Z.rem curr p =? 0 then 0 else is_prime)
  end.

(** The outer loop, [while (n < N)]. *)
Fixpoint find_primes (fuel : nat) (N : Z) (prime : list Z) (curr : Z) : option (list Z) :=
  match fuel with
  | O => None
  | S fuel =>
      if zlen prime <? N then
        if is_prime_loop prime curr 1 =? 1 then find_primes fuel N (prime ++ [curr]) (curr +i 1)%c
        else find_primes fuel N prime (curr +i 1)%c
      else Some prime
  end.

(** *** [fib] *)

Definition fib_N : Z := 15.
Definition fib_ANSWER : Z := 986.

(** The recursion; [None] when the stack of [fuel] frames does not suffice. *)
Fixpoint fib (fuel : nat) (n : Z) : option Z :=
  match fuel with
  | O => None
  | S fuel =>
      if n =? 0 then Some 0
      else if n =? 1 then Some 1
      else a ← fib fuel (n -i 1)%c; b ← fib fuel (n -i 2)%c; Some (a +i b)%c
  end.

(** *** [count10000] *)

Definition MAX_COUNT : Z := 10000.

Fixpoint count_loop (fuel : nat) (i : Z) : option Z :=
  match fuel with
  | O => None
  | S fuel => if i <? MAX_COUNT then count_loop fuel (i +i 1)%c else Some i
  end.

(** *** The instructions that [mul_div] tests *)

Definition rv_mul (a b : Z) : Z := (a *i b)%c.
Definition rv_div (a b : Z) : Z := if b =? 0 then -1 else i32 (Z.quot a b).
Definition rv_divu (a b : Z) : Z := i32 (if b =? 0 then 2 ^ 32 - 1 else Z.quot (u32 a) (u32 b)).
Definition rv_rem (a b : Z) : Z := Z.rem a b.
Definition rv_remu (a b : Z) : Z := i32 (Z.rem (u32 a) (u32 b)).

Section programs.
Variable c : config.
Variable u : eva_unit.

(** [fuel] bounds the steps of the two loops; a program whose fuel runs out waits for ever. *)
Definition nprimes_main (fuel : nat) (t : Z * Z) : prog :=
  if (t.1 =? 0) && (t.2 =? 0) then
    match find_primes fuel nprimes_N [2] 3 with
    | None => Wait Done
    | Some prime =>
        fold_ (zip (range 0 nprimes_N) prime) (fun ip sum k =>
          bsg_printf c u (chars "prime[%0d] = %0d" ++ [10]) [AInt ip.1; AInt ip.2] (k (sum +i ip.2)%c))
          0 (fun sum =>
        if sum =? nprimes_ANSWER then bsg_printf c u (chars "PASS: %0d" ++ [10]) [AInt sum] finish
        else bsg_printf c u (chars "FAIL: %0d" ++ [10]) [AInt sum] fail)
    end
  else Done.

(** [my_fib] is an array in DMEM. *)
Definition fib_main (fuel : nat) (my_fib : Z) (t : Z * Z) : prog :=
  if (t.1 =? 0) && (t.2 =? 0) then
    fold_ (range 0 fib_N) (fun i sum k =>
      match fib fuel i with
      | None => Wait Done
      | Some f =>
          Store (local_word my_fib u t i) f
          (Load (local_word my_fib u t i) (fun v =>
          bsg_printf c u (chars "fib[%d] = %d" ++ [13; 10]) [AInt i; AInt v]
          (Load (local_word my_fib u t i) (fun v => k (sum +i v)%c))))
      end) 0 (fun sum => if sum =? fib_ANSWER then finish else fail)
  else Done.

Definition count10000_main (fuel : nat) (t : Z * Z) : prog :=
  if (t.1 =? 0) && (t.2 =? 0) then
    match count_loop fuel 0 with
    | None => Wait Done
    | Some i => bsg_printf c u (chars "%d" ++ [10]) [AInt i] (if i =? MAX_COUNT then finish else fail)
    end
  else Done.

Definition stream_len : Z := 1000.

Definition putchar_stream_main (t : Z * Z) : prog :=
  Send (Putchar 10)
  (for_ (range 0 stream_len) (fun i k => Send (Putchar 36) k)
  (Send (Putchar 10) finish)).

(** *** [idiv_test]: [a], [b] and [expected] are arrays in DRAM *)

Definition idiv_N : Z := 6.

Definition test_div (a b expected : Z) (k : prog) : prog :=
  let result := Z.quot a b in
  if negb (result =? expected) then fail else k.

Definition idiv_main (a b expected : Z) (t : Z * Z) : prog :=
  for_ (range 0 idiv_N) (fun i k =>
    Load (elem a i) (fun x => Load (elem b i) (fun y => Load (elem expected i) (fun e =>
    test_div x y e k)))) finish.

Definition idiv_a : list Z := [110; 10001; 100001; 1000000000; 1010010010; -10000].
Definition idiv_b : list Z := [10; 7; 37; 77777; 77; 13].
Definition idiv_expected : list Z := [11; 1428; 2702; 12857; 13117013; -769].

(** *** [mul_div]: [input], [mul_div_output] and [mul_div_expect] are arrays in DMEM *)

Section mul_div.
Variable input mul_div_output mul_div_expect : Z.
Variable t : Z * Z.

Definition mul_div (k : prog) : prog :=
  Load (local_word input u t 1) (fun t0 =>
  Load (local_word input u t 2) (fun t1 =>
  Store (local_word mul_div_output u t 0) (rv_mul t0 t1)
  (Store (local_word mul_div_output u t 1) (rv_div t1 t0)
  (Store (local_word mul_div_output u t 2) (rv_divu t1 t0)
  (Store (local_word mul_div_output u t 3) (rv_rem t1 t0)
  (Store (local_word mul_div_output u t 4) (rv_remu t1 t0) k)))))).

Definition print_value (p : Z) (k : prog) : prog :=
  for_ (range 0 10) (fun i k => Load (local_word p u t i) (fun v => Send (IoStore 0 (u32 v)) k)) k.

(** The loop of comparisons, which is left at the first difference. *)
Fixpoint compare_results (l : list Z) (ok error : prog) : prog :=
  match l with
  | [] => ok
  | i :: l =>
      Load (local_word mul_div_output u t i) (fun x => Load (local_word mul_div_expect u t i) (fun y =>
      if negb (u32 x =? u32 y) then error else compare_results l ok error))
  end.

Definition mul_div_test : prog :=
  mul_div
  (compare_results (range 0 5) finish
  (Send (IoStore 0x4 0x44444444)
  (print_value mul_div_output
  (Send (IoStore 0 0x11111111)
  (print_value mul_div_expect fail))))).

Definition mul_div_main : prog :=
  if (t.1 =? 0) && (t.2 =? 0) then mul_div_test else Done.
End mul_div.

Definition mul_div_input : list Z := [1; -2; 3; -4; 5; -6; 7; -8; 9; -10].
Definition mul_div_expected : list Z := [-6; -1; 0; 1; 3].

(** *** [multi_vector_add] *)

Definition vector_N : Z := 1024.

Definition multi_vector_add_main (data1 data2 data3 data4 data9 : Z) (t : Z * Z) : prog :=
  for_ (range 0 vector_N) (fun i k =>
    Store (elem data1 i) (i +i 2)%c (Store (elem data2 i) (i +i 3)%c
    (Store (elem data3 i) (i +i 5)%c (Store (elem data4 i) (i +i 7)%c k))))
  (for_ (range 0 vector_N) (fun i k =>
    Load (elem data1 i) (fun a1 => Load (elem data2 i) (fun a2 =>
    Load (elem data3 i) (fun a3 => Load (elem data4 i) (fun a4 =>
    Store (elem data9 i) (a1 +i a2 +i a3 +i a4)%c k)))))
  (for_ (range 0 vector_N) (fun i k => check (elem data9 i) ((i <<i 2) +i 17)%c k)
   finish)).

(** *** [bsg_dram_loopback_cache] *)

Definition dram_loopback_main (t : Z * Z) : prog :=
  let id := bsg_x_y_to_id c t.1 t.2 in
  let p := Dram (bsg_dram_ptr 0) in
  if id =? 0 then Store p 1234 (Load p (fun val => if val =? 1234 then finish else fail)) else Done.

(** *** Meeting at barriers *)

Definition barrier_time_main (t : Z * Z) : prog :=
  let id := bsg_x_y_to_id c t.1 t.2 in
  for_ (range 0 10) (fun i k =>
    if (t.1 +i t.2)%c =? 0 then Send PrintTime (Sync k) else Sync k)
  (if id =? 0 then finish else Done).

(** The words of the group that [bsg_cuda_print_stat] reads. *)
Variable gx gy tg : Z.

Definition timed_barrier (t : Z * Z) (k : prog) : prog :=
  let id := bsg_x_y_to_id c t.1 t.2 in
  let rest := Sync (if id =? 0 then Send (bsg_cuda_print_stat_end gx gy t.1 t.2 tg 0) k else k) in
  if id =? 0 then Send (bsg_cuda_print_stat_start gx gy t.1 t.2 tg 0) rest else rest.

Definition perf_test_barrier_main (t : Z * Z) : prog :=
  let id := bsg_x_y_to_id c t.1 t.2 in
  timed_barrier t (timed_barrier t (timed_barrier t (timed_barrier t
    (if id =? 0 then finish else Done)))).

Definition perf_test_barrier_cpp_N : Z := 10.

Definition perf_test_barrier_cpp_main (t : Z * Z) : prog :=
  let id := bsg_x_y_to_id c t.1 t.2 in
  for_ (range 0 perf_test_barrier_cpp_N) (fun i k => timed_barrier t k)
  (if id =? 0 then finish else Done).

(** *** The pod pointers: [data] is a word at the same address of every tile's DMEM *)

Variable num_pods_X num_pods_Y : Z.
Variable data : Z.

(** Eight loads into registers, and eight comparisons. *)
Definition load_and_test (ptr : Z -> Z) (i : Z) (k : prog) : prog :=
  load_list ((fun j => deref u (ptr (8 * i + j))) <$> range 0 8) (fun load_val =>
  assert_list (zip_with (fun v p => u32 v =? p) load_val ((fun j => ptr (8 * i + j)) <$> range 0 8)) k).

Definition store_ptr (ptr : Z) (k : prog) : prog := Store (deref u ptr) (i32 ptr) k.

(** [test_global_pod_ptr]: all rows; [test_global_pod_ptr_lite]: the rows [ys]. *)
Definition test_pod (ys : list Z) (px py : Z) (k : prog) : prog :=
  for_ ys (fun y k => for_ (range 0 (bsg_global_X c)) (fun x k =>
    store_ptr (bsg_global_pod_ptr c px py x y data) k) k)
  (for_ ys (fun y k => for_ (range 0 (Z.quot (bsg_global_X c) 8)) (fun x k =>
    load_and_test (fun x => bsg_global_pod_ptr c px py x y data) x k) k) k).

(** [test_global_pod_ptr_yx]: the columns, one after the other. *)
Definition test_pod_yx (px py : Z) (k : prog) : prog :=
  for_ (range 0 (bsg_global_X c)) (fun x k => for_ (range 0 (bsg_global_Y c)) (fun y k =>
    store_ptr (bsg_global_pod_ptr c px py x y data) k) k)
  (for_ (range 0 (bsg_global_X c)) (fun x k => for_ (range 0 (Z.quot (bsg_global_Y c) 8)) (fun y k =>
    load_and_test (fun y => bsg_global_pod_ptr c px py x y data) y k) k) k).

Definition pods : list (Z * Z) := pairs (range 0 num_pods_X) (range 0 num_pods_Y).

Definition pod_ptr_main (t : Z * Z) : prog :=
  for_ pods (fun p k => test_pod (range 0 (bsg_global_Y c)) p.1 p.2 k) finish.

Definition pod_ptr_lite_main (t : Z * Z) : prog :=
  fold_ pods (fun p i k => test_pod [0; bsg_global_Y c - 1] p.1 p.2 (Send (PrintInt i) (k (i +i 1)%c)))
    0 (fun _ => finish).

Definition pod_ptr_yx_main (t : Z * Z) : prog :=
  for_ pods (fun p k => test_pod_yx p.1 p.2 k) finish.
End programs.

(** ** What the functions compute *)

(** Trial division finds a divisor among the primes up to the square root, if there is one. *)
Lemma is_prime_loop_spec l curr b :
  StronglySorted Z.lt l -> (forall p, p ∈ l -> 2 <= p <= 46340) ->
  (is_prime_loop l curr b = 0 /\ exists p, p ∈ l /\ p * p <= curr /\ (p | curr)) \/
  (is_prime_loop l curr b = b /\ forall p, p ∈ l -> p * p <= curr -> ~ (p | curr)).
Proof.
  revert b. induction l as [|p l IH]; intros b Hs Hl; simpl.
  { right. split; [done|]. intros p Hp. by apply not_elem_of_nil in Hp. }
  pose proof (Hl p ltac:(by left)) as Hp. apply StronglySorted_inv in Hs as [Hs Hlt].
  rewrite i32_id by (unfold is_i32; nia). rewrite Z.gtb_ltb. rewrite Forall_forall in Hlt.
  destruct (Z.ltb_spec curr (p * p)) as [Hgt|Hle].
  - right. split; [done|]. intros q [->|Hq]%elem_of_cons Hqq; [lia|].
    pose proof (Hlt q Hq). pose proof (Hl q ltac:(by right)). nia.
  - assert ((Z.rem curr p =? 0) = true <-> (p | curr)) as Hd.
    { rewrite Z.eqb_eq. split.
      - intros E. exists (Z.quot curr p). pose proof (Z.quot_rem' curr p). lia.
      - intros [k ->]. by rewrite Z.rem_mul by lia. }
    destruct (IH (if Z.rem curr p =? 0 then 0 else b)) as [[E (q & Hq & Hqq & Hqd)]|[E Hno]];
      [done|intros; apply Hl; by right|..].
    + left. split; [done|]. exists q. split; [by right|done].
    + destruct (Z.rem curr p =? 0).
      * left. split; [done|]. exists p. split; [by left|]. split; [done|by apply Hd].
      * right. split; [done|]. intros q [->|Hq]%elem_of_cons Hqq; [|by apply Hno].
        intros Hdiv. by apply Hd in Hdiv.
Qed.

Lemma prime_divisor n : 1 < n -> exists p, prime p /\ (p | n).
Proof.
  intros Hn. assert (0 <= n) as H0 by lia. revert Hn. pattern n. revert n H0. apply Zlt_0_ind.
  intros n IH _ Hn. destruct (prime_dec n) as [|Hnp]; [by exists n|].
  destruct (not_prime_divide n Hn Hnp) as (d & Hd & Hdn).
  destruct (IH d) as (p & Hp & Hpd); [lia|lia|]. exists p. split; [done|by apply Z.divide_trans with d].
Qed.

Lemma composite_small_divisor n : 1 < n -> ~ prime n -> exists p, prime p /\ (p | n) /\ p * p <= n.
Proof.
  intros Hn Hnp. destruct (not_prime_divide n Hn Hnp) as (d & Hd & [e He]).
  assert (1 < e) by nia.
  assert (exists m, 1 < m /\ (m | n) /\ m * m <= n) as (m & Hm & Hmn & Hmm).
  { destruct (Z.le_ge_cases d e); [exists d|exists e]; (split; [lia|]; split; [|nia]).
    - exists e. lia.
    - exists d. lia. }
  destruct (prime_divisor m Hm) as (p & Hp & Hpm). exists p. split; [done|].
  split; [by apply Z.divide_trans with m|]. destruct Hp as [Hp _].
  apply Z.divide_pos_le in Hpm; [nia|lia].
Qed.

#[local] Instance prime_decision p : Decision (prime p) := prime_dec p.

(** The primes below a number, in order. *)
Definition primes_below (l : list Z) (n : Z) : Prop :=
  StronglySorted Z.lt l /\ forall p, p ∈ l <-> prime p /\ p < n.

Lemma is_prime_loop_correct l curr : primes_below l curr -> 2 < curr <= 46341 ->
  (is_prime_loop l curr 1 = 1 /\ prime curr) \/ (is_prime_loop l curr 1 = 0 /\ ~ prime curr).
Proof.
  intros [Hs Hl] Hc.
  destruct (is_prime_loop_spec l curr 1 Hs) as [[E (p & Hp & Hpp & Hd)]|[E Hno]].
  - intros p [[Hp _] Hlt]%Hl. lia.
  - right. split; [done|]. intros Hprime. apply Hl in Hp as [[Hp _] Hlt].
    destruct Hprime as [_ Hrel]. destruct (Hrel p ltac:(lia)) as [_ _ Hgcd].
    pose proof (Hgcd p (Z.divide_refl p) Hd) as H1. apply Z.divide_pos_le in H1; lia.
  - left. split; [done|]. destruct (prime_dec curr) as [|Hnp]; [done|exfalso].
    destruct (composite_small_divisor curr ltac:(lia) Hnp) as (p & Hp & Hd & Hpp).
    apply (Hno p); [|done|done]. apply Hl. split; [done|]. destruct Hp as [Hp _]. nia.
Qed.

Lemma primes_below_step l n : primes_below l n ->
  primes_below (if decide (prime n) then l ++ [n] else l) (n + 1).
Proof.
  intros [Hs Hl]. case_decide as Hp; split.
  - apply StronglySorted_app. split_and!; [|done|by repeat constructor].
    intros x y Hx Hy%list_elem_of_singleton. subst. by apply Hl.
  - intros p. rewrite elem_of_app, Hl, list_elem_of_singleton. split.
    + intros [[? ?]| ->]; split; (done || lia).
    + intros [? ?]. destruct (decide (p = n)); [by right|left; split; [done|lia]].
  - done.
  - intros p. rewrite Hl. split; intros [? Hlt]; (split; [done|]); [lia|].
    destruct (decide (p = n)) as [->|]; [done|lia].
Qed.

(** What the two loops return are the first [N] primes. *)
Lemma find_primes_correct fuel N l curr l' :
  primes_below l curr -> 2 < curr -> curr + Z.of_nat fuel <= 46341 -> zlen l <= N ->
  find_primes fuel N l curr = Some l' -> zlen l' = N /\ exists n, primes_below l' n.
Proof.
  revert l curr. induction fuel as [|fuel IH]; intros l curr Hl Hc Hf HN; cbn [find_primes]; [done|].
  destruct (Z.ltb_spec (zlen l) N) as [Hlt|Hge].
  - pose proof (primes_below_step l curr Hl) as Hstep. rewrite i32_id by (unfold is_i32; lia).
    destruct (is_prime_loop_correct l curr Hl) as [[-> Hp]|[-> Hp]]; [lia|..].
    + rewrite decide_True in Hstep by done. apply IH; [done|lia|lia|]. unfold zlen in *. rewrite length_app. simpl. lia.
    + rewrite decide_False in Hstep by done. by apply IH; [|lia|lia|].
  - intros [= <-]. split; [lia|by exists curr].
Qed.

Lemma find_primes_fuel fuel fuel' N l curr l' :
  (fuel <= fuel')%nat -> find_primes fuel N l curr = Some l' -> find_primes fuel' N l curr = Some l'.
Proof.
  revert fuel' l curr. induction fuel as [|fuel IH]; intros fuel' l curr Hf; [done|].
  destruct fuel' as [|fuel']; [lia|]. cbn [find_primes].
  destruct (zlen l <? N); [|done]. destruct (_ =? 1); apply IH; lia.
Qed.

(** The numbers of Fibonacci. *)
Fixpoint fibonacci (n : nat) : Z :=
  match n with
  | O => 0
  | S n' => match n' with O => 1 | S n'' => fibonacci n' + fibonacci n'' end
  end.

Lemma fibonacci_bounds n : 0 <= fibonacci n <= fibonacci (S n).
Proof.
  enough (0 <= fibonacci n <= fibonacci (S n) /\ 0 <= fibonacci (S n)) by tauto.
  induction n as [|n IH]; [simpl; lia|]. cbn [fibonacci] in *. destruct n; lia.
Qed.

Lemma fibonacci_le n m : (n <= m)%nat -> fibonacci n <= fibonacci m.
Proof. induction 1 as [|m _ IH]; [lia|]. pose proof (fibonacci_bounds m). lia. Qed.

(** A linear way to compute them. *)
Definition next_fibonacci (p : Z * Z) : Z * Z := (p.2, p.1 + p.2).

Lemma fibonacci_iter n : Nat.iter n next_fibonacci (0, 1) = (fibonacci n, fibonacci (S n)).
Proof.
  induction n as [|n IH]; [done|].
  change (Nat.iter (S n) next_fibonacci (0, 1)) with (next_fibonacci (Nat.iter n next_fibonacci (0, 1))).
  rewrite IH. unfold next_fibonacci. cbn [fst snd].
  change (fibonacci (S (S n))) with (fibonacci (S n) + fibonacci n). by rewrite Z.add_comm.
Qed.

Lemma fibonacci_fst n : fibonacci n = fst (Nat.iter n next_fibonacci (0, 1)).
Proof. by rewrite fibonacci_iter. Qed.

Lemma fibonacci_46 : fibonacci 46 = 1836311903.
Proof. rewrite fibonacci_fst. vm_compute. reflexivity. Qed.

Lemma fib_correct fuel n : 0 <= n <= 46 -> n < Z.of_nat fuel -> fib fuel n = Some (fibonacci (Z.to_nat n)).
Proof.
  revert n. induction fuel as [|fuel IH]; intros n Hn Hf; [lia|]. cbn [fib].
  destruct (Z.eqb_spec n 0) as [->|]; [done|]. destruct (Z.eqb_spec n 1) as [->|]; [done|].
  rewrite !i32_id by (unfold is_i32; lia). rewrite (IH (n - 1)) by lia. cbn [mbind option_bind].
  destruct (decide (n = 2)) as [->|].
  { destruct fuel as [|[|fuel]]; [lia|lia|done]. }
  rewrite (IH (n - 2)) by lia. cbn [mbind option_bind].
  replace (Z.to_nat n) with (S (S (Z.to_nat (n - 2)))) by lia.
  replace (Z.to_nat (n - 1)) with (S (Z.to_nat (n - 2))) by lia.
  f_equal. apply i32_id. change (is_i32 (fibonacci (S (S (Z.to_nat (n - 2)))))). unfold is_i32.
  pose proof (fibonacci_bounds (S (S (Z.to_nat (n - 2))))).
  pose proof (fibonacci_le (S (S (Z.to_nat (n - 2)))) 46 ltac:(lia)) as H46.
  pose proof fibonacci_46. lia.
Qed.

Lemma count_loop_correct fuel i : 0 <= i <= MAX_COUNT -> MAX_COUNT - i < Z.of_nat fuel ->
  count_loop fuel i = Some MAX_COUNT.
Proof.
  revert i. induction fuel as [|fuel IH]; intros i Hi Hf; [lia|]. cbn [count_loop].
  destruct (Z.ltb_spec i MAX_COUNT); [|f_equal; lia].
  rewrite i32_id by (unfold is_i32, MAX_COUNT in *; lia). apply IH; lia.
Qed.

(** ** Programs that one tile runs *)

Section solo.
Context {Tid : Type} `{EqDecision Tid}.
Variable tiles : list Tid.
Variable t : Tid.
Variable m0 : loc -> Z.
Variable out : Tid -> list packet.

(** All memory is the tile's. *)
Definition print_plan : plan Tid :=
  {| roles := fun _ _ => Private t; contents := fun _ => m0; share := fun _ _ => no_adds;
     last_phase := 0; post := has_sent out |}.

Lemma print_plan_ok : t ∈ tiles -> plan_ok tiles print_plan.
Proof using Type. by intros Ht n a. Qed.

Lemma solo_prints (main : Tid -> prog) :
  t ∈ tiles -> (forall t', t' ∈ tiles -> t' <> t -> main t' = Done /\ out t' = []) ->
  safely print_plan 0 t (main t) m0 [] -> test_prints tiles main m0 out.
Proof using Type.
  intros Ht Hoth Hs. apply (safe_test_prints tiles main print_plan); [by apply print_plan_ok|done|].
  intros t' Ht'. destruct (decide (t' = t)) as [->|Hne]; [done|].
  destruct (Hoth t' Ht' Hne) as [-> Ho]. by apply safely_done.
Qed.

Lemma prints_done o m : o = out t -> safely print_plan 0 t Done m o.
Proof using Type. intros ->. by apply safely_done. Qed.

Lemma prints_finish o m : o ++ [Finished] = out t -> safely print_plan 0 t finish m o.
Proof using Type. intros E. by apply safely_send, prints_done. Qed.
End solo.

(** A text that is short enough. *)
Definition short_text (fmt : list Z) (args : list arg) : bool :=
  match ee_vsprintf fmt args with Ok s => zlen s <? 256 | _ => false end.

Lemma short_printf {Tid} c u (pl : plan Tid) n t fmt args k m o :
  short_text fmt args = true -> roles pl n (io_mutex c u) = Private t -> m (io_mutex c u) = 0 ->
  (forall m', (forall a, m' a = m a) -> safely pl n t k m' (o ++ text fmt args)) ->
  safely pl n t (bsg_printf c u fmt args k) m o.
Proof.
  unfold short_text, text. intros Hs Hr Hm Hk. destruct (ee_vsprintf fmt args) as [s| | ] eqn:E; try done.
  apply Z.ltb_lt in Hs. by apply (printf_safe c u _ _ _ _ _ s).
Qed.

Section origin.
Variable c : config.
Variable u : eva_unit.
Variable m0 : loc -> Z.
Hypothesis wf : wf_config c.
Hypothesis io_free : m0 (io_mutex c u) = 0.

(** What the origin sends, and nobody else. *)
Definition by_origin (o : list packet) (t : Z * Z) : list packet :=
  if (t.1 =? 0) && (t.2 =? 0) then o else [].

Lemma not_origin (t : Z * Z) : t <> (0, 0) -> (t.1 =? 0) && (t.2 =? 0) = false.
Proof using Type.
  destruct t as [x y]. intros Hne. apply andb_false_iff. simpl.
  destruct (Z.eqb_spec x 0) as [->|]; [right|by left]. apply Z.eqb_neq. intros ->. done.
Qed.

Lemma origin_prints (main : Z * Z -> prog) o :
  (forall t, t ∈ group_tiles c -> (t.1 =? 0) && (t.2 =? 0) = false -> main t = Done) ->
  safely (print_plan (0, 0) m0 (by_origin o)) 0 (0, 0) (main (0, 0)) m0 [] ->
  test_prints (group_tiles c) main m0 (by_origin o).
Proof using wf.
  intros Hoth Hs. apply (solo_prints _ (0, 0)); [by apply origin_in_group| |done].
  intros t' Ht' Hne%not_origin. split; [by apply Hoth|]. unfold by_origin. by rewrite Hne.
Qed.

(** *** [nprimes] *)

(** The list, and the lines that are printed of it. *)
Definition first_primes : list Z :=
  [2; 3; 5; 7; 11; 13; 17; 19; 23; 29; 31; 37; 41; 43; 47; 53; 59; 61; 67; 71].

Definition nprimes_text : list packet :=
  (zip (range 0 nprimes_N) first_primes ≫= fun ip =>
     text (chars "prime[%0d] = %0d" ++ [10]) [AInt ip.1; AInt ip.2]) ++
  text (chars "PASS: %0d" ++ [10]) [AInt nprimes_ANSWER] ++ [Finished].

Lemma nprimes_safe fuel : (70 <= fuel)%nat ->
  safely (print_plan (0, 0) m0 (by_origin nprimes_text)) 0 (0, 0) (nprimes_main c u fuel (0, 0)) m0 [].
Proof using io_free.
  intros Hf. unfold nprimes_main. cbn [fst snd Z.eqb andb].
  rewrite (find_primes_fuel 70 fuel _ _ _ first_primes) by (done || vm_compute; reflexivity).
  apply (safely_fold _ _ _ _ _ _ _ _ _ (fun l sum m' o' => m' (io_mutex c u) = 0 /\
    sum = fold_left (fun s (ip : Z * Z) => (s +i ip.2)%c) l 0 /\
    o' = l ≫= fun ip => text (chars "prime[%0d] = %0d" ++ [10]) [AInt ip.1; AInt ip.2])); [done| |].
  - intros l ip rest sum m o k El (Hm & -> & ->) Hk.
    assert (forallb (fun ip => short_text (chars "prime[%0d] = %0d" ++ [10]) [AInt ip.1; AInt ip.2])
      (zip (range 0 nprimes_N) first_primes) = true) as Hall by (vm_compute; reflexivity).
    apply short_printf; [|done|done|].
    + rewrite forallb_forall in Hall. apply Hall, list_elem_of_In. rewrite El. apply elem_of_app. right. by left.
    + intros m' Hm'. apply Hk. split; [by rewrite Hm'|]. split; [by rewrite fold_left_app|].
      rewrite bind_app, bind_cons. cbn [mbind list_bind]. by rewrite app_nil_r.
  - intros sum m o (Hm & -> & ->).
    replace (fold_left _ _ 0) with nprimes_ANSWER by (vm_compute; reflexivity). rewrite Z.eqb_refl.
    apply short_printf; [vm_compute; reflexivity|done|done|]. intros m' _. apply prints_finish.
    unfold nprimes_text, by_origin. cbn [fst snd Z.eqb andb]. by rewrite <-app_assoc.
Qed.

(** *** [fib] *)

Definition fib_text : list packet :=
  (range 0 fib_N ≫= fun i => text (chars "fib[%d] = %d" ++ [13; 10]) [AInt i; AInt (fibonacci (Z.to_nat i))]) ++
  [Finished].

Lemma fib_safe fuel my_fib : (15 <= fuel)%nat -> io_apart c u ->
  safely (print_plan (0, 0) m0 (by_origin fib_text)) 0 (0, 0) (fib_main c u fuel my_fib (0, 0)) m0 [].
Proof using wf io_free.
  intros Hf Hio. unfold fib_main. cbn [fst snd Z.eqb andb].
  apply (safely_fold _ _ _ _ _ _ _ _ _ (fun l sum m' o' => m' (io_mutex c u) = 0 /\
    sum = fold_left (fun s i => (s +i fibonacci (Z.to_nat i))%c) l 0 /\
    o' = l ≫= fun i => text (chars "fib[%d] = %d" ++ [13; 10]) [AInt i; AInt (fibonacci (Z.to_nat i))]));
    [done| |].
  - intros l i rest sum m o k El (Hm & -> & ->) Hk.
    assert (i ∈ range 0 fib_N) as Hi by (rewrite El; apply elem_of_app; right; by left).
    apply elem_of_range in Hi as Hi'. unfold fib_N in Hi'. rewrite fib_correct by lia.
    assert (forallb (fun i => short_text (chars "fib[%d] = %d" ++ [13; 10]) [AInt i; AInt (fibonacci (Z.to_nat i))])
      (range 0 fib_N) = true) as Hall by (vm_compute; reflexivity).
    assert (local_word my_fib u (0, 0) i <> io_mutex c u) as Hne by (apply Hio; by apply origin_in_group).
    apply safely_store; [done|]. apply safely_load; [by right|]. rewrite fn_lookup_insert.
    apply short_printf; [|done|by rewrite fn_lookup_insert_ne|].
    + rewrite forallb_forall in Hall. by apply Hall, list_elem_of_In.
    + intros m' Hm'. apply safely_load; [by right|]. rewrite Hm', fn_lookup_insert. apply Hk.
      split; [by rewrite Hm', fn_lookup_insert_ne|]. split; [by rewrite fold_left_app|].
      rewrite bind_app, bind_cons. cbn [mbind list_bind]. by rewrite app_nil_r.
  - intros sum m o (Hm & -> & ->).
    replace (fold_left _ _ 0) with fib_ANSWER by (vm_compute; reflexivity). rewrite Z.eqb_refl.
    by apply prints_finish.
Qed.

(** *** [count10000] *)

Definition count_text : list packet := text (chars "%d" ++ [10]) [AInt MAX_COUNT] ++ [Finished].

Lemma count10000_safe fuel : 10001 <= Z.of_nat fuel ->
  safely (print_plan (0, 0) m0 (by_origin count_text)) 0 (0, 0) (count10000_main c u fuel (0, 0)) m0 [].
Proof using io_free.
  intros Hf. unfold count10000_main. cbn [fst snd Z.eqb andb].
  rewrite count_loop_correct by (unfold MAX_COUNT; lia). rewrite Z.eqb_refl.
  apply short_printf; [vm_compute; reflexivity|done|done|]. intros m' _. by apply prints_finish.
Qed.

(** *** [bsg_dram_loopback_cache] *)

Lemma dram_loopback_safe :
  safely (print_plan (0, 0) m0 (by_origin [Finished])) 0 (0, 0) (dram_loopback_main c (0, 0)) m0 [].
Proof using Type.
  unfold dram_loopback_main. change (bsg_x_y_to_id c (0, 0).1 (0, 0).2) with (tile_id c (0, 0)).
  rewrite tile_id_origin. cbn [Z.eqb]. apply safely_store; [done|]. apply safely_load; [by right|].
  rewrite fn_lookup_insert. by apply prints_finish.
Qed.
End origin.

(** Programs that do not look at their coordinates, on one tile. *)
Section alone.
Variable c : config.
Variable u : eva_unit.
Variable t : Z * Z.
Variable m0 : loc -> Z.

Lemma alone_prints (main : Z * Z -> prog) o :
  safely (print_plan t m0 (fun _ => o)) 0 t (main t) m0 [] -> test_prints [t] main m0 (fun _ => o).
Proof using Type.
  intros Hs. apply (safe_test_prints [t] main (print_plan t m0 (fun _ => o)));
    [apply print_plan_ok; by left|done|]. by intros t' ->%list_elem_of_singleton.
Qed.

(** An array in memory. *)
Definition holds_array (f : Z -> loc) (l : list Z) : Prop :=
  forall i, 0 <= i < zlen l -> m0 (f i) = default 0 (l !! Z.to_nat i).

(** *** [putchar_stream] *)

Definition stream_text : list packet :=
  [Putchar 10] ++ replicate (Z.to_nat stream_len) (Putchar 36) ++ [Putchar 10; Finished].

Lemma putchar_stream_safe :
  safely (print_plan t m0 (fun _ => stream_text)) 0 t (putchar_stream_main t) m0 [].
Proof using Type.
  apply safely_send. apply (safely_for _ _ _ _ _ _ _ _ (fun l _ o' => o' = [Putchar 10] ++
    replicate (length l) (Putchar 36))); [done| |].
  - intros l i rest m o k _ -> Hk. apply safely_send, Hk. rewrite length_app, replicate_add. by rewrite <-app_assoc.
  - intros m o ->. apply safely_send, prints_finish. unfold stream_text, stream_len. cbn [app].
    replace (length (range 0 1000)) with (Z.to_nat 1000)
      by (rewrite <-(Nat2Z.id (length _)), length_range; done).
    by rewrite <-!app_assoc.
Qed.

(** *** [idiv_test] *)

Lemma idiv_safe a b expected :
  holds_array (elem a) idiv_a -> holds_array (elem b) idiv_b -> holds_array (elem expected) idiv_expected ->
  safely (print_plan t m0 (fun _ => [Finished])) 0 t (idiv_main a b expected t) m0 [].
Proof using Type.
  intros Ha Hb He. apply (safely_for _ _ _ _ _ _ _ _ (fun _ m o => m = m0 /\ o = [])); [done| |].
  - intros l i rest m o k El [-> ->] Hk.
    assert (i ∈ range 0 idiv_N) as Hi%elem_of_range by (rewrite El; apply elem_of_app; right; by left).
    unfold idiv_N in Hi. do 3 (apply safely_load; [by right|]).
    rewrite Ha, Hb, He by done.
    assert (i = 0 \/ i = 1 \/ i = 2 \/ i = 3 \/ i = 4 \/ i = 5) as [->|[->|[->|[->|[->| ->]]]]] by lia; by apply Hk.
  - intros m o [-> ->]. by apply prints_finish.
Qed.

(** *** [mul_div] *)

Lemma mul_div_safe input output expect :
  t = (0, 0) -> output + 40 <= expect \/ expect + 40 <= output ->
  holds_array (local_word input u t) mul_div_input ->
  holds_array (local_word expect u t) mul_div_expected ->
  safely (print_plan t m0 (by_origin [Finished])) 0 t (mul_div_main u input output expect t) m0 [].
Proof using Type.
  intros Et Hd Hin Hexp. unfold mul_div_main, mul_div_test, mul_div.
  replace ((t.1 =? 0) && (t.2 =? 0)) with true by (by rewrite Et).
  do 2 (apply safely_load; [by right|]). do 5 (apply safely_store; [done|]). rewrite !Hin by done.
  change (range 0 5) with [0; 1; 2; 3; 4]. cbn [compare_results].
  assert (forall i j, 0 <= i < 5 -> 0 <= j < 5 -> local_word output u t i <> local_word expect u t j) as Hne
    by (intros i j Hi Hj E; apply local_word_inj in E; lia).
  assert (forall i j, i <> j -> local_word output u t i <> local_word output u t j) as Hne'
    by (intros i j Hi E; apply local_word_inj in E; lia).
  do 5 (apply safely_load; [by right|]; apply safely_load; [by right|];
    repeat first [rewrite fn_lookup_insert|rewrite fn_lookup_insert_ne by (apply Hne'; lia)|
      rewrite fn_lookup_insert_ne by (apply Hne; lia)];
    rewrite Hexp by done;
    match goal with |- context [negb ?b] => replace (negb b) with false by (vm_compute; reflexivity) end).
  apply prints_finish. by rewrite Et.
Qed.

(** *** [multi_vector_add] *)

(** What a loop over a range has reached. *)
Lemma reached_range a b l i rest : range a b = l ++ i :: rest -> forall j, j ∈ l ++ [i] -> a <= j < b.
Proof using Type.
  intros E j Hj. apply elem_of_range. rewrite E. apply elem_of_app in Hj as [Hj|Hj%list_elem_of_singleton];
    apply elem_of_app; [by left|right; subst; by left].
Qed.

Ltac listed := rewrite !elem_of_cons; tauto.

(** Arrays of [vector_N] words that do not overlap. *)
Definition vectors_apart (l : list Z) : Prop :=
  forall p q i j, p ∈ l -> q ∈ l -> 0 <= i < vector_N -> 0 <= j < vector_N ->
    elem p i = elem q j -> p = q /\ i = j.

Lemma multi_vector_add_safe d1 d2 d3 d4 d9 :
  NoDup [d1; d2; d3; d4; d9] -> vectors_apart [d1; d2; d3; d4; d9] ->
  safely (print_plan t m0 (fun _ => [Finished])) 0 t (multi_vector_add_main d1 d2 d3 d4 d9 t) m0 [].
Proof using Type.
  intros Hnd Hap.
  assert (forall p q i j, p ∈ [d1; d2; d3; d4; d9] -> q ∈ [d1; d2; d3; d4; d9] -> 0 <= i < vector_N ->
    0 <= j < vector_N -> p <> q \/ i <> j -> elem p i <> elem q j) as Hne.
  { intros p q i j Hp Hq Hi Hj Hd E. destruct (Hap p q i j Hp Hq Hi Hj E). tauto. }
  clear Hap. rewrite !NoDup_cons, !not_elem_of_cons in Hnd. destruct_and!.
  set (ok := fun (l : list Z) (m : loc -> Z) => forall i, i ∈ l -> m (elem d1 i) = i + 2 /\
    m (elem d2 i) = i + 3 /\ m (elem d3 i) = i + 5 /\ m (elem d4 i) = i + 7).
  apply (safely_for _ _ _ _ _ _ _ _ (fun l m o => ok l m /\ o = [])).
  { split; [|done]. intros i Hi. by apply not_elem_of_nil in Hi. }
  { intros l i rest m o k El [Hm ->] Hk.
    pose proof (reached_range _ _ _ _ _ El) as Hl.
    pose proof (Hl i ltac:(apply elem_of_app; right; by left)) as Hi. unfold vector_N in Hi.
    do 4 (apply safely_store; [done|]). apply Hk. split; [|done].
    rewrite !i32_id by (unfold is_i32; lia).
    intros j Hj. pose proof (Hl j Hj). destruct (decide (j = i)) as [->|Hji].
    - split_and!; rewrite ?fn_lookup_insert_ne by (apply Hne; [listed|listed|done|done|by left]);
        by rewrite fn_lookup_insert.
    - apply elem_of_app in Hj as [Hj|Hj%list_elem_of_singleton]; [|done].
      rewrite !fn_lookup_insert_ne by (apply Hne; [listed|listed|done|done|right; by apply not_eq_sym]).
      by apply Hm. }
  intros m1 o1 [Hm1 ->].
  apply (safely_for _ _ _ _ _ _ _ _ (fun l m o => ok (range 0 vector_N) m /\
    (forall i, i ∈ l -> m (elem d9 i) = 4 * i + 17) /\ o = [])).
  { split; [done|]. split; [|done]. intros i Hi. by apply not_elem_of_nil in Hi. }
  { intros l i rest m o k El (Hm & Hd9 & ->) Hk.
    pose proof (reached_range _ _ _ _ _ El) as Hl.
    pose proof (Hl i ltac:(apply elem_of_app; right; by left)) as Hi.
    destruct (Hm i ltac:(by apply elem_of_range)) as (E1 & E2 & E3 & E4).
    do 4 (apply safely_load; [by right|]). apply safely_store; [done|]. rewrite E1, E2, E3, E4. apply Hk.
    unfold vector_N in Hi. rewrite (i32_id (i + 2 + (i + 3))) by (unfold is_i32; lia).
    rewrite (i32_id (i + 2 + (i + 3) + (i + 5))), i32_id by (unfold is_i32; lia).
    split_and!; [| |done].
    - intros j Hj%elem_of_range. rewrite !fn_lookup_insert_ne
        by (apply Hne; [listed|listed|done|done|left; by apply not_eq_sym]).
      apply Hm. by apply elem_of_range.
    - intros j Hj. pose proof (Hl j Hj). destruct (decide (j = i)) as [->|Hji].
      + rewrite fn_lookup_insert. lia.
      + apply elem_of_app in Hj as [Hj|Hj%list_elem_of_singleton]; [|done].
        rewrite fn_lookup_insert_ne by (apply Hne; [listed|listed|done|done|right; by apply not_eq_sym]).
        by apply Hd9. }
  intros m2 o2 (_ & Hd9 & ->). apply safely_for_check; [|by apply prints_finish].
  intros i Hi. split; [by right|]. rewrite Hd9 by done. apply elem_of_range in Hi. unfold vector_N in Hi.
  rewrite Z.shiftl_mul_pow2 by lia. change (2 ^ 2) with 4.
  rewrite (i32_id (i * 4)), i32_id by (unfold is_i32; lia). lia.
Qed.
End alone.

(** ** The tests of the pod pointers *)

Section pod_pointers.
Variable c : config.
Variable u : eva_unit.
Variables num_pods_X num_pods_Y : Z.
Variable data : Z.
Variable t : Z * Z.
Variable m0 : loc -> Z.
Variable out : Z * Z -> list packet.
Hypothesis wf : wf_config c.
(** The pods are in the array, and [data] is a word of a DMEM. *)
Hypothesis pods_fit : x_cord_width u = 7 /\ y_cord_width u = 7 /\
  (num_pods_X + 1) * bsg_global_X c <= 128 /\ 2 * num_pods_Y * bsg_global_Y c <= 128.
Hypothesis data_word : 0 <= data < 2 ^ 16 /\ data mod 4 = 0.

Lemma pods_reached l p rest : pods num_pods_X num_pods_Y = l ++ p :: rest ->
  0 <= p.1 < num_pods_X /\ 0 <= p.2 < num_pods_Y.
Proof using Type.
  intros E. assert (p ∈ pods num_pods_X num_pods_Y) as Hp by (rewrite E; apply elem_of_app; right; by left).
  destruct p as [px py]. unfold pods in Hp. by rewrite elem_of_pairs, !elem_of_range in Hp.
Qed.

Lemma length_pairs {A B} (l : list A) (l' : list B) : length (pairs l l') = (length l * length l')%nat.
Proof using Type. unfold pairs. induction l as [|a l IH]; [done|]. by rewrite bind_cons, length_app, length_fmap, IH. Qed.

Lemma range_snoc n : 0 <= n -> range 0 (n + 1) = range 0 n ++ [n].
Proof using Type.
  intros Hn. unfold range. rewrite !Z.sub_0_r. rewrite (seqZ_app 0 n 1) by lia. by rewrite Z.add_0_l.
Qed.

Lemma pods_length : 0 <= num_pods_X -> 0 <= num_pods_Y ->
  Z.of_nat (length (pods num_pods_X num_pods_Y)) = num_pods_X * num_pods_Y.
Proof using Type.
  intros HX HY. unfold pods. rewrite length_pairs, Nat2Z.inj_mul, !length_range. lia.
Qed.

Let pod_pl : plan (Z * Z) := print_plan t m0 out.
Let pod_ptr (px py x y : Z) : Z := bsg_global_pod_ptr c px py x y data.

Lemma pod_ptr_bounds px py x y :
  0 <= px < num_pods_X -> 0 <= py < num_pods_Y -> 0 <= x < bsg_global_X c -> 0 <= y < bsg_global_Y c ->
  0 <= pod_ptr px py x y < 2 ^ 32.
Proof using pods_fit data_word.
  destruct pods_fit as (_ & _ & HX & HY). destruct data_word as [Hd _]. intros Hpx Hpy Hx Hy. unfold pod_ptr.
  assert ((px + 1) * bsg_global_X c + x < 128) by nia.
  assert ((1 + py * 2) * bsg_global_Y c + y < 128) by nia.
  rewrite bsg_global_pod_ptr_eq by lia. rewrite bsg_global_ptr_sum by nia.
  revert Hd. norm_pow2. intros Hd.
  set (X := (px + 1) * bsg_global_X c + x) in *. set (Y := (1 + py * 2) * bsg_global_Y c + y) in *.
  assert (0 <= X /\ 0 <= Y) by (split; nia). lia.
Qed.

(** Distinct subcoordinates of a pod are distinct words. *)
Lemma pod_word_inj px py x y x' y' :
  0 <= px < num_pods_X -> 0 <= py < num_pods_Y -> 0 <= x < bsg_global_X c -> 0 <= y < bsg_global_Y c ->
  0 <= x' < bsg_global_X c -> 0 <= y' < bsg_global_Y c ->
  deref u (pod_ptr px py x y) = deref u (pod_ptr px py x' y') -> x = x' /\ y = y'.
Proof using pods_fit data_word.
  destruct pods_fit as (Ewx & Ewy & HX & HY). destruct data_word as [Hd Hd4]. intros Hpx Hpy Hx Hy Hx' Hy'.
  assert (forall x y, deref u (pod_ptr px py x y) = hb04_word c u data px py x y 0) as E.
  { intros. unfold hb04_word, pod_ptr. rewrite Z.mul_0_r, Z.add_0_r, u32_id; [done|].
    revert Hd. unfold is_u32. norm_pow2. lia. }
  rewrite !E, !(hb04_word_eq c u num_pods_X num_pods_Y) by (done || lia). intros [= ??]. lia.
Qed.

(** A pass over the cells [l] of a pod, in the order of the stores; [tests] are the pointers of
    the loads. *)
Lemma pod_pass px py (l : list (Z * Z)) (rows : list Z) (cols : Z) (ptr : Z -> Z -> Z) loops k m o :
  0 <= px < num_pods_X -> 0 <= py < num_pods_Y ->
  (forall x y, (x, y) ∈ l -> 0 <= x < bsg_global_X c /\ 0 <= y < bsg_global_Y c) ->
  (forall r i, r ∈ rows -> 0 <= i < 8 * Z.quot cols 8 ->
     exists x y, (x, y) ∈ l /\ ptr r i = pod_ptr px py x y) ->
  loops = for_ rows (fun r k => for_ (range 0 (Z.quot cols 8)) (fun i k =>
    load_and_test u (ptr r) i k) k) k ->
  0 <= cols ->
  (forall m, safely pod_pl 0 t k m o) ->
  safely pod_pl 0 t (for_ l (fun xy k => store_ptr u (pod_ptr px py xy.1 xy.2) k) loops) m o.
Proof using pods_fit data_word.
  intros Hpx Hpy Hl Hptr -> Hcols Hk. unfold store_ptr.
  apply (safely_fill _ _ _ _ (fun xy : Z * Z => deref u (pod_ptr px py xy.1 xy.2))
    (fun xy => i32 (pod_ptr px py xy.1 xy.2))); [done| |].
  { intros [x y] [x' y'] [? ?]%Hl [? ?]%Hl E. by apply pod_word_inj in E as [-> ->]. }
  intros m' Hm' _.
  apply (safely_for _ _ _ _ _ _ _ _ (fun _ m1 o1 => m1 = m' /\ o1 = o)); [done| |by intros ? ? [-> ->]].
  intros l1 r rest m1 o1 k1 Er [-> ->] Hk1.
  apply (safely_for _ _ _ _ _ _ _ _ (fun _ m1 o1 => m1 = m' /\ o1 = o));
    [done| |intros ? ? [-> ->]; by apply Hk1].
  intros l2 i rest2 m2 o2 k2 Ei [-> ->] Hk2. unfold load_and_test.
  apply (safely_load_checks _ _ _ _ (fun j => deref u (ptr r (8 * i + j))) (fun j => ptr r (8 * i + j))
    (fun v p => u32 v =? p)); [|by apply Hk2].
  intros j Hj%elem_of_range. split; [by right|].
  assert (0 <= i < Z.quot cols 8) as Hi.
  { apply elem_of_range. rewrite Ei. apply elem_of_app. right. by left. }
  destruct (Hptr r (8 * i + j)) as (x & y & Hxy & ->).
  { rewrite Er. apply elem_of_app. right. by left. }
  { lia. }
  specialize (Hm' (x, y) Hxy). cbn [fst snd] in Hm'. rewrite Hm'. destruct (Hl x y Hxy). apply Z.eqb_eq. rewrite u32_i32.
  apply u32_id. by apply pod_ptr_bounds.
Qed.

Lemma test_pod_safe ys px py k m o :
  0 <= px < num_pods_X -> 0 <= py < num_pods_Y ->
  (forall y, y ∈ ys -> 0 <= y < bsg_global_Y c) ->
  (forall m, safely pod_pl 0 t k m o) -> safely pod_pl 0 t (test_pod c u data ys px py k) m o.
Proof using wf pods_fit data_word.
  destruct wf as (? & ? & ? & ? & _). intros Hpx Hpy Hys Hk. unfold test_pod.
  rewrite <-(for_pairs ys (range 0 (bsg_global_X c))
    (fun yx k => store_ptr u (bsg_global_pod_ptr c px py yx.2 yx.1 data) k)).
  rewrite <-(for_fmap (fun yx : Z * Z => (yx.2, yx.1)) (pairs ys (range 0 (bsg_global_X c)))
    (fun xy k => store_ptr u (pod_ptr px py xy.1 xy.2) k)).
  apply (pod_pass px py _ ys (bsg_global_X c) (fun y x => pod_ptr px py x y) _ k); [done..| | |done|lia|done].
  - intros x y ([y' x'] & [= -> ->] & [Hy Hx%elem_of_range]%elem_of_pairs)%list_elem_of_fmap.
    split; [done|by apply Hys].
  - intros y x Hy Hx. exists x, y. split; [|done]. apply list_elem_of_fmap. exists (y, x). split; [done|].
    apply elem_of_pairs. split; [done|]. apply elem_of_range. Z.to_euclidean_division_equations; lia.
Qed.

Lemma test_pod_yx_safe px py k m o :
  0 <= px < num_pods_X -> 0 <= py < num_pods_Y ->
  (forall m, safely pod_pl 0 t k m o) -> safely pod_pl 0 t (test_pod_yx c u data px py k) m o.
Proof using wf pods_fit data_word.
  destruct wf as (? & ? & ? & ? & _). intros Hpx Hpy Hk. unfold test_pod_yx.
  rewrite <-(for_pairs (range 0 (bsg_global_X c)) (range 0 (bsg_global_Y c))
    (fun xy k => store_ptr u (bsg_global_pod_ptr c px py xy.1 xy.2 data) k)).
  apply (pod_pass px py _ (range 0 (bsg_global_X c)) (bsg_global_Y c) (fun x y => pod_ptr px py x y) _ k);
    [done..| | |done|lia|done].
  - intros x y [Hx%elem_of_range Hy%elem_of_range]%elem_of_pairs. done.
  - intros x y Hx Hy. exists x, y. split; [|done]. apply elem_of_pairs. split; [done|].
    apply elem_of_range. Z.to_euclidean_division_equations; lia.
Qed.

(** The three programs, on every pod. *)
Lemma pod_ptr_safe : out t = [Finished] ->
  safely pod_pl 0 t (pod_ptr_main c u num_pods_X num_pods_Y data t) m0 [].
Proof using wf pods_fit data_word.
  intros Ho. apply (safely_for _ _ _ _ _ _ _ _ (fun _ _ o => o = [])); [done| |].
  - intros l [px py] rest m o k E -> Hk.
    destruct (pods_reached l (px, py) rest E) as [Hpx Hpy].
    apply test_pod_safe; [done..|by intros y Hy%elem_of_range|]. intros. by apply Hk.
  - intros m o ->. by apply prints_finish.
Qed.

Lemma pod_ptr_yx_safe : out t = [Finished] ->
  safely pod_pl 0 t (pod_ptr_yx_main c u num_pods_X num_pods_Y data t) m0 [].
Proof using wf pods_fit data_word.
  intros Ho. apply (safely_for _ _ _ _ _ _ _ _ (fun _ _ o => o = [])); [done| |].
  - intros l [px py] rest m o k E -> Hk.
    destruct (pods_reached l (px, py) rest E) as [Hpx Hpy].
    apply test_pod_yx_safe; [done..|]. intros. by apply Hk.
  - intros m o ->. by apply prints_finish.
Qed.

Lemma pod_ptr_lite_safe : 0 <= num_pods_X -> 0 <= num_pods_Y ->
  out t = (PrintInt <$> range 0 (num_pods_X * num_pods_Y)) ++ [Finished] ->
  safely pod_pl 0 t (pod_ptr_lite_main c u num_pods_X num_pods_Y data t) m0 [].
Proof using wf pods_fit data_word.
  intros HX HY Ho. unfold pod_ptr_lite_main. apply (safely_fold _ _ _ _ _ _ _ _ _ (fun l i _ o => i = Z.of_nat (length l) /\ o = (PrintInt <$> range 0 i)));
    [done| |].
  - intros l [px py] rest i m o k E [-> ->] Hk.
    destruct (pods_reached l (px, py) rest E) as [Hpx Hpy].
    apply test_pod_safe; [done..| |].
    { destruct wf as (? & ? & ? & ? & _). intros y Hy. rewrite !elem_of_cons, elem_of_nil in Hy. lia. }
    intros m'. apply safely_send, Hk.
    pose proof (f_equal (fun l => Z.of_nat (length l)) E) as El. cbn beta in El. rewrite pods_length, length_app in El by done.
    destruct pods_fit as (_ & _ & ? & ?), wf as (? & ? & ? & ? & _). simpl in El.
    rewrite i32_id by (unfold is_i32; nia). rewrite length_app. simpl.
    split; [lia|]. rewrite range_snoc by lia. by rewrite fmap_app.
  - intros i m o [-> ->]. apply prints_finish. rewrite Ho. by rewrite pods_length by done.
Qed.
End pod_pointers.

(** ** Programs that only meet *)

Section meeting.
Variable c : config.
Variable gx gy tg : Z.
Variable m0 : loc -> Z.
Variable last : nat.
Variable out : Z * Z -> list packet.
Hypothesis wf : wf_config c.

(** Nobody stores. *)
Definition meet_plan : plan (Z * Z) := write_plan (group_tiles c) (fun _ _ => []) m0 last (has_sent out).

Lemma meet_quiet n t k m o : t ∈ group_tiles c ->
  safely meet_plan (S n) t k (contents meet_plan (S n)) o -> safely meet_plan n t (Sync k) m o.
Proof using Type.
  intros Ht Hk. apply safely_quiet; [|done|done|done]. intros ? ? ? w ? ? ? Hw. by apply not_elem_of_nil in Hw.
Qed.

(** What the tile with the identifier 0 sends around a barrier. *)
Definition barrier_stats (t : Z * Z) : list packet :=
  if tile_id c t =? 0
  then [bsg_cuda_print_stat_start gx gy t.1 t.2 tg 0; bsg_cuda_print_stat_end gx gy t.1 t.2 tg 0] else [].

Definition report_out (t : Z * Z) : list packet := if tile_id c t =? 0 then [Finished] else [].

Lemma timed_barrier_safe n t k m o : t ∈ group_tiles c ->
  (forall m, safely meet_plan (S n) t k m (o ++ barrier_stats t)) ->
  safely meet_plan n t (timed_barrier c gx gy tg t k) m o.
Proof using Type.
  intros Ht Hk. unfold timed_barrier, barrier_stats in *.
  change (bsg_x_y_to_id c t.1 t.2) with (tile_id c t). destruct (Z.eqb_spec (tile_id c t) 0).
  - apply safely_send, meet_quiet; [done|]. apply safely_send. rewrite <-app_assoc. apply Hk.
  - apply meet_quiet; [done|]. specialize (Hk (contents meet_plan (S n))). by rewrite app_nil_r in Hk.
Qed.

Lemma meet_report_safe t m o : t ∈ group_tiles c -> o ++ report_out t = out t ->
  safely meet_plan last t (if bsg_x_y_to_id c t.1 t.2 =? 0 then finish else Done) m o.
Proof using Type.
  intros Ht E. change (bsg_x_y_to_id c t.1 t.2) with (tile_id c t). unfold report_out in E.
  destruct (Z.eqb_spec (tile_id c t) 0).
  - apply safely_send, safely_done; [done|exact E].
  - rewrite app_nil_r in E. by apply safely_done.
Qed.

Lemma perf_test_barrier_safe t m : t ∈ group_tiles c -> last = 4%nat ->
  out t = mjoin (replicate 4 (barrier_stats t)) ++ report_out t ->
  safely meet_plan 0 t (perf_test_barrier_main c gx gy tg t) m [].
Proof using Type.
  intros Ht El E. unfold perf_test_barrier_main. do 4 (apply timed_barrier_safe; [done|]; intros ?).
  pattern 4%nat. rewrite <-El. apply meet_report_safe; [done|]. rewrite E. simpl. by rewrite !app_nil_r, <-!app_assoc.
Qed.

(** Ten barriers, and packets at each. *)
Lemma meetings_safe (body : Z -> prog -> prog) (sent : list packet) n k t m : t ∈ group_tiles c ->
  last = n -> (forall i n k m o, (forall m, safely meet_plan (S n) t k m (o ++ sent)) ->
    safely meet_plan n t (body i k) m o) ->
  (forall m, safely meet_plan last t k m (mjoin (replicate n sent))) ->
  safely meet_plan 0 t (for_ (range 0 (Z.of_nat n)) body k) m [].
Proof using Type.
  intros Ht El Hbody Hk.
  apply (safely_for_phases _ _ _ _ _ _ _ _ (fun l n _ o => n = length l /\ o = mjoin (replicate n sent))); [done| |].
  - intros l i rest n' m' o k' _ [-> ->] Hk'. apply Hbody. intros m''. apply Hk'.
    split; [rewrite length_app; simpl; lia|].
    rewrite <-(Nat.add_1_r (length l)), replicate_add, join_app. simpl. by rewrite app_nil_r.
  - intros n' m' o [-> ->]. replace (length (range 0 (Z.of_nat n))) with n
      by (pose proof (length_range 0 (Z.of_nat n)); lia). rewrite <-El at 1. apply Hk.
Qed.

Lemma perf_test_barrier_cpp_safe t m : t ∈ group_tiles c -> last = 10%nat ->
  out t = mjoin (replicate 10 (barrier_stats t)) ++ report_out t ->
  safely meet_plan 0 t (perf_test_barrier_cpp_main c gx gy tg t) m [].
Proof using Type.
  intros Ht El E. apply (meetings_safe _ (barrier_stats t) 10); [done|done| |].
  - intros. by apply timed_barrier_safe.
  - intros m'. by apply meet_report_safe.
Qed.

Lemma barrier_time_safe t m : t ∈ group_tiles c -> last = 10%nat ->
  out t = mjoin (replicate 10 (if tile_id c t =? 0 then [PrintTime] else [])) ++ report_out t ->
  safely meet_plan 0 t (barrier_time_main c t) m [].
Proof using wf.
  intros Ht El E. apply (meetings_safe _ (if tile_id c t =? 0 then [PrintTime] else []) 10); [done|done| |].
  - intros i n k m' o Hk. destruct t as [x y]. apply elem_of_group in Ht as Hxy.
    destruct wf as (? & ? & _). rewrite i32_id by (unfold is_i32; simpl; lia). cbn [fst snd].
    assert ((x + y =? 0) = (tile_id c (x, y) =? 0)) as ->.
    { destruct (Z.eqb_spec (tile_id c (x, y)) 0) as [E0|E0].
      - apply (tile_id_zero c wf) in E0 as [= -> ->]; done.
      - apply Z.eqb_neq. intros E1. replace (x, y) with (0, 0) in E0 by (f_equal; lia).
        by rewrite tile_id_origin in E0. }
    destruct (tile_id c (x, y) =? 0).
    + apply safely_send, meet_quiet; [done|]. apply Hk.
    + apply meet_quiet; [done|]. specialize (Hk (contents meet_plan (S n))). by rewrite app_nil_r in Hk.
  - intros m'. by apply meet_report_safe.
Qed.

Lemma meet_prints (main : Z * Z -> prog) :
  (forall t m, t ∈ group_tiles c -> safely meet_plan 0 t (main t) m []) ->
  test_prints (group_tiles c) main m0 out.
Proof using Type.
  intros Hs. apply (safe_test_prints _ _ meet_plan); [apply write_plan_ok|done|]. intros t Ht. by apply Hs.
Qed.
End meeting.

(** ** What the programs print *)

Lemma primes_below_3 : primes_below [2] 3.
Proof.
  split; [by repeat constructor|]. intros p. rewrite list_elem_of_singleton. split.
  - intros ->. split; [|done]. destruct (prime_dec 2) as [|Hn]; [done|].
    apply (not_prime_divide 2) in Hn as (d & ? & _); lia.
  - intros [[Hp _] ?]. lia.
Qed.

(** C19 (functional).  [nprimes] and [fib] compute what they are named after, and say so: the two
    nested loops of [nprimes], whose trial division goes on after a divisor is found, return the
    first twenty primes (seventy passes suffice); [my_fib] is the Fibonacci function without
    overflow up to the forty-sixth number, with a stack of [n + 1] frames; and in every
    interleaving the origin prints exactly the table of the primes with the sum 639, the table of
    the first fifteen Fibonacci numbers, and, in [count10000], that the loop counted to 10000; it
    then finishes, and the others send nothing. *)
Theorem computing_tests_correct c u my_fib fuel m0 :
  wf_config c -> io_apart c u -> m0 (io_mutex c u) = 0 -> 10001 <= Z.of_nat fuel ->
  (exists l, find_primes fuel nprimes_N [2] 3 = Some l /\ zlen l = nprimes_N /\ exists n, primes_below l n) /\
  (forall n fuel, 0 <= n <= 46 -> n < Z.of_nat fuel -> fib fuel n = Some (fibonacci (Z.to_nat n))) /\
  test_prints (group_tiles c) (nprimes_main c u fuel) m0 (by_origin nprimes_text) /\
  test_prints (group_tiles c) (fib_main c u fuel my_fib) m0 (by_origin fib_text) /\
  test_prints (group_tiles c) (count10000_main c u fuel) m0 (by_origin count_text).
Proof.
  intros wf Hio Hm Hf. split_and!.
  - exists first_primes. split; [apply (find_primes_fuel 70); [lia|vm_compute; reflexivity]|].
    apply (find_primes_correct 70 nprimes_N [2] 3); [apply primes_below_3|done|done|done|vm_compute; reflexivity].
  - intros. by apply fib_correct.
  - apply origin_prints; [done|intros t _ E; unfold nprimes_main; by rewrite E|apply nprimes_safe; [done|lia]].
  - apply origin_prints; [done|intros t _ E; unfold fib_main; by rewrite E|apply fib_safe; [done|done|lia|done]].
  - apply origin_prints; [done|intros t _ E; unfold count10000_main; by rewrite E|by apply count10000_safe].
Qed.

(** The tables begin as expected. *)
Lemma computing_tests_correct_witness :
  test_prints (group_tiles config_4x4) (nprimes_main config_4x4 unit_16x8 (Z.to_nat 20000)) (fun _ => 0)
    (by_origin nprimes_text) /\
  take 28 nprimes_text = Putchar <$> (chars "prime[0] = 2" ++ [10] ++ chars "prime[1] = 3" ++ [10] ++ chars "pr") /\
  take 15 (drop 181 fib_text) = Putchar <$> (chars "fib[14] = 377") ++ [13; 10] /\
  fib 48 46 = Some 1836311903.
Proof.
  assert (10001 <= Z.of_nat (Z.to_nat 20000)) as Hf by (rewrite Z2Nat.id; lia).
  pose proof (computing_tests_correct config_4x4 unit_16x8 0x1000 (Z.to_nat 20000) (fun _ => 0) config_4x4_wf
    config_4x4_io eq_refl Hf) as (_ & Hfib & Hprimes & _).
  split; [exact Hprimes|]. split; [vm_compute; reflexivity|]. split; [vm_compute; reflexivity|].
  rewrite (Hfib 46 48%nat) by lia. exact (f_equal Some fibonacci_46).
Defined.

(** C20 (safety).  The other small programs tell the host what they should, in every interleaving, and
    come to their end: [putchar_stream] a thousand dollars between two newlines; [idiv_test],
    [mul_div] and [multi_vector_add] that the divisions, the five instructions and the sums of
    four vectors give what is expected of them, if the arrays hold what the sources initialise
    them with and do not overlap; [bsg_dram_loopback_cache] that the word comes back; the tests
    of the pod pointers that every word of every pod holds the pointer to it, because distinct
    pointers reach distinct words; and the tests of the barriers each packet as often as the
    barrier is passed. *)
Theorem small_tests_print c u m0 : wf_config c ->
  (forall t, test_prints [t] putchar_stream_main m0 (fun _ => stream_text)) /\
  (forall t a b expected, holds_array m0 (elem a) idiv_a -> holds_array m0 (elem b) idiv_b ->
     holds_array m0 (elem expected) idiv_expected ->
     test_prints [t] (idiv_main a b expected) m0 (fun _ => [Finished])) /\
  (forall input output expect, output + 40 <= expect \/ expect + 40 <= output ->
     holds_array m0 (local_word input u (0, 0)) mul_div_input ->
     holds_array m0 (local_word expect u (0, 0)) mul_div_expected ->
     test_prints (group_tiles c) (mul_div_main u input output expect) m0 (by_origin [Finished])) /\
  (forall t d1 d2 d3 d4 d9, NoDup [d1; d2; d3; d4; d9] -> vectors_apart [d1; d2; d3; d4; d9] ->
     test_prints [t] (multi_vector_add_main d1 d2 d3 d4 d9) m0 (fun _ => [Finished])) /\
  test_prints (group_tiles c) (dram_loopback_main c) m0 (by_origin [Finished]) /\
  (forall t X Y data, 0 <= X -> 0 <= Y -> x_cord_width u = 7 /\ y_cord_width u = 7 /\
       (X + 1) * bsg_global_X c <= 128 /\ 2 * Y * bsg_global_Y c <= 128 ->
     0 <= data < 2 ^ 16 /\ data mod 4 = 0 ->
     test_prints [t] (pod_ptr_main c u X Y data) m0 (fun _ => [Finished]) /\
     test_prints [t] (pod_ptr_yx_main c u X Y data) m0 (fun _ => [Finished]) /\
     test_prints [t] (pod_ptr_lite_main c u X Y data) m0
       (fun _ => (PrintInt <$> range 0 (X * Y)) ++ [Finished])) /\
  (forall gx gy tg,
     test_prints (group_tiles c) (barrier_time_main c) m0
       (fun t => mjoin (replicate 10 (if tile_id c t =? 0 then [PrintTime] else [])) ++ report_out c t) /\
     test_prints (group_tiles c) (perf_test_barrier_main c gx gy tg) m0
       (fun t => mjoin (replicate 4 (barrier_stats c gx gy tg t)) ++ report_out c t) /\
     test_prints (group_tiles c) (perf_test_barrier_cpp_main c gx gy tg) m0
       (fun t => mjoin (replicate 10 (barrier_stats c gx gy tg t)) ++ report_out c t)).
Proof.
  intros wf. split_and!.
  - intros t. apply alone_prints, putchar_stream_safe.
  - intros. by apply alone_prints, idiv_safe.
  - intros. apply origin_prints; [done|intros t _ E; unfold mul_div_main; by rewrite E|by apply mul_div_safe].
  - intros. by apply alone_prints, multi_vector_add_safe.
  - apply origin_prints; [done| |apply dram_loopback_safe]. intros t Ht E. unfold dram_loopback_main.
    change (bsg_x_y_to_id c t.1 t.2) with (tile_id c t). destruct (Z.eqb_spec (tile_id c t) 0) as [E0|]; [|done].
    by rewrite (tile_id_zero c wf t Ht E0) in E.
  - intros. split_and!; apply alone_prints; [by apply pod_ptr_safe|by apply pod_ptr_yx_safe|by apply pod_ptr_lite_safe].
  - intros. split_and!; (eapply meet_prints; intros t m Ht);
      [by apply barrier_time_safe|by apply perf_test_barrier_safe|by apply perf_test_barrier_cpp_safe].
Qed.

(** A memory with the arrays of [idiv_test] in DRAM and of [mul_div] in the DMEM of the origin. *)
Definition arrays_memory : loc -> Z :=
  fold_left (fun m (w : loc * Z) => <[w.1 := w.2]> m)
    (zip (elem 0x80000000 <$> range 0 6) idiv_a ++ zip (elem 0x80000100 <$> range 0 6) idiv_b ++
     zip (elem 0x80000200 <$> range 0 6) idiv_expected ++
     zip (local_word 0x1000 unit_16x8 (0, 0) <$> range 0 10) mul_div_input ++
     zip (local_word 0x1100 unit_16x8 (0, 0) <$> range 0 5) mul_div_expected) (fun _ => 0).

Definition holds_array_b (f : Z -> loc) (l : list Z) : bool :=
  forallb (fun i => arrays_memory (f i) =? default 0 (l !! Z.to_nat i)) (range 0 (zlen l)).

Lemma holds_array_b_spec f l : holds_array_b f l = true -> holds_array arrays_memory f l.
Proof.
  unfold holds_array_b, holds_array. rewrite forallb_forall. intros H i Hi. apply Z.eqb_eq, H.
  apply list_elem_of_In. by apply elem_of_range.
Qed.

Lemma vectors_example : vectors_apart [0x80000000; 0x80001000; 0x80002000; 0x80003000; 0x80004000].
Proof.
  intros p q i j Hp Hq Hi Hj [= E]. rewrite !elem_of_cons, elem_of_nil in Hp, Hq. unfold vector_N in *.
  rewrite !u32_id in E by (unfold is_u32; lia). lia.
Qed.

Lemma small_tests_print_witness :
  test_prints [(0, 0)] (idiv_main 0x80000000 0x80000100 0x80000200) arrays_memory (fun _ => [Finished]) /\
  test_prints (group_tiles config_4x4) (mul_div_main unit_16x8 0x1000 0x1080 0x1100) arrays_memory
    (by_origin [Finished]) /\
  test_prints [(0, 0)] (multi_vector_add_main 0x80000000 0x80001000 0x80002000 0x80003000 0x80004000)
    arrays_memory (fun _ => [Finished]) /\
  test_prints [(0, 0)] (pod_ptr_lite_main config_4x4 unit_16x8 2 2 0x1000) arrays_memory
    (fun _ => [PrintInt 0; PrintInt 1; PrintInt 2; PrintInt 3; Finished]).
Proof.
  pose proof (small_tests_print config_4x4 unit_16x8 arrays_memory config_4x4_wf)
    as (_ & Hidiv & Hmul & Hvec & _ & Hpod & _).
  split_and!.
  - apply Hidiv; apply holds_array_b_spec; vm_compute; reflexivity.
  - apply Hmul; [left; lia|..]; apply holds_array_b_spec; vm_compute; reflexivity.
  - apply Hvec; [|exact vectors_example]. apply (bool_decide_unpack _). vm_compute. exact I.
  - apply (Hpod (0, 0) 2 2 0x1000); [lia|lia| |split; [lia|reflexivity]].
    split_and!; [reflexivity|reflexivity|vm_compute; discriminate|vm_compute; discriminate].
Defined.
