(* ===== verification/GbpCodec.v ===== *)
(** * The payload codec of the belief-propagation messages

    [gbp_message_payload_codec.hpp] of the test benches fixes the contract of the messages that the
    belief-propagation core exchanges: a vector [eta] of [dim] numbers and the lower triangle
    [lam] of a symmetric matrix, as 32-bit words in numbered segments.  [encode] and [decode] are
    its two directions, with the marker of the first check that fails; [decode_semantic_payload] of
    [gbp_event_correlation.hpp] is a client.

    A [float] is the pattern of its 32 bits, which [std::memcpy] copies.  The output pointers are
    not null.  [Undefined] is a read past the end of a vector. *)

From S2P Require Import Prelude.
Local Open Scope Z_scope.

(** ** The data *)

Definition kPhase1SchemaVersion : Z := 1.
Definition kMessageBankLo : Z := 4.
Definition kMessageBankHi : Z := 7.
Definition kMessageSlotCount : Z := kMessageBankHi - kMessageBankLo + 1.

Inductive Direction : Type :=
| kFactorToVar
| kVarToFactor.

#[export] Instance Direction_eq_dec : EqDecision Direction.
Proof. solve_decision. Defined.

Record Segment : Type := {
  segment_idx : Z;
  segment_count : Z;
  segment_payload_words : Z;
  segment_words : list Z
}.

Record EncodedPayload : Type := {
  e_schema_version : Z;
  e_bank : Z;
  e_slot : Z;
  e_direction : Direction;
  e_dim : Z;
  e_eta_len : Z;
  e_lam_len : Z;
  e_segments : list Segment
}.

Record DecodedPayload : Type := {
  d_schema_version : Z;
  d_bank : Z;
  d_slot : Z;
  d_direction : Direction;
  d_dim : Z;
  d_eta : list Z;
  d_lam : list Z
}.

(** The error markers. *)
Inductive marker : Type :=
| bad_version | bad_bank_slot | direction_mismatch | invalid_dim | length_mismatch
| missing_segments | segment_header_mismatch | segment_word_underflow
| payload_length_mismatch | payload_underflow
| invalid_fp32_payload | invalid_zero_payload | semantic_payload_shape_mismatch.

Inductive result (A : Type) : Type :=
| Success (a : A)
| Failure (error : marker)
| Undefined.
Arguments Success {_} a.
Arguments Failure {_} error.
Arguments Undefined {_}.

#[export] Instance result_bind : MBind result := fun A B f r =>
  match r with Success a => f a | Failure e => Failure e | Undefined => Undefined end.

(** A check: [if (!ok) { *error = e; return false; }]. *)
Definition require (ok : bool) (e : marker) : result unit := if ok then Success () else Failure e.

(** ** The checks *)

Definition expected_lam_len (dim : Z) : Z := u32 (dim * u32 (dim + 1)) / 2.

Definition encode_fp32 (value : Z) : Z := value.
Definition decode_fp32 (word : Z) : Z := word.

(** The exponent is not all ones. *)
Definition isfinite (value : Z) : bool := negb (Z.land (Z.shiftr value 23) 255 =? 255).

Definition direction_for_slot (slot : Z) : Direction :=
  if Z.land slot 1 =? 0 then kFactorToVar else kVarToFactor.

Definition validate_schema (schema_version : Z) : result unit :=
  require (schema_version =? kPhase1SchemaVersion) bad_version.

Definition validate_bank_slot (bank slot : Z) : result unit :=
  require (negb ((bank <? kMessageBankLo) || (bank >? kMessageBankHi) || (slot >=? kMessageSlotCount)
           || negb (bank =? u32 (kMessageBankLo + slot)))) bad_bank_slot.

Definition validate_direction (direction : Direction) (slot : Z) : result unit :=
  require (bool_decide (direction = direction_for_slot slot)) direction_mismatch.

Definition validate_shape (dim eta_len lam_len : Z) : result unit :=
  _ ← require (negb (dim =? 0)) invalid_dim;
  require (negb (negb (eta_len =? dim) || negb (lam_len =? expected_lam_len dim))) length_mismatch.

(** The loop over the segments: [out] and [declared_payload_words] are its state. *)
Fixpoint extract_loop (count required_words idx : Z) (segments : list Segment) (out : list Z)
    (declared : Z) : result (list Z * Z) :=
  match segments with
  | [] => Success (out, declared)
  | segment :: segments =>
      _ ← require (negb (negb (segment_count segment =? count) || negb (segment_idx segment =? idx)))
            segment_header_mismatch;
      _ ← require (negb (zlen (segment_words segment) <? segment_payload_words segment))
            segment_word_underflow;
      let remaining := u32 (required_words - u32 (zlen out)) in
      let take_words := Z.min (segment_payload_words segment) remaining in
      extract_loop count required_words (u32 (idx + 1)) segments
        (out ++ take (Z.to_nat take_words) (segment_words segment))
        (u32 (declared + segment_payload_words segment))
  end.

Definition extract_payload_words (payload : EncodedPayload) (required_words : Z) : result (list Z) :=
  let segments := e_segments payload in
  _ ← require (negb (bool_decide (segments = []))) missing_segments;
  let count := u32 (zlen segments) in
  '(out, declared) ← extract_loop count required_words 0 (take (Z.to_nat count) segments) [] 0;
  _ ← require (declared =? required_words) payload_length_mismatch;
  _ ← require (zlen out =? required_words) payload_underflow;
  Success out.

(** The loop stops at the first word that is not finite; then all words must not be zero. *)
Definition validate_payload_words (payload_words : list Z) : result unit :=
  _ ← require (forallb (fun word => isfinite (decode_fp32 word)) payload_words) invalid_fp32_payload;
  require (negb (forallb (fun word => word =? 0) payload_words)) invalid_zero_payload.

(** ** The two directions *)

(** [payload_words[start + i]] for [i < n]. *)
Definition read_words (payload_words : list Z) (start n : Z) : result (list Z) :=
  match mapM (fun i => payload_words !! Z.to_nat (u32 (start + i))) (seqZ 0 n) with
  | Some words => Success (decode_fp32 <$> words)
  | None => Undefined
  end.

(** The result with the number of words consumed, which is 0 after a failure. *)
Definition decode (encoded : EncodedPayload) : result (DecodedPayload * Z) :=
  _ ← validate_schema (e_schema_version encoded);
  _ ← validate_bank_slot (e_bank encoded) (e_slot encoded);
  _ ← validate_direction (e_direction encoded) (e_slot encoded);
  _ ← validate_shape (e_dim encoded) (e_eta_len encoded) (e_lam_len encoded);
  let total_payload_words := u32 (e_eta_len encoded + e_lam_len encoded) in
  payload_words ← extract_payload_words encoded total_payload_words;
  _ ← validate_payload_words payload_words;
  eta ← read_words payload_words 0 (e_eta_len encoded);
  lam ← read_words payload_words (e_eta_len encoded) (e_lam_len encoded);
  Success ({| d_schema_version := e_schema_version encoded; d_bank := e_bank encoded;
              d_slot := e_slot encoded; d_direction := direction_for_slot (e_slot encoded);
              d_dim := e_dim encoded; d_eta := eta; d_lam := lam |}, total_payload_words).

Definition encode (decoded : DecodedPayload) : result EncodedPayload :=
  _ ← validate_schema (d_schema_version decoded);
  _ ← validate_bank_slot (d_bank decoded) (d_slot decoded);
  _ ← validate_direction (d_direction decoded) (d_slot decoded);
  let eta_len := u32 (zlen (d_eta decoded)) in
  let lam_len := u32 (zlen (d_lam decoded)) in
  _ ← validate_shape (d_dim decoded) eta_len lam_len;
  _ ← require (forallb isfinite (d_eta decoded)) invalid_fp32_payload;
  _ ← require (forallb isfinite (d_lam decoded)) invalid_fp32_payload;
  let words := (encode_fp32 <$> d_eta decoded) ++ (encode_fp32 <$> d_lam decoded) in
  _ ← validate_payload_words words;
  Success {| e_schema_version := d_schema_version decoded; e_bank := d_bank decoded;
             e_slot := d_slot decoded; e_direction := d_direction decoded; e_dim := d_dim decoded;
             e_eta_len := eta_len; e_lam_len := lam_len;
             e_segments := [{| segment_idx := 0; segment_count := 1;
                               segment_payload_words := u32 (zlen words);
                               segment_words := words |}] |}.

(** *** A client: the payload snapshots of the traces, always of dimension 2 *)

(** The fields that [decode_semantic_payload] fills in. *)
Record SemanticPayloadEvidence : Type := {
  sp_bank : Z;
  sp_slot : Z;
  sp_row : Z;
  sp_payload_words : list Z;
  sp_eta : list Z;
  sp_lam : list Z
}.

Definition decode_semantic_payload (bank row : Z) (payload_words : list Z) : result SemanticPayloadEvidence :=
  _ ← require (negb ((bank <? kMessageBankLo) || (bank >? kMessageBankHi))) bad_bank_slot;
  let slot := u32 (bank - kMessageBankLo) in
  let encoded := {| e_schema_version := kPhase1SchemaVersion; e_bank := bank; e_slot := slot;
                    e_direction := direction_for_slot slot; e_dim := 2; e_eta_len := 2; e_lam_len := 3;
                    e_segments := [{| segment_idx := 0; segment_count := 1; segment_payload_words := 5;
                                      segment_words := payload_words |}] |} in
  '(decoded, words_consumed) ← decode encoded;
  _ ← require (negb (negb (zlen (d_eta decoded) =? 2) || negb (zlen (d_lam decoded) =? 3)
                     || negb (words_consumed =? 5))) semantic_payload_shape_mismatch;
  Success {| sp_bank := bank; sp_slot := slot; sp_row := row; sp_payload_words := payload_words;
             sp_eta := d_eta decoded; sp_lam := d_lam decoded |}.

(** ** What is a valid message *)

Definition payload (segments : list Segment) : list Z :=
  segments ≫= fun s => take (Z.to_nat (segment_payload_words s)) (segment_words s).

Definition declared (segments : list Segment) : Z :=
  foldr (fun s n => segment_payload_words s + n) 0 segments.

Definition segment_ok (count idx : Z) (s : Segment) : Prop :=
  segment_count s = count /\ segment_idx s = idx /\ segment_payload_words s <= zlen (segment_words s).

Definition segments_ok (count idx : Z) (segments : list Segment) : Prop :=
  forall i s, segments !! i = Some s -> segment_ok count (idx + Z.of_nat i) s.

(** The values that fit the types of the fields; and the segments hold fewer than 2^32 words in all
    (16 GiB), so that the code's 32-bit count of them does not wrap. *)
Record wf_encoded (e : EncodedPayload) : Prop := {
  wf_slot : is_u32 (e_slot e);
  wf_dim : is_u32 (e_dim e);
  wf_lam_len : is_u32 (e_lam_len e);
  wf_segment : Forall (fun s => 0 <= segment_payload_words s) (e_segments e);
  wf_segments : zlen (e_segments e) < 4294967296;
  wf_declared : declared (e_segments e) < 4294967296
}.

Record header_ok (version bank slot : Z) (direction : Direction) (dim eta_len lam_len : Z) : Prop := {
  ok_version : version = 1;
  ok_slot : slot < 4;
  ok_bank : bank = 4 + slot;
  ok_direction : direction = direction_for_slot slot;
  ok_dim : dim <> 0;
  ok_eta_len : eta_len = dim;
  ok_lam_len : lam_len = expected_lam_len dim
}.

Definition words_ok (words : list Z) : Prop :=
  Forall (fun w => isfinite w = true) words /\ Exists (fun w => w <> 0) words.

(** The segments are numbered and long enough, and hold what the header announces: finite
    numbers, not all of them the word 0. *)
Record valid (e : EncodedPayload) : Prop := {
  valid_header : header_ok (e_schema_version e) (e_bank e) (e_slot e) (e_direction e) (e_dim e)
                   (e_eta_len e) (e_lam_len e);
  valid_segments : e_segments e <> [] /\ segments_ok (zlen (e_segments e)) 0 (e_segments e);
  valid_length : zlen (payload (e_segments e)) = e_eta_len e + e_lam_len e;
  valid_words : words_ok (payload (e_segments e))
}.

(** What a valid message says. *)
Definition decoded_of (e : EncodedPayload) : DecodedPayload :=
  let words := payload (e_segments e) in
  {| d_schema_version := e_schema_version e; d_bank := e_bank e; d_slot := e_slot e;
     d_direction := e_direction e; d_dim := e_dim e;
     d_eta := take (Z.to_nat (e_eta_len e)) words; d_lam := drop (Z.to_nat (e_eta_len e)) words |}.

(** The message with the same content in one segment. *)
Definition one_segment (words : list Z) : Segment :=
  {| segment_idx := 0; segment_count := 1; segment_payload_words := zlen words; segment_words := words |}.

Definition canonical (e : EncodedPayload) : EncodedPayload :=
  {| e_schema_version := e_schema_version e; e_bank := e_bank e; e_slot := e_slot e;
     e_direction := e_direction e; e_dim := e_dim e; e_eta_len := e_eta_len e;
     e_lam_len := e_lam_len e; e_segments := [one_segment (payload (e_segments e))] |}.

(** ** The checks decide it *)

Lemma bind_success {A B} (r : result A) (f : A -> result B) b :
  r ≫= f = Success b <-> exists a, r = Success a /\ f a = Success b.
Proof.
  destruct r as [a|e|]; simpl; split; try (by intros (? & [=] & ?)); try done.
  - intros H. by exists a.
  - by intros (a' & [= <-] & H).
Qed.

Lemma require_success b e u : require b e = Success u <-> b = true.
Proof. destruct b, u; simpl; split; (done || congruence). Qed.

Lemma header_checks version bank slot direction dim eta_len lam_len :
  is_u32 slot ->
  (_ ← validate_schema version; _ ← validate_bank_slot bank slot; _ ← validate_direction direction slot;
   validate_shape dim eta_len lam_len) = Success () <->
  header_ok version bank slot direction dim eta_len lam_len.
Proof.
  intros Hs. unfold validate_schema, validate_bank_slot, validate_direction, validate_shape.
  unfold kMessageSlotCount, kPhase1SchemaVersion, kMessageBankLo, kMessageBankHi.
  change (7 - 4 + 1) with 4. split.
  - intros ([] & H1%require_success & ([] & H2%require_success & ([] & H3%require_success &
      ([] & H4%require_success & H5%require_success)%bind_success)%bind_success)%bind_success)%bind_success.
    apply bool_decide_eq_true in H3.
    rewrite negb_true_iff, !orb_false_iff, Z.geb_leb, Z.leb_gt, negb_false_iff, Z.eqb_eq in H2.
    destruct H2 as [[_ Hlt] Hb]. rewrite u32_id in Hb by (unfold is_u32 in *; lia).
    rewrite negb_true_iff, Z.eqb_neq in H4.
    rewrite negb_true_iff, orb_false_iff, !negb_false_iff, !Z.eqb_eq in H5. destruct H5. apply Z.eqb_eq in H1.
    by constructor.
  - intros [-> Hlt -> -> Hd -> ->]. rewrite bool_decide_eq_true_2 by done.
    rewrite !Z.eqb_refl, u32_id by (unfold is_u32 in *; lia). rewrite Z.eqb_refl.
    destruct (Z.ltb_spec (4 + slot) 4), (Z.gtb_spec (4 + slot) 7), (Z.geb_spec slot 4), (Z.eqb_spec dim 0);
      unfold is_u32 in *; done || lia.
Qed.

Lemma zlen_cons {A} (a : A) l : zlen (a :: l) = zlen l + 1.
Proof. unfold zlen. simpl. lia. Qed.

Lemma extract_loop_ok count required idx l out n :
  segments_ok count idx l -> Forall (fun s => 0 <= segment_payload_words s) l ->
  0 <= idx -> idx + zlen l < 4294967296 -> 0 <= n -> n + declared l < 4294967296 ->
  is_u32 required -> zlen out <= required ->
  extract_loop count required idx l out n =
    Success (out ++ take (Z.to_nat (required - zlen out)) (payload l), n + declared l).
Proof.
  revert idx out n. induction l as [|s l IH]; intros idx out n Hok Hwf Hidx Hl Hn Hd Hr Ho; simpl.
  { unfold payload. cbn. by rewrite take_nil, app_nil_r, Z.add_0_r. }
  apply Forall_cons in Hwf as [Hs Hwf]. destruct (Hok 0%nat s eq_refl) as (-> & E2 & Hlen).
  rewrite Z.add_0_r in E2. rewrite E2, !Z.eqb_refl. cbn [negb orb require mbind result_bind].
  destruct (Z.ltb_spec (zlen (segment_words s)) (segment_payload_words s)); [lia|]. cbn [negb require mbind result_bind].
  pose proof (zlen_nonneg out). pose proof (zlen_nonneg l). cbn [declared foldr] in Hd.
  fold (declared l) in Hd. assert (0 <= declared l) as Hdl.
  { clear -Hwf. induction Hwf; cbn; [done|]. fold (declared l). lia. }
  unfold is_u32 in Hr. rewrite (u32_id (zlen out)) by (unfold is_u32; lia).
  rewrite (u32_id (required - zlen out)) by (unfold is_u32; lia).
  rewrite (u32_id (n + _)) by (unfold is_u32; lia).
  rewrite zlen_cons in Hl.
  set (w := segment_payload_words s) in *. set (ws := segment_words s) in *.
  assert (zlen (take (Z.to_nat (Z.min w (required - zlen out))) ws) = Z.min w (required - zlen out)) as Et.
  { unfold zlen in *. rewrite length_take. lia. }
  rewrite u32_id by (unfold is_u32; lia).
  rewrite IH; [|intros i s' Hi; replace (idx + 1 + Z.of_nat i) with (idx + Z.of_nat (S i)) by lia; by apply Hok
               |done|lia|lia|lia|lia|done|rewrite zlen_app, Et; lia].
  f_equal. f_equal; [|cbn; fold (declared l); lia].
  rewrite <-app_assoc. f_equal.
  rewrite zlen_app, Et, take_app, take_take, length_take. f_equal; [f_equal; lia|f_equal].
  unfold zlen in *. lia.
Qed.

Lemma extract_loop_inv count required idx l out n r :
  0 <= idx -> idx + zlen l < 4294967296 -> extract_loop count required idx l out n = Success r ->
  segments_ok count idx l.
Proof.
  revert idx out n. induction l as [|s l IH]; intros idx out n Hidx Hl H; [by intros i s Hi|].
  simpl in H. apply bind_success in H as ([] & H1%require_success & H).
  apply bind_success in H as ([] & H2%require_success & H).
  rewrite zlen_cons in Hl. pose proof (zlen_nonneg l).
  rewrite u32_id in H by (unfold is_u32; lia). apply IH in H; [|lia|lia].
  intros [|i] s' Hi; simpl in Hi.
  - injection Hi as <-. unfold segment_ok. lia.
  - replace (idx + Z.of_nat (S i)) with (idx + 1 + Z.of_nat i) by lia. by apply H.
Qed.

Lemma forallb_forall_elem {A} (f : A -> bool) l : forallb f l = true <-> forall a, a ∈ l -> f a = true.
Proof. rewrite forallb_forall. split; intros H a Ha; apply H; by apply list_elem_of_In. Qed.

Lemma exists_nonzero l : forallb (fun w => w =? 0) l = false <-> Exists (fun w => w <> 0) l.
Proof.
  induction l as [|w l IH]; simpl; [split; [done|intros H; by apply Exists_nil in H]|].
  rewrite Exists_cons, andb_false_iff, IH, Z.eqb_neq. done.
Qed.

Lemma words_checks words :
  validate_payload_words words = Success () <-> words_ok words.
Proof.
  unfold validate_payload_words, words_ok, decode_fp32. rewrite bind_success. split.
  - intros ([] & H1%require_success & H2%require_success). split.
    + by apply Forall_forall, forallb_forall_elem.
    + apply negb_true_iff in H2. by apply exists_nonzero.
  - intros [H1 H2]. exists (). split; apply require_success.
    + by apply forallb_forall_elem, Forall_forall.
    + apply negb_true_iff. by apply exists_nonzero.
Qed.

Lemma read_words_in words start n : 0 <= start -> 0 <= n -> start + n <= zlen words ->
  zlen words < 4294967296 ->
  read_words words start n = Success (take (Z.to_nat n) (drop (Z.to_nat start) words)).
Proof.
  intros Hs Hn Hl Hw. unfold read_words.
  assert (mapM (fun i => words !! Z.to_nat (u32 (start + i))) (seqZ 0 n) =
    Some (take (Z.to_nat n) (drop (Z.to_nat start) words))) as ->.
  { apply mapM_Some. apply Forall2_same_length_lookup. unfold zlen in *. split.
    - rewrite length_seqZ, length_take, length_drop. lia.
    - intros i x y Hx Hy. apply lookup_seqZ in Hx as [-> Hi]. apply lookup_take_Some in Hy as [Hy _].
      rewrite lookup_drop in Hy. rewrite u32_id by (unfold is_u32; lia).
      by replace (Z.to_nat (start + (0 + Z.of_nat i))) with (Z.to_nat start + i)%nat by lia. }
  f_equal. apply list_fmap_id.
Qed.

Lemma read_words_out words start n i : 0 <= i < n -> zlen words <= u32 (start + i) ->
  read_words words start n = Undefined.
Proof.
  intros Hi Hl. unfold read_words. destruct (mapM _ _) as [l|] eqn:E; [exfalso|done].
  apply mapM_Some, Forall2_same_length_lookup in E as [El E].
  assert (seqZ 0 n !! Z.to_nat i = Some i) as Hx by (apply lookup_seqZ; lia).
  destruct (lookup_lt_is_Some_2 l (Z.to_nat i)) as [y Hy].
  { rewrite <-El. by eapply lookup_lt_Some. }
  specialize (E _ _ _ Hx Hy). apply lookup_lt_Some in E. unfold zlen in Hl. lia.
Qed.

Lemma expected_lam_len_range dim : 0 <= expected_lam_len dim < 2147483648.
Proof. unfold expected_lam_len, u32. Z.to_euclidean_division_equations. lia. Qed.

Lemma expected_lam_len_exact dim : is_u32 dim -> expected_lam_len dim = dim * (dim + 1) / 2 <-> dim < 65536.
Proof.
  unfold is_u32. intros Hd. split.
  - intros E. destruct (Z.lt_ge_cases dim 65536) as [|Hge]; [done|exfalso].
    pose proof (expected_lam_len_range dim) as Hr. rewrite E in Hr.
    assert (65536 * 65537 / 2 <= dim * (dim + 1) / 2) as Hle by (apply Z.div_le_mono; nia).
    change (65536 * 65537 / 2) with 2147516416 in Hle. lia.
  - intros Hlt. unfold expected_lam_len. rewrite (u32_id (dim + 1)), u32_id by (unfold is_u32; nia). done.
Qed.

(** The reads are what is left when all checks have passed. *)
Definition read_payload (e : EncodedPayload) (words : list Z) : result (DecodedPayload * Z) :=
  eta ← read_words words 0 (e_eta_len e);
  lam ← read_words words (e_eta_len e) (e_lam_len e);
  Success ({| d_schema_version := e_schema_version e; d_bank := e_bank e;
              d_slot := e_slot e; d_direction := direction_for_slot (e_slot e);
              d_dim := e_dim e; d_eta := eta; d_lam := lam |}, u32 (e_eta_len e + e_lam_len e)).

(** All that is checked. *)
Record checked (e : EncodedPayload) : Prop := {
  checked_header : header_ok (e_schema_version e) (e_bank e) (e_slot e) (e_direction e) (e_dim e)
                     (e_eta_len e) (e_lam_len e);
  checked_segments : e_segments e <> [] /\ segments_ok (zlen (e_segments e)) 0 (e_segments e);
  checked_length : declared (e_segments e) = u32 (e_eta_len e + e_lam_len e);
  checked_words : words_ok (payload (e_segments e))
}.

Lemma declared_payload count idx l : segments_ok count idx l ->
  Forall (fun s => 0 <= segment_payload_words s) l -> zlen (payload l) = declared l.
Proof.
  revert idx. induction l as [|s l IH]; intros idx Hok Hwf; [done|].
  apply Forall_cons in Hwf as [Hs Hwf]. destruct (Hok 0%nat s eq_refl) as (_ & _ & Hlen).
  unfold payload. rewrite bind_cons, zlen_app. fold (payload l). rewrite (IH (idx + 1)); [|intros i s' Hi|done].
  - cbn. fold (declared l). unfold zlen in *. rewrite length_take. lia.
  - replace (idx + 1 + Z.of_nat i) with (idx + Z.of_nat (S i)) by lia. by apply Hok.
Qed.

Lemma extract_checked e required : wf_encoded e -> is_u32 required ->
  e_segments e <> [] -> segments_ok (zlen (e_segments e)) 0 (e_segments e) ->
  declared (e_segments e) = required ->
  extract_payload_words e required = Success (payload (e_segments e)).
Proof.
  intros [_ _ _ Hw Hl Hd] Hr Hne Hok Hdecl. unfold extract_payload_words.
  rewrite bool_decide_eq_false_2 by done. pose proof (zlen_nonneg (e_segments e)).
  rewrite u32_id by (unfold is_u32; lia). rewrite take_ge by (unfold zlen; lia). cbn [require negb mbind result_bind].
  pose proof (declared_payload _ _ _ Hok Hw) as Hp. unfold is_u32 in Hr.
  rewrite extract_loop_ok by (done || unfold zlen; simpl; lia). cbn [mbind result_bind app].
  rewrite take_ge by (unfold zlen in *; simpl; lia). rewrite Z.add_0_l, Hp, Hdecl, !Z.eqb_refl. done.
Qed.

Lemma extract_inv e required words : wf_encoded e -> is_u32 required ->
  extract_payload_words e required = Success words ->
  e_segments e <> [] /\ segments_ok (zlen (e_segments e)) 0 (e_segments e) /\ declared (e_segments e) = required.
Proof.
  intros [_ _ _ Hw Hl Hd] Hr H. unfold extract_payload_words in H.
  apply bind_success in H as ([] & H1%require_success & H).
  apply bind_success in H as ([out n] & H2 & H). apply bind_success in H as ([] & H3%require_success & _).
  pose proof (zlen_nonneg (e_segments e)). rewrite u32_id in H2 by (unfold is_u32; lia).
  rewrite take_ge in H2 by (unfold zlen; lia).
  apply extract_loop_inv in H2 as Hok; [|lia|lia]. unfold is_u32 in Hr.
  rewrite extract_loop_ok in H2 by (done || unfold zlen; simpl; lia).
  injection H2 as _ <-. apply negb_true_iff, bool_decide_eq_false in H1. split_and!; [done|done|lia].
Qed.

(** [decode] is its checks, then its reads; [check_payload] is the first part. *)
Definition check_payload (e : EncodedPayload) : result (list Z) :=
  _ ← (_ ← validate_schema (e_schema_version e); _ ← validate_bank_slot (e_bank e) (e_slot e);
       _ ← validate_direction (e_direction e) (e_slot e);
       validate_shape (e_dim e) (e_eta_len e) (e_lam_len e));
  words ← extract_payload_words e (u32 (e_eta_len e + e_lam_len e));
  _ ← validate_payload_words words;
  Success words.

Lemma decode_split e : decode e = check_payload e ≫= read_payload e.
Proof.
  unfold decode, check_payload. destruct (validate_schema _); [|done..]. simpl.
  destruct (validate_bank_slot _ _); [|done..]. simpl. destruct (validate_direction _ _); [|done..]. simpl.
  destruct (validate_shape _ _ _); [|done..]. simpl. destruct (extract_payload_words _ _); [|done..]. simpl.
  by destruct (validate_payload_words _).
Qed.

(** No check reads out of bounds. *)
Lemma bind_defined {A B} (r : result A) (f : A -> result B) :
  r <> Undefined -> (forall a, f a <> Undefined) -> r ≫= f <> Undefined.
Proof. destruct r; simpl; auto. Qed.

Lemma require_defined b e : require b e <> Undefined.
Proof. by destruct b. Qed.

Lemma extract_loop_defined count required idx l out n : extract_loop count required idx l out n <> Undefined.
Proof.
  revert idx out n. induction l as [|s l IH]; intros idx out n; simpl; [done|].
  repeat (apply bind_defined; [apply require_defined|intros []]). apply IH.
Qed.

Lemma check_defined e : check_payload e <> Undefined.
Proof.
  unfold check_payload, validate_schema, validate_bank_slot, validate_direction, validate_shape,
    extract_payload_words, validate_payload_words.
  repeat first [done | apply require_defined | apply extract_loop_defined | apply bind_defined; [|intros []] |
    apply bind_defined; [|intros ?] ].
Qed.

Lemma check_spec e words : wf_encoded e ->
  check_payload e = Success words <-> checked e /\ words = payload (e_segments e).
Proof.
  intros Hwf. pose proof (wf_slot e Hwf) as Hs.
  assert (is_u32 (u32 (e_eta_len e + e_lam_len e))) as Ht by apply u32_range. unfold check_payload. split.
  - intros ([] & H1%header_checks & H)%bind_success; [|done].
    apply bind_success in H as (words' & H2 & H). apply bind_success in H as ([] & H3%words_checks & [= ->]).
    apply extract_inv in H2 as Hx; [|done|done]. destruct Hx as (Hne & Hok & Hd).
    rewrite extract_checked in H2 by done. injection H2 as <-. split; [by constructor|done].
  - intros [[H1 [Hne Hok] Hd Hw] ->]. apply header_checks in H1; [|done]. rewrite H1.
    cbn [mbind result_bind]. rewrite extract_checked by done. cbn [mbind result_bind].
    apply words_checks in Hw. by rewrite Hw.
Qed.

Lemma checked_valid e : wf_encoded e ->
  valid e <-> checked e /\ e_eta_len e + e_lam_len e < 4294967296.
Proof.
  intros Hwf. pose proof (wf_lam_len e Hwf) as Hl. pose proof (wf_dim e Hwf) as Hd. unfold is_u32 in *. split.
  - intros [Hh [Hne Hok] Hlen Hw]. pose proof (ok_eta_len _ _ _ _ _ _ _ Hh) as Ee.
    rewrite (declared_payload _ _ _ Hok (wf_segment e Hwf)) in Hlen. pose proof (wf_declared e Hwf).
    split; [|lia]. constructor; [done|done| |done]. rewrite u32_id by (unfold is_u32; lia). done.
  - intros [[Hh [Hne Hok] Hlen Hw] Hlt]. pose proof (ok_eta_len _ _ _ _ _ _ _ Hh) as Ee.
    rewrite u32_id in Hlen by (unfold is_u32; lia).
    constructor; [done|done| |done]. by rewrite (declared_payload _ _ _ Hok (wf_segment e Hwf)).
Qed.

Lemma decode_valid e : wf_encoded e -> valid e ->
  decode e = Success (decoded_of e, e_eta_len e + e_lam_len e).
Proof.
  intros Hwf Hv. pose proof Hv as [Hh [Hne Hok] Hlen _]. apply checked_valid in Hv as [Hc Hlt]; [|done].
  rewrite decode_split. rewrite (proj2 (check_spec e _ Hwf) (conj Hc eq_refl)). cbn [mbind result_bind].
  pose proof (wf_lam_len e Hwf) as Hl. pose proof (wf_dim e Hwf) as Hd. unfold is_u32 in *.
  pose proof (ok_eta_len _ _ _ _ _ _ _ Hh) as Ee. unfold read_payload.
  rewrite !read_words_in by lia. cbn [mbind result_bind].
  rewrite u32_id by (unfold is_u32; lia). unfold decoded_of. rewrite (ok_direction _ _ _ _ _ _ _ Hh).
  do 3 f_equal. rewrite take_ge; [done|]. rewrite length_drop. unfold zlen in Hlen. lia.
Qed.

(** The announced lengths do not fit in 32 bits: the checks compare with what is left of them. *)
Lemma decode_overrun e : wf_encoded e -> checked e -> 4294967296 <= e_eta_len e + e_lam_len e ->
  decode e = Undefined.
Proof.
  intros Hwf Hc Hge. rewrite decode_split, (proj2 (check_spec e _ Hwf) (conj Hc eq_refl)). cbn [mbind result_bind].
  destruct Hc as [Hh [_ Hok] Hlen _]. pose proof (declared_payload _ _ _ Hok (wf_segment e Hwf)) as Hp.
  pose proof (ok_lam_len _ _ _ _ _ _ _ Hh) as El. pose proof (ok_eta_len _ _ _ _ _ _ _ Hh) as Ee.
  pose proof (expected_lam_len_range (e_dim e)) as Hr. pose proof (wf_dim e Hwf) as Hd. unfold is_u32 in Hd.
  assert (u32 (e_eta_len e + e_lam_len e) = e_eta_len e + e_lam_len e - 4294967296) as Eu.
  { unfold u32. Z.to_euclidean_division_equations. lia. }
  unfold read_payload. rewrite (read_words_out _ 0 _ (e_eta_len e + e_lam_len e - 4294967296)); [done|lia|].
  rewrite u32_id by (unfold is_u32; lia). lia.
Qed.

Lemma decode_cases e : wf_encoded e ->
  (valid e /\ decode e = Success (decoded_of e, e_eta_len e + e_lam_len e)) \/
  (~ valid e /\ exists m, decode e = Failure m) \/
  (~ valid e /\ 4294967296 <= e_eta_len e + e_lam_len e /\ decode e = Undefined).
Proof.
  intros Hwf. destruct (check_payload e) as [words|m|] eqn:E.
  - apply check_spec in E as [Hc _]; [|done].
    destruct (Z.lt_ge_cases (e_eta_len e + e_lam_len e) 4294967296) as [Hlt|Hge].
    + left. assert (valid e) as Hv by (by apply checked_valid). split; [done|by apply decode_valid].
    + right. right. split; [intros [_ Hlt]%checked_valid; [lia|done]|]. split; [done|by apply decode_overrun].
  - right. left. split.
    + intros [Hc _]%checked_valid; [|done].
      by rewrite (proj2 (check_spec e _ Hwf) (conj Hc eq_refl)) in E.
    + exists m. by rewrite decode_split, E.
  - by apply check_defined in E.
Qed.

(** ** Encoding *)

Definition encoded_of (d : DecodedPayload) : EncodedPayload :=
  {| e_schema_version := d_schema_version d; e_bank := d_bank d; e_slot := d_slot d;
     e_direction := d_direction d; e_dim := d_dim d; e_eta_len := zlen (d_eta d);
     e_lam_len := zlen (d_lam d); e_segments := [one_segment (d_eta d ++ d_lam d)] |}.

Lemma words_ok_app l1 l2 : words_ok (l1 ++ l2) <->
  forallb isfinite l1 = true /\ forallb isfinite l2 = true /\ words_ok (l1 ++ l2).
Proof.
  split; [|tauto]. intros Hw. pose proof Hw as [[H1 H2]%Forall_app _]. rewrite Forall_forall in H1, H2.
  split_and!; [by apply forallb_forall_elem..|done].
Qed.

Lemma encode_spec d e : is_u32 (d_slot d) -> zlen (d_eta d) + zlen (d_lam d) < 4294967296 ->
  encode d = Success e <->
  e = encoded_of d /\ words_ok (d_eta d ++ d_lam d) /\
  header_ok (d_schema_version d) (d_bank d) (d_slot d) (d_direction d) (d_dim d) (zlen (d_eta d)) (zlen (d_lam d)).
Proof.
  intros Hs Hl. pose proof (zlen_nonneg (d_eta d)). pose proof (zlen_nonneg (d_lam d)).
  rewrite <-header_checks by done. rewrite words_ok_app, <-words_checks.
  unfold encode, encode_fp32. rewrite !list_fmap_id, zlen_app, !u32_id by (unfold is_u32; lia).
  destruct (validate_schema _) as [[]| |]; simpl; [|split; [done|by intros (? & ? & ?)]..].
  destruct (validate_bank_slot _ _) as [[]| |]; simpl; [|split; [done|by intros (? & ? & ?)]..].
  destruct (validate_direction _ _) as [[]| |]; simpl; [|split; [done|by intros (? & ? & ?)]..].
  destruct (validate_shape _ _ _) as [[]| |]; simpl; [|split; [done|by intros (? & ? & ?)]..].
  rewrite <-(require_success (forallb isfinite (d_eta d)) invalid_fp32_payload ()).
  rewrite <-(require_success (forallb isfinite (d_lam d)) invalid_fp32_payload ()).
  destruct (require (forallb isfinite (d_eta d)) _) as [[]| |]; simpl; [|split; [done|by intros (? & (? & ?) & ?)]..].
  destruct (require (forallb isfinite (d_lam d)) _) as [[]| |]; simpl; [|split; [done|by intros (? & (? & ? & ?) & ?)]..].
  destruct (validate_payload_words _) as [[]| |]; simpl; [|split; [done|by intros (? & (? & ? & ?) & ?)]..].
  unfold encoded_of, one_segment. rewrite zlen_app. split; [by intros [= <-]|by intros [-> _]].
Qed.

Lemma payload_one words : payload [one_segment words] = words.
Proof. unfold payload. cbn. rewrite app_nil_r. apply take_ge. unfold zlen. lia. Qed.

Lemma one_segment_ok words : segments_ok 1 0 [one_segment words].
Proof. intros [|i] s Hi; simpl in Hi; [|done]. injection Hi as <-. by unfold segment_ok. Qed.

Lemma one_segment_wf version bank slot direction dim eta_len lam_len words :
  header_ok version bank slot direction dim eta_len lam_len -> is_u32 slot -> is_u32 dim ->
  zlen words < 4294967296 ->
  wf_encoded {| e_schema_version := version; e_bank := bank; e_slot := slot; e_direction := direction;
                e_dim := dim; e_eta_len := eta_len; e_lam_len := lam_len; e_segments := [one_segment words] |}.
Proof.
  intros Hh Hs Hd Hw. pose proof (zlen_nonneg words). constructor; cbn; [done|done| |by repeat constructor|done|lia].
  rewrite (ok_lam_len _ _ _ _ _ _ _ Hh). pose proof (expected_lam_len_range dim). unfold is_u32. lia.
Qed.

Lemma encoded_valid d : words_ok (d_eta d ++ d_lam d) ->
  header_ok (d_schema_version d) (d_bank d) (d_slot d) (d_direction d) (d_dim d) (zlen (d_eta d)) (zlen (d_lam d)) ->
  valid (encoded_of d) /\ decoded_of (encoded_of d) = d.
Proof.
  intros Hw Hh. split.
  - constructor; cbn [encoded_of e_schema_version e_bank e_slot e_direction e_dim e_eta_len e_lam_len e_segments].
    + done.
    + split; [done|apply one_segment_ok].
    + rewrite payload_one. apply zlen_app.
    + by rewrite payload_one.
  - unfold decoded_of, encoded_of. cbn [e_schema_version e_bank e_slot e_direction e_dim e_eta_len e_lam_len e_segments].
    rewrite payload_one. replace (Z.to_nat (zlen (d_eta d))) with (length (d_eta d)) by (unfold zlen; lia).
    rewrite take_app_length, drop_app_length. by destruct d.
Qed.

Lemma canonical_encoded e : wf_encoded e -> valid e ->
  encoded_of (decoded_of e) = canonical e /\ zlen (d_eta (decoded_of e)) = e_eta_len e /\
  zlen (d_lam (decoded_of e)) = e_lam_len e.
Proof.
  intros Hwf [Hh _ Hlen _]. pose proof (wf_lam_len e Hwf) as Hl. pose proof (wf_dim e Hwf) as Hd.
  pose proof (ok_eta_len _ _ _ _ _ _ _ Hh) as Ee. unfold is_u32 in *.
  assert (zlen (d_eta (decoded_of e)) = e_eta_len e /\ zlen (d_lam (decoded_of e)) = e_lam_len e) as [E1 E2].
  { unfold decoded_of, zlen in *. cbn [d_eta d_lam]. rewrite length_take, length_drop. lia. }
  split; [|done]. unfold encoded_of, canonical. rewrite E1, E2. f_equal. f_equal. f_equal.
  unfold decoded_of. cbn [d_eta d_lam]. apply take_drop.
Qed.

Lemma encode_decoded e : wf_encoded e -> valid e -> encode (decoded_of e) = Success (canonical e).
Proof.
  intros Hwf Hv. destruct (canonical_encoded e Hwf Hv) as (E & E1 & E2).
  pose proof Hv as [_ Hlt]%checked_valid; [|done]. apply encode_spec; [exact (wf_slot e Hwf)|by rewrite E1, E2|].
  rewrite E1, E2. destruct Hv as [Hh _ _ Hw]. split_and!; [done| |done].
  unfold decoded_of. cbn [d_eta d_lam]. by rewrite take_drop.
Qed.

(** ** The contract *)

(** C15 (roundtrip).  What is encoded is decoded to the same message, with all its words
    consumed; and what is decoded, however it was cut into segments, is encoded as one segment,
    which is decoded to the same message again: the two checks that the test bench makes on its
    fixtures hold of every message. *)
Theorem codec_round_trip :
  (forall d e, is_u32 (d_slot d) -> is_u32 (d_dim d) -> zlen (d_eta d) + zlen (d_lam d) < 2 ^ 32 ->
     encode d = Success e -> decode e = Success (d, zlen (d_eta d) + zlen (d_lam d))) /\
  (forall e d n, wf_encoded e -> decode e = Success (d, n) ->
     encode d = Success (canonical e) /\ decode (canonical e) = Success (d, n)).
Proof.
  split.
  - intros d e Hs Hd Hl He. norm_pow2. apply encode_spec in He as (-> & Hw & Hh); [|done|done].
    destruct (encoded_valid d Hw Hh) as [Hv Ed]. rewrite <-Ed at 2.
    apply decode_valid; [|done]. apply one_segment_wf; [done..|]. by rewrite zlen_app.
  - intros e d n Hwf H. destruct (decode_cases e Hwf) as [[Hv E]|[[_ [m E]]|(_ & _ & E)]]; [|congruence..].
    rewrite E in H. injection H as <- <-. pose proof (encode_decoded e Hwf Hv) as He. split; [done|].
    destruct (canonical_encoded e Hwf Hv) as (Ec & E1 & E2). pose proof Hv as [_ Hlt]%checked_valid; [|done].
    apply encode_spec in He as (_ & Hw & Hh); [|exact (wf_slot e Hwf)|by rewrite E1, E2].
    destruct (encoded_valid _ Hw Hh) as [Hv' Ed]. rewrite <-Ec.
    rewrite decode_valid, Ed; [|rewrite Ec; apply one_segment_wf|done].
    + by rewrite Ec.
    + by rewrite E1, E2 in Hh.
    + exact (wf_slot e Hwf).
    + exact (wf_dim e Hwf).
    + destruct Hv as [_ _ -> _]. done.
Qed.

(** The fixture [variable_length_segmented_dim3] of the test bench: two segments, and a word that
    is not part of the message. *)
Definition segmented_fixture : EncodedPayload :=
  {| e_schema_version := 1; e_bank := 6; e_slot := 2; e_direction := kFactorToVar; e_dim := 3;
     e_eta_len := 3; e_lam_len := 6;
     e_segments :=
       [{| segment_idx := 0; segment_count := 2; segment_payload_words := 4;
           segment_words := [0x3f800000; 0x40000000; 0x40400000; 0x40800000] |};
        {| segment_idx := 1; segment_count := 2; segment_payload_words := 5;
           segment_words := [0x40a00000; 0x40c00000; 0x40e00000; 0x41000000; 0x41100000; 0xdeadbeef] |}] |}.

Lemma segmented_fixture_wf : wf_encoded segmented_fixture.
Proof. constructor; try (by compute); by repeat constructor. Qed.

Lemma codec_round_trip_witness :
  exists d, decode segmented_fixture = Success (d, 9) /\
    d_eta d = [0x3f800000; 0x40000000; 0x40400000] /\
    encode d = Success (canonical segmented_fixture) /\
    decode (canonical segmented_fixture) = Success (d, 9).
Proof.
  destruct (decode segmented_fixture) as [[d n]| |] eqn:E; [|vm_compute in E; discriminate E..].
  destruct (proj2 codec_round_trip _ d n segmented_fixture_wf E) as [E1 E2].
  pose proof E as H. vm_compute in H. injection H as Hd Hn. exists d. subst n.
  split; [reflexivity|]. split; [rewrite <-Hd; reflexivity|]. split; [exact E1|exact E2].
Defined.

Lemma semantic_wf bank words :
  is_u32 bank -> 4 <= bank -> zlen words = 5 ->
  wf_encoded {| e_schema_version := kPhase1SchemaVersion; e_bank := bank; e_slot := u32 (bank - kMessageBankLo);
                e_direction := direction_for_slot (u32 (bank - kMessageBankLo)); e_dim := 2; e_eta_len := 2;
                e_lam_len := 3;
                e_segments := [{| segment_idx := 0; segment_count := 1; segment_payload_words := 5;
                                  segment_words := words |}] |}.
Proof.
  intros Hb Hlo Hw. constructor; cbn; [apply u32_range|done|done|by repeat constructor|done|done].
Qed.

#[export] Instance words_ok_dec words : Decision (words_ok words).
Proof. unfold words_ok. apply _. Defined.

Lemma semantic_decides bank row words : is_u32 bank -> zlen words = 5 ->
  if bool_decide (4 <= bank <= 7 /\ words_ok words) then
    decode_semantic_payload bank row words =
      Success {| sp_bank := bank; sp_slot := bank - 4; sp_row := row; sp_payload_words := words;
                 sp_eta := take 2 words; sp_lam := drop 2 words |}
  else exists m, decode_semantic_payload bank row words = Failure m.
Proof.
  intros Hb Hw. unfold decode_semantic_payload. change kMessageBankLo with 4. change kMessageBankHi with 7.
  destruct (decide (4 <= bank <= 7)) as [Hbank|Hbank].
  2:{ rewrite bool_decide_eq_false_2 by tauto. exists bad_bank_slot.
      destruct (Z.ltb_spec bank 4), (Z.gtb_spec bank 7); (done || lia). }
  destruct (Z.ltb_spec bank 4); [lia|]. destruct (Z.gtb_spec bank 7); [lia|].
  cbn [orb negb require mbind result_bind].
  pose proof (semantic_wf bank words Hb ltac:(lia) Hw) as Hwf. change kMessageBankLo with 4 in Hwf.
  revert Hwf. rewrite u32_id by (unfold is_u32; lia). set (e := {| e_schema_version := _ |}). intros Hwf.
  assert (payload (e_segments e) = words) as Ep.
  { unfold payload. cbn. rewrite app_nil_r. apply take_ge. unfold zlen in Hw. lia. }
  assert (valid e <-> words_ok words) as Hv.
  { split; [intros [_ _ _ Hok]; by rewrite Ep in Hok|]. intros Hok. constructor.
    - constructor; cbn; (done || lia).
    - split; [done|]. intros [|i] s Hi; simpl in Hi; [|done]. injection Hi as <-. unfold segment_ok, zlen in *. cbn. lia.
    - by rewrite Ep.
    - by rewrite Ep. }
  destruct (decode_cases e Hwf) as [[Hval ->]|[[Hval [m ->]]|(_ & Hge & _)]].
  - rewrite bool_decide_eq_true_2 by (split; [done|by apply Hv]). unfold decoded_of. rewrite Ep.
    destruct words as [|w1 [|w2 [|w3 [|w4 [|w5 [|w6 words]]]]]]; try done.
  - rewrite bool_decide_eq_false_2 by (rewrite <-Hv; tauto). by exists m.
  - by compute in Hge.
Qed.

(** The words whose lengths overflow: 4294967292 numbers are announced, and two are given. *)
Definition overrun_payload : EncodedPayload :=
  {| e_schema_version := 1; e_bank := 4; e_slot := 0; e_direction := kFactorToVar; e_dim := 4294967292;
     e_eta_len := 4294967292; e_lam_len := 6; e_segments := [one_segment [0x3f800000; 0x40000000]] |}.

Lemma overrun_payload_checked : wf_encoded overrun_payload /\ checked overrun_payload.
Proof.
  split; [constructor; try (by compute); by repeat constructor|].
  constructor; cbn [overrun_payload e_schema_version e_bank e_slot e_direction e_dim e_eta_len e_lam_len e_segments].
  - constructor; try done.
  - split; [done|apply one_segment_ok].
  - done.
  - split; [by repeat constructor|]. left. done.
Qed.

(** C16 (error).  [decode] decides exactly whether a message is valid, apart from one hole, for messages
    whose segments hold fewer than 2^32 words in all ([wf_encoded]).  A message whose header,
    segments and words are as they should be is decoded to its numbers; any other is refused with a
    marker, unless the announced lengths overflow 32 bits, and then [decode] reads past the end of
    its vector.  That needs a dimension above 65535, from which on the
    computed length of [lam] is wrong as well; a header that does it passes every check with two
    words of payload.  The client [decode_semantic_payload] cannot get there: it accepts five
    words for one of the four banks if they are finite and not all zero, and splits them in two and
    three. *)
Theorem codec_decides :
  (forall e, wf_encoded e ->
     (valid e -> decode e = Success (decoded_of e, e_eta_len e + e_lam_len e)) /\
     (~ valid e -> (exists m, decode e = Failure m) \/
                   2 ^ 32 <= e_eta_len e + e_lam_len e /\ decode e = Undefined) /\
     (e_dim e < 65536 -> decode e <> Undefined)) /\
  (forall dim, is_u32 dim -> expected_lam_len dim = dim * (dim + 1) / 2 <-> dim < 65536) /\
  (wf_encoded overrun_payload /\ decode overrun_payload = Undefined) /\
  (forall bank row words, is_u32 bank -> zlen words = 5 ->
     if bool_decide (4 <= bank <= 7 /\ words_ok words) then
       decode_semantic_payload bank row words =
         Success {| sp_bank := bank; sp_slot := bank - 4; sp_row := row; sp_payload_words := words;
                    sp_eta := take 2 words; sp_lam := drop 2 words |}
     else exists m, decode_semantic_payload bank row words = Failure m).
Proof.
  destruct overrun_payload_checked as [Hwf Hc]. split_and!.
  - intros e He. pose proof (decode_cases e He) as Hcases. norm_pow2. split_and!.
    + intros Hv. by apply decode_valid.
    + intros Hv. destruct Hcases as [[? _]|[[_ H]|(_ & Hge & H)]]; [done|by left|by right].
    + intros Hd. destruct Hcases as [[_ ->]|[[_ [m ->]]|(_ & Hge & E)]]; [done|done|].
      rewrite decode_split in E. destruct (check_payload e) as [words| |] eqn:Ec; [|done|by apply check_defined in Ec].
      apply check_spec in Ec as [[Hh _ _ _] _]; [|done]. pose proof (ok_eta_len _ _ _ _ _ _ _ Hh).
      pose proof (ok_lam_len _ _ _ _ _ _ _ Hh). pose proof (expected_lam_len_range (e_dim e)). lia.
  - apply expected_lam_len_exact.
  - exact Hwf.
  - apply decode_overrun; [done..|]. by compute.
  - intros bank row words Hb Hw. by apply semantic_decides.
Qed.
