(* ===== verification/SpmLoader.v ===== *)
(** * The loader of the scratch-pad memories

    The test benches of the belief-propagation core fill its eight memory banks from a factor graph:
    [GlobalMemorySpace] of [global_memory.hpp] is the memory of the host, [write_meta_node] packs
    a node into words ([factor_graph_layout.hpp] and, differently, [simple_graph_generator.hpp]),
    [generate_minimal_variable_graph] makes a graph, and [HexWriter] of [hex_writer.hpp] prints one
    file for each bank.

    The vector of bytes is a map in which an absent byte is 0.  [None] is undefined behaviour: a
    copy past the end of the vector or of a variable.  The single-precision constants of the generator
    are computed with the IEEE arithmetic of the Standard Library's [SpecFloat]. *)

From Stdlib Require Import SpecFloat Ascii String.
From stdpp Require Import gmap.
From S2P Require Import Prelude.
Local Open Scope string_scope.
Local Open Scope list_scope.
Local Open Scope Z_scope.

(** ** The configuration *)

Definition kNumBanks : Z := 8.
Definition kBeatBytes : Z := 32.
Definition kWordBytes : Z := 4.
Definition kSPMBytesPerPE : Z := Z.shiftl 1 20.
Definition kRowAddrW : Z := 12.
Definition kRowsPerBank : Z := Z.shiftl 1 kRowAddrW.
Definition kBankBytes : Z := kRowsPerBank * kBeatBytes.

Definition u64 (z : Z) : Z := z mod 2 ^ 64.

Definition addr_to_bank (byte_addr : Z) : Z := i32 ((byte_addr / kBeatBytes) mod kNumBanks).
Definition addr_to_row (byte_addr : Z) : Z := i32 ((byte_addr / kBeatBytes) / kNumBanks).
Definition bank_row_to_addr (bank row : Z) : Z :=
  u64 (u64 (i32 (i32 (row * kNumBanks) + bank)) * kBeatBytes).

(** ** [GlobalMemorySpace] *)

Record GlobalMemorySpace : Type := {
  mem_size : Z;
  mem_bytes : gmap Z Z
}.

Definition new_memory (total_bytes : Z) : GlobalMemorySpace := {| mem_size := total_bytes; mem_bytes := ∅ |}.

Definition byte_at (mem : GlobalMemorySpace) (addr : Z) : Z := default 0 (mem_bytes mem !! addr).

Definition set_byte (addr val : Z) (mem : GlobalMemorySpace) : GlobalMemorySpace :=
  {| mem_size := mem_size mem; mem_bytes := <[addr := val]> (mem_bytes mem) |}.

Definition read_byte (mem : GlobalMemorySpace) (addr : Z) : Z :=
  if addr >=? mem_size mem then 0 else byte_at mem addr.

Definition write_byte (mem : GlobalMemorySpace) (addr val : Z) : GlobalMemorySpace :=
  if addr >=? mem_size mem then mem else set_byte addr val mem.

(** [std::memcpy] of [n] bytes between the vector and a little-endian variable of [width] bytes. *)
Definition load_bytes (mem : GlobalMemorySpace) (addr : Z) (n : nat) : Z :=
  foldr (fun i v => byte_at mem (addr + Z.of_nat i) + 256 * v) 0 (seq 0 n).

Definition store_bytes (addr data : Z) (n : nat) (mem : GlobalMemorySpace) : GlobalMemorySpace :=
  foldr (fun i => set_byte (addr + Z.of_nat i) (u8 (Z.shiftr data (8 * Z.of_nat i)))) mem (seq 0 n).

Definition copy_out (width : Z) (mem : GlobalMemorySpace) (addr n : Z) : option Z :=
  if (n <=? width) && (addr + n <=? mem_size mem) then Some (load_bytes mem addr (Z.to_nat n)) else None.

Definition copy_in (width : Z) (mem : GlobalMemorySpace) (addr data n : Z) : option GlobalMemorySpace :=
  if (n <=? width) && (addr + n <=? mem_size mem) then Some (store_bytes addr data (Z.to_nat n) mem) else None.

Definition read_beat (mem : GlobalMemorySpace) (byte_addr : Z) : option Z :=
  if u64 (byte_addr + kBeatBytes) >? mem_size mem then Some 0 else copy_out 8 mem byte_addr kBeatBytes.

Definition write_beat (mem : GlobalMemorySpace) (byte_addr data : Z) : option GlobalMemorySpace :=
  if u64 (byte_addr + kBeatBytes) >? mem_size mem then Some mem else copy_in 8 mem byte_addr data kBeatBytes.

Definition read_word (mem : GlobalMemorySpace) (byte_addr : Z) : option Z :=
  if u64 (byte_addr + kWordBytes) >? mem_size mem then Some 0 else copy_out 4 mem byte_addr kWordBytes.

Definition write_word (mem : GlobalMemorySpace) (byte_addr data : Z) : option GlobalMemorySpace :=
  if u64 (byte_addr + kWordBytes) >? mem_size mem then Some mem else copy_in 4 mem byte_addr data kWordBytes.

(** [data] are the elements of the array from the current one on; a copy takes four of them. *)
Fixpoint write_beats_loop (num_beats : nat) (mem : GlobalMemorySpace) (byte_addr i : Z) (data : list Z) :
    option GlobalMemorySpace :=
  match num_beats with
  | O => Some mem
  | S num_beats =>
      let addr := u64 (byte_addr + u64 (i * kBeatBytes)) in
      if u64 (addr + kBeatBytes) >? mem_size mem then Some mem
      else
        let rest := foldr (fun d v => d + 2 ^ 64 * v) 0 data in
        mem ← copy_in (8 * zlen data) mem addr rest kBeatBytes;
        write_beats_loop num_beats mem byte_addr (i + 1) (tail data)
  end.

Definition write_beats (mem : GlobalMemorySpace) (byte_addr : Z) (data : list Z) (num_beats : nat) :
    option GlobalMemorySpace :=
  write_beats_loop num_beats mem byte_addr 0 data.

Definition clear (mem : GlobalMemorySpace) : GlobalMemorySpace := new_memory (mem_size mem).

(** ** Packing nodes *)

(** What the descriptor of a node says. *)
Record meta_node : Type := {
  txn_id : Z;
  is_factor : bool;
  dofs : Z;
  adj_count : Z;
  state_base_addr : Z;
  state_bank_hint : Z;
  message_base_addr : Z;
  message_bank_hint : Z;
  state_xfer_bytes : Z;
  message_xfer_bytes : Z;
  state_step_bytes : Z;
  message_step_bytes : Z
}.

Fixpoint write_words (mem : GlobalMemorySpace) (byte_addr : Z) (words : list (Z * Z)) : option GlobalMemorySpace :=
  match words with
  | [] => Some mem
  | (offset, word) :: words => mem ← write_word mem (u64 (byte_addr + offset)) word; write_words mem byte_addr words
  end.

Definition word0_of (n : meta_node) : Z :=
  Z.lor (Z.lor (Z.lor (u32 (Z.shiftl (Z.land (adj_count n) 0xF) 12)) (u32 (Z.shiftl (Z.land (dofs n) 0x7) 9)))
    (u32 (Z.shiftl (if is_factor n then 1 else 0) 8))) (txn_id n).
Definition word3_of (n : meta_node) : Z :=
  Z.lor (u32 (Z.shiftl (state_xfer_bytes n) 16)) (message_xfer_bytes n).
Definition word4_of (n : meta_node) : Z :=
  Z.lor (u32 (Z.shiftl (state_step_bytes n) 24)) (u32 (Z.shiftl (message_step_bytes n) 16)).

(** [factor_graph_layout.hpp]: the upper 20 bits of a byte address are kept. *)
Definition layout_base (base_addr bank_hint : Z) : Z :=
  Z.lor (u32 (Z.shiftl (Z.shiftr base_addr 12) 12)) (u32 (Z.shiftl (Z.land bank_hint 0x7) 9)).

(** [simple_graph_generator.hpp]: the lower 20 bits of a word address are kept. *)
Definition generator_base (base bank : Z) : Z :=
  Z.lor (u32 (Z.shiftl (Z.land base 0xFFFFF) 12)) (u32 (Z.shiftl (Z.land bank 0x7) 9)).

Definition layout_write_meta_header (mem : GlobalMemorySpace) (byte_addr var_row_count fac_row_count : Z)
    (n : meta_node) : option GlobalMemorySpace :=
  write_words mem byte_addr
    [(0, Z.lor (u32 (Z.shiftl fac_row_count 16)) var_row_count);
     (8, layout_base (message_base_addr n) (message_bank_hint n)); (12, word3_of n); (16, word4_of n)].

Definition layout_write_meta_node (mem : GlobalMemorySpace) (byte_addr : Z) (n : meta_node) :
    option GlobalMemorySpace :=
  write_words mem byte_addr
    [(0, word0_of n); (4, layout_base (state_base_addr n) (state_bank_hint n));
     (8, layout_base (message_base_addr n) (message_bank_hint n)); (12, word3_of n); (16, word4_of n)].

(** [write_meta_header] of the generator ignores the other parameters. *)
Definition write_meta_header (mem : GlobalMemorySpace) (byte_addr var_count fac_count : Z) :
    option GlobalMemorySpace :=
  write_words mem byte_addr [(0, Z.lor (u32 (Z.shiftl fac_count 16)) var_count)].

Definition write_meta_node (mem : GlobalMemorySpace) (byte_addr : Z) (n : meta_node) : option GlobalMemorySpace :=
  write_words mem byte_addr
    [(0 * kWordBytes, word0_of n);
     (1 * kWordBytes, generator_base (state_base_addr n) (state_bank_hint n));
     (2 * kWordBytes, generator_base (message_base_addr n) (message_bank_hint n));
     (3 * kWordBytes, word3_of n); (4 * kWordBytes, word4_of n)].

(** ** Single-precision constants *)

Definition float_mul : spec_float -> spec_float -> spec_float := SFmul 24 128.
Definition float_of_int (z : Z) : spec_float := binary_normalize 24 128 z 0 false.

(** The constants [0.1f] and [0.05f] are the floats nearest to these quotients. *)
Definition float_tenth : spec_float := SFdiv 24 128 (float_of_int 1) (float_of_int 10).
Definition float_twentieth : spec_float := SFdiv 24 128 (float_of_int 1) (float_of_int 20).

Definition sign_bit (s : bool) : Z := if s then Z.shiftl 1 31 else 0.

(** The bits of a float, as [std::memcpy] copies them. *)
Definition float_bits (f : spec_float) : Z :=
  match f with
  | S754_zero s => sign_bit s
  | S754_infinity s => sign_bit s + Z.shiftl 255 23
  | S754_nan => Z.shiftl 511 22
  | S754_finite s m e =>
      sign_bit s + (if Z.pos m <? 2 ^ 23 then Z.pos m else Z.shiftl (e + 150) 23 + (Z.pos m - 2 ^ 23))
  end.

Definition write_fp32 (mem : GlobalMemorySpace) (byte_addr : Z) (val : spec_float) : option GlobalMemorySpace :=
  write_word mem byte_addr (float_bits val).

(** ** A minimal graph *)

Definition minimal_node (d txn : Z) (factor : bool) : meta_node :=
  {| txn_id := txn; is_factor := factor; dofs := d; adj_count := 1;
     state_base_addr := Z.lor (Z.shiftl 0 (3 + 3)) (Z.shiftl 1 3); state_bank_hint := 1;
     message_base_addr := Z.lor (Z.shiftl 0 (3 + 3)) (Z.shiftl 4 3); message_bank_hint := 4;
     state_xfer_bytes := 32; message_xfer_bytes := 32; state_step_bytes := 32; message_step_bytes := 32 |}.

(** The loop that writes eight multiples of a constant. *)
Fixpoint write_payload (mem : GlobalMemorySpace) (byte_addr : Z) (step : spec_float) (l : list Z) :
    option GlobalMemorySpace :=
  match l with
  | [] => Some mem
  | i :: l =>
      mem ← write_fp32 mem (u32 (byte_addr + i * 4)) (float_mul step (float_of_int (i + 1)));
      write_payload mem byte_addr step l
  end.

(** The graph with [d] for the degrees of freedom of its nodes, which the code sets to 2. *)
Definition minimal_graph (d : Z) (mem : GlobalMemorySpace) : option GlobalMemorySpace :=
  let mem := clear mem in
  let variable := minimal_node d 0x40 false in
  let state_byte_addr := u32 (state_base_addr variable * 4) in
  let message_byte_addr := u32 (message_base_addr variable * 4) in
  mem ← write_meta_header mem 0 1 1;
  mem ← write_meta_node mem 256 variable;
  mem ← write_meta_node mem 512 (minimal_node d 0x41 true);
  mem ← write_payload mem state_byte_addr float_tenth (seqZ 0 8);
  write_payload mem message_byte_addr float_twentieth (seqZ 0 8).

Definition generate_minimal_variable_graph (mem : GlobalMemorySpace) : option GlobalMemorySpace :=
  minimal_graph 2 mem.

(** ** The files *)

Definition hex_digit (d : Z) : ascii := ascii_of_nat (Z.to_nat (if d <? 10 then 48 + d else 55 + d)).

(** The digits of a number in base 16, upper case, with the least significant first. *)
Fixpoint hex_rev (fuel : nat) (v : Z) : list ascii :=
  match fuel with
  | O => []
  | S fuel => hex_digit (v mod 16) :: (if v / 16 =? 0 then [] else hex_rev fuel (v / 16))
  end.

(** [std::hex << std::setw(width) << std::setfill('0') << v], for 32-bit [v]. *)
Definition hex_field (width : nat) (v : Z) : list ascii :=
  let digits := rev (hex_rev 8 v) in
  replicate (width - length digits) "0"%char ++ digits.

Definition newline : ascii := ascii_of_nat 10.

(** The words of a row, of which [operator<<] prints the last first. *)
Definition row_words (mem : GlobalMemorySpace) (bank_id row : Z) : option (list Z) :=
  mapM (fun w => read_word mem (u64 (bank_row_to_addr bank_id row + w * kWordBytes)))
    (seqZ 0 (kBeatBytes / kWordBytes)).

Definition row_line (row : Z) (words : list Z) : list ascii :=
  if existsb (fun w => negb (w =? 0)) words
  then "@"%char :: hex_field 4 row ++ [" "%char] ++ (rev words ≫= hex_field 8) ++ [newline] else [].

Fixpoint write_rows (mem : GlobalMemorySpace) (bank_id : Z) (rows : list Z) : option (list ascii) :=
  match rows with
  | [] => Some []
  | row :: rows =>
      words ← row_words mem bank_id row;
      rest ← write_rows mem bank_id rows;
      Some (row_line row words ++ rest)
  end.

Definition write_single_bank (mem : GlobalMemorySpace) (bank_id : Z) : option (list ascii) :=
  write_rows mem bank_id (seqZ 0 kRowsPerBank).

(** The files written, and the result; [opens] says which files can be opened. *)
Fixpoint write_banks_loop (opens : Z -> bool) (mem : GlobalMemorySpace) (banks : list Z) :
    option (list (list ascii) * bool) :=
  match banks with
  | [] => Some ([], true)
  | bank :: banks =>
      if opens bank then
        text ← write_single_bank mem bank;
        '(files, ok) ← write_banks_loop opens mem banks;
        Some (text :: files, ok)
      else Some ([], false)
  end.

Definition write_banks (opens : Z -> bool) (mem : GlobalMemorySpace) : option (list (list ascii) * bool) :=
  write_banks_loop opens mem (seqZ 0 kNumBanks).

(** ** Memory *)

(** A memory that the addresses of the program reach. *)
Definition wf_memory (mem : GlobalMemorySpace) : Prop := 0 <= mem_size mem < 2 ^ 63.

Lemma write_word_in mem a d : wf_memory mem -> 0 <= a -> a + 4 <= mem_size mem ->
  write_word mem a d = Some (store_bytes a d 4 mem).
Proof.
  unfold wf_memory, write_word, copy_in, u64, kWordBytes. norm_pow2. intros Hm Ha Hs.
  rewrite Z.mod_small by lia. destruct (Z.gtb_spec (a + 4) (mem_size mem)); [lia|].
  destruct (Z.leb_spec (a + 4) (mem_size mem)); [done|lia].
Qed.

Lemma read_word_in mem a : wf_memory mem -> 0 <= a -> a + 4 <= mem_size mem ->
  read_word mem a = Some (load_bytes mem a 4).
Proof.
  unfold wf_memory, read_word, copy_out, u64, kWordBytes. norm_pow2. intros Hm Ha Hs.
  rewrite Z.mod_small by lia. destruct (Z.gtb_spec (a + 4) (mem_size mem)); [lia|].
  destruct (Z.leb_spec (a + 4) (mem_size mem)); [done|lia].
Qed.

Lemma byte_set_byte a v mem x : byte_at (set_byte a v mem) x = if decide (x = a) then v else byte_at mem x.
Proof.
  unfold byte_at, set_byte. simpl. case_decide as E; [by rewrite E, lookup_insert_eq|].
  by rewrite lookup_insert_ne by done.
Qed.

Lemma store_size a d n mem : mem_size (store_bytes a d n mem) = mem_size mem.
Proof. unfold store_bytes. induction (seq 0 n) as [|i l IH]; [done|]. done. Qed.

Lemma store_word_bytes a d mem x : byte_at (store_bytes a d 4 mem) x =
  if decide (a <= x < a + 4) then u8 (Z.shiftr d (8 * (x - a))) else byte_at mem x.
Proof.
  unfold store_bytes. cbn [seq foldr]. rewrite !byte_set_byte.
  repeat case_decide; try lia; try done; do 2 f_equal; lia.
Qed.

Lemma load_word_bytes mem a : load_bytes mem a 4 =
  byte_at mem a + 256 * (byte_at mem (a + 1) + 256 * (byte_at mem (a + 2) + 256 * byte_at mem (a + 3))).
Proof.
  unfold load_bytes. cbn [seq foldr]. change (Z.of_nat 0) with 0. rewrite Z.add_0_r, Z.mul_0_r, Z.add_0_r.
  done.
Qed.

Lemma load_store_same mem a d : is_u32 d -> load_bytes (store_bytes a d 4 mem) a 4 = d.
Proof.
  intros Hd. rewrite load_word_bytes, !store_word_bytes. rewrite !decide_True by lia.
  replace (8 * (a - a)) with 0 by lia. replace (8 * (a + 1 - a)) with 8 by lia.
  replace (8 * (a + 2 - a)) with 16 by lia. replace (8 * (a + 3 - a)) with 24 by lia.
  rewrite !Z.shiftr_div_pow2 by lia. norm_pow2. unfold u8, is_u32 in *. Z.to_euclidean_division_equations. lia.
Qed.

Lemma load_store_other mem a b d : a + 4 <= b \/ b + 4 <= a ->
  load_bytes (store_bytes a d 4 mem) b 4 = load_bytes mem b 4.
Proof. intros Hab. rewrite !load_word_bytes, !store_word_bytes. by rewrite !decide_False by lia. Qed.

(** Words stored at distinct offsets, and read back. *)
Lemma write_words_spec mem a words : wf_memory mem -> 0 <= a ->
  NoDup words.*1 -> Forall (fun w => 0 <= w.1 /\ w.1 mod 4 = 0 /\ a + w.1 + 4 <= mem_size mem /\ is_u32 w.2) words ->
  exists mem', write_words mem a words = Some mem' /\ mem_size mem' = mem_size mem /\
    (forall w, w ∈ words -> load_bytes mem' (a + w.1) 4 = w.2) /\
    (forall x, (forall w, w ∈ words -> ~ a + w.1 <= x < a + w.1 + 4) -> byte_at mem' x = byte_at mem x).
Proof.
  intros Hm Ha. revert mem Hm. induction words as [|[o d] words IH]; intros mem Hm Hnd Hw.
  { exists mem. split_and!; [done|done| |done]. intros w Hw'. by apply not_elem_of_nil in Hw'. }
  apply Forall_cons in Hw as [(Ho & Ho4 & Hs & Hd) Hw]. cbn [fst snd] in *.
  rewrite fmap_cons, NoDup_cons in Hnd. destruct Hnd as [Hn Hnd]. cbn [write_words].
  assert (u64 (a + o) = a + o) as Eu.
  { unfold u64, wf_memory in *. revert Hm. norm_pow2. intros Hm. apply Z.mod_small. lia. }
  rewrite Eu, write_word_in by (done || lia). cbn [mbind option_bind].
  destruct (IH (store_bytes (a + o) d 4 mem)) as (mem' & E & Es & Hin & Hout).
  - unfold wf_memory. by rewrite store_size.
  - done.
  - by rewrite store_size.
  - exists mem'. rewrite store_size in Es. split_and!; [done|done| |].
    + intros w [->|Hin']%elem_of_cons; [|by apply Hin]. cbn [fst snd]. rewrite <-(load_store_same mem (a + o) d Hd).
      rewrite !load_word_bytes. rewrite !Hout; [done|..]; intros w Hw' Hx;
        (assert (w.1 <> o) as Hne by (intros E'; apply Hn; apply list_elem_of_fmap; by exists w));
        rewrite Forall_forall in Hw; destruct (Hw w Hw') as (? & ? & _);
        Z.to_euclidean_division_equations; lia.
    + intros x Hx. rewrite Hout by (intros w Hw'; apply Hx; by right). rewrite store_word_bytes.
      rewrite decide_False; [done|]. exact (Hx (o, d) ltac:(by left)).
Qed.

(** ** Nodes *)

Record wf_node (n : meta_node) : Prop := {
  wf_txn_id : 0 <= txn_id n < 256;
  wf_dofs : 0 <= dofs n < 8;
  wf_adj_count : 0 <= adj_count n < 16;
  wf_state_base : is_u32 (state_base_addr n);
  wf_state_hint : 0 <= state_bank_hint n < 8;
  wf_message_base : is_u32 (message_base_addr n);
  wf_message_hint : 0 <= message_bank_hint n < 8;
  wf_state_xfer : 0 <= state_xfer_bytes n < 65536;
  wf_message_xfer : 0 <= message_xfer_bytes n < 65536;
  wf_state_step : 0 <= state_step_bytes n < 256;
  wf_message_step : 0 <= message_step_bytes n < 256
}.

(** The fields of five words, as the comments of the two headers draw them. *)
Definition fields_of (base : Z -> Z) (n : meta_node) (w0 w1 w2 w3 w4 : Z) : Prop :=
  slice w0 0 8 = txn_id n /\ slice w0 8 1 = (if is_factor n then 1 else 0) /\ slice w0 9 3 = dofs n /\
  slice w0 12 4 = adj_count n /\
  slice w1 12 20 = base (state_base_addr n) /\ slice w1 9 3 = state_bank_hint n /\
  slice w2 12 20 = base (message_base_addr n) /\ slice w2 9 3 = message_bank_hint n /\
  slice w3 16 16 = state_xfer_bytes n /\ slice w3 0 16 = message_xfer_bytes n /\
  slice w4 24 8 = state_step_bytes n /\ slice w4 16 8 = message_step_bytes n.

Lemma land_small a k : 0 <= k -> 0 <= a < 2 ^ k -> Z.land a (Z.ones k) = a.
Proof. intros. rewrite Z.land_ones by done. by apply Z.mod_small. Qed.

Lemma word0_sum n : wf_node n ->
  word0_of n = adj_count n * 4096 + (dofs n * 512 + ((if is_factor n then 1 else 0) * 256 + txn_id n)).
Proof.
  intros []. unfold word0_of.
  assert (Z.land (adj_count n) 0xF = adj_count n) as -> by (apply (land_small _ 4); [lia|norm_pow2; lia]).
  assert (Z.land (dofs n) 0x7 = dofs n) as -> by (apply (land_small _ 3); [lia|norm_pow2; lia]).
  rewrite <-!Z.lor_assoc.
  rewrite (u32_id (Z.shiftl (adj_count n) 12)), (u32_id (Z.shiftl (dofs n) 9)), (u32_id (Z.shiftl _ 8))
    by (rewrite Z.shiftl_mul_pow2 by lia; norm_pow2; unfold is_u32; destruct (is_factor n); lia).
  assert (forall b : bool, 0 <= (if b then 1 else 0) <= 1) as Hb by (intros []; lia).
  pose proof (Hb (is_factor n)).
  set (f := if is_factor n then 1 else 0) in *. rewrite (lor_shiftl_add f) by (norm_pow2; lia).
  rewrite (lor_shiftl_add (dofs n)), (lor_shiftl_add (adj_count n)); norm_pow2; lia.
Qed.

Lemma word3_sum n : wf_node n -> word3_of n = state_xfer_bytes n * 65536 + message_xfer_bytes n.
Proof.
  intros []. unfold word3_of. rewrite u32_id by (rewrite Z.shiftl_mul_pow2 by lia; norm_pow2; unfold is_u32; lia).
  rewrite lor_shiftl_add; norm_pow2; lia.
Qed.

Lemma word4_sum n : wf_node n -> word4_of n = state_step_bytes n * 16777216 + message_step_bytes n * 65536.
Proof.
  intros []. unfold word4_of. rewrite !u32_id by (rewrite Z.shiftl_mul_pow2 by lia; norm_pow2; unfold is_u32; lia).
  rewrite lor_shiftl_add; rewrite ?Z.shiftl_mul_pow2 by lia; norm_pow2; lia.
Qed.

Lemma base_sum b hint : 0 <= b < 1048576 -> 0 <= hint < 8 ->
  Z.lor (u32 (Z.shiftl b 12)) (u32 (Z.shiftl (Z.land hint 0x7) 9)) = b * 4096 + hint * 512.
Proof.
  intros Hb Hh. assert (Z.land hint 0x7 = hint) as -> by (apply (land_small _ 3); [lia|norm_pow2; lia]).
  rewrite !u32_id by (rewrite Z.shiftl_mul_pow2 by lia; norm_pow2; unfold is_u32; lia).
  rewrite lor_shiftl_add; rewrite ?Z.shiftl_mul_pow2 by lia; norm_pow2; lia.
Qed.

Lemma layout_base_sum a hint : is_u32 a -> 0 <= hint < 8 ->
  layout_base a hint = a / 4096 * 4096 + hint * 512.
Proof.
  unfold is_u32. intros Ha Hh. unfold layout_base. rewrite (Z.shiftr_div_pow2 a) by lia. norm_pow2.
  apply base_sum; [Z.to_euclidean_division_equations; lia|done].
Qed.

Lemma generator_base_sum a hint : is_u32 a -> 0 <= hint < 8 ->
  generator_base a hint = a mod 1048576 * 4096 + hint * 512.
Proof.
  intros Ha Hh. unfold generator_base. change 0xFFFFF with (Z.ones 20). rewrite Z.land_ones by lia. norm_pow2.
  apply base_sum; [by apply Z.mod_pos_bound|done].
Qed.

(** The node at an address. *)
Definition node_at (base : Z -> Z) (mem : GlobalMemorySpace) (a : Z) (n : meta_node) : Prop :=
  exists w0 w1 w2 w3 w4, fields_of base n w0 w1 w2 w3 w4 /\
    read_word mem a = Some w0 /\ read_word mem (a + 4) = Some w1 /\ read_word mem (a + 8) = Some w2 /\
    read_word mem (a + 12) = Some w3 /\ read_word mem (a + 16) = Some w4.

Lemma fields_packed (base : Z -> Z) n w1 w2 : wf_node n -> (forall b, is_u32 b -> 0 <= base b < 1048576) ->
  w1 = base (state_base_addr n) * 4096 + state_bank_hint n * 512 ->
  w2 = base (message_base_addr n) * 4096 + message_bank_hint n * 512 ->
  fields_of base n (word0_of n) w1 w2 (word3_of n) (word4_of n) /\
  is_u32 (word0_of n) /\ is_u32 w1 /\ is_u32 w2 /\ is_u32 (word3_of n) /\ is_u32 (word4_of n).
Proof.
  intros Hn Hb -> ->. rewrite word0_sum, word3_sum, word4_sum by done. destruct Hn.
  pose proof (Hb _ wf_state_base0). pose proof (Hb _ wf_message_base0).
  unfold fields_of, is_u32. assert (0 <= (if is_factor n then 1 else 0) <= 1) by (destruct (is_factor n); lia).
  generalize dependent (if is_factor n then 1 else 0). intros f Hf.
  generalize dependent (base (state_base_addr n)). intros b1 Hb1.
  generalize dependent (base (message_base_addr n)). intros b2 Hb2.
  split; [|lia]. split_and!; rewrite slice_div_mod by lia; norm_pow2;
    Z.to_euclidean_division_equations; lia.
Qed.

Lemma write_node_spec (base : Z -> Z) mem a n w1 w2 : wf_memory mem -> 0 <= a -> a + 20 <= mem_size mem ->
  wf_node n -> (forall b, is_u32 b -> 0 <= base b < 1048576) ->
  w1 = base (state_base_addr n) * 4096 + state_bank_hint n * 512 ->
  w2 = base (message_base_addr n) * 4096 + message_bank_hint n * 512 ->
  exists mem',
    write_words mem a [(0, word0_of n); (4, w1); (8, w2); (12, word3_of n); (16, word4_of n)] = Some mem' /\
    node_at base mem' a n /\ mem_size mem' = mem_size mem /\
    forall x, ~ a <= x < a + 20 -> byte_at mem' x = byte_at mem x.
Proof.
  intros Hm Ha Hs Hn Hb E1 E2. destruct (fields_packed base n w1 w2 Hn Hb E1 E2) as (Hf & U0 & U1 & U2 & U3 & U4).
  destruct (write_words_spec mem a [(0, word0_of n); (4, w1); (8, w2); (12, word3_of n); (16, word4_of n)] Hm Ha)
    as (mem' & E & Es & Hin & Hout).
  { apply (bool_decide_unpack _). by vm_compute. }
  { repeat (apply Forall_cons; split; [cbn [fst snd]; split_and!; [lia|done|lia|done]|]). done. }
  exists mem'. split; [exact E|]. split; [|split; [exact Es|]].
  - assert (wf_memory mem') as Hm' by (unfold wf_memory; by rewrite Es).
    exists (word0_of n), w1, w2, (word3_of n), (word4_of n). split; [done|].
    rewrite !read_word_in by (done || lia). rewrite <-(Z.add_0_r a) at 1.
    split_and!; f_equal; [apply (Hin (0, word0_of n))|apply (Hin (4, w1))|apply (Hin (8, w2))
      |apply (Hin (12, word3_of n))|apply (Hin (16, word4_of n))]; rewrite !elem_of_cons; tauto.
  - intros x Hx. apply Hout. intros w Hw. rewrite !elem_of_cons, elem_of_nil in Hw.
    destruct Hw as [->|[->|[->|[->|[->|[]]]]]]; cbn [fst]; lia.
Qed.

(** ** Rows and banks *)

Lemma bank_row_range bank row : 0 <= bank < kNumBanks -> 0 <= row < kRowsPerBank ->
  bank_row_to_addr bank row = (row * 8 + bank) * 32.
Proof.
  unfold kNumBanks, kRowsPerBank, kRowAddrW, kBeatBytes. change (Z.shiftl 1 12) with 4096. intros Hb Hr.
  unfold bank_row_to_addr, u64, kNumBanks, kBeatBytes.
  rewrite (i32_id (row * 8)), i32_id by (unfold is_i32; lia). change (2 ^ 64) with 18446744073709551616.
  rewrite (Z.mod_small (row * 8 + bank)), Z.mod_small; lia.
Qed.

(** The address map and its inverse. *)
Lemma address_map bank row : 0 <= bank < kNumBanks -> 0 <= row < kRowsPerBank ->
  addr_to_bank (bank_row_to_addr bank row) = bank /\ addr_to_row (bank_row_to_addr bank row) = row.
Proof.
  intros Hb Hr. rewrite bank_row_range by done. revert Hb Hr.
  unfold addr_to_bank, addr_to_row, kNumBanks, kRowsPerBank, kRowAddrW, kBeatBytes.
  change (Z.shiftl 1 12) with 4096. intros Hb Hr. rewrite Z.div_mul by lia.
  rewrite !i32_id by (unfold is_i32; Z.to_euclidean_division_equations; lia).
  split; Z.to_euclidean_division_equations; lia.
Qed.

Lemma map_address a : 0 <= a < kSPMBytesPerPE ->
  0 <= addr_to_bank a < kNumBanks /\ 0 <= addr_to_row a < kRowsPerBank /\
  bank_row_to_addr (addr_to_bank a) (addr_to_row a) = a - a mod kBeatBytes.
Proof.
  unfold kSPMBytesPerPE. change (Z.shiftl 1 20) with 1048576. intros Ha.
  assert (0 <= addr_to_bank a < kNumBanks /\ 0 <= addr_to_row a < kRowsPerBank) as [Hb Hr].
  { unfold addr_to_bank, addr_to_row, kNumBanks, kRowsPerBank, kRowAddrW, kBeatBytes.
    change (Z.shiftl 1 12) with 4096.
    rewrite !i32_id by (unfold is_i32; Z.to_euclidean_division_equations; lia).
    split; Z.to_euclidean_division_equations; lia. }
  split_and!; [lia..|]. rewrite bank_row_range by done.
  unfold addr_to_bank, addr_to_row, kNumBanks, kBeatBytes.
  rewrite !i32_id by (unfold is_i32; Z.to_euclidean_division_equations; lia).
  Z.to_euclidean_division_equations. lia.
Qed.

(** ** Reading a file back

    [$readmemh] of Verilog: tokens between blanks; one that begins with [@] sets the address, any
    other is the value of the next word. *)

Definition digit_value (c : ascii) : Z :=
  let n := Z.of_nat (nat_of_ascii c) in
  if n <? 58 then n - 48 else if n <? 71 then n - 55 else n - 87.

Definition hex_value (acc : Z) (cs : list ascii) : Z := fold_left (fun v c => v * 16 + digit_value c) cs acc.

Definition is_blank (c : ascii) : bool := Ascii.eqb c " "%char || Ascii.eqb c newline.

(** The end of a token, of which the characters are held in reverse. *)
Definition end_token (tok : list ascii) (st : Z * gmap Z Z) : Z * gmap Z Z :=
  match rev tok with
  | [] => st
  | c :: cs =>
      if Ascii.eqb c "@"%char then (hex_value 0 cs, st.2)
      else (st.1 + 1, <[st.1 := hex_value 0 (c :: cs)]> st.2)
  end.

Fixpoint read_tokens (cs tok : list ascii) (st : Z * gmap Z Z) : Z * gmap Z Z :=
  match cs with
  | [] => end_token tok st
  | c :: cs => if is_blank c then read_tokens cs [] (end_token tok st) else read_tokens cs (c :: tok) st
  end.

Definition readmemh (text : list ascii) : gmap Z Z := (read_tokens text [] (0, ∅)).2.

Lemma digit_cases (P : Z -> Prop) d : 0 <= d < 16 ->
  P 0 -> P 1 -> P 2 -> P 3 -> P 4 -> P 5 -> P 6 -> P 7 -> P 8 -> P 9 -> P 10 -> P 11 -> P 12 -> P 13 ->
  P 14 -> P 15 -> P d.
Proof.
  intros Hd. intros. assert (d = 0 \/ d = 1 \/ d = 2 \/ d = 3 \/ d = 4 \/ d = 5 \/ d = 6 \/ d = 7 \/ d = 8 \/
    d = 9 \/ d = 10 \/ d = 11 \/ d = 12 \/ d = 13 \/ d = 14 \/ d = 15) as Hc by lia.
  repeat (destruct Hc as [->|Hc]; [done|]). by subst.
Qed.

(** A character of a number. *)
Definition is_hex (c : ascii) : Prop := is_blank c = false /\ Ascii.eqb c "@"%char = false.

Lemma hex_digit_spec d : 0 <= d < 16 -> digit_value (hex_digit d) = d /\ is_hex (hex_digit d).
Proof. intros Hd. by apply (digit_cases (fun d => digit_value (hex_digit d) = d /\ is_hex (hex_digit d))). Qed.

Lemma hex_value_app acc l1 l2 : hex_value acc (l1 ++ l2) = hex_value (hex_value acc l1) l2.
Proof. apply fold_left_app. Qed.

Lemma hex_value_acc acc l : hex_value acc l = acc * 16 ^ Z.of_nat (length l) + hex_value 0 l.
Proof.
  revert acc. induction l as [|c l IH]; intros acc; cbn [hex_value fold_left length]; [lia|].
  fold (hex_value (acc * 16 + digit_value c) l). fold (hex_value (0 * 16 + digit_value c) l).
  rewrite (IH (acc * 16 + _)), (IH (0 * 16 + _)), Nat2Z.inj_succ, Z.pow_succ_r by lia. lia.
Qed.

Lemma hex_rev_spec fuel v : (0 < fuel)%nat -> 0 <= v < 16 ^ Z.of_nat fuel ->
  hex_value 0 (rev (hex_rev fuel v)) = v /\ Forall is_hex (hex_rev fuel v) /\ hex_rev fuel v <> [] /\
  forall w, (0 < w)%nat -> v < 16 ^ Z.of_nat w -> (length (hex_rev fuel v) <= w)%nat.
Proof.
  revert v. induction fuel as [|fuel IH]; intros v Hf Hv; [lia|]. cbn [hex_rev].
  rewrite Nat2Z.inj_succ, Z.pow_succ_r in Hv by lia.
  assert (0 <= v mod 16 < 16) as Hd by (apply Z.mod_pos_bound; lia).
  destruct (hex_digit_spec _ Hd) as [Ed Hh]. pose proof (Z.div_mod v 16).
  destruct (Z.eqb_spec (v / 16) 0) as [E|E].
  - cbn. split; [unfold hex_value; simpl; lia|]. split; [by constructor|]. split; [done|]. intros; lia.
  - assert (0 < v / 16) by (Z.to_euclidean_division_equations; lia).
    assert (v / 16 < 16 ^ Z.of_nat fuel) by (Z.to_euclidean_division_equations; lia).
    destruct fuel as [|fuel]; [simpl in *; lia|].
    destruct (IH (v / 16)) as (E1 & E2 & _ & E4); [lia|lia|].
    split; [|split; [by constructor|split; [done|]]].
    + cbn [rev]. rewrite hex_value_app, E1. unfold hex_value. simpl. lia.
    + intros w Hw Hvw. cbn [length]. destruct w as [|w]; [lia|]. destruct w as [|w].
      * exfalso. change (16 ^ Z.of_nat 1) with 16 in Hvw. Z.to_euclidean_division_equations; lia.
      * apply le_n_S, E4; [lia|]. rewrite (Nat2Z.inj_succ (S w)), Z.pow_succ_r in Hvw by lia.
        Z.to_euclidean_division_equations; lia.
Qed.

Lemma hex_value_zeros n l : hex_value 0 (replicate n "0"%char ++ l) = hex_value 0 l.
Proof. induction n as [|n IH]; [done|]. exact IH. Qed.

Lemma hex_field_spec w v : (0 < w <= 8)%nat -> 0 <= v < 16 ^ Z.of_nat w ->
  hex_value 0 (hex_field w v) = v /\ Forall is_hex (hex_field w v) /\ length (hex_field w v) = w.
Proof.
  intros Hw Hv. assert (16 ^ Z.of_nat w <= 16 ^ 8) as Hle by (apply Z.pow_le_mono_r; lia).
  destruct (hex_rev_spec 8 v) as (E1 & E2 & _ & E4); [lia|change (Z.of_nat 8) with 8; lia|].
  unfold hex_field. rewrite hex_value_zeros. split; [done|]. split.
  - apply Forall_app. split; [by apply Forall_replicate|]. apply Forall_forall. intros c Hc.
    rewrite Forall_forall in E2. apply E2. rewrite list_elem_of_In, in_rev. by apply list_elem_of_In.
  - rewrite length_app, length_replicate, length_rev. pose proof (E4 w ltac:(lia) ltac:(lia)). lia.
Qed.

(** The words of a row, as one number. *)
Definition row_value (words : list Z) : Z := foldr (fun w v => w + 2 ^ 32 * v) 0 words.

Lemma row_text_spec words : Forall is_u32 words ->
  hex_value 0 (rev words ≫= hex_field 8) = row_value words /\ Forall is_hex (rev words ≫= hex_field 8).
Proof.
  induction 1 as [|w words Hw Hws [IH1 IH2]]; [done|]. cbn [rev]. rewrite bind_app.
  destruct (hex_field_spec 8 w) as (E1 & E2 & E3); [lia|done|].
  cbn [mbind list_bind]. rewrite app_nil_r. split; [|by apply Forall_app].
  rewrite hex_value_app, IH1, hex_value_acc, E1, E3. change (16 ^ Z.of_nat 8) with (2 ^ 32). simpl. lia.
Qed.

(** A token of number characters, up to the blank that ends it. *)
Lemma read_tokens_number cs tok c rest st : Forall (fun c => is_blank c = false) cs -> is_blank c = true ->
  read_tokens (cs ++ c :: rest) tok st = read_tokens rest [] (end_token (rev cs ++ tok) st).
Proof.
  revert tok. induction cs as [|c' cs IH]; intros tok Hcs Hc; simpl.
  - by rewrite Hc.
  - apply Forall_cons in Hcs as [-> Hcs]. rewrite IH by done. by rewrite <-app_assoc.
Qed.

Lemma read_line row words rest st : 0 <= row < kRowsPerBank -> Forall is_u32 words -> words <> [] ->
  existsb (fun w => negb (w =? 0)) words = true ->
  read_tokens (row_line row words ++ rest) [] st =
  read_tokens rest [] (row + 1, <[row := row_value words]> st.2).
Proof.
  intros Hr Hw Hne Hnz. unfold row_line. rewrite Hnz.
  assert (0 <= row < 16 ^ Z.of_nat 4) as Hr4.
  { change (16 ^ Z.of_nat 4) with 65536. change kRowsPerBank with 4096 in Hr. lia. }
  destruct (hex_field_spec 4 row) as (E1 & E2 & E3); [lia|done|].
  destruct (row_text_spec words Hw) as [E4 E5].
  assert (Forall (fun c => is_blank c = false) (hex_field 4 row)) as H1
    by (eapply Forall_impl; [exact E2|by intros c []]).
  assert (Forall (fun c => is_blank c = false) (rev words ≫= hex_field 8)) as H2
    by (eapply Forall_impl; [exact E5|by intros c []]).
  set (txt := rev words ≫= hex_field 8) in *.
  change (("@"%char :: hex_field 4 row ++ [" "%char] ++ txt ++ [newline]) ++ rest)
    with (("@"%char :: hex_field 4 row ++ [" "%char] ++ txt ++ [newline]) ++ rest).
  replace (("@"%char :: hex_field 4 row ++ [" "%char] ++ txt ++ [newline]) ++ rest)
    with (("@"%char :: hex_field 4 row) ++ " "%char :: (txt ++ newline :: rest))
    by (cbn; by rewrite <-!app_assoc; cbn; rewrite <-app_assoc).
  rewrite read_tokens_number by (by try constructor). rewrite read_tokens_number by done. f_equal.
  rewrite !app_nil_r. unfold end_token at 2. rewrite rev_involutive.
  replace (Ascii.eqb "@" "@") with true by done. rewrite E1.
  unfold end_token. rewrite rev_involutive. destruct txt as [|c txt'] eqn:Et.
  - exfalso. subst txt. apply (f_equal length) in Et. destruct words as [|w words]; [done|].
    cbn [rev] in Et. rewrite bind_app, length_app in Et. cbn [mbind list_bind] in Et. rewrite app_nil_r in Et.
    apply Forall_cons in Hw as [Hw _]. destruct (hex_field_spec 8 w) as (_ & _ & El); [lia|done|].
    rewrite El in Et. simpl in Et. lia.
  - apply Forall_cons in E5 as [[_ ->] _]. by rewrite E4.
Qed.

(** An image that fills a scratch pad. *)
Record wf_image (mem : GlobalMemorySpace) : Prop := {
  image_size : mem_size mem = kSPMBytesPerPE;
  image_bytes : forall a, 0 <= byte_at mem a < 256
}.

Lemma image_memory mem : wf_image mem -> wf_memory mem.
Proof. intros []. unfold wf_memory. rewrite image_size0. by compute. Qed.

Definition words_of_row (mem : GlobalMemorySpace) (bank row : Z) : list Z :=
  (fun w => load_bytes mem ((row * 8 + bank) * 32 + 4 * w) 4) <$> seqZ 0 8.

Lemma mapM_all {A B} (f : A -> option B) (g : A -> B) l :
  (forall a, a ∈ l -> f a = Some (g a)) -> mapM f l = Some (g <$> l).
Proof.
  induction l as [|a l IH]; intros H; [done|]. cbn [mapM mbind option_bind].
  rewrite (H a) by by left. cbn. rewrite IH; [done|]. intros b Hb. apply H. by right.
Qed.

Lemma load_word_range mem a : wf_image mem -> is_u32 (load_bytes mem a 4).
Proof.
  intros Hm. rewrite load_word_bytes. pose proof (image_bytes mem Hm a). pose proof (image_bytes mem Hm (a + 1)).
  pose proof (image_bytes mem Hm (a + 2)). pose proof (image_bytes mem Hm (a + 3)). unfold is_u32. lia.
Qed.

Lemma row_words_spec mem bank row : wf_image mem -> 0 <= bank < kNumBanks -> 0 <= row < kRowsPerBank ->
  row_words mem bank row = Some (words_of_row mem bank row) /\ Forall is_u32 (words_of_row mem bank row).
Proof.
  intros Hm Hb Hr. split.
  - unfold row_words. change (kBeatBytes / kWordBytes) with 8. apply mapM_all. intros w Hw.
    apply elem_of_seqZ in Hw. rewrite bank_row_range by done. unfold kWordBytes.
    change kNumBanks with 8 in Hb. change kRowsPerBank with 4096 in Hr.
    unfold u64. change (2 ^ 64) with 18446744073709551616. rewrite Z.mod_small by lia.
    rewrite (Z.mul_comm w). apply read_word_in; [by apply image_memory|lia|].
    rewrite (image_size mem Hm). change kSPMBytesPerPE with 1048576. lia.
  - apply Forall_fmap, Forall_forall. intros w _. by apply load_word_range.
Qed.

Lemma zero_words words : existsb (fun w => negb (w =? 0)) words = false -> row_value words = 0.
Proof.
  induction words as [|w words IH]; [done|]. cbn [existsb]. intros [Hw H]%orb_false_iff.
  apply negb_false_iff, Z.eqb_eq in Hw as ->. simpl. rewrite IH by done. done.
Qed.

Lemma value_zero words : Forall is_u32 words -> row_value words = 0 ->
  existsb (fun w => negb (w =? 0)) words = false.
Proof.
  intros Hw. enough (0 <= row_value words /\ (row_value words = 0 -> existsb (fun w => negb (w =? 0)) words = false))
    as [_ H] by exact H.
  induction Hw as [|w words Hw Hws [IH1 IH2]]; [done|]. cbn [row_value foldr existsb]. fold (row_value words).
  change (2 ^ 32) with 4294967296. unfold is_u32 in Hw. split; [lia|]. intros E.
  rewrite IH2 by lia. apply orb_false_iff. split; [|done]. apply negb_false_iff, Z.eqb_eq. lia.
Qed.

Lemma read_rows mem bank rows st : wf_image mem -> 0 <= bank < kNumBanks ->
  Forall (fun row => 0 <= row < kRowsPerBank) rows -> NoDup rows ->
  exists text, write_rows mem bank rows = Some text /\
    forall row, default 0 ((read_tokens text [] st).2 !! row) =
      if decide (row ∈ rows /\ row_value (words_of_row mem bank row) <> 0)
      then row_value (words_of_row mem bank row) else default 0 (st.2 !! row).
Proof.
  intros Hm Hb. revert st. induction rows as [|r rows IH]; intros st Hr Hnd.
  { exists []. split; [done|]. intros row. rewrite decide_False; [done|]. intros [H _]. by apply not_elem_of_nil in H. }
  apply Forall_cons in Hr as [Hr Hrs]. apply NoDup_cons in Hnd as [Hn Hnd].
  destruct (row_words_spec mem bank r Hm Hb Hr) as [E Hw]. cbn [write_rows]. rewrite E. cbn [mbind option_bind].
  destruct (existsb (fun w => negb (w =? 0)) (words_of_row mem bank r)) eqn:Hz.
  - destruct (IH (r + 1, <[r := row_value (words_of_row mem bank r)]> st.2) Hrs Hnd) as (text & -> & Ht).
    cbn [mbind option_bind]. eexists. split; [done|]. intros row. rewrite read_line by done. rewrite Ht. cbn [snd].
    destruct (decide (row = r)) as [->|Hne].
    + rewrite decide_False by tauto. rewrite lookup_insert_eq. cbn [default].
      rewrite decide_True; [done|]. split; [by left|]. intros E0. by rewrite (value_zero _ Hw E0) in Hz.
    + rewrite lookup_insert_ne by done. apply decide_ext. rewrite elem_of_cons. tauto.
  - destruct (IH st Hrs Hnd) as (text & -> & Ht). cbn [mbind option_bind]. eexists. split; [done|].
    intros row. unfold row_line. rewrite Hz. cbn [app]. rewrite Ht. apply decide_ext. rewrite elem_of_cons.
    split; [tauto|]. intros [[->|H] H0]; [|done]. by rewrite zero_words in H0.
Qed.

(** *** Bytes *)

Definition le (l : list Z) : Z := foldr (fun b v => b + 256 * v) 0 l.

Lemma le_app l1 l2 : le (l1 ++ l2) = le l1 + 256 ^ Z.of_nat (length l1) * le l2.
Proof.
  induction l1 as [|b l1 IH]; [simpl; lia|]. cbn [app le foldr length]. fold (le (l1 ++ l2)). fold (le l1).
  rewrite IH, Nat2Z.inj_succ, Z.pow_succ_r by lia. lia.
Qed.

Lemma le_lookup l k b : Forall (fun b => 0 <= b < 256) l -> l !! k = Some b ->
  slice (le l) (8 * Z.of_nat k) 8 = b.
Proof.
  intros Hl. revert k. induction Hl as [|b' l Hb Hl IH]; intros k Hk; [done|].
  cbn [le foldr]. fold (le l). rewrite slice_div_mod by lia. change (2 ^ 8) with 256.
  destruct k as [|k]; simpl in Hk.
  - injection Hk as ->. change (8 * Z.of_nat 0) with 0. rewrite Z.div_1_r, Z.mul_comm, Z.mod_add by lia.
    by apply Z.mod_small.
  - apply IH in Hk. rewrite slice_div_mod in Hk by lia. change (2 ^ 8) with 256 in Hk. rewrite <-Hk. f_equal.
    replace (8 * Z.of_nat (S k)) with (8 + 8 * Z.of_nat k) by lia. rewrite Z.pow_add_r by lia.
    change (2 ^ 8) with 256. rewrite <-Z.div_div by lia. f_equal.
    rewrite (Z.mul_comm 256), Z.div_add, Z.div_small by lia. done.
Qed.

Lemma row_value_bytes mem a :
  row_value ((fun w => load_bytes mem (a + 4 * w) 4) <$> seqZ 0 8) = le (byte_at mem <$> seqZ a 32).
Proof.
  assert (byte_at mem <$> seqZ a 32 =
    seqZ 0 8 ≫= (fun w => [byte_at mem (a + 4 * w); byte_at mem (a + 4 * w + 1); byte_at mem (a + 4 * w + 2);
      byte_at mem (a + 4 * w + 3)])) as ->.
  { change (seqZ 0 8) with [0; 1; 2; 3; 4; 5; 6; 7]. unfold seqZ. change (Z.to_nat 32) with 32%nat.
    cbn [seq fmap list_fmap mbind list_bind app]. 
    repeat (apply (f_equal2 cons); [apply (f_equal (byte_at mem)); lia|]). done. }
  induction (seqZ 0 8) as [|w l IH]; [done|]. rewrite fmap_cons, bind_cons, le_app, <-IH.
  cbn [row_value foldr length]. fold (row_value ((fun w => load_bytes mem (a + 4 * w) 4) <$> l)).
  rewrite load_word_bytes. change (256 ^ Z.of_nat 4) with (2 ^ 32). cbn [le foldr]. lia.
Qed.

Lemma byte_in_row mem a : wf_image mem -> 0 <= a < kSPMBytesPerPE ->
  slice (row_value (words_of_row mem (addr_to_bank a) (addr_to_row a))) (8 * (a mod kBeatBytes)) 8 = byte_at mem a.
Proof.
  intros Hm Ha. destruct (map_address a Ha) as (Hb & Hr & E). rewrite bank_row_range in E by done.
  unfold words_of_row. rewrite E, row_value_bytes. unfold kBeatBytes in *.
  assert (0 <= a mod 32 < 32) as Hk by (apply Z.mod_pos_bound; lia).
  replace (8 * (a mod 32)) with (8 * Z.of_nat (Z.to_nat (a mod 32))) by lia. apply le_lookup.
  - apply Forall_fmap, Forall_forall. intros x _. apply image_bytes, Hm.
  - rewrite list_lookup_fmap, (proj2 (lookup_seqZ (a - a mod 32) 32 (Z.to_nat (a mod 32)) a)) by lia. done.
Qed.

(** ** All banks *)

Lemma bank_text mem bank : wf_image mem -> 0 <= bank < kNumBanks ->
  exists text, write_single_bank mem bank = Some text /\
    forall row, 0 <= row < kRowsPerBank -> default 0 (readmemh text !! row) = row_value (words_of_row mem bank row).
Proof.
  intros Hm Hb. destruct (read_rows mem bank (seqZ 0 kRowsPerBank) (0, ∅) Hm Hb) as (text & E & Ht).
  - apply Forall_forall. intros row Hr. apply elem_of_seqZ in Hr. lia.
  - apply NoDup_seqZ.
  - exists text. split; [exact E|]. intros row Hr. unfold readmemh. rewrite Ht. cbn [snd]. rewrite lookup_empty.
    cbn [default].
    case_decide as Hc; [done|]. destruct (decide (row_value (words_of_row mem bank row) = 0)) as [->|]; [done|].
    exfalso. apply Hc. split; [|done]. apply elem_of_seqZ. lia.
Qed.

Lemma write_all mem opens banks : (forall b, b ∈ banks -> is_Some (write_single_bank mem b)) ->
  (forall b, b ∈ banks -> opens b = true) ->
  write_banks_loop opens mem banks = Some ((fun b => default [] (write_single_bank mem b)) <$> banks, true).
Proof.
  induction banks as [|b banks IH]; intros Ht Ho; [done|]. cbn [write_banks_loop]. rewrite Ho by by left.
  destruct (Ht b ltac:(by left)) as [text E]. rewrite fmap_cons, E. cbn [mbind option_bind default].
  rewrite IH; [done|intros; apply Ht; by right|intros; apply Ho; by right].
Qed.

Lemma write_some mem opens banks : (forall b, b ∈ banks -> is_Some (write_single_bank mem b)) ->
  (exists b, b ∈ banks /\ opens b = false) ->
  exists files, write_banks_loop opens mem banks = Some (files, false) /\
    files `prefix_of` ((fun b => default [] (write_single_bank mem b)) <$> banks).
Proof.
  induction banks as [|b banks IH]; intros Ht (b' & Hb' & Ho); [by apply not_elem_of_nil in Hb'|].
  cbn [write_banks_loop]. destruct (opens b) eqn:Eo; [|exists []; split; [done|apply prefix_nil]].
  destruct (Ht b ltac:(by left)) as [text E]. rewrite fmap_cons, E. cbn [mbind option_bind default].
  destruct IH as (files & -> & Hp); [intros; apply Ht; by right| |].
  - exists b'. split; [|done]. apply elem_of_cons in Hb' as [->|]; [congruence|done].
  - exists (text :: files). split; [done|]. by apply prefix_cons.
Qed.

(** *** The files of the minimal graph *)

Lemma write_rows_app mem bank l1 l2 : write_rows mem bank (l1 ++ l2) =
  t1 ← write_rows mem bank l1; t2 ← write_rows mem bank l2; Some (t1 ++ t2).
Proof.
  induction l1 as [|r l1 IH]; cbn [app write_rows mbind option_bind].
  - by destruct (write_rows mem bank l2).
  - destruct (row_words mem bank r); [|done]. cbn [mbind option_bind]. rewrite IH.
    destruct (write_rows mem bank l1); [|done]. cbn [mbind option_bind].
    destruct (write_rows mem bank l2); [|done]. cbn. by rewrite app_assoc.
Qed.

Lemma quiet_rows mem bank rows : wf_image mem -> 0 <= bank < kNumBanks ->
  (forall a, 1024 <= a -> byte_at mem a = 0) -> Forall (fun row => 4 <= row < kRowsPerBank) rows ->
  write_rows mem bank rows = Some [].
Proof.
  intros Hm Hb Hz. induction 1 as [|r rows Hr _ IH]; [done|]. cbn [write_rows].
  destruct (row_words_spec mem bank r Hm Hb ltac:(lia)) as [-> Hw]. cbn [mbind option_bind]. rewrite IH.
  cbn [mbind option_bind]. rewrite app_nil_r. unfold row_line. rewrite value_zero; [done..|].
  unfold words_of_row. change kNumBanks with 8 in Hb. rewrite row_value_bytes.
  assert (forall l, (forall x, x ∈ l -> 1024 <= x) -> le (byte_at mem <$> l) = 0) as Hle.
  { intros l Hl. induction l as [|x l IHl]; [done|]. rewrite fmap_cons. cbn [le foldr]. fold (le (byte_at mem <$> l)).
    rewrite IHl by (intros y Hy; apply Hl; by right). by rewrite Hz by (apply Hl; by left). }
  apply Hle. intros x Hx. apply elem_of_seqZ in Hx. lia.
Qed.

Lemma first_rows mem bank : wf_image mem -> 0 <= bank < kNumBanks -> (forall a, 1024 <= a -> byte_at mem a = 0) ->
  write_single_bank mem bank = write_rows mem bank [0; 1; 2; 3].
Proof.
  intros Hm Hb Hz. unfold write_single_bank.
  assert (seqZ 0 kRowsPerBank = [0; 1; 2; 3] ++ seqZ 4 4092) as ->.
  { change kRowsPerBank with (4 + 4092). by rewrite (seqZ_app 0 4 4092) by lia. }
  rewrite write_rows_app. rewrite (quiet_rows mem bank (seqZ 4 4092)); [|done..|].
  - destruct (write_rows mem bank [0; 1; 2; 3]); [|done]. cbn. by rewrite app_nil_r.
  - apply Forall_forall. intros x Hx. apply elem_of_seqZ in Hx. change kRowsPerBank with 4096. lia.
Qed.

(** The files that are kept beside the test benches. *)
Definition lines (l : list string) : list ascii := l ≫= fun s => list_ascii_of_string s ++ [newline].

Definition bank0_file (node1 node2 : string) : list ascii :=
  lines ["@0000 0000000000000000000000000000000000000000000000000000000000010001";
         append "@0001 000000000000000000000000202000000020002000020800000082000000" node1;
         append "@0002 000000000000000000000000202000000020002000020800000082000000" node2].
Definition bank1_file : list ascii :=
  lines ["@0000 3F4CCCCD3F3333333F19999A3F0000003ECCCCCD3E99999A3E4CCCCD3DCCCCCD"].
Definition bank4_file : list ascii :=
  lines ["@0000 3ECCCCCD3EB333333E99999A3E8000003E4CCCCD3E19999A3DCCCCCD3D4CCCCD"].

Definition spm_init_files (node1 node2 : string) : list (list ascii) :=
  [bank0_file node1 node2; bank1_file; []; []; bank4_file; []; []; []].

(** What the generator makes, with the degrees of freedom [d]. *)
Definition minimal_image (d : Z) : GlobalMemorySpace :=
  default (new_memory 0) (minimal_graph d (new_memory kSPMBytesPerPE)).

Definition small_image (mem : GlobalMemorySpace) : bool :=
  (mem_size mem =? kSPMBytesPerPE) &&
  bool_decide (map_Forall (fun a v => a < 1024 /\ 0 <= v < 256) (mem_bytes mem)).

Lemma small_image_spec mem : small_image mem = true ->
  wf_image mem /\ forall a, 1024 <= a -> byte_at mem a = 0.
Proof.
  intros [Hs%Z.eqb_eq Hb%bool_decide_eq_true]%andb_true_iff. split.
  - split; [done|]. intros a. unfold byte_at. destruct (mem_bytes mem !! a) as [v|] eqn:E; [|done].
    by destruct (Hb a v E).
  - intros a Ha. unfold byte_at. destruct (mem_bytes mem !! a) as [v|] eqn:E; [|done].
    destruct (Hb a v E). lia.
Qed.

Lemma image_files mem files : small_image mem = true ->
  mapM (fun bank => write_rows mem bank [0; 1; 2; 3]) (seqZ 0 kNumBanks) = Some files ->
  write_banks (fun _ => true) mem = Some (files, true).
Proof.
  intros [Hm Hz]%small_image_spec E. unfold write_banks.
  assert (forall b, b ∈ seqZ 0 kNumBanks -> write_single_bank mem b = write_rows mem b [0; 1; 2; 3]) as Hb.
  { intros b Hb%elem_of_seqZ. apply first_rows; [done|lia|done]. }
  rewrite write_all; [|intros b Hb'|done].
  - do 2 f_equal. revert E. generalize (seqZ 0 kNumBanks) Hb. clear. intros l Hb E.
    apply mapM_Some in E. induction E as [|b text l files E HF IH]; [done|]. rewrite fmap_cons. f_equal.
    + rewrite Hb by by left. by rewrite E.
    + apply IH. intros b' Hb'. apply Hb. by right.
  - apply elem_of_seqZ in Hb'. destruct (bank_text mem b Hm) as (text & -> & _); [lia|by eexists].
Qed.

Lemma minimal_graph_defined d : d = 2 \/ d = 3 ->
  minimal_graph d (new_memory kSPMBytesPerPE) = Some (minimal_image d).
Proof.
  unfold minimal_image. intros Hd. destruct (minimal_graph d _) eqn:E; [done|exfalso].
  destruct Hd as [->| ->]; vm_compute in E; discriminate.
Qed.

Lemma minimal_files :
  write_banks (fun _ => true) (minimal_image 2) = Some (spm_init_files "1440" "1541", true) /\
  write_banks (fun _ => true) (minimal_image 3) = Some (spm_init_files "1640" "1741", true).
Proof. split; apply image_files; vm_compute; reflexivity. Qed.

(** ** The contract *)

Lemma beat_undefined mem a d : wf_memory mem -> 0 <= a < 2 ^ 63 ->
  if decide (a + kBeatBytes <= mem_size mem)
  then read_beat mem a = None /\ write_beat mem a d = None
  else read_beat mem a = Some 0 /\ write_beat mem a d = Some mem.
Proof.
  unfold wf_memory, read_beat, write_beat, u64, kBeatBytes. norm_pow2. intros Hm Ha.
  rewrite Z.mod_small by lia. case_decide; destruct (Z.gtb_spec (a + 32) (mem_size mem)); (done || lia).
Qed.

(** C17 (roundtrip).  A node that is packed at an address is found there again by the bit fields the
    comments draw, all of it and nothing else in memory changed: with [factor_graph_layout.hpp] the
    base addresses are page numbers (byte addresses without their 12 low bits), with
    [simple_graph_generator.hpp] the low 20 bits of what it is given, so that the two headers do
    not make the same node of the same arguments.  Words are safe anywhere; the accesses of a
    beat, 32 bytes through a variable of 8, are undefined wherever they are inside the memory. *)
Theorem node_round_trip mem a n :
  wf_memory mem -> 0 <= a -> a + 20 <= mem_size mem -> wf_node n ->
  (exists mem', layout_write_meta_node mem a n = Some mem' /\ node_at (fun b => b / 4096) mem' a n /\
     mem_size mem' = mem_size mem /\ forall x, ~ a <= x < a + 20 -> byte_at mem' x = byte_at mem x) /\
  (exists mem', write_meta_node mem a n = Some mem' /\ node_at (fun b => b mod 2 ^ 20) mem' a n /\
     mem_size mem' = mem_size mem /\ forall x, ~ a <= x < a + 20 -> byte_at mem' x = byte_at mem x) /\
  (forall b d, 0 <= b < 2 ^ 63 ->
     if decide (b + kBeatBytes <= mem_size mem)
     then read_beat mem b = None /\ write_beat mem b d = None
     else read_beat mem b = Some 0 /\ write_beat mem b d = Some mem).
Proof.
  intros Hm Ha Hs Hn. split_and!.
  - apply write_node_spec; try done.
    + unfold is_u32. intros b Hb. Z.to_euclidean_division_equations. lia.
    + apply layout_base_sum; apply Hn.
    + apply layout_base_sum; apply Hn.
  - apply write_node_spec; try done.
    + intros b _. by apply Z.mod_pos_bound.
    + apply generator_base_sum; apply Hn.
    + apply generator_base_sum; apply Hn.
  - intros b d Hb. by apply beat_undefined.
Qed.

Definition example_node : meta_node :=
  {| txn_id := 0x40; is_factor := true; dofs := 6; adj_count := 8; state_base_addr := 0x12345678;
     state_bank_hint := 1; message_base_addr := 0x9ABCD; message_bank_hint := 4; state_xfer_bytes := 160;
     message_xfer_bytes := 32; state_step_bytes := 16; message_step_bytes := 8 |}.

(** The two headers keep [0x12345] and [0x45678] of one address. *)
Lemma node_round_trip_witness :
  (exists mem, layout_write_meta_node (new_memory kSPMBytesPerPE) 64 example_node = Some mem /\
     node_at (fun b => b / 4096) mem 64 example_node /\ (word ← read_word mem 68; Some (slice word 12 20)) = Some 0x12345) /\
  (exists mem, write_meta_node (new_memory kSPMBytesPerPE) 64 example_node = Some mem /\
     node_at (fun b => b mod 2 ^ 20) mem 64 example_node /\
     (word ← read_word mem 68; Some (slice word 12 20)) = Some 0x45678).
Proof.
  destruct (node_round_trip (new_memory kSPMBytesPerPE) 64 example_node) as ((m1 & E1 & H1 & _) & (m2 & E2 & H2 & _) & _).
  - split; [discriminate|reflexivity].
  - lia.
  - vm_compute. discriminate.
  - constructor; simpl; unfold is_u32; lia.
  - split.
    + exists m1. split; [exact E1|]. split; [exact H1|]. destruct H1 as (w0 & w1 & ? & ? & ? & Hf & _ & E & _).
      change (64 + 4) with 68 in E. rewrite E. destruct Hf as (_ & _ & _ & _ & Hf & _). cbn. f_equal. exact Hf.
    + exists m2. split; [exact E2|]. split; [exact H2|]. destruct H2 as (w0 & w1 & ? & ? & ? & Hf & _ & E & _).
      change (64 + 4) with 68 in E. rewrite E. destruct Hf as (_ & _ & _ & _ & Hf & _). cbn. f_equal. exact Hf.
Defined.

(** C18 (functional).  The bank files hold the memory: for any image of the size of a scratch pad eight
    texts are written, and what [$readmemh] reads of them has every byte of the image in the bank
    and row of its address, at its place in the row; if a file cannot be opened the call says so
    and has written the files before it.  For the minimal graph the texts are the
    [spm_init_bank] files kept with the benches, in every digit but one: these say three degrees of
    freedom for the two nodes, and the generator writes two. *)
Theorem bank_files_hold_memory :
  (forall mem, wf_image mem ->
     exists files,
       (forall opens, (forall b, 0 <= b < kNumBanks -> opens b = true) ->
          write_banks opens mem = Some (files, true)) /\
       (forall opens, (exists b, 0 <= b < kNumBanks /\ opens b = false) ->
          exists written, write_banks opens mem = Some (written, false) /\ written `prefix_of` files) /\
       forall a, 0 <= a < kSPMBytesPerPE ->
         exists text, files !! Z.to_nat (addr_to_bank a) = Some text /\
           slice (default 0 (readmemh text !! addr_to_row a)) (8 * (a mod kBeatBytes)) 8 = byte_at mem a) /\
  (forall bank row, 0 <= bank < kNumBanks -> 0 <= row < kRowsPerBank ->
     addr_to_bank (bank_row_to_addr bank row) = bank /\ addr_to_row (bank_row_to_addr bank row) = row) /\
  (exists mem, generate_minimal_variable_graph (new_memory kSPMBytesPerPE) = Some mem /\
     write_banks (fun _ => true) mem = Some (spm_init_files "1440" "1541", true)) /\
  (exists mem, minimal_graph 3 (new_memory kSPMBytesPerPE) = Some mem /\
     write_banks (fun _ => true) mem = Some (spm_init_files "1640" "1741", true)).
Proof.
  destruct minimal_files as [E2 E3]. split_and!.
  - intros mem Hm. exists ((fun b => default [] (write_single_bank mem b)) <$> seqZ 0 kNumBanks).
    assert (forall b, b ∈ seqZ 0 kNumBanks -> is_Some (write_single_bank mem b)) as Ht.
    { intros b Hb%elem_of_seqZ. destruct (bank_text mem b Hm) as (text & -> & _); [lia|by eexists]. }
    split_and!.
    + intros opens Ho. apply write_all; [done|]. intros b Hb%elem_of_seqZ. apply Ho. lia.
    + intros opens (b & Hb & Ho). apply write_some; [done|]. exists b. split; [|done]. apply elem_of_seqZ. lia.
    + intros a Ha. destruct (map_address a Ha) as (Hb & Hr & _).
      destruct (bank_text mem _ Hm Hb) as (text & E & Hrows). exists text. split.
      * rewrite list_lookup_fmap, (proj2 (lookup_seqZ 0 kNumBanks _ (addr_to_bank a))) by lia. cbn. by rewrite E.
      * rewrite Hrows by done. by apply byte_in_row.
  - apply address_map.
  - exists (minimal_image 2). split; [by apply minimal_graph_defined; left|exact E2].
  - exists (minimal_image 3). split; [by apply minimal_graph_defined; right|exact E3].
Qed.

(** The first graph coordinate of the state, 0.1, as the bank holds it. *)
Lemma bank_files_hold_memory_witness :
  exists files, write_banks (fun _ => true) (minimal_image 2) = Some (files, true) /\
    exists text, files !! 1%nat = Some text /\ slice (default 0 (readmemh text !! 0)) 0 8 = byte_at (minimal_image 2) 32.
Proof.
  destruct (small_image_spec (minimal_image 2)) as [Hm _]; [vm_compute; reflexivity|].
  destruct (proj1 bank_files_hold_memory _ Hm) as (files & Hf & _ & Hbytes).
  exists files. split; [apply Hf; reflexivity|]. apply (Hbytes 32). split; [discriminate|reflexivity].
Defined.
