(* ===== verification/Quicksort.v ===== *)
(** * [spmd/quicksort] and [spmd/quicksort_by4]

    The two programs share [quicksort], which partitions into the scratch array [local_lst],
    copies back and recurses on both sides.  The array is a list, a sub-array a start index
    into it; indices are [nat] (no index or count of the program goes below 0, which the
    proofs show: [back] stays above [front]).  [Failed] is [bsg_fail]; [NoFuel] the model
    running out of fuel, excluded by the theorems. *)

From Stdlib Require Import Sorting.Sorted Sorting.Permutation.
From S2P Require Import Prelude.
Local Open Scope Z_scope.

Inductive qresult : Type :=
| Returned (arr local_lst : list Z)
| Failed
| NoFuel.

(** [for (int i = 1; i < n; i++)]: [k] rounds are left. *)
Fixpoint partition_loop (k i : nat) (lst : list Z) (center : Z) (front back : nat)
    (local_lst : list Z) : nat * nat * list Z :=
  match k with
  | O => (front, back, local_lst)
  | S k =>
      let temp := nth i lst 0 in
      if temp >=? center then
        partition_loop k (S i) lst center front (back - 1) (<[back := temp]> local_lst)
      else
        partition_loop k (S i) lst center (S front) back (<[front := temp]> local_lst)
  end.

(** [for (int i = 0; i < n; i++) lst[i] = local_lst[i];], [lst] starting at [lo] in [arr]. *)
Fixpoint copy_loop (k i lo : nat) (local_lst arr : list Z) : list Z :=
  match k with
  | O => arr
  | S k => copy_loop k (S i) lo local_lst (<[(lo + i)%nat := nth i local_lst 0]> arr)
  end.

Fixpoint quicksort (fuel : nat) (arr local_lst : list Z) (lo n : nat) : qresult :=
  match fuel with
  | O => NoFuel
  | S fuel =>
      if (n =? 1)%nat then Returned arr local_lst else
      let lst := drop lo arr in
      let center := nth 0 lst 0 in
      let '(front, back, local_lst) := partition_loop (n - 1) 1 lst center 0 (n - 1) local_lst in
      if (back =? front)%nat then
        let local_lst := <[back := center]> local_lst in
        let arr := copy_loop n 0 lo local_lst arr in
        let r := if negb (front =? 0)%nat then quicksort fuel arr local_lst lo front
                 else Returned arr local_lst in
        match r with
        | Returned arr local_lst =>
            if negb (back =? n - 1)%nat then
              quicksort fuel arr local_lst (lo + (back + 1)) (n - 1 - back)
            else Returned arr local_lst
        | r => r
        end
      else Failed
  end.

(** The check of [main]: every element at most the next, and the sum (an [int]). *)
Fixpoint check_loop (k i : nat) (arr : list Z) (sum : Z) : option Z :=
  match k with
  | O => Some sum
  | S k =>
      let sum := i32 (sum + nth (i + 1) arr 0) in
      if nth i arr 0 >? nth (i + 1) arr 0 then None else check_loop k (S i) arr sum
  end.

(** [main] of one tile: whether it reaches the last barrier. *)
Definition main_passes (NUM_DATA : nat) (data local_lst : list Z) (ANSWER : Z) : option bool :=
  match quicksort NUM_DATA data local_lst 0 NUM_DATA with
  | Returned arr _ =>
      Some (match check_loop (NUM_DATA - 1) 0 arr (nth 0 arr 0) with
            | Some sum => sum =? ANSWER
            | None => false
            end)
  | Failed => Some false
  | NoFuel => None
  end.

Definition data : list Z :=
  [78113; 17198; 14782; 16082; 9277; 85314; 16469; 30084;
   52569; 37570; 38166; 67932; 58458; 53102; 75867; 96332;
   842; 70077; 62479; 39741; 89951; 35239; 66788; 82916;
   37515; 2778; 57651; 22652; 18587; 70651; 70152; 25686;
   30002; 89551; 15633; 87965; 88199; 76903; 64265; 84150;
   39286; 46186; 39684; 45319; 79187; 24765; 87722; 28434;
   22963; 29593; 45248; 58904; 74658; 85106; 69356; 81062;
   95151; 14849; 71309; 91866; 27618; 92831; 70993; 82279;
   69459; 49125; 65084; 56782; 13365; 52947; 29800; 36505;
   44389; 15180; 7282; 8842; 28547; 16757; 88223; 55053;
   78651; 11918; 48023; 56872; 65456; 79328; 22877; 77421;
   66976; 95917; 76287; 63778; 42452; 34856; 96273; 66728;
   27939; 82898; 23122; 33035; 40497; 99457; 10580; 96097;
   77039; 18125; 48743; 81845; 19005; 67238; 273; 33233;
   65641; 68438; 74165; 46283; 7831; 43678; 75323; 23181;
   97566; 89398; 10363; 71153; 48189; 99549; 43076; 64207;
   21768; 17813; 95298; 30769; 5252; 40953; 44843; 28675;
   86053; 65200; 23326; 12098; 49032; 10877; 42054; 78334;
   24958; 17408; 15892; 46539; 77529; 53855; 37170; 66949;
   62694; 84726; 37608; 97063; 1273; 86878; 56877; 58631;
   74808; 81716; 85051; 77593; 27137; 2514; 12958; 18107;
   69421; 48515; 93339; 79173; 43744; 50788; 81895; 50167;
   96780; 83471; 10890; 76593; 10634; 60349; 71441; 71063;
   78443; 1260; 5639; 98513; 45697; 58424; 93919; 99756;
   75990; 10075; 27239; 9225; 63233; 66448; 41648; 93934;
   49807; 2790; 91247; 9263; 26127; 53064; 52455; 37274;
   91995; 74436; 32544; 44229; 60084; 11431; 26025; 23566;
   72647; 94843; 16033; 73780; 81815; 37831; 74525; 22679;
   79412; 53942; 40179; 7432; 28444; 70789; 70390; 20765;
   73822; 86329; 55946; 89120; 22523; 64467; 41163; 85592;
   39180; 47204; 67812; 4571; 2676; 87981; 66139; 2665;
   92952; 11268; 53841; 67890; 82685; 80028; 10386; 3746;
   49908; 99359; 19322; 34847; 90853; 47484; 18332; 22639;
   85879; 12173; 2334; 86230; 16508; 65385; 27103; 84099;
   49230; 31059; 39969; 43756; 48062; 10913; 65686; 67907;
   81631; 77511; 25472; 1774; 66557; 81673; 10316; 28922;
   59837; 36893; 32022; 2347; 61472; 60362; 1486; 92313;
   166; 75476; 44272; 73677; 67973; 62160; 78252; 93786;
   4101; 69739; 70710; 30313; 16160; 73656; 89928; 5320;
   40175; 59055; 76473; 62995; 41856; 39906; 31200; 30741;
   14244; 3906; 17403; 39717; 19464; 30302; 13311; 80040;
   57594; 57083; 96702; 66238; 87907; 18196; 28452; 47996;
   22544; 35808; 27085; 96186; 19619; 68531; 86956; 64498;
   57085; 80610; 46467; 67389; 69225; 26929; 8870; 88386;
   56471; 3062; 74096; 55261; 35798; 8064; 12270; 98332;
   23145; 10384; 5833; 84471; 92980; 80123; 36850; 2998;
   31652; 98284; 16159; 91214; 36948; 3682; 46988; 66781;
   19136; 54314; 56777; 34878; 61933; 84906; 56563; 82918;
   52065; 47415; 29220; 71075; 39498; 4093; 30113; 43433;
   45136; 67869; 21036; 5986; 88867; 20127; 41613; 98885;
   3178; 61677; 3532; 44181; 75810; 63667; 77713; 28523;
   9235; 22837; 64513; 14721; 94931; 25626; 79552; 8319;
   19069; 71807; 43160; 68601; 29562; 86803; 23963; 1486;
   41701; 97240; 17101; 17868; 44303; 39841; 69142; 4737;
   18463; 77554; 36792; 18540; 59552; 34264; 10589; 49596;
   36977; 82673; 23666; 45733; 73210; 70394; 51701; 2359;
   76012; 98294; 40357; 47529; 25404; 80404; 6820; 77154;
   21928; 20807; 69809; 12057; 99611; 63614; 10286; 29264;
   48843; 89979; 49130; 47837; 91327; 7789; 34371; 99153;
   77359; 31108; 94256; 60328; 24695; 151; 70513; 26519;
   15626; 63708; 47553; 38241; 24488; 82810; 76909; 78966;
   66993; 18830; 35834; 62145; 67260; 4879; 31055; 16615;
   16954; 33938; 49585; 77979; 28119; 82896; 27965; 40909;
   3767; 33851; 67335; 86309; 92744; 53379; 21082; 18900].

Definition ANSWER : Z := 25247145.

Definition data_by4 : list Z :=
  [78113; 17198; 14782; 16082; 9277; 85314; 16469; 30084;
   52569; 37570; 38166; 67932; 58458; 53102; 75867; 96332;
   842; 70077; 62479; 39741; 89951; 35239; 66788; 82916;
   37515; 2778; 57651; 22652; 18587; 70651; 70152; 25686;
   30002; 89551; 15633; 87965; 88199; 76903; 64265; 84150;
   39286; 46186; 39684; 45319; 79187; 24765; 87722; 28434;
   22963; 29593; 45248; 58904; 74658; 85106; 69356; 81062;
   95151; 14849; 71309; 91866; 27618; 92831; 70993; 82279;
   69459; 49125; 65084; 56782; 13365; 52947; 29800; 36505;
   44389; 15180; 7282; 8842; 28547; 16757; 88223; 55053;
   78651; 11918; 48023; 56872; 65456; 79328; 22877; 77421;
   66976; 95917; 76287; 63778; 42452; 34856; 96273; 66728;
   27939; 82898; 23122; 33035; 40497; 99457; 10580; 96097;
   77039; 18125; 48743; 81845; 19005; 67238; 273; 33233;
   65641; 68438; 74165; 46283; 7831; 43678; 75323; 23181;
   97566; 89398; 10363; 71153; 48189; 99549; 43076; 64207].

Definition ANSWER_by4 : Z := 6750377.

(** ** The partition *)

(** After the loop: the smaller elements in order from the front, the others from the back. *)
Lemma partition_loop_spec k i lst center mid (ls rs rest : list Z) :
  (i + k <= length lst)%nat -> length mid = S k ->
  exists ls' m rs',
    partition_loop k i lst center (length ls) (length ls + k) (ls ++ mid ++ rs ++ rest) =
      (length ls', length ls', ls' ++ [m] ++ rs' ++ rest) /\
    ls' ++ rs' ≡ₚ ls ++ rs ++ take k (drop i lst) /\
    (length ls' + length rs' = length ls + length rs + k)%nat /\
    (Forall (fun x => x < center) ls -> Forall (fun x => x < center) ls') /\
    (Forall (fun x => center <= x) rs -> Forall (fun x => center <= x) rs').
Proof.
  revert i mid ls rs. induction k as [|k IH]; intros i mid ls rs Hi Hmid.
  - destruct mid as [|m [|? ?]]; try done. exists ls, m, rs.
    rewrite Nat.add_0_r. simpl. rewrite app_nil_r.
    repeat split; (done || lia).
  - cbn [partition_loop].
    destruct (lookup_lt_is_Some_2 lst i) as [x Hx]; [lia|].
    rewrite (nth_lookup_Some _ _ _ _ Hx). rewrite (drop_S _ _ _ Hx).
    rewrite Z.geb_leb. destruct (Z.leb_spec center x).
    + destruct (exists_last (l := mid)) as (mid' & m & ->); [by destruct mid|].
      rewrite length_app in Hmid. simpl in Hmid.
      replace (length ls + S k - 1)%nat with (length ls + k)%nat by lia.
      rewrite insert_app_r_alt by lia.
      replace (length ls + S k - length ls)%nat with (length mid') by lia.
      rewrite <-app_assoc, insert_app_r_alt, Nat.sub_diag by lia. simpl.
      destruct (IH (S i) mid' ls (x :: rs)) as (ls' & m' & rs' & E & HP & Hl & H1 & H2); [lia|lia|].
      exists ls', m', rs'. simpl in E. rewrite E. split; [done|]. split; [|split; [simpl in *; lia|]].
      * rewrite HP. apply Permutation_app_head. simpl. apply Permutation_middle.
      * split; [done|]. intros HF. apply H2. by constructor.
    + destruct mid as [|m mid]; [done|]. simpl in Hmid.
      rewrite insert_app_r_alt, Nat.sub_diag by lia. simpl.
      destruct (IH (S i) mid (ls ++ [x]) rs) as (ls' & m' & rs' & E & HP & Hl & H1 & H2); [lia|lia|].
      rewrite length_app in E. simpl in E. exists ls', m', rs'.
      replace (S (length ls)) with (length ls + 1)%nat by lia.
      replace (length ls + S k)%nat with (length ls + 1 + k)%nat by lia.
      rewrite <-app_assoc in E. simpl in E. rewrite E. split; [done|]. split; [|split].
      * rewrite HP, <-app_assoc. apply Permutation_app_head. simpl. apply Permutation_middle.
      * rewrite length_app in Hl. simpl in Hl. lia.
      * split; [|done]. intros HF. apply H1. apply Forall_app. split; [done|by constructor].
Qed.

Lemma copy_loop_spec k i lo local_lst pre old post :
  length pre = (lo + i)%nat -> length old = k -> (i + k <= length local_lst)%nat ->
  copy_loop k i lo local_lst (pre ++ old ++ post) = pre ++ take k (drop i local_lst) ++ post.
Proof.
  revert i pre old. induction k as [|k IH]; intros i pre old Hpre Hold Hl; simpl.
  - by destruct old.
  - destruct old as [|x old]; [done|]. simpl in Hold.
    destruct (lookup_lt_is_Some_2 local_lst i) as [y Hy]; [lia|].
    rewrite (nth_lookup_Some _ _ _ _ Hy), (drop_S _ _ _ Hy).
    rewrite insert_app_r_alt by lia. replace (lo + i - length pre)%nat with 0%nat by lia. simpl.
    specialize (IH (S i) (pre ++ [y]) old). rewrite <-!app_assoc in IH. simpl in IH.
    apply IH; [rewrite length_app; simpl; lia|lia|lia].
Qed.

(** ** The recursion *)

(** [quicksort] on the [n] elements at [lo]: only they change, they end up sorted, and the
    scratch array keeps its length. *)
Definition sorts (pre seg post local_lst : list Z) (r : qresult) : Prop :=
  exists seg' local', r = Returned (pre ++ seg' ++ post) local' /\
    seg' ≡ₚ seg /\ Sorted Z.le seg' /\ length local' = length local_lst.

(** Joining the two sorted sides around the pivot. *)
Lemma sorted_join ls m rs :
  Sorted Z.le ls -> Sorted Z.le rs -> Forall (fun x => x < m) ls -> Forall (fun x => m <= x) rs ->
  Sorted Z.le (ls ++ m :: rs).
Proof.
  intros Hl Hr HFl HFr. apply StronglySorted_Sorted.
  apply Sorted_StronglySorted in Hl, Hr; try (intros ???; lia).
  induction Hl as [|x ls Hl IH Hx]; simpl.
  - constructor; [done|]. done.
  - apply Forall_cons in HFl as [Hxm HFl]. constructor; [by apply IH|].
    apply Forall_app. split; [done|]. constructor; [lia|].
    eapply Forall_impl; [exact HFr|]. simpl. lia.
Qed.

Lemma partition_top c tl post mid rest :
  length mid = S (length tl) ->
  exists ls m rs,
    partition_loop (length tl) 1 (c :: tl ++ post) c 0 (length tl) (mid ++ rest) =
      (length ls, length ls, ls ++ [m] ++ rs ++ rest) /\
    ls ++ rs ≡ₚ tl /\ (length ls + length rs = length tl)%nat /\
    Forall (fun x => x < c) ls /\ Forall (fun x => c <= x) rs.
Proof.
  intros Hmid.
  destruct (partition_loop_spec (length tl) 1 (c :: tl ++ post) c mid [] [] rest)
    as (ls & m & rs & E & HP & Hl & HFl & HFr); [simpl; rewrite length_app; lia|done|].
  exists ls, m, rs. simpl in *. rewrite E. rewrite drop_0, take_app_length in HP.
  split_and!; auto.
Qed.

Lemma quicksort_spec fuel pre seg post local_lst :
  (1 <= length seg <= fuel)%nat -> (length seg <= length local_lst)%nat ->
  sorts pre seg post local_lst
    (quicksort fuel (pre ++ seg ++ post) local_lst (length pre) (length seg)).
Proof.
  revert pre seg post local_lst. induction fuel as [|fuel IH]; intros pre seg post lcl Hf Hlcl; [lia|].
  assert (forall pre seg post lcl, (length seg <= fuel)%nat -> (length seg <= length lcl)%nat ->
    sorts pre seg post lcl
      (if negb (length seg =? 0)%nat
       then quicksort fuel (pre ++ seg ++ post) lcl (length pre) (length seg)
       else Returned (pre ++ seg ++ post) lcl)) as Hrec.
  { intros pre' seg' post' lcl' Hf' Hlcl'. destruct seg' as [|x seg'].
    - exists [], lcl'. repeat split; auto.
    - apply IH; [simpl in *; lia|done]. }
  clear IH. destruct seg as [|c tl]; [simpl in *; lia|]. cbn [quicksort].
  destruct (Nat.eqb_spec (length (c :: tl)) 1) as [H1|H1].
  { destruct tl; [|done]. exists [c], lcl. repeat split; auto. }
  rewrite drop_app_length.
  replace (length (c :: tl) - 1)%nat with (length tl) by (simpl; lia).
  cbn [nth app]. simpl in Hlcl, Hf, H1.
  assert (exists mid rest, lcl = mid ++ rest /\ length mid = S (length tl)) as (mid & rest & -> & Hmid).
  { exists (take (S (length tl)) lcl), (drop (S (length tl)) lcl).
    rewrite take_drop, length_take. split; [done|lia]. }
  destruct (partition_top c tl post mid rest Hmid) as (ls & m & rs & -> & HP & Hl & HFl & HFr).
  rewrite Nat.eqb_refl.
  rewrite insert_app_r_alt, Nat.sub_diag by lia. cbn [list_insert insert app].
  change (pre ++ c :: tl ++ post) with (pre ++ (c :: tl) ++ post).
  rewrite copy_loop_spec; [|lia|done|rewrite !length_app; simpl; rewrite length_app; lia].
  rewrite drop_0.
  set (lcl1 := ls ++ c :: rs ++ rest).
  assert (length lcl1 = length (mid ++ rest)) as Hlcl1
    by (subst lcl1; rewrite !length_app in *; simpl; rewrite !length_app; lia).
  assert (pre ++ take (length (c :: tl)) lcl1 ++ post = pre ++ ls ++ c :: rs ++ post) as ->.
  { subst lcl1. replace (ls ++ c :: rs ++ rest) with ((ls ++ c :: rs) ++ rest)
      by (by rewrite <-app_assoc).
    rewrite take_app_length' by (rewrite length_app; simpl; lia). by rewrite <-!app_assoc. }
  destruct (Hrec pre ls (c :: rs ++ post) lcl1) as (ls' & lcl2 & -> & HPl & HSl & Hlcl2);
    [lia|rewrite Hlcl1, length_app; lia|].
  destruct (Hrec (pre ++ ls' ++ [c]) rs post lcl2) as (rs' & lcl3 & E & HPr & HSr & Hlcl3);
    [lia|rewrite Hlcl2, Hlcl1, length_app; lia|].
  apply Permutation_length in HPl as Hll.
  replace (length pre + (length ls + 1))%nat with (length (pre ++ ls' ++ [c]))
    by (rewrite !length_app; simpl; lia).
  replace (length tl - length ls)%nat with (length rs) by lia.
  replace (length ls =? length tl)%nat with (length rs =? 0)%nat
    by (apply eq_true_iff_eq; rewrite !Nat.eqb_eq; lia).
  replace (pre ++ ls' ++ c :: rs ++ post) with ((pre ++ ls' ++ [c]) ++ rs ++ post)
    by (by rewrite <-!app_assoc).
  rewrite E. exists (ls' ++ c :: rs'), lcl3. split_and!.
  - by rewrite <-!app_assoc.
  - rewrite HPl, HPr, <-HP. symmetry. apply Permutation_middle.
  - apply sorted_join; [done|done| |]; eapply Forall_Permutation; try eassumption; try done.
    all: by symmetry.
  - congruence.
Qed.

(** [quicksort] on any array of at least one element, with a scratch array
    as long: it returns (never [bsg_fail]; one level of recursion per element is enough) with
    the same elements in non-decreasing order, and sorts a sub-array without touching the
    rest. *)
Lemma quicksort_sorts pre seg post local_lst fuel :
  (1 <= length seg <= fuel)%nat -> (length seg <= length local_lst)%nat ->
  exists seg' local',
    quicksort fuel (pre ++ seg ++ post) local_lst (length pre) (length seg) =
      Returned (pre ++ seg' ++ post) local' /\
    seg' ≡ₚ seg /\ Sorted Z.le seg'.
Proof.
  intros Hf Hl. destruct (quicksort_spec fuel pre seg post local_lst Hf Hl)
    as (seg' & local' & E & HP & HS & _). eauto.
Qed.

Lemma Sorted_drop i arr : Sorted Z.le arr -> Sorted Z.le (drop i arr).
Proof.
  intros HS. revert i. induction HS as [|x arr HS IH Hx]; intros [|i]; simpl; auto using Sorted.
Qed.

(** The check of [main] accepts a sorted array whose elements add up to the answer. *)
Lemma check_loop_sorted k i arr sum :
  Sorted Z.le arr -> (i + k < length arr)%nat -> is_i32 sum ->
  exists s, check_loop k i arr sum = Some s /\
    s = i32 (sum + foldr Z.add 0 (take k (drop (S i) arr))).
Proof.
  intros HS. revert i sum. induction k as [|k IH]; intros i sum Hi Hs.
  - exists sum. split; [done|]. simpl. by rewrite Z.add_0_r, i32_id.
  - cbn [check_loop]. destruct (lookup_lt_is_Some_2 arr i) as [x Hx]; [lia|].
    destruct (lookup_lt_is_Some_2 arr (S i)) as [y Hy]; [lia|].
    replace (i + 1)%nat with (S i) by lia.
    rewrite (nth_lookup_Some _ _ _ _ Hx), (nth_lookup_Some _ _ _ _ Hy).
    assert (x <= y) as Hxy.
    { pose proof (Sorted_drop i arr HS) as Hd. rewrite (drop_S _ _ _ Hx), (drop_S _ _ _ Hy) in Hd.
      by inversion Hd as [|? ? _ Hh]; inversion Hh. }
    rewrite Z.gtb_ltb. destruct (Z.ltb_spec y x); [lia|].
    destruct (IH (S i) (i32 (sum + y))) as (s & E & ->); [lia|apply i32_range|].
    eexists. split; [exact E|]. rewrite (drop_S _ _ _ Hy). simpl. autorewrite with word. f_equal. lia.
Qed.

Lemma sum_permutation l l' : l ≡ₚ l' -> foldr Z.add 0 l = foldr Z.add 0 l'.
Proof. induction 1; simpl; lia. Qed.

(** [main] of either program: for any data of [n] elements it passes exactly
    when the elements add up (as an [int]) to the answer; and both programs' own data do. *)
Lemma quicksort_main_passes n data0 local_lst answer :
  (1 <= n)%nat -> length data0 = n -> (n <= length local_lst)%nat -> Forall is_i32 data0 ->
  main_passes n data0 local_lst answer =
    Some (i32 (foldr Z.add 0 data0) =? answer) /\
  main_passes 512 data (replicate 512 0) ANSWER = Some true /\
  main_passes 128 data_by4 (replicate 128 0) ANSWER_by4 = Some true.
Proof.
  intros Hn Hd Hl HF. split; [|split; vm_compute; reflexivity]. unfold main_passes.
  destruct (quicksort_spec n [] data0 [] local_lst) as (arr & lcl & E & HP & HS & _); [lia|lia|].
  rewrite !app_nil_r in E. simpl in E. rewrite Hd in E. rewrite E. f_equal.
  assert (length arr = n) as Ha by (rewrite (Permutation_length HP); done).
  assert (Forall is_i32 arr) as HFa by (by rewrite HP).
  destruct (check_loop_sorted (n - 1) 0 arr (nth 0 arr 0) HS) as (s & -> & ->); [lia| |].
  { destruct arr as [|x arr]; [simpl in Ha; lia|]. by apply Forall_cons in HFa as [? _]. }
  destruct arr as [|x arr]; [simpl in Ha; lia|]. simpl in Ha. simpl. rewrite drop_0.
  rewrite take_ge by lia. by rewrite <-(sum_permutation _ _ HP).
Qed.

(** C38 (functional).  [quicksort] on any array of at least one element, with a scratch array as
    long: it returns (never [bsg_fail]; one level of recursion per element is enough) with the same
    elements in non-decreasing order, and sorts a sub-array without touching the rest.  So
    [main] of either program, for any data of [n] elements, passes exactly when the elements add
    up (as an [int]) to the answer; and both programs' own data do. *)
Theorem quicksort_correct :
  (forall pre seg post local_lst fuel,
     (1 <= length seg <= fuel)%nat -> (length seg <= length local_lst)%nat ->
     exists seg' local',
       quicksort fuel (pre ++ seg ++ post) local_lst (length pre) (length seg) =
         Returned (pre ++ seg' ++ post) local' /\
       seg' ≡ₚ seg /\ Sorted Z.le seg') /\
  (forall n data0 local_lst answer,
     (1 <= n)%nat -> length data0 = n -> (n <= length local_lst)%nat -> Forall is_i32 data0 ->
     main_passes n data0 local_lst answer = Some (i32 (foldr Z.add 0 data0) =? answer)) /\
  main_passes 512 data (replicate 512 0) ANSWER = Some true /\
  main_passes 128 data_by4 (replicate 128 0) ANSWER_by4 = Some true.
Proof.
  split_and!; [exact quicksort_sorts| |vm_compute; reflexivity|vm_compute; reflexivity].
  intros. by apply quicksort_main_passes.
Qed.

Lemma quicksort_correct_witness :
  (exists seg' local',
     quicksort 5 ([99] ++ [3; 1; 3; -2; 0] ++ [7]) (replicate 5 0) 1 5 =
       Returned ([99] ++ seg' ++ [7]) local' /\
     seg' ≡ₚ [3; 1; 3; -2; 0] /\ Sorted Z.le seg') /\
  main_passes 3 [5; -7; 2147483647] [0; 0; 0] 2147483645 = Some true.
Proof.
  destruct quicksort_correct as (Hs & Hm & _). split.
  - apply (Hs [99] [3; 1; 3; -2; 0] [7] (replicate 5 0) 5%nat); simpl; lia.
  - rewrite (Hm 3%nat [5; -7; 2147483647] [0; 0; 0] 2147483645); [reflexivity|lia|done|simpl; lia|].
    repeat (constructor; [unfold is_i32; lia|]). constructor.
Defined.
